(* ===== verification/_CoqProject ===== *)
-Q . S2P
Prelude.v
Swap.v
Stack.v
Hash.v
Cache.v
CacheST.v
CacheMT.v
Decompress.v
FsState.v
Block.v
BlockOk.v
Sample.v
MdRead.v
Stream.v
Table.v
Inode.v
Dir.v
Ends.v
Stat.v
SampleTree.v
Traverse.v
LlInode.v
File.v
FileOk.v
Xattr.v
Fuse.v
Serve.v
Init.v
SampleArchive.v
System.v
Util.v
Mount.v
Walk.v
Disk.v
Ls.v
Extract.v
Ll.v
LlOk.v
LlDir.v
LlReply.v
LlMain.v
Hl.v
HlOk.v
HlMain.v
Bits.v
Inflate.v
Tinfl.v
Huffman.v
HuffTable.v
TinflRead.v
TinflCopy.v
TinflOk.v
TinflStream.v
TinflSafe.v
TinflBlock.v
TinflSample.v
Windows.v
