(* ===== verification/Prelude.v ===== *)
(** * squashfuse: verification development (root file)

    squashfuse reads SquashFS archives: a superblock, metadata in compressed blocks of at
    most 8 KiB (inodes, directories, tables), data in blocks of the archive's block size,
    the ends of files packed together in fragments.  On top of the reader there are a
    traversal, two FUSE drivers (low level: inode numbers; high level: paths) and two
    tools.  The development models the C code of the reader, the traversal, the two drivers
    and the tools, main functions included, and the inflate that the Windows port has in the
    place of zlib; it proves what they promise on archives that are in order and what remains
    true on archives that hold anything.

    ** How C is modelled

    - Integers are [Z]; a result of width w is written [u8] ... [u64] ([wrap w]) or
      [swrap w] where the C type is signed; a type that cannot overflow at a place is left
      alone there.
    - A function returns an [outcome]: [Ret], or a [crash], the undefined or aborting
      behaviour that the source reaches (below).  A function with an [sqfs_err] and results
      through pointers returns [result]: the results are there only on [SQFS_OK].
    - A function that reads metadata or data blocks is a computation of a monad with the
      operations of the class [FsMonad] (Block.v).  It has two instances: [M] passes an
      [sqfs_state], which is the heap of reference-counted blocks, the four caches and the
      answers that malloc will give; [O] is the reference, which reads the archive with no
      cache, no heap and no failure.  The code is written once for both.
    - malloc and calloc ask the list [mem] of answers, [true] when it is empty; theorems
      quantify over it, so each allocation may fail.
    - An object whose address is kept (block, file handle, stack slot, cache entry) is named
      by a number or [positive]; a use after free or outside an object is [MemFault].
    - A loop that is not structural takes fuel; [full_tank] is 2^80 units, as a
      binary-branching structure, more than any loop can need since it makes progress in a
      64-bit quantity.  [OutOfFuel] is excluded by the theorems, for any archive.
    - A program (System.v) is a computation of [P]: it keeps the list of the [call]s it makes
      of the system and of libfuse, with the state of the archive, and it may end early with
      a status.  The [host], a parameter, answers a call from those before it.  What the
      calls have done is read off the list: [disk_after] for files, [mount_after] for
      libfuse; [disk_laws] is what a tool relies on.
    - The compression libraries ([codec_libs]), the C library's makedev, libfuse's packing
      of directory entries and its filler are parameters; [codec_laws] and the like say what
      the code relies on, and samples instantiate them.

    ** Files

    - Prelude (this file): outcomes, errors, widths, lists, fuel, tactics.
    - Swap: swap.c, squashfs_fs.h.  Byte orders, the on-disk structures and their layout.
    - Stack: stack.c.  Hash: hash.c.
    - Cache: cache.h as a class ([CacheImpl], laws [CacheLaws]); CacheST: cache.c, the
      instance of one thread; CacheMT: cache_mt.c, threads as a step relation over slots
      with their mutexes.
    - Decompress: decompress.c, the choice and the wrappers.
    - FsState: [sqfs] (fs.h) and [sqfs_state].  Block: the part of fs.c that reads, caches
      and releases blocks.  BlockOk: the invariant [inv] (reference counts, cache entries
      that hold what the archive says) and the simulation [sim]: a run of [M] gives what the
      run of [O] gives, or an error when memory is short.  What an archive may expect of
      keys that are reused is [expectations].
    - MdRead, Stream: sqfs_md_read as the reading of a stream.  Table: table.c.
    - Inode: sqfs_inode_get, sqfs_readlink and the tables of fs.c that serve them.
    - Dir: dir.c, with [dir_on_disk] as what a well-formed directory is.
    - Ends: rules for "on any archive": [ends] and [safe].
    - Stat: stat.c and its copy in ll_inode.c.  Traverse: traverse.c.
    - LlInode: ll_inode.c, the three numberings of inodes.
    - File, FileOk: file.c, the operations and their proofs against [file_contents].
    - Xattr: xattr.c.  Fuse: the list of attribute names, the statistics and the command
      line of fuseprivate.c; Mount: its usage message and its notification pipe.
    - Init: sqfs_init_with_subdir and sqfs_destroy of fs.c.
    - System: programs and their calls.  Util: util.c.  Disk: files as the calls leave them.
    - Walk: the loop over a traversal; Ls: ls.c; Extract: extract.c.
    - Serve: what each operation gives when nothing is assumed of the archive.
    - Ll: the handlers of ll.c, opening, mounting and closing; LlOk: every request is
      answered; LlDir: listing; LlReply: the replies; LlMain: ll_main.c.
    - Hl: the handlers of hl.c; HlOk: their theorems; HlMain: its main.
    - Bits: bytes as bits.  Inflate: the format of zlib streams after RFC 1950 and RFC 1951, a
      decoder of lists of bits; it models no code, it is what the next ones are proved
      against.  Tinfl: win/tinfl.c and the wrapper of win/win_decompress.c.inc, a coroutine up
      to its first return (monad [T], state [io]).  Huffman: canonical codes; HuffTable: the
      tables that the code builds of them.  TinflRead, TinflCopy: its reading of bits and its
      writing of bytes; TinflOk: a block of codes; TinflStream: whole streams; TinflSafe: any
      input at all; TinflBlock: below the block layer; TinflSample: small streams.
    - Windows: sqfs_pread of the Windows port, which does for the reader what pread does.
    - Sample, SampleTree, SampleArchive: small archives as bytes, a toy codec and a cache, on
      which the theorems with hypotheses are applied (their [_witness]).

    The calls go: LlMain, HlMain, Ls, Extract -> Ll, Hl, Walk, Util; Ll, Hl, Walk -> Init,
    Traverse; then -> Dir, File, Xattr, Stat, Inode -> Table, MdRead ->
    Block -> Cache, Decompress, Swap; on Windows Block -> Tinfl.  A client is proved against the interface below it:
    the block layer against [CacheLaws], everything above it against [sim] and the
    reference [O].

    ** What is shown

    - Function: a read gives the bytes of the file, but for the one place where the index
      of the block list is short and the code reads outside it ([index_short], FileOk); a
      look-up finds the entry of the sorted directory, with or without the index; a path is
      walked name by name; a traversal yields every entry of the tree in order, with its
      path; an inode is decoded by its type; a structure has its members where squashfs_fs.h
      puts them; a table gives its entry; an attribute its value, and the values on the way
      are not followed; the two drivers reply what the archive holds, by number, which the
      look-up has made, and by path; squashfuse_ls prints the paths of a tree, one a line;
      squashfuse_extract makes the basic directories, files and links of an archive on the
      disk, with the targets of links cut as the code cuts them, and nothing for the rest.
    - Refinement and equivalence: the caches and the heap do not show (M against O);
      sqfs_hash_* is a finite map; the 32-bit numbering is a count of references; the block
      index skips to the same block list; the two drivers list the same; the inflate of the
      Windows port gives the data that the RFCs say, by its fast and its slow loop, with a bit
      buffer of either width; what it decodes with its tables is the canonical code, and of
      the last bytes of the input it takes none that the code word does not reach into.
    - Invariants and safety: the reference counts through every operation; threads never
      share a locked slot and always move; the handles of the drivers are those the kernel
      holds; the idle timeout ends a program when nothing is open and the last request is
      too long ago, and then only; destroy frees what its theorem lists (the table of the
      attributes is not on the list); the programs of the drivers undo, on every way out but
      those named in the theorems, what they have set up of libfuse and the blocks and caches
      of the archive, and tell a failure on the pipe.
    - Termination: metadata reads, directories, each step of a traversal, reads of files,
      and both drivers from main to the end, on any archive: each returns, or the process
      dies of something that the code does not check.  A whole traversal need not end: an
      archive whose directories hold one another has no last entry.  So the tools
      are proved on trees, with the fuel [f] of their loop enough for the tree.  The inflate
      ends on any input; past the end of the input it reads zeros, and these are no stored
      block, which is why.
    - Errors: what fails and how, down to the bytes of the superblock that are refused, with
      the places where the code does more than fail (the theorems named after an overrun, a
      confusion, a failure, and the [Crash] branches of others).

    ** Not modelled

    - libfuse: what it parses of the command line, the events of a session and its answers
      are parameters (LlMain, HlMain); the daemon is its call.
    - The generated conversions of gen_swap.sh, whose effect is [swapin_struct]; the bodies
      of the compression libraries.
    - Of the Windows port: the coroutine of tinfl.c entered anew after a return, and with it
      tinfl_decompress_mem_to_heap and tinfl_decompress_mem_to_callback, which nothing calls;
      the opening of files through the Windows API (util.c).
    - The low-level driver with several threads: cache_mt.c is modelled with its threads,
      the handlers one request at a time. *)

From Stdlib Require Export Strings.Byte.
From stdpp Require Export base numbers list gmap.
Open Scope Z_scope.

(** ** Outcomes

    A run of a C function either returns or stops the process.  The ways of
    stopping are the ones the sources can reach: an access outside an object
    ([MemFault]), a failed [assert] ([AssertFail]), the read of a union member
    other than the one stored ([BadUnion]), a division by zero ([DivByZero]), a shift
    by the width of the integer or more ([BadShift]).
    [OutOfFuel] is not a behaviour of the program: it marks a loop whose fuel was
    too small, and the termination theorems exclude it. *)
Inductive crash := MemFault | AssertFail | BadUnion | DivByZero | BadShift | OutOfFuel.

Inductive outcome (A : Type) :=
  | Ret (a : A)
  | Crash (c : crash).
Arguments Ret {A} a.
Arguments Crash {A} c.

#[export] Instance outcome_ret : MRet outcome := @Ret.
#[export] Instance outcome_bind : MBind outcome := fun A B k m =>
  match m with Ret a => k a | Crash c => Crash c end.

(** The error codes of common.h. *)
Inductive sqfs_err :=
  | SQFS_OK | SQFS_ERR | SQFS_BADFORMAT | SQFS_BADVERSION | SQFS_BADCOMP
  | SQFS_UNSUP.

#[export] Instance sqfs_err_eq_dec : EqDecision sqfs_err.
Proof. solve_decision. Defined.

(** What a function that returns an [sqfs_err] and writes its result through
    pointers gives its caller: the result when the code is [SQFS_OK], the code
    otherwise. *)
Inductive result (A : Type) :=
  | Success (a : A)
  | Failure (e : sqfs_err).
Arguments Success {A} a.
Arguments Failure {A} e.

#[export] Instance result_ret : MRet result := @Success.
#[export] Instance result_bind : MBind result := fun A B k m =>
  match m with Success a => k a | Failure e => Failure e end.

(** ** Machine integers

    [wrap w z] is the unsigned [w]-bit value of [z], [swrap w z] the signed
    one (two's complement).  [size_t], [long] and [off_t] have 64 bits. *)
Definition wrap (w z : Z) : Z := z mod 2 ^ w.
Definition swrap (w z : Z) : Z := (z + 2 ^ (w - 1)) mod 2 ^ w - 2 ^ (w - 1).

Declare Scope sqfs_scope.
Delimit Scope sqfs_scope with sqfs.
Abbreviation u8 := (wrap 8).
Abbreviation u16 := (wrap 16).
Abbreviation u32 := (wrap 32).
Abbreviation u64 := (wrap 64).
Abbreviation s16 := (swrap 16).
Abbreviation s32 := (swrap 32).
Abbreviation s64 := (swrap 64).
Abbreviation len l := (Z.of_nat (length l)).
Notation "a &&& b" := (Z.land a b) (at level 40, left associativity) : sqfs_scope.
Notation "a ||| b" := (Z.lor a b) (at level 50, left associativity) : sqfs_scope.
Open Scope sqfs_scope.

Lemma wrap_range w z : 0 <= w -> 0 <= wrap w z < 2 ^ w.
Proof. intros. apply Z.mod_pos_bound. lia. Qed.

Lemma wrap_small w z : 0 <= z < 2 ^ w -> wrap w z = z.
Proof. apply Z.mod_small. Qed.

Lemma wrap_wrap w z : wrap w (wrap w z) = wrap w z.
Proof. apply Zmod_mod. Qed.

Lemma wrap_add_l w x y : wrap w (wrap w x + y) = wrap w (x + y).
Proof. apply Zplus_mod_idemp_l. Qed.

Lemma wrap_add_r w x y : wrap w (x + wrap w y) = wrap w (x + y).
Proof. apply Zplus_mod_idemp_r. Qed.

Lemma swrap_range w z : 0 < w -> - 2 ^ (w - 1) <= swrap w z < 2 ^ (w - 1).
Proof.
  intros. unfold swrap.
  assert (2 ^ w = 2 * 2 ^ (w - 1)) as E by (rewrite <- Z.pow_succ_r; f_equal; lia).
  pose proof (Z.mod_pos_bound (z + 2 ^ (w - 1)) (2 ^ w)). lia.
Qed.

Lemma swrap_small w z :
  0 < w -> - 2 ^ (w - 1) <= z < 2 ^ (w - 1) -> swrap w z = z.
Proof.
  intros Hw Hz. unfold swrap.
  assert (2 ^ w = 2 * 2 ^ (w - 1)) by (rewrite <- Z.pow_succ_r; f_equal; lia).
  rewrite Z.mod_small; lia.
Qed.

Lemma swrap_wrap w z : swrap w (wrap w z) = swrap w z.
Proof. unfold swrap, wrap. by rewrite Zplus_mod_idemp_l. Qed.

Lemma swrap_add_wrap w x y : swrap w (wrap w x + y) = swrap w (x + y).
Proof.
  rewrite <- (swrap_wrap w (wrap w x + y)), wrap_add_l. apply swrap_wrap.
Qed.

Lemma wrap_swrap w z : wrap w (swrap w z) = wrap w z.
Proof.
  unfold wrap, swrap. rewrite Zminus_mod_idemp_l. f_equal. lia.
Qed.

Lemma swrap_add_swrap w x y : swrap w (swrap w x + y) = swrap w (x + y).
Proof.
  rewrite <- (swrap_add_wrap w (swrap w x)), wrap_swrap. apply swrap_add_wrap.
Qed.

Lemma land_ones_wrap w z : 0 <= w -> (z &&& (2 ^ w - 1)) = wrap w z.
Proof.
  intros. unfold wrap. rewrite <- Z.land_ones by lia. by rewrite Z.ones_equiv.
Qed.

Create Rewrite HintDb sqfs_int.
#[export] Hint Rewrite wrap_wrap wrap_add_l wrap_add_r swrap_wrap
  swrap_add_wrap wrap_swrap swrap_add_swrap : sqfs_int.
Ltac int_norm := autorewrite with sqfs_int in *.

(** ** Bytes and little-endian numbers *)
Definition byte_val (b : byte) : Z := Z.of_N (Byte.to_N b).
Definition byte_of (z : Z) : byte :=
  match Byte.of_N (Z.to_N (z mod 256)) with Some b => b | None => x00 end.

#[export] Instance byte_eq_dec : EqDecision byte := Byte.byte_eq_dec.
#[export] Instance byte_inhabited : Inhabited byte := populate x00.

Lemma byte_val_range b : 0 <= byte_val b < 256.
Proof.
  unfold byte_val. pose proof (Byte.to_N_bounded b). lia.
Qed.

Lemma byte_of_val b : byte_of (byte_val b) = b.
Proof.
  unfold byte_of. rewrite Z.mod_small by apply byte_val_range.
  unfold byte_val. by rewrite N2Z.id, Byte.of_to_N.
Qed.

Lemma byte_val_of z : byte_val (byte_of z) = z mod 256.
Proof.
  unfold byte_of, byte_val.
  pose proof (Z.mod_pos_bound z 256 ltac:(lia)) as Hz.
  destruct (Byte.of_N (Z.to_N (z mod 256))) as [b|] eqn:E.
  - apply Byte.to_of_N in E. rewrite E. lia.
  - apply Byte.of_N_None_iff in E. lia.
Qed.

Lemma byte_val_inj a b : byte_val a = byte_val b -> a = b.
Proof. intros E. rewrite <- (byte_of_val a), E. apply byte_of_val. Qed.

Fixpoint le_decode (bs : list byte) : Z :=
  match bs with
  | [] => 0
  | b :: bs => byte_val b + 256 * le_decode bs
  end.

Fixpoint le_encode (n : nat) (z : Z) : list byte :=
  match n with
  | O => []
  | S n => byte_of z :: le_encode n (z / 256)
  end.

Lemma le_decode_range bs : 0 <= le_decode bs < 256 ^ len bs.
Proof.
  induction bs as [|b bs IH]; cbn [le_decode length]; [done|].
  rewrite Nat2Z.inj_succ, Z.pow_succ_r by lia.
  pose proof (byte_val_range b). lia.
Qed.

Lemma le_encode_length n z : length (le_encode n z) = n.
Proof. revert z; induction n; intros z; cbn; auto. Qed.

Lemma le_decode_encode n z : le_decode (le_encode n z) = z mod 256 ^ Z.of_nat n.
Proof.
  revert z; induction n as [|n IH]; intros z; cbn [le_decode le_encode].
  - by rewrite Z.mod_1_r.
  - rewrite IH, byte_val_of, Nat2Z.inj_succ, Z.pow_succ_r by lia.
    rewrite Z.rem_mul_r by lia. lia.
Qed.

Lemma le_encode_decode bs : le_encode (length bs) (le_decode bs) = bs.
Proof.
  induction bs as [|b bs IH]; [done|].
  cbn [le_encode le_decode length]. f_equal.
  - apply byte_val_inj. rewrite byte_val_of.
    rewrite Z.mul_comm, Z_mod_plus_full, Z.mod_small; [done|apply byte_val_range].
  - rewrite Z.mul_comm, Z.div_add by lia.
    rewrite (Z.div_small (byte_val b)), Z.add_0_l by apply byte_val_range. done.
Qed.

(** ** Slices of byte arrays *)

(** The [n] bytes of [l] from offset [off], cut at the end of [l].  The
    numbers are clipped to the length before they become [nat]s. *)
Definition slice {A} (l : list A) (off n : Z) : list A :=
  take (Z.to_nat (Z.min n (len l - off))) (drop (Z.to_nat (Z.min off (len l))) l).

(** The read side of [memcpy(dst, data + off, n)]: the range must lie inside
    the object. *)
Definition mem_read {A} (l : list A) (off n : Z) : outcome (list A) :=
  if (0 <=? off) && (0 <=? n) && (off + n <=? len l)
  then Ret (slice l off n) else Crash MemFault.

Lemma slice_length {A} (l : list A) off n :
  0 <= off -> len (slice l off n) = Z.max 0 (Z.min n (len l - off)).
Proof. intros. unfold slice. rewrite length_take, length_drop. lia. Qed.

Lemma slice_full {A} (l : list A) : slice l 0 (len l) = l.
Proof.
  unfold slice. rewrite Z.min_l, (Z.min_l 0) by lia. cbn [Z.to_nat drop].
  apply take_ge. lia.
Qed.

Lemma slice_split {A} (l : list A) off a b :
  0 <= off -> 0 <= a -> 0 <= b -> off + a + b <= len l ->
  slice l off (a + b) = slice l off a ++ slice l (off + a) b.
Proof.
  intros. unfold slice.
  rewrite !Z.min_l by lia.
  replace (Z.to_nat (off + a)) with (Z.to_nat off + Z.to_nat a)%nat by lia.
  rewrite <- drop_drop, <- (take_drop (Z.to_nat a) (drop (Z.to_nat off) l)) at 1.
  rewrite Z2Nat.inj_add by lia.
  apply take_app_add'. rewrite length_take, length_drop. lia.
Qed.

Lemma mem_read_inv {A} (l bs : list A) off n :
  mem_read l off n = Ret bs ->
  0 <= off /\ 0 <= n /\ off + n <= len l /\ bs = slice l off n /\ len bs = n.
Proof.
  unfold mem_read. intros H. case_match eqn:E; simplify_eq.
  rewrite !andb_true_iff, !Z.leb_le in E. destruct E as [[??]?].
  rewrite slice_length by done. repeat split; [done..|lia].
Qed.

(** ** Tactics *)
Ltac dlia := Z.to_euclidean_division_equations; lia.

Ltac zbool :=
  repeat match goal with
  | H : context [Z.eqb ?a ?b] |- _ => destruct (Z.eqb_spec a b)
  | H : context [Z.ltb ?a ?b] |- _ => destruct (Z.ltb_spec a b)
  | H : context [Z.leb ?a ?b] |- _ => destruct (Z.leb_spec a b)
  | |- context [Z.eqb ?a ?b] => destruct (Z.eqb_spec a b)
  | |- context [Z.ltb ?a ?b] => destruct (Z.ltb_spec a b)
  | |- context [Z.leb ?a ?b] => destruct (Z.leb_spec a b)
  end; cbn [negb andb orb] in *.

Lemma mem_read_ok {A} (l : list A) off n :
  0 <= off -> 0 <= n -> off + n <= len l -> mem_read l off n = Ret (slice l off n).
Proof. intros. unfold mem_read. zbool; first [done | lia]. Qed.

(** ** The allocator

    The future answers of [malloc] and its kin, in order; once the list is used
    up every request succeeds.  [[]] is a run with no allocation failure. *)
Abbreviation mallocs := (list bool).

Definition malloc (ms : mallocs) : bool * mallocs :=
  match ms with [] => (true, []) | b :: ms => (b, ms) end.

(** ** Lists indexed by [Z] *)
Definition zlookup {A} (l : list A) (i : Z) : option A :=
  if (0 <=? i) && (i <? len l) then l !! Z.to_nat i else None.

Definition zinsert {A} (i : Z) (x : A) (l : list A) : list A :=
  if (0 <=? i) && (i <? len l) then <[Z.to_nat i := x]> l else l.

Lemma zlookup_is_Some {A} (l : list A) i :
  is_Some (zlookup l i) <-> 0 <= i < len l.
Proof.
  unfold zlookup. zbool; rewrite ?lookup_lt_is_Some; (split; [|lia]) || split;
    intros; try lia; by destruct H.
Qed.

Lemma zlookup_lookup {A} (l : list A) i :
  0 <= i -> zlookup l i = l !! Z.to_nat i.
Proof.
  intros. unfold zlookup. zbool; try done; try lia.
  symmetry. apply lookup_ge_None. lia.
Qed.

Lemma zinsert_insert {A} (l : list A) i x :
  0 <= i < len l -> zinsert i x l = <[Z.to_nat i := x]> l.
Proof. intros. unfold zinsert. zbool; done || lia. Qed.

Lemma zinsert_length {A} (l : list A) i x : length (zinsert i x l) = length l.
Proof. unfold zinsert. case_match; [apply length_insert|done]. Qed.

Lemma zlookup_zinsert_eq {A} (l : list A) i x :
  0 <= i < len l -> zlookup (zinsert i x l) i = Some x.
Proof.
  intros. rewrite zlookup_lookup, zinsert_insert by lia.
  apply list_lookup_insert_eq. lia.
Qed.

(** ** Slices of slices *)
Lemma slice_zero {A} (l : list A) k n : n <= 0 -> slice l k n = [].
Proof. intros. unfold slice. by replace (Z.to_nat (Z.min n (len l - k))) with 0%nat by lia. Qed.

Lemma slice_past {A} (l : list A) k n : len l <= k -> slice l k n = [].
Proof. intros. unfold slice. by replace (Z.to_nat (Z.min n (len l - k))) with 0%nat by lia. Qed.

(** What is beyond the end is cut. *)
Lemma slice_cut {A} (l : list A) k n m :
  0 <= k -> Z.min n (len l - k) = Z.min m (len l - k) -> slice l k n = slice l k m.
Proof. intros Hk E. unfold slice. by rewrite E. Qed.

Lemma slice_slice {A} (l : list A) off n a b :
  0 <= off -> 0 <= a -> 0 <= b -> a + b <= n -> off + n <= len l ->
  slice (slice l off n) a b = slice l (off + a) b.
Proof.
  intros. unfold slice at 1. rewrite slice_length, !Z.min_l by lia.
  unfold slice. rewrite !Z.min_l by lia.
  rewrite skipn_firstn_comm, take_take, drop_drop. f_equal; [lia|f_equal; lia].
Qed.

(** A prefix goes on with the slice behind it. *)
Lemma take_slice {A} (l : list A) a n :
  0 <= a <= len l -> 0 <= n ->
  take (Z.to_nat a) l ++ slice l a n = take (Z.to_nat (a + len (slice l a n))) l.
Proof.
  intros Ha Hn. rewrite slice_length by lia. unfold slice. rewrite (Z.min_l a) by lia.
  rewrite Z2Nat.inj_add by lia. replace (Z.max 0 (Z.min n (len l - a))) with (Z.min n (len l - a)) by lia.
  apply take_take_drop.
Qed.

Lemma slice_replicate {A} (x : A) n off m :
  0 <= off -> off + m <= Z.of_nat n -> slice (replicate n x) off m = replicate (Z.to_nat m) x.
Proof.
  intros. unfold slice. rewrite length_replicate, drop_replicate, take_replicate.
  f_equal. lia.
Qed.

(** ** C strings *)

(** The string that starts at [bs]. *)
Fixpoint c_str (bs : list byte) : list byte :=
  match bs with
  | [] => []
  | b :: bs => if bool_decide (b = x00) then [] else b :: c_str bs
  end.

(** A NUL ends it. *)
Lemma c_str_app bs rest : c_str (bs ++ x00 :: rest) = c_str bs.
Proof. induction bs as [|b bs IH]; [done|]. cbn. by rewrite IH. Qed.

(** ** Concatenations of blocks of equal size *)
Lemma slice_app_l {A} (l l' : list A) off n :
  0 <= off -> 0 <= n -> off + n <= len l -> slice (l ++ l') off n = slice l off n.
Proof.
  intros. unfold slice. rewrite length_app, !Z.min_l by lia.
  rewrite drop_app_le, take_app_le; rewrite ?length_drop; try done; lia.
Qed.

Lemma slice_app_r {A} (l l' : list A) off n :
  0 <= off -> 0 <= n -> off + n <= len l' -> slice (l ++ l') (len l + off) n = slice l' off n.
Proof.
  intros. unfold slice. rewrite length_app, !Z.min_l by lia.
  rewrite drop_app_ge by lia. f_equal. f_equal. lia.
Qed.

Lemma slice_concat {A} (blocks : list (list A)) (size : Z) i b off n :
  0 <= size -> (forall j c, (j < i)%nat -> blocks !! j = Some c -> len c = size) ->
  blocks !! i = Some b -> 0 <= off -> 0 <= n -> off + n <= len b ->
  slice (concat blocks) (Z.of_nat i * size + off) n = slice b off n.
Proof.
  intros Hs. revert i. induction blocks as [|c blocks IH]; intros i Hfull Hb Ho Hn Hlen; [done|].
  destruct i as [|i]; cbn [concat] in *.
  - injection Hb as ->. by rewrite Z.mul_0_l, slice_app_l.
  - assert (len c = size) as Hc by (apply (Hfull 0%nat); [lia|done]).
    replace (Z.of_nat (S i) * size + off) with (len c + (Z.of_nat i * size + off)) by lia.
    cbn in Hb.
    assert (Z.of_nat i * size + len b <= len (concat blocks)) as Hle.
    { assert (forall j d, (j < i)%nat -> blocks !! j = Some d -> len d = size) as Hf
        by (intros j d Hj Hd; apply (Hfull (S j)); [lia|done]).
      clear -Hf Hb Hs. revert i Hf Hb. induction blocks as [|c blocks IH]; intros i Hf Hb; [done|].
      destruct i as [|i]; cbn in *; rewrite length_app.
      - injection Hb as ->. lia.
      - specialize (Hf 0%nat c ltac:(lia) eq_refl) as Hc.
        specialize (IH i ltac:(intros j d Hj; apply (Hf (S j)); lia) Hb). lia. }
    rewrite slice_app_r by lia. apply IH; try done.
    intros j d Hj. apply (Hfull (S j)). lia.
Qed.

(** ** Fuel

    A loop without a structural measure takes a [fuel]: a number of turns that is
    built as it is used, so that a tank for [2 ^ n] turns costs nothing to make.
    The termination theorems show that [full_tank] is never used up. *)
Inductive fuel :=
  | NoFuel
  | More (next : unit -> fuel).

Fixpoint pow2_fuel (n : nat) (k : unit -> fuel) : fuel :=
  match n with
  | 0%nat => More k
  | S n => pow2_fuel n (fun _ => pow2_fuel n k)
  end.

Definition full_tank : fuel := pow2_fuel 80 (fun _ => NoFuel).

(** [f] is good for [n] turns. *)
Fixpoint lasts (f : fuel) (n : Z) : Prop :=
  n <= 0 \/ match f with NoFuel => False | More k => lasts (k tt) (n - 1) end.

Lemma lasts_le f n m : m <= n -> lasts f n -> lasts f m.
Proof.
  revert n m. induction f as [|k IH]; intros n m Hle; cbn; (intros [?|H]; [left; lia|]).
  - done.
  - right. eapply IH; [|exact H]. lia.
Qed.

Lemma lasts_more k n : lasts (k tt) n -> lasts (More k) (n + 1).
Proof. intros H. right. by replace (n + 1 - 1) with n by lia. Qed.

Lemma pow2_fuel_lasts n k m : lasts (k tt) m -> lasts (pow2_fuel n k) (2 ^ Z.of_nat n + m).
Proof.
  revert k m. induction n as [|n IH]; intros k m Hk; cbn [pow2_fuel].
  - rewrite Z.add_comm. by apply lasts_more.
  - rewrite Nat2Z.inj_succ, Z.pow_succ_r by lia.
    replace (2 * 2 ^ Z.of_nat n + m) with (2 ^ Z.of_nat n + (2 ^ Z.of_nat n + m)) by lia.
    by apply IH, IH.
Qed.

Lemma full_tank_lasts n : n <= 2 ^ 80 -> lasts full_tank n.
Proof.
  intros Hn. eapply lasts_le; [exact Hn|]. change (2 ^ 80) with (2 ^ Z.of_nat 80 + 0).
  apply pow2_fuel_lasts. by left.
Qed.

(** With turns left, the loop goes round. *)
Lemma lasts_turn f n : lasts f n -> 0 < n -> exists k, f = More k /\ lasts (k tt) (n - 1).
Proof. destruct f as [|k]; cbn; (intros [?|?] ?; [lia|]); [done|eauto]. Qed.
