(* ===== verification/Swap.v ===== *)
(** * Swap: on-disk structures and byte order

    swap.c, swap.h and the structures of squashfs_fs.h.  A structure is read as
    raw bytes and then swapped field by field (the functions gen_swap.sh
    generates from squashfs_fs.h): [OnDisk] states what a structure is on disk,
    its field widths in order and the record built from the fields, and
    [swapin_struct] reads one.  No structure of squashfs_fs.h has padding: the
    size of the C type is the sum of the widths ([disk_size]). *)
From S2P Require Import Prelude.

(** ** swap.c *)

(** The loop of the [SWAP] macro: [c] lists the bytes the loop still visits,
    from the last one down to [c[0]]. *)
Fixpoint swapin_loop (bits : Z) (c : list byte) (r : Z) : Z :=
  match c with
  | [] => r
  | ci :: c => swapin_loop bits c (wrap bits (wrap bits (Z.shiftl r 8) + byte_val ci))
  end.

(** [sqfs_swapin##BITS] on a value whose bytes in memory are [c]. *)
Definition sqfs_swapin (bits : Z) (c : list byte) : Z := swapin_loop bits (rev c) 0.

Definition sqfs_swapin16 (c : list byte) : Z := sqfs_swapin 16 c.
Definition sqfs_swapin32 (c : list byte) : Z := sqfs_swapin 32 c.
Definition sqfs_swapin64 (c : list byte) : Z := sqfs_swapin 64 c.

(** [*n = ( *n >> 8) + ( *n << 8)], stored in a [uint16_t]. *)
Definition sqfs_swap16 (n : Z) : Z := u16 (Z.shiftr n 8 + Z.shiftl n 8).

Definition SQUASHFS_MAGIC : Z := 0x73717368.
Definition SQFS_MAGIC_SWAP : Z := 0x68737173.

(** ** Structures on disk *)
Class OnDisk (A : Type) := {
  layout : list nat;
  of_fields : list Z -> option A;
  to_fields : A -> list Z;
  of_to_fields a : of_fields (to_fields a) = Some a;
  to_of_fields l a : of_fields l = Some a -> to_fields a = l;
  of_fields_total l : length l = length layout -> is_Some (of_fields l)
}.
Arguments layout A {_}.

(** Fields of the given widths, in order. *)
Fixpoint read_fields (ws : list nat) (bs : list byte) : list Z :=
  match ws with
  | [] => []
  | w :: ws => sqfs_swapin (8 * Z.of_nat w) (take w bs) :: read_fields ws (drop w bs)
  end.

Fixpoint write_fields (ws : list nat) (vs : list Z) : list byte :=
  match ws, vs with
  | w :: ws, v :: vs => le_encode w v ++ write_fields ws vs
  | _, _ => []
  end.

Definition disk_size (A : Type) `{OnDisk A} : Z := Z.of_nat (sum_list (layout A)).

(** [sqfs_swapin_<struct>] on the bytes of a structure; [to_disk] is the
    inverse, the image of the structure in the archive. *)
Definition swapin_struct {A} `{OnDisk A} (bs : list byte) : option A :=
  of_fields (read_fields (layout A) bs).
Definition to_disk {A} `{OnDisk A} (a : A) : list byte :=
  write_fields (layout A) (to_fields a).

(** Every field fits its width. *)
Definition fields_fit (ws : list nat) (vs : list Z) : Prop :=
  Forall2 (fun w v => 0 <= v < 256 ^ Z.of_nat w) ws vs.

Ltac on_disk_tac :=
  cbn; intros;
  lazymatch goal with
  | l : list Z, H : length _ = _ |- is_Some _ =>
      repeat (destruct l as [|? l]; cbn in H; [discriminate H|]);
      destruct l; [eauto | discriminate H]
  | H : _ = Some _ |- _ => repeat (case_match; try discriminate); simplify_eq; reflexivity
  | s : _ |- _ = Some ?s' =>
      constr_eq s s'; destruct s;
      repeat match goal with
      | b : ?T |- _ => lazymatch T with Z => fail | _ => destruct b end
      end; reflexivity
  end.

(** ** The structures of squashfs_fs.h *)

Record squashfs_super_block := {
  sb_s_magic : Z;
  sb_inodes : Z;
  sb_mkfs_time : Z;
  sb_block_size : Z;
  sb_fragments : Z;
  sb_compression : Z;
  sb_block_log : Z;
  sb_flags : Z;
  sb_no_ids : Z;
  sb_s_major : Z;
  sb_s_minor : Z;
  sb_root_inode : Z;
  sb_bytes_used : Z;
  sb_id_table_start : Z;
  sb_xattr_id_table_start : Z;
  sb_inode_table_start : Z;
  sb_directory_table_start : Z;
  sb_fragment_table_start : Z;
  sb_lookup_table_start : Z
}.

#[export] Instance super_block_disk : OnDisk squashfs_super_block := {|
  layout := ([4; 4; 4; 4; 4; 2; 2; 2; 2; 2; 2; 8; 8; 8; 8; 8; 8; 8; 8])%nat;
  of_fields l := match l with
    | [f0; f1; f2; f3; f4; f5; f6; f7; f8; f9; f10; f11; f12; f13; f14; f15; f16;
      f17; f18] =>
      Some (Build_squashfs_super_block f0 f1 f2 f3 f4 f5 f6 f7 f8 f9 f10 f11 f12
        f13 f14 f15 f16 f17 f18)
    | _ => None end;
  to_fields s := [sb_s_magic s; sb_inodes s; sb_mkfs_time s; sb_block_size s;
    sb_fragments s; sb_compression s; sb_block_log s; sb_flags s; sb_no_ids s;
    sb_s_major s; sb_s_minor s; sb_root_inode s; sb_bytes_used s; sb_id_table_start
    s; sb_xattr_id_table_start s; sb_inode_table_start s; sb_directory_table_start
    s; sb_fragment_table_start s; sb_lookup_table_start s];
  of_to_fields := ltac:(on_disk_tac);
  to_of_fields := ltac:(on_disk_tac);
  of_fields_total := ltac:(on_disk_tac) |}.

Record squashfs_dir_index := {
  di_index : Z;
  di_start_block : Z;
  di_size : Z
}.

#[export] Instance dir_index_disk : OnDisk squashfs_dir_index := {|
  layout := ([4; 4; 4])%nat;
  of_fields l := match l with
    | [f0; f1; f2] =>
      Some (Build_squashfs_dir_index f0 f1 f2)
    | _ => None end;
  to_fields s := [di_index s; di_start_block s; di_size s];
  of_to_fields := ltac:(on_disk_tac);
  to_of_fields := ltac:(on_disk_tac);
  of_fields_total := ltac:(on_disk_tac) |}.

Record squashfs_base_inode := {
  bi_inode_type : Z;
  bi_mode : Z;
  bi_uid : Z;
  bi_guid : Z;
  bi_mtime : Z;
  bi_inode_number : Z
}.

Definition base_layout : list nat := [2; 2; 2; 2; 4; 4]%nat.
Definition base_fields (s : squashfs_base_inode) : list Z :=
  [bi_inode_type s; bi_mode s; bi_uid s; bi_guid s; bi_mtime s; bi_inode_number s].

#[export] Instance base_inode_disk : OnDisk squashfs_base_inode := {|
  layout := base_layout;
  of_fields l := match l with
    | [f0; f1; f2; f3; f4; f5] =>
      Some (Build_squashfs_base_inode f0 f1 f2 f3 f4 f5)
    | _ => None end;
  to_fields := base_fields;
  of_to_fields := ltac:(on_disk_tac);
  to_of_fields := ltac:(on_disk_tac);
  of_fields_total := ltac:(on_disk_tac) |}.

Record squashfs_ipc_inode := {
  ipc_base : squashfs_base_inode;
  ipc_nlink : Z
}.

#[export] Instance ipc_inode_disk : OnDisk squashfs_ipc_inode := {|
  layout := (base_layout ++ [4])%nat;
  of_fields l := match l with
    | [g0; g1; g2; g3; g4; g5; f0] =>
      Some (Build_squashfs_ipc_inode (Build_squashfs_base_inode g0 g1 g2 g3 g4 g5) f0)
    | _ => None end;
  to_fields s := base_fields (s.(ipc_base)) ++ [ipc_nlink s];
  of_to_fields := ltac:(on_disk_tac);
  to_of_fields := ltac:(on_disk_tac);
  of_fields_total := ltac:(on_disk_tac) |}.

Record squashfs_lipc_inode := {
  lipc_base : squashfs_base_inode;
  lipc_nlink : Z;
  lipc_xattr : Z
}.

#[export] Instance lipc_inode_disk : OnDisk squashfs_lipc_inode := {|
  layout := (base_layout ++ [4; 4])%nat;
  of_fields l := match l with
    | [g0; g1; g2; g3; g4; g5; f0; f1] =>
      Some (Build_squashfs_lipc_inode (Build_squashfs_base_inode g0 g1 g2 g3 g4
        g5) f0 f1)
    | _ => None end;
  to_fields s := base_fields (s.(lipc_base)) ++ [lipc_nlink s; lipc_xattr s];
  of_to_fields := ltac:(on_disk_tac);
  to_of_fields := ltac:(on_disk_tac);
  of_fields_total := ltac:(on_disk_tac) |}.

Record squashfs_dev_inode := {
  dev_base : squashfs_base_inode;
  dev_nlink : Z;
  dev_rdev : Z
}.

#[export] Instance dev_inode_disk : OnDisk squashfs_dev_inode := {|
  layout := (base_layout ++ [4; 4])%nat;
  of_fields l := match l with
    | [g0; g1; g2; g3; g4; g5; f0; f1] =>
      Some (Build_squashfs_dev_inode (Build_squashfs_base_inode g0 g1 g2 g3 g4
        g5) f0 f1)
    | _ => None end;
  to_fields s := base_fields (s.(dev_base)) ++ [dev_nlink s; dev_rdev s];
  of_to_fields := ltac:(on_disk_tac);
  to_of_fields := ltac:(on_disk_tac);
  of_fields_total := ltac:(on_disk_tac) |}.

Record squashfs_ldev_inode := {
  ldev_base : squashfs_base_inode;
  ldev_nlink : Z;
  ldev_rdev : Z;
  ldev_xattr : Z
}.

#[export] Instance ldev_inode_disk : OnDisk squashfs_ldev_inode := {|
  layout := (base_layout ++ [4; 4; 4])%nat;
  of_fields l := match l with
    | [g0; g1; g2; g3; g4; g5; f0; f1; f2] =>
      Some (Build_squashfs_ldev_inode (Build_squashfs_base_inode g0 g1 g2 g3 g4
        g5) f0 f1 f2)
    | _ => None end;
  to_fields s := base_fields (s.(ldev_base)) ++ [ldev_nlink s; ldev_rdev s;
    ldev_xattr s];
  of_to_fields := ltac:(on_disk_tac);
  to_of_fields := ltac:(on_disk_tac);
  of_fields_total := ltac:(on_disk_tac) |}.

Record squashfs_symlink_inode := {
  sym_base : squashfs_base_inode;
  sym_nlink : Z;
  sym_symlink_size : Z
}.

#[export] Instance symlink_inode_disk : OnDisk squashfs_symlink_inode := {|
  layout := (base_layout ++ [4; 4])%nat;
  of_fields l := match l with
    | [g0; g1; g2; g3; g4; g5; f0; f1] =>
      Some (Build_squashfs_symlink_inode (Build_squashfs_base_inode g0 g1 g2 g3
        g4 g5) f0 f1)
    | _ => None end;
  to_fields s := base_fields (s.(sym_base)) ++ [sym_nlink s; sym_symlink_size s];
  of_to_fields := ltac:(on_disk_tac);
  to_of_fields := ltac:(on_disk_tac);
  of_fields_total := ltac:(on_disk_tac) |}.

Record squashfs_reg_inode := {
  reg_base : squashfs_base_inode;
  reg_start_block : Z;
  reg_fragment : Z;
  reg_offset : Z;
  reg_file_size : Z
}.

#[export] Instance reg_inode_disk : OnDisk squashfs_reg_inode := {|
  layout := (base_layout ++ [4; 4; 4; 4])%nat;
  of_fields l := match l with
    | [g0; g1; g2; g3; g4; g5; f0; f1; f2; f3] =>
      Some (Build_squashfs_reg_inode (Build_squashfs_base_inode g0 g1 g2 g3 g4
        g5) f0 f1 f2 f3)
    | _ => None end;
  to_fields s := base_fields (s.(reg_base)) ++ [reg_start_block s; reg_fragment
    s; reg_offset s; reg_file_size s];
  of_to_fields := ltac:(on_disk_tac);
  to_of_fields := ltac:(on_disk_tac);
  of_fields_total := ltac:(on_disk_tac) |}.

Record squashfs_lreg_inode := {
  lreg_base : squashfs_base_inode;
  lreg_start_block : Z;
  lreg_file_size : Z;
  lreg_sparse : Z;
  lreg_nlink : Z;
  lreg_fragment : Z;
  lreg_offset : Z;
  lreg_xattr : Z
}.

#[export] Instance lreg_inode_disk : OnDisk squashfs_lreg_inode := {|
  layout := (base_layout ++ [8; 8; 8; 4; 4; 4; 4])%nat;
  of_fields l := match l with
    | [g0; g1; g2; g3; g4; g5; f0; f1; f2; f3; f4; f5; f6] =>
      Some (Build_squashfs_lreg_inode (Build_squashfs_base_inode g0 g1 g2 g3 g4
        g5) f0 f1 f2 f3 f4 f5 f6)
    | _ => None end;
  to_fields s := base_fields (s.(lreg_base)) ++ [lreg_start_block s;
    lreg_file_size s; lreg_sparse s; lreg_nlink s; lreg_fragment s; lreg_offset s;
    lreg_xattr s];
  of_to_fields := ltac:(on_disk_tac);
  to_of_fields := ltac:(on_disk_tac);
  of_fields_total := ltac:(on_disk_tac) |}.

Record squashfs_dir_inode := {
  dir_base : squashfs_base_inode;
  dir_start_block : Z;
  dir_nlink : Z;
  dir_file_size : Z;
  dir_offset : Z;
  dir_parent_inode : Z
}.

#[export] Instance dir_inode_disk : OnDisk squashfs_dir_inode := {|
  layout := (base_layout ++ [4; 4; 2; 2; 4])%nat;
  of_fields l := match l with
    | [g0; g1; g2; g3; g4; g5; f0; f1; f2; f3; f4] =>
      Some (Build_squashfs_dir_inode (Build_squashfs_base_inode g0 g1 g2 g3 g4
        g5) f0 f1 f2 f3 f4)
    | _ => None end;
  to_fields s := base_fields (s.(dir_base)) ++ [dir_start_block s; dir_nlink s;
    dir_file_size s; dir_offset s; dir_parent_inode s];
  of_to_fields := ltac:(on_disk_tac);
  to_of_fields := ltac:(on_disk_tac);
  of_fields_total := ltac:(on_disk_tac) |}.

Record squashfs_ldir_inode := {
  ldir_base : squashfs_base_inode;
  ldir_nlink : Z;
  ldir_file_size : Z;
  ldir_start_block : Z;
  ldir_parent_inode : Z;
  ldir_i_count : Z;
  ldir_offset : Z;
  ldir_xattr : Z
}.

#[export] Instance ldir_inode_disk : OnDisk squashfs_ldir_inode := {|
  layout := (base_layout ++ [4; 4; 4; 4; 2; 2; 4])%nat;
  of_fields l := match l with
    | [g0; g1; g2; g3; g4; g5; f0; f1; f2; f3; f4; f5; f6] =>
      Some (Build_squashfs_ldir_inode (Build_squashfs_base_inode g0 g1 g2 g3 g4
        g5) f0 f1 f2 f3 f4 f5 f6)
    | _ => None end;
  to_fields s := base_fields (s.(ldir_base)) ++ [ldir_nlink s; ldir_file_size s;
    ldir_start_block s; ldir_parent_inode s; ldir_i_count s; ldir_offset s;
    ldir_xattr s];
  of_to_fields := ltac:(on_disk_tac);
  to_of_fields := ltac:(on_disk_tac);
  of_fields_total := ltac:(on_disk_tac) |}.

Record squashfs_dir_entry := {
  de_offset : Z;
  de_inode_number : Z;
  de_type : Z;
  de_size : Z
}.

#[export] Instance dir_entry_disk : OnDisk squashfs_dir_entry := {|
  layout := ([2; 2; 2; 2])%nat;
  of_fields l := match l with
    | [f0; f1; f2; f3] =>
      Some (Build_squashfs_dir_entry f0 f1 f2 f3)
    | _ => None end;
  to_fields s := [de_offset s; de_inode_number s; de_type s; de_size s];
  of_to_fields := ltac:(on_disk_tac);
  to_of_fields := ltac:(on_disk_tac);
  of_fields_total := ltac:(on_disk_tac) |}.

Record squashfs_dir_header := {
  dh_count : Z;
  dh_start_block : Z;
  dh_inode_number : Z
}.

#[export] Instance dir_header_disk : OnDisk squashfs_dir_header := {|
  layout := ([4; 4; 4])%nat;
  of_fields l := match l with
    | [f0; f1; f2] =>
      Some (Build_squashfs_dir_header f0 f1 f2)
    | _ => None end;
  to_fields s := [dh_count s; dh_start_block s; dh_inode_number s];
  of_to_fields := ltac:(on_disk_tac);
  to_of_fields := ltac:(on_disk_tac);
  of_fields_total := ltac:(on_disk_tac) |}.

Record squashfs_fragment_entry := {
  fe_start_block : Z;
  fe_size : Z;
  fe_unused : Z
}.

#[export] Instance fragment_entry_disk : OnDisk squashfs_fragment_entry := {|
  layout := ([8; 4; 4])%nat;
  of_fields l := match l with
    | [f0; f1; f2] =>
      Some (Build_squashfs_fragment_entry f0 f1 f2)
    | _ => None end;
  to_fields s := [fe_start_block s; fe_size s; fe_unused s];
  of_to_fields := ltac:(on_disk_tac);
  to_of_fields := ltac:(on_disk_tac);
  of_fields_total := ltac:(on_disk_tac) |}.

Record squashfs_xattr_entry := {
  xe_type : Z;
  xe_size : Z
}.

#[export] Instance xattr_entry_disk : OnDisk squashfs_xattr_entry := {|
  layout := ([2; 2])%nat;
  of_fields l := match l with
    | [f0; f1] =>
      Some (Build_squashfs_xattr_entry f0 f1)
    | _ => None end;
  to_fields s := [xe_type s; xe_size s];
  of_to_fields := ltac:(on_disk_tac);
  to_of_fields := ltac:(on_disk_tac);
  of_fields_total := ltac:(on_disk_tac) |}.

Record squashfs_xattr_val := {
  xv_vsize : Z
}.

#[export] Instance xattr_val_disk : OnDisk squashfs_xattr_val := {|
  layout := ([4])%nat;
  of_fields l := match l with
    | [f0] =>
      Some (Build_squashfs_xattr_val f0)
    | _ => None end;
  to_fields s := [xv_vsize s];
  of_to_fields := ltac:(on_disk_tac);
  to_of_fields := ltac:(on_disk_tac);
  of_fields_total := ltac:(on_disk_tac) |}.

Record squashfs_xattr_id := {
  xi_xattr : Z;
  xi_count : Z;
  xi_size : Z
}.

#[export] Instance xattr_id_disk : OnDisk squashfs_xattr_id := {|
  layout := ([8; 4; 4])%nat;
  of_fields l := match l with
    | [f0; f1; f2] =>
      Some (Build_squashfs_xattr_id f0 f1 f2)
    | _ => None end;
  to_fields s := [xi_xattr s; xi_count s; xi_size s];
  of_to_fields := ltac:(on_disk_tac);
  to_of_fields := ltac:(on_disk_tac);
  of_fields_total := ltac:(on_disk_tac) |}.

Record squashfs_xattr_id_table := {
  xt_xattr_table_start : Z;
  xt_xattr_ids : Z;
  xt_unused : Z
}.

#[export] Instance xattr_id_table_disk : OnDisk squashfs_xattr_id_table := {|
  layout := ([8; 4; 4])%nat;
  of_fields l := match l with
    | [f0; f1; f2] =>
      Some (Build_squashfs_xattr_id_table f0 f1 f2)
    | _ => None end;
  to_fields s := [xt_xattr_table_start s; xt_xattr_ids s; xt_unused s];
  of_to_fields := ltac:(on_disk_tac);
  to_of_fields := ltac:(on_disk_tac);
  of_fields_total := ltac:(on_disk_tac) |}.

(** ** The swap loop *)

(** The loop from accumulator [r] over the bytes [rev c] yields [r] shifted
    above the little-endian value of [c], as long as the result fits. *)
Lemma swapin_loop_spec bits c r :
  0 <= r -> (r + 1) * 256 ^ len c <= 2 ^ bits ->
  swapin_loop bits (rev c) r = r * 256 ^ len c + le_decode c.
Proof.
  revert r. induction c as [|b c IH] using rev_ind; intros r Hr Hfit.
  - cbn [rev swapin_loop length le_decode]. change (256 ^ Z.of_nat 0) with 1. lia.
  - rewrite rev_app_distr, length_app, Nat2Z.inj_add, Z.pow_add_r in * by lia.
    change (256 ^ len [b]) with 256 in *.
    cbn [rev app swapin_loop].
    pose proof (byte_val_range b) as Hb.
    assert (0 < 256 ^ len c) by (apply Z.pow_pos_nonneg; lia).
    assert (r * 256 + 256 <= 2 ^ bits) by nia.
    rewrite Z.shiftl_mul_pow2 by lia. change (2 ^ 8) with 256.
    rewrite (wrap_small bits (r * 256)) by lia.
    rewrite wrap_small by lia.
    rewrite IH by nia.
    enough (le_decode (c ++ [b]) = le_decode c + byte_val b * 256 ^ len c) by nia.
    clear. induction c as [|a c IH]; cbn [app le_decode length].
    + change (256 ^ Z.of_nat 0) with 1. lia.
    + rewrite IH, Nat2Z.inj_succ, Z.pow_succ_r by lia. lia.
Qed.

Lemma sqfs_swapin_le bits c :
  8 * len c <= bits -> sqfs_swapin bits c = le_decode c.
Proof.
  intros H. unfold sqfs_swapin. rewrite swapin_loop_spec; [lia..|].
  change 256 with (2 ^ 8). rewrite <- Z.pow_mul_r by lia.
  rewrite Z.mul_1_l. apply Z.pow_le_mono_r; lia.
Qed.

(** the byte-swapping loop of swap.c yields the little-endian value of the
    bytes in memory, whatever the byte order of the host, and the value fits the
    integer type: no bit is lost in the shifts. *)
Theorem sqfs_swapin_correct (bits : Z) (c : list byte) :
  8 * len c = bits ->
  sqfs_swapin bits c = le_decode c /\ 0 <= sqfs_swapin bits c < 2 ^ bits.
Proof.
  intros H. rewrite sqfs_swapin_le by lia. split; [done|].
  pose proof (le_decode_range c). rewrite <- H, Z.pow_mul_r by lia. done.
Qed.

Lemma sqfs_swapin_correct_witness :
  8 * len [x37; x13; xef; xbe] = 32 /\
  sqfs_swapin 32 [x37; x13; xef; xbe] = 0xbeef1337.
Proof.
  split; [reflexivity|].
  rewrite (proj1 (sqfs_swapin_correct 32 [x37; x13; xef; xbe] eq_refl)).
  reflexivity.
Defined.

(** ** Reading and writing structures *)

Lemma read_write_fields ws vs :
  fields_fit ws vs -> read_fields ws (write_fields ws vs) = vs.
Proof.
  induction 1 as [|w v ws vs Hv _ IH]; cbn [read_fields write_fields]; [done|].
  rewrite take_app_length', drop_app_length', IH by (by rewrite le_encode_length).
  f_equal. rewrite sqfs_swapin_le, le_decode_encode by (rewrite le_encode_length; lia).
  by apply Z.mod_small.
Qed.

Lemma write_read_fields ws bs :
  length bs = sum_list ws -> write_fields ws (read_fields ws bs) = bs.
Proof.
  revert bs. induction ws as [|w ws IH]; intros bs Hl; cbn in *.
  - by destruct bs.
  - assert (length (take w bs) = w) as Hw by (rewrite length_take; lia).
    rewrite sqfs_swapin_le by lia.
    rewrite IH by (rewrite length_drop; lia).
    pose proof (le_encode_decode (take w bs)) as He. rewrite Hw in He.
    rewrite He. apply take_drop.
Qed.

Lemma read_fields_fit ws bs :
  length bs = sum_list ws -> fields_fit ws (read_fields ws bs).
Proof.
  revert bs. induction ws as [|w ws IH]; intros bs Hl; cbn in *; constructor.
  - assert (length (take w bs) = w) as Hw by (rewrite length_take; lia).
    rewrite sqfs_swapin_le by lia. pose proof (le_decode_range (take w bs)).
    by rewrite Hw in *.
  - apply IH. rewrite length_drop. lia.
Qed.

Lemma read_fields_length ws bs : length (read_fields ws bs) = length ws.
Proof. revert bs. induction ws; intros; cbn; auto. Qed.

Lemma write_fields_app ws ws' vs vs' :
  length vs = length ws ->
  write_fields (ws ++ ws') (vs ++ vs') = write_fields ws vs ++ write_fields ws' vs'.
Proof.
  revert vs. induction ws as [|w ws IH]; intros [|v vs] Hl; cbn in *; try done.
  rewrite <- app_assoc, IH; [done|lia].
Qed.

Lemma write_fields_length ws vs :
  length vs = length ws -> length (write_fields ws vs) = sum_list ws.
Proof.
  revert vs. induction ws as [|w ws IH]; intros [|v vs] Hl; cbn in *; try done.
  rewrite length_app, le_encode_length, IH; lia.
Qed.

Section on_disk.
Context {A : Type} `{OnDisk A}.

Lemma swapin_struct_total (bs : list byte) : is_Some (swapin_struct (A := A) bs).
Proof. apply of_fields_total, read_fields_length. Qed.

Lemma to_fields_read (bs : list byte) (a : A) :
  swapin_struct bs = Some a -> to_fields a = read_fields (layout A) bs.
Proof. apply to_of_fields. Qed.

Lemma swapin_to_disk (a : A) :
  fields_fit (layout A) (to_fields a) -> swapin_struct (to_disk a) = Some a.
Proof.
  intros Hf. unfold swapin_struct, to_disk. rewrite read_write_fields by done.
  apply of_to_fields.
Qed.

Lemma to_disk_length (a : A) :
  fields_fit (layout A) (to_fields a) -> len (to_disk a) = disk_size A.
Proof.
  intros Hf. unfold to_disk, disk_size. rewrite write_fields_length; [done|].
  symmetry. by eapply Forall2_length.
Qed.

(** Reading a structure from exactly its size in bytes is the inverse of laying it out:
    the fields are disjoint, in order and cover every byte. *)
Lemma swapin_struct_roundtrip (bs : list byte) (a : A) :
  len bs = disk_size A ->
  swapin_struct bs = Some a <-> fields_fit (layout A) (to_fields a) /\ to_disk a = bs.
Proof.
  intros Hl%Nat2Z.inj. split.
  - intros E%to_fields_read. unfold to_disk. rewrite E.
    auto using read_fields_fit, write_read_fields.
  - intros [Hf <-]. by apply swapin_to_disk.
Qed.

(** [bs] reads as [a], and [a] written is [bs]. *)
Definition struct_at (bs : list byte) (a : A) : Prop := swapin_struct bs = Some a /\ to_disk a = bs.
End on_disk.

(** The little-endian value of the [w] bytes at [o]. *)
Definition int_at (bs : list byte) (o w : Z) : Z := le_decode (slice bs o w).

Fixpoint fields_from (bs : list byte) (o : Z) (ws : list nat) : list Z :=
  match ws with
  | [] => []
  | w :: ws => int_at bs o (Z.of_nat w) :: fields_from bs (o + Z.of_nat w) ws
  end.

Lemma read_fields_from ws bs o :
  0 <= o -> o + Z.of_nat (sum_list ws) <= len bs ->
  read_fields ws (drop (Z.to_nat o) bs) = fields_from bs o ws.
Proof.
  revert o. induction ws as [|w ws IH]; intros o Ho Hl; cbn [read_fields fields_from]; [done|].
  change (sum_list (w :: ws)) with (w + sum_list ws)%nat in Hl.
  f_equal.
  - rewrite sqfs_swapin_le by (rewrite length_take; lia). unfold int_at, slice.
    rewrite !Z.min_l by lia. by rewrite Nat2Z.id.
  - rewrite drop_drop, <- IH by lia. do 2 f_equal. lia.
Qed.

Lemma struct_reads `{OnDisk A} (bs : list byte) (a : A) :
  len bs = disk_size A -> of_fields (fields_from bs 0 (layout A)) = Some a -> struct_at bs a.
Proof.
  intros Hl E. assert (swapin_struct bs = Some a) as Es.
  { unfold swapin_struct. rewrite <- E. f_equal. rewrite <- read_fields_from; [done|lia|].
    unfold disk_size in Hl. lia. }
  split; [done|]. by apply (swapin_struct_roundtrip bs a Hl).
Qed.

(** C36: every structure of squashfs_fs.h, read from as many bytes as it has: each member is
    the little-endian value of its own bytes, at the offset and of the width that the
    declaration gives it (in a table here that is independent of the layouts of the model),
    the six members of squashfs_base_inode begin every inode, and writing the structure gives
    the bytes back.  (The code neither swaps nor looks at the member unused of a fragment
    entry, which is a number like the others here.) *)
Theorem swapin_struct_layouts (bs : list byte) :
  let f := int_at bs in
  let base := {| bi_inode_type := f 0 2; bi_mode := f 2 2; bi_uid := f 4 2; bi_guid := f 6 2;
                 bi_mtime := f 8 4; bi_inode_number := f 12 4 |} in
  (len bs = 96 -> struct_at bs {| sb_s_magic := f 0 4; sb_inodes := f 4 4; sb_mkfs_time := f 8 4;
     sb_block_size := f 12 4; sb_fragments := f 16 4; sb_compression := f 20 2;
     sb_block_log := f 22 2; sb_flags := f 24 2; sb_no_ids := f 26 2; sb_s_major := f 28 2;
     sb_s_minor := f 30 2; sb_root_inode := f 32 8; sb_bytes_used := f 40 8;
     sb_id_table_start := f 48 8; sb_xattr_id_table_start := f 56 8;
     sb_inode_table_start := f 64 8; sb_directory_table_start := f 72 8;
     sb_fragment_table_start := f 80 8; sb_lookup_table_start := f 88 8 |}) /\
  (len bs = 12 -> struct_at bs {| di_index := f 0 4; di_start_block := f 4 4; di_size := f 8 4 |}) /\
  (len bs = 16 -> struct_at bs {| bi_inode_type := f 0 2; bi_mode := f 2 2; bi_uid := f 4 2;
     bi_guid := f 6 2; bi_mtime := f 8 4; bi_inode_number := f 12 4 |}) /\
  (len bs = 20 -> struct_at bs {| ipc_base := base; ipc_nlink := f 16 4 |}) /\
  (len bs = 24 -> struct_at bs {| lipc_base := base; lipc_nlink := f 16 4; lipc_xattr := f 20 4 |}) /\
  (len bs = 24 -> struct_at bs {| dev_base := base; dev_nlink := f 16 4; dev_rdev := f 20 4 |}) /\
  (len bs = 28 -> struct_at bs {| ldev_base := base; ldev_nlink := f 16 4; ldev_rdev := f 20 4;
     ldev_xattr := f 24 4 |}) /\
  (len bs = 24 -> struct_at bs {| sym_base := base; sym_nlink := f 16 4;
     sym_symlink_size := f 20 4 |}) /\
  (len bs = 32 -> struct_at bs {| reg_base := base; reg_start_block := f 16 4; reg_fragment := f 20 4;
     reg_offset := f 24 4; reg_file_size := f 28 4 |}) /\
  (len bs = 56 -> struct_at bs {| lreg_base := base; lreg_start_block := f 16 8;
     lreg_file_size := f 24 8; lreg_sparse := f 32 8; lreg_nlink := f 40 4;
     lreg_fragment := f 44 4; lreg_offset := f 48 4; lreg_xattr := f 52 4 |}) /\
  (len bs = 32 -> struct_at bs {| dir_base := base; dir_start_block := f 16 4; dir_nlink := f 20 4;
     dir_file_size := f 24 2; dir_offset := f 26 2; dir_parent_inode := f 28 4 |}) /\
  (len bs = 40 -> struct_at bs {| ldir_base := base; ldir_nlink := f 16 4; ldir_file_size := f 20 4;
     ldir_start_block := f 24 4; ldir_parent_inode := f 28 4; ldir_i_count := f 32 2;
     ldir_offset := f 34 2; ldir_xattr := f 36 4 |}) /\
  (len bs = 8 -> struct_at bs {| de_offset := f 0 2; de_inode_number := f 2 2; de_type := f 4 2;
     de_size := f 6 2 |}) /\
  (len bs = 12 -> struct_at bs {| dh_count := f 0 4; dh_start_block := f 4 4;
     dh_inode_number := f 8 4 |}) /\
  (len bs = 16 -> struct_at bs {| fe_start_block := f 0 8; fe_size := f 8 4; fe_unused := f 12 4 |}) /\
  (len bs = 4 -> struct_at bs {| xe_type := f 0 2; xe_size := f 2 2 |}) /\
  (len bs = 4 -> struct_at bs {| xv_vsize := f 0 4 |}) /\
  (len bs = 16 -> struct_at bs {| xi_xattr := f 0 8; xi_count := f 8 4; xi_size := f 12 4 |}) /\
  (len bs = 16 -> struct_at bs {| xt_xattr_table_start := f 0 8; xt_xattr_ids := f 8 4;
     xt_unused := f 12 4 |}).
Proof. intros f base. repeat apply conj; intros Hl; (apply struct_reads; [exact Hl|reflexivity]). Qed.

Definition sample_dir_header : squashfs_dir_header :=
  Build_squashfs_dir_header 3 0x10203 (2 ^ 32 - 1).

(** A header, and an inode of a directory. *)
Lemma swapin_struct_layouts_witness :
  struct_at [x03; x00; x00; x00; x03; x02; x01; x00; xff; xff; xff; xff] sample_dir_header /\
  struct_at [x01; x00; xed; x41; x00; x00; x01; x00; x04; x03; x02; x01; x07; x00; x00; x00;
         x10; x00; x00; x00; x02; x00; x00; x00; x1b; x00; x05; x00; x08; x00; x00; x00]
    (Build_squashfs_dir_inode (Build_squashfs_base_inode 1 0x41ed 0 1 0x01020304 7) 16 2 27 5 8).
Proof.
  split.
  - destruct (swapin_struct_layouts [x03; x00; x00; x00; x03; x02; x01; x00; xff; xff; xff; xff])
      as (_ & _ & _ & _ & _ & _ & _ & _ & _ & _ & _ & _ & _ & H & _).
    exact (H eq_refl).
  - destruct (swapin_struct_layouts
      [x01; x00; xed; x41; x00; x00; x01; x00; x04; x03; x02; x01; x07; x00; x00; x00;
       x10; x00; x00; x00; x02; x00; x00; x00; x1b; x00; x05; x00; x08; x00; x00; x00])
      as (_ & _ & _ & _ & _ & _ & _ & _ & _ & _ & H & _).
    exact (H eq_refl).
Defined.

(** The sizes the sources take with [sizeof]. *)
Lemma disk_sizes :
  map Z.of_nat (map sum_list
    [layout squashfs_super_block; layout squashfs_dir_index; layout squashfs_base_inode;
     layout squashfs_reg_inode; layout squashfs_lreg_inode; layout squashfs_dir_inode;
     layout squashfs_ldir_inode; layout squashfs_dir_entry; layout squashfs_dir_header;
     layout squashfs_fragment_entry; layout squashfs_xattr_id; layout squashfs_xattr_id_table])
  = [96; 12; 16; 32; 56; 32; 40; 8; 12; 16; 16; 16].
Proof. reflexivity. Qed.

(** [sqfs_swap16] exchanges the two bytes of its argument, so it undoes
    itself: the version fields of an archive with swapped magic are read right. *)
Theorem sqfs_swap16_bytes (lo hi : byte) :
  sqfs_swap16 (le_decode [lo; hi]) = le_decode [hi; lo] /\
  sqfs_swap16 (sqfs_swap16 (le_decode [lo; hi])) = le_decode [lo; hi].
Proof.
  assert (forall a b, sqfs_swap16 (le_decode [a; b]) = le_decode [b; a]) as Hswap.
  { intros a b. unfold sqfs_swap16. cbn [le_decode].
    pose proof (byte_val_range a). pose proof (byte_val_range b).
    rewrite Z.shiftr_div_pow2, Z.shiftl_mul_pow2 by lia.
    unfold wrap. change (2 ^ 16) with 65536. change (2 ^ 8) with 256.
    rewrite Z.mul_0_r, !Z.add_0_r.
    rewrite (Z.mul_comm 256 (byte_val b)), Z.div_add by lia.
    rewrite (Z.div_small (byte_val a)) by done.
    replace (0 + byte_val b + (byte_val a + byte_val b * 256) * 256)
      with (byte_val b + 256 * byte_val a + byte_val b * 65536) by lia.
    rewrite Z_mod_plus_full, Z.mod_small; lia. }
  split; [|rewrite Hswap]; apply Hswap.
Qed.
