(* ===== verification/Stack.v ===== *)
(** * Stack: the growable array of stack.c

    [sqfs_stack_at] and [sqfs_stack_top] give the caller a pointer into
    [items]; here that pointer is the index of the slot, and the caller's reads
    and writes through it are [slot_read] and [slot_write].  A slot that was
    never written holds [None].  [value_size] is kept because the size passed to
    [realloc] is computed from it, modulo [2^64]. *)
From S2P Require Import Prelude.

Section stack.
Context {V : Type}.

Record sqfs_stack := {
  value_size : Z;
  size : Z;
  capacity : Z;
  items : list (option V);
  freer : bool  (* a free function was given *)
}.

(** Ensure a capacity of [cap]. *)
Definition sqfs_stack_capacity (s : sqfs_stack) (cap : Z) (ms : mallocs)
    : result sqfs_stack * mallocs :=
  if cap <=? s.(capacity) then (Success s, ms)
  else
    let (ok, ms) := malloc ms in
    if ok then
      (Success {| value_size := s.(value_size); size := s.(size); capacity := cap;
          items := resize (Z.to_nat (u64 (cap * s.(value_size)) / s.(value_size)))
                     None s.(items);
          freer := s.(freer) |}, ms)
    else (Failure SQFS_ERR, ms).

Definition CAPACITY_DEFAULT : Z := 8.

(** [n = cap * CAPACITY_RATIO] with the ratio [3 / 2]: the product is taken
    first, in [size_t]. *)
Definition sqfs_stack_next_capacity (cap : Z) : Z :=
  if cap =? 0 then CAPACITY_DEFAULT
  else
    let n := u64 (cap * 3) / 2 in
    if n <=? cap then u64 (cap + 1) else n.

Definition set_size (s : sqfs_stack) (n : Z) : sqfs_stack :=
  {| value_size := s.(value_size); size := n; capacity := s.(capacity);
     items := s.(items); freer := s.(freer) |}.

(** Grow by one. *)
Definition sqfs_stack_grow (s : sqfs_stack) (ms : mallocs)
    : result sqfs_stack * mallocs :=
  let (r, ms) :=
    if s.(size) =? s.(capacity)
    then sqfs_stack_capacity s (sqfs_stack_next_capacity s.(capacity)) ms
    else (Success s, ms) in
  (match r with
   | Success s => Success (set_size s (u64 (s.(size) + 1)))
   | Failure e => Failure e
   end, ms).

Definition sqfs_stack_create (vsize initial : Z) (has_freer : bool) (ms : mallocs)
    : result sqfs_stack * mallocs :=
  sqfs_stack_capacity
    {| value_size := vsize; size := 0; capacity := 0; items := [];
       freer := has_freer |} initial ms.

(** [s] is whatever the structure held before the call. *)
Definition sqfs_stack_init (s : sqfs_stack) : sqfs_stack :=
  {| value_size := s.(value_size); size := s.(size); capacity := 0; items := [];
     freer := s.(freer) |}.

Definition sqfs_stack_size (s : sqfs_stack) : Z := s.(size).

Definition sqfs_stack_at (s : sqfs_stack) (i : Z) : result Z :=
  if s.(size) <=? i then Failure SQFS_ERR else Success i.

Definition sqfs_stack_top (s : sqfs_stack) : result Z :=
  if s.(size) =? 0 then Failure SQFS_ERR
  else sqfs_stack_at s (s.(size) - 1).

(** The new top slot. *)
Definition sqfs_stack_push (s : sqfs_stack) (ms : mallocs)
    : result (sqfs_stack * Z) * mallocs :=
  let (r, ms) := sqfs_stack_grow s ms in
  (match r with
   | Failure e => Failure e
   | Success s => match sqfs_stack_top s with
                  | Success p => Success (s, p)
                  | Failure e => Failure e
                  end
   end, ms).

(** Pop; also the slots passed to the free function, in order. *)
Definition sqfs_stack_pop (s : sqfs_stack) : bool * sqfs_stack * list Z :=
  if s.(size) =? 0 then (false, s, [])
  else
    let freed :=
      match s.(freer), sqfs_stack_top s with
      | true, Success p => [p]
      | _, _ => []
      end in
    (true, set_size s (s.(size) - 1), freed).

(** [while (sqfs_stack_pop(s)) ;]: each turn takes one off [size]. *)
Fixpoint pop_all (fuel : nat) (s : sqfs_stack) (freed : list Z)
    : sqfs_stack * list Z :=
  match fuel with
  | O => (s, freed)
  | S fuel =>
      match sqfs_stack_pop s with
      | (false, s, _) => (s, freed)
      | (true, s, f) => pop_all fuel s (freed ++ f)
      end
  end.

Definition sqfs_stack_destroy (s : sqfs_stack) : sqfs_stack * list Z :=
  let (s, freed) := pop_all (S (Z.to_nat s.(size))) s [] in
  (sqfs_stack_init s, freed).

(** The caller's accesses through a slot pointer. *)
Definition slot_read (s : sqfs_stack) (p : Z) : outcome V :=
  match zlookup s.(items) p with
  | Some (Some v) => Ret v
  | _ => Crash MemFault
  end.

Definition slot_write (s : sqfs_stack) (p : Z) (v : V) : outcome sqfs_stack :=
  match zlookup s.(items) p with
  | Some _ => Ret {| value_size := s.(value_size); size := s.(size);
                     capacity := s.(capacity); items := zinsert p (Some v) s.(items);
                     freer := s.(freer) |}
  | None => Crash MemFault
  end.

(** ** The stack as a list *)

(** [s] holds the elements [l], the top one last. *)
Definition stack_holds (s : sqfs_stack) (l : list V) : Prop :=
  0 < s.(value_size) /\ s.(size) = len l /\
  0 <= s.(capacity) /\ s.(capacity) * s.(value_size) < 2 ^ 64 /\
  len s.(items) = s.(capacity) /\ s.(size) <= s.(capacity) /\
  take (length l) s.(items) = Some <$> l.

Lemma next_capacity_gt (cap : Z) :
  0 <= cap < 2 ^ 64 - 1 -> cap < sqfs_stack_next_capacity cap.
Proof.
  intros Hcap. unfold sqfs_stack_next_capacity, CAPACITY_DEFAULT.
  destruct (Z.eqb_spec cap 0); [lia|].
  destruct (Z.leb_spec (u64 (cap * 3) / 2) cap); [|done].
  rewrite wrap_small; lia.
Qed.

(** [sqfs_stack_next_capacity] always asks for more room, also when the
    product by three overflows [size_t], and never more than one and a half times
    the old capacity (eight to begin with). *)
Theorem sqfs_stack_next_capacity_grows (cap : Z) :
  0 <= cap < 2 ^ 64 - 1 ->
  cap < sqfs_stack_next_capacity cap < 2 ^ 64 /\
  sqfs_stack_next_capacity cap <= Z.max 8 (Z.max (cap + 1) (cap * 3 / 2)).
Proof.
  intros Hcap. pose proof (next_capacity_gt cap Hcap) as Hgt. revert Hgt.
  unfold sqfs_stack_next_capacity, CAPACITY_DEFAULT, wrap.
  destruct (Z.eqb_spec cap 0); [lia|].
  pose proof (Z.mod_pos_bound (cap * 3) (2 ^ 64) ltac:(lia)).
  pose proof (Z.mod_le (cap * 3) (2 ^ 64) ltac:(lia) ltac:(lia)).
  destruct (Z.leb_spec ((cap * 3) mod 2 ^ 64 / 2) cap); intros Hgt.
  - rewrite Z.mod_small in * by lia. lia.
  - split; [dlia|].
    etransitivity; [|apply Z.le_max_r]. etransitivity; [|apply Z.le_max_r].
    apply Z.div_le_mono; lia.
Qed.

Lemma stack_holds_lookup s l p :
  stack_holds s l -> 0 <= p < len l -> zlookup s.(items) p = Some (l !! Z.to_nat p).
Proof.
  intros (_ & Hs & _ & _ & Hi & Hle & Ht) Hp.
  rewrite zlookup_lookup by lia.
  rewrite <- (lookup_take_lt _ (length l)), Ht, list_lookup_fmap by lia.
  destruct (lookup_lt_is_Some_2 l (Z.to_nat p)) as [v ->]; [lia|done].
Qed.

Lemma sqfs_stack_capacity_holds s l cap ms s' ms' :
  stack_holds s l -> cap * s.(value_size) < 2 ^ 64 ->
  sqfs_stack_capacity s cap ms = (Success s', ms') ->
  stack_holds s' l /\ s'.(capacity) = Z.max cap s.(capacity) /\
  s'.(value_size) = s.(value_size).
Proof.
  intros (Hv & Hs & Hc & Hf & Hi & Hle & Ht) Hcap. unfold sqfs_stack_capacity.
  destruct (Z.leb_spec cap s.(capacity)).
  { intros [= <- <-]. split; [|lia]. by unfold stack_holds. }
  destruct (malloc ms) as [[] ms1]; intros [= <- <-]; cbn.
  split; [|lia]. unfold stack_holds; cbn.
  rewrite wrap_small, Z.div_mul, length_resize by nia.
  repeat split; try lia.
  rewrite <- Ht. rewrite resize_ge, take_app_le by lia. done.
Qed.

(** The capacity a push may have to ask for still fits [size_t] in bytes. *)
Definition push_fits (s : sqfs_stack) : Prop :=
  sqfs_stack_next_capacity s.(capacity) * s.(value_size) < 2 ^ 64.

(** What a stack keeps when its elements change. *)
Definition same_config (s s' : sqfs_stack) : Prop :=
  s'.(value_size) = s.(value_size) /\ s'.(freer) = s.(freer) /\
  (s'.(capacity) = s.(capacity) \/
   s'.(capacity) = sqfs_stack_next_capacity s.(capacity) /\ s.(size) = s.(capacity)).

Lemma sqfs_stack_grow_holds s l ms s' ms' :
  stack_holds s l -> push_fits s -> s.(capacity) < 2 ^ 64 - 1 ->
  sqfs_stack_grow s ms = (Success s', ms') ->
  exists s0, s' = set_size s0 (len l + 1) /\ stack_holds s0 l /\ len l < s0.(capacity) /\
    same_config s s0 /\ (ms' = ms \/ ms' = snd (malloc ms)).
Proof.
  intros Hh Hfit Hmax. pose proof Hh as (Hv & Hs & Hc & Hf & Hi & Hle & Ht).
  unfold sqfs_stack_grow. destruct (Z.eqb_spec s.(size) s.(capacity)) as [E|E].
  - destruct (sqfs_stack_capacity _ _ ms) as [[s0|e] ms1] eqn:Hcap; intros [= <- <-].
    destruct (sqfs_stack_capacity_holds _ _ _ _ _ _ Hh Hfit Hcap) as (Hh0 & Hc0 & Hv0).
    pose proof (next_capacity_gt s.(capacity)).
    exists s0. pose proof Hh0 as (_ & Hs0 & _).
    rewrite Hs0, wrap_small by lia. split; [done|]. split; [done|]. split; [lia|].
    unfold sqfs_stack_capacity in Hcap. destruct (Z.leb_spec (sqfs_stack_next_capacity s.(capacity)) s.(capacity)); [lia|].
    destruct (malloc ms) as [[] ms2]; [|done]. injection Hcap as <- <-.
    split; [|by right]. split; [done|]. split; [done|]. by right.
  - intros [= <- <-]. exists s. rewrite Hs, wrap_small by lia.
    split; [done|]. split; [done|]. split; [lia|]. split; [|by left]. by split; [|split; [|left]].
Qed.

Lemma stack_holds_push s l v :
  stack_holds s l -> len l < s.(capacity) ->
  exists s', slot_write (set_size s (len l + 1)) (len l) v = Ret s' /\
    stack_holds s' (l ++ [v]) /\ s'.(value_size) = s.(value_size) /\ s'.(freer) = s.(freer) /\
    s'.(capacity) = s.(capacity).
Proof.
  intros (Hv & Hs & Hc & Hf & Hi & Hle & Ht) Hlt.
  unfold slot_write. cbn.
  destruct (zlookup_is_Some s.(items) (len l)) as [_ [o ->]]; [lia|].
  eexists; split; [done|]. split; [|done]. unfold stack_holds; cbn.
  rewrite zinsert_length, zinsert_insert, !length_app by lia. cbn.
  repeat split; try lia.
  rewrite Nat2Z.id, fmap_app, <- Ht. cbn.
  rewrite Nat.add_1_r. erewrite take_S_r; [|apply list_lookup_insert_eq; lia].
  by rewrite take_insert_ge.
Qed.

(** A push, and the write through the pointer it gives. *)
Lemma stack_push_holds s l ms :
  stack_holds s l -> push_fits s -> s.(capacity) < 2 ^ 64 - 1 ->
  (sqfs_stack_push s ms = (Failure SQFS_ERR, snd (malloc ms)) /\
    fst (malloc ms) = false /\ len l = s.(capacity)) \/
  (exists s1 ms1, sqfs_stack_push s ms = (Success (s1, len l), ms1) /\
    (ms1 = ms \/ ms1 = snd (malloc ms)) /\ s1.(freer) = s.(freer) /\
    forall v, exists s2, slot_write s1 (len l) v = Ret s2 /\ stack_holds s2 (l ++ [v]) /\
      same_config s s2).
Proof.
  intros Hh Hfit Hmax. unfold sqfs_stack_push.
  destruct (sqfs_stack_grow s ms) as [[s1|e] ms1] eqn:Hg.
  - right.
    destruct (sqfs_stack_grow_holds _ _ _ _ _ Hh Hfit Hmax Hg)
      as (s0 & -> & Hh0 & Hlt & Hcfg & Hms).
    exists (set_size s0 (len l + 1)), ms1.
    unfold sqfs_stack_top, sqfs_stack_at; cbn.
    destruct (Z.eqb_spec (len l + 1) 0); [lia|].
    destruct (Z.leb_spec (len l + 1) (len l + 1 - 1)); [lia|].
    rewrite Z.add_simpl_r. split; [done|]. split; [done|]. split; [apply Hcfg|].
    intros v. destruct (stack_holds_push s0 l v Hh0 Hlt) as (s2 & Hw & Hh2 & Hv2 & Hf2 & Hc2).
    exists s2. split; [done|]. split; [done|]. unfold same_config. by rewrite Hv2, Hf2, Hc2.
  - left. unfold sqfs_stack_grow in Hg. destruct Hh as (_ & Hs & _).
    destruct (Z.eqb_spec s.(size) s.(capacity)) as [E|E]; [|done].
    unfold sqfs_stack_capacity in Hg.
    destruct (_ <=? _); [done|].
    destruct (malloc ms) as [[] ms2] eqn:Em; [done|].
    injection Hg as <- <-. cbn. auto with lia.
Qed.

(** a push either fails with [SQFS_ERR] because [realloc] failed, in which
    case the caller keeps its stack as it was, or yields the slot just above the
    old elements: writing [v] through it gives the stack with [v] on top and every
    element below unchanged. *)
Theorem sqfs_stack_push_spec (s : sqfs_stack) (l : list V) (v : V) (ms : mallocs) :
  stack_holds s l -> push_fits s -> s.(capacity) < 2 ^ 64 - 1 ->
  (sqfs_stack_push s ms = (Failure SQFS_ERR, snd (malloc ms)) /\
    fst (malloc ms) = false /\ len l = s.(capacity)) \/
  (exists s1 ms1 s2, sqfs_stack_push s ms = (Success (s1, len l), ms1) /\
    slot_write s1 (len l) v = Ret s2 /\ stack_holds s2 (l ++ [v])).
Proof.
  intros Hh Hfit Hmax. destruct (stack_push_holds s l ms Hh Hfit Hmax) as [?|(s1 & ms1 & E & _ & _ & H)];
    [by left|]. right. destruct (H v) as (s2 & Hw & Hh2 & _). by exists s1, ms1, s2.
Qed.

Lemma sqfs_stack_top_spec s l v :
  stack_holds s (l ++ [v]) ->
  sqfs_stack_top s = Success (len l) /\ slot_read s (len l) = Ret v.
Proof.
  intros Hh. pose proof Hh as (_ & Hs & _).
  rewrite length_app in Hs. cbn in Hs. split.
  - unfold sqfs_stack_top, sqfs_stack_at. zbool; try lia. f_equal. lia.
  - unfold slot_read. rewrite (stack_holds_lookup s (l ++ [v])), Nat2Z.id by
      (rewrite ?length_app; cbn; done || lia).
    by rewrite list_lookup_middle.
Qed.

(** Writing over the top element. *)
Lemma stack_top_write s l v v' :
  stack_holds s (l ++ [v]) ->
  exists s', slot_write s (len l) v' = Ret s' /\ stack_holds s' (l ++ [v']) /\
    s'.(value_size) = s.(value_size) /\ s'.(freer) = s.(freer) /\ s'.(capacity) = s.(capacity).
Proof.
  intros (Hv & Hs & Hc & Hf & Hi & Hle & Ht). rewrite length_app in Hs, Ht. cbn in Hs, Ht.
  unfold slot_write. destruct (zlookup_is_Some s.(items) (len l)) as [_ [o ->]]; [lia|].
  eexists. split; [done|]. split; [|done]. unfold stack_holds. cbn.
  rewrite zinsert_length, zinsert_insert, length_app by lia. cbn. repeat split; try lia.
  rewrite Nat2Z.id, fmap_app, Nat.add_1_r. cbn.
  erewrite take_S_r; [|apply list_lookup_insert_eq; lia].
  rewrite take_insert_ge by lia. f_equal.
  apply (f_equal (take (length l))) in Ht. rewrite take_take, Nat.min_l in Ht by lia.
  by rewrite Ht, fmap_app, take_app_le, take_ge by (rewrite length_fmap; lia).
Qed.

(** Popping a non-empty stack reports [true], hands the top slot to the free
    function when there is one, and leaves the elements below; popping an empty
    stack reports [false]. *)
Lemma stack_pop_holds (s : sqfs_stack) (l : list V) :
  stack_holds s l ->
  match l with
  | [] => sqfs_stack_pop s = (false, s, [])
  | _ => exists s' f, sqfs_stack_pop s = (true, s', f) /\
      f = (if s.(freer) then [len l - 1] else []) /\
      stack_holds s' (take (length l - 1) l)
  end.
Proof.
  intros Hh. pose proof Hh as (Hv & Hs & Hc & Hf & Hi & Hle & Ht).
  unfold sqfs_stack_pop, sqfs_stack_top, sqfs_stack_at.
  destruct l as [|x l]; [cbn in Hs; by rewrite Hs|].
  destruct (Z.eqb_spec s.(size) 0); [cbn in *; lia|].
  destruct (Z.leb_spec s.(size) (s.(size) - 1)); [lia|].
  eexists _, _. split; [done|]. rewrite Hs. split; [by destruct (freer s)|].
  unfold stack_holds; cbn [value_size capacity items set_size size].
  rewrite length_take. repeat split; try (cbn in *; lia).
  rewrite fmap_take, <- Ht, take_take, Nat.min_l by lia. done. 
Qed.

Lemma pop_all_holds s l freed fuel :
  stack_holds s l -> (length l < fuel)%nat ->
  exists s', stack_holds s' [] /\
    pop_all fuel s freed =
      (s', freed ++ if s.(freer) then reverse (seqZ 0 (len l)) else []).
Proof.
  revert s l freed. induction fuel as [|fuel IH]; intros s l freed Hh Hf; [lia|].
  cbn [pop_all]. pose proof (stack_pop_holds s l Hh) as Hp.
  destruct l as [|x l'] eqn:El.
  - rewrite Hp. exists s. split; [done|]. cbn. destruct (freer s); by rewrite app_nil_r.
  - rewrite <- El in *. destruct Hp as (s' & f & Hp & -> & Hh'). rewrite Hp.
    assert (length l = S (length l')) as Hlen by (rewrite El; done).
    destruct (IH _ _ (freed ++ if freer s then [len l - 1] else []) Hh') as (s2 & Hh2 & E).
    { rewrite length_take. lia. }
    assert (freer s' = freer s) as Hfr.
    { unfold sqfs_stack_pop in Hp. destruct (_ =? _); by simplify_eq/=. }
    exists s2. split; [done|]. rewrite E, Hfr, <- app_assoc. do 2 f_equal.
    destruct (freer s); [|done].
    rewrite length_take, Hlen, Nat.sub_succ, Nat.sub_0_r, Nat.min_l by lia.
    rewrite seqZ_S, reverse_app. cbn. f_equal. lia.
Qed.

(** [sqfs_stack_destroy] pops the elements from the top down, passes every
    one of them to the free function exactly once when there is one, and leaves an
    empty stack without memory. *)
Theorem sqfs_stack_destroy_spec (s : sqfs_stack) (l : list V) :
  stack_holds s l ->
  exists s', sqfs_stack_destroy s =
      (s', if s.(freer) then reverse (seqZ 0 (len l)) else []) /\
    s'.(size) = 0 /\ s'.(capacity) = 0 /\ s'.(items) = [].
Proof.
  intros Hh. pose proof Hh as (_ & Hs & _). unfold sqfs_stack_destroy.
  destruct (pop_all_holds s l [] (S (Z.to_nat (size s))) Hh) as (s' & Hh' & ->).
  { rewrite Hs. lia. }
  cbn. eexists; split; [done|]. destruct Hh' as (_ & Hs' & _). repeat split; done.
Qed.

Lemma init_destroy_frees (s : sqfs_stack) :
  0 < s.(size) -> s.(freer) = true ->
  exists p rest, snd (sqfs_stack_destroy (sqfs_stack_init s)) = p :: rest /\
    slot_read (sqfs_stack_init s) p = Crash MemFault.
Proof.
  intros Hsz Hf. unfold sqfs_stack_destroy.
  assert (forall fuel s f0, snd (pop_all fuel s f0) = f0 ++ snd (pop_all fuel s [])) as Hacc.
  { clear. induction fuel as [|fuel IH]; intros s f0; cbn; [by rewrite app_nil_r|].
    destruct (sqfs_stack_pop s) as [[[] s'] f]; [|by rewrite app_nil_r].
    rewrite IH, (IH _ f), app_assoc. done. }
  destruct (pop_all _ _ _) as [s' freed] eqn:E. cbn.
  apply (f_equal snd) in E. cbn [snd] in E. cbn [pop_all] in E.
  unfold sqfs_stack_pop, sqfs_stack_top, sqfs_stack_at in E. cbn in E.
  destruct (Z.eqb_spec s.(size) 0); [lia|].
  rewrite Hf in E. destruct (Z.leb_spec s.(size) (s.(size) - 1)); [lia|].
  rewrite Hacc in E. cbn in E. rewrite <- E.
  eexists _, _. split; [done|]. unfold slot_read, zlookup. cbn.
  by rewrite (proj2 (Z.ltb_ge _ 0)), andb_false_r by lia.
Qed.

(** [sqfs_stack_init] leaves [size] and the free function as it found them.
    On a structure whose memory was never initialised, a destroy after the init
    calls the free function on addresses computed from a null [items], once per
    unit of the stale [size]. *)
Theorem sqfs_stack_init_unsafe (s : sqfs_stack) :
  0 < s.(size) -> s.(freer) = true ->
  exists p rest, snd (sqfs_stack_destroy (sqfs_stack_init s)) = p :: rest /\
    slot_read (sqfs_stack_init s) p = Crash MemFault.
Proof. apply init_destroy_frees. Qed.

End stack.
Arguments sqfs_stack : clear implicits.

Lemma sqfs_stack_next_capacity_grows_witness :
  0 <= 2 ^ 63 < 2 ^ 64 - 1 /\ 2 ^ 63 < sqfs_stack_next_capacity (2 ^ 63).
Proof. split; [lia|]. apply (sqfs_stack_next_capacity_grows (2 ^ 63)). lia. Defined.

(** A stack of three values, one push away from growing. *)
Definition sample_stack : sqfs_stack Z :=
  {| value_size := 8; size := 3; capacity := 3; items := [Some 10; Some 20; Some 30];
     freer := true |}.

Lemma sample_stack_holds : stack_holds sample_stack [10; 20; 30].
Proof. by repeat split. Qed.

Lemma sqfs_stack_push_spec_witness :
  sqfs_stack_next_capacity (capacity sample_stack) = 4 /\
  exists s1 ms1 s2, sqfs_stack_push sample_stack [] = (Success (s1, 3), ms1) /\
    slot_write s1 3 40 = Ret s2 /\ stack_holds s2 [10; 20; 30; 40].
Proof.
  split; [reflexivity|].
  destruct (sqfs_stack_push_spec sample_stack [10; 20; 30] 40 []) as [(_ & E & _)|H].
  - exact sample_stack_holds.
  - vm_compute. reflexivity.
  - vm_compute. reflexivity.
  - discriminate E.
  - exact H.
Defined.

Lemma sqfs_stack_destroy_spec_witness :
  snd (sqfs_stack_destroy sample_stack) = [2; 1; 0].
Proof.
  destruct (sqfs_stack_destroy_spec sample_stack [10; 20; 30] sample_stack_holds)
    as (s' & -> & _). reflexivity.
Defined.

Lemma sqfs_stack_init_unsafe_witness :
  exists p rest,
    snd (sqfs_stack_destroy (sqfs_stack_init sample_stack)) = p :: rest /\
    slot_read (sqfs_stack_init sample_stack) p = Crash MemFault.
Proof. apply (sqfs_stack_init_unsafe sample_stack); reflexivity. Defined.
