(* ===== verification/Hash.v ===== *)
(** * Hash: the chained hash table of hash.c

    A bucket is the list of its (key, value) pairs, the head of the chain first.
    [sqfs_hash_get] returns a pointer into a bucket, through which the caller
    updates the value in place: that is [sqfs_hash_update].  Functions that can
    fail part-way return the table as they leave it next to the error code. *)
From S2P Require Import Prelude.

Section hash.
Context {V : Type}.

Record sqfs_hash := {
  value_size : Z;
  capacity : Z;
  size : Z;
  buckets : list (list (Z * V))
}.

(** [k & (h->capacity - 1)] in [size_t]. *)
Definition bucket_of (h : sqfs_hash) (k : Z) : Z := k &&& u64 (h.(capacity) - 1).

(** [h->buckets[hash]]: an index outside the array (or a null array) is an
    invalid access. *)
Definition bucket (h : sqfs_hash) (i : Z) : outcome (list (Z * V)) :=
  match zlookup h.(buckets) i with Some b => Ret b | None => Crash MemFault end.

Definition set_bucket (h : sqfs_hash) (i : Z) (b : list (Z * V)) (n : Z) : sqfs_hash :=
  {| value_size := h.(value_size); capacity := h.(capacity); size := n;
     buckets := zinsert i b h.(buckets) |}.

Definition sqfs_hash_add_internal (h : sqfs_hash) (k : Z) (v : V) (ms : mallocs)
    : outcome (sqfs_err * sqfs_hash * mallocs) :=
  let hash := bucket_of h k in
  let (ok, ms) := malloc ms in
  if negb ok then Ret (SQFS_ERR, h, ms)
  else
    b ← bucket h hash;
    Ret (SQFS_OK, set_bucket h hash ((k, v) :: b) (u64 (h.(size) + 1)), ms).

Definition hash_zero : sqfs_hash :=
  {| value_size := 0; capacity := 0; size := 0; buckets := [] |}.

(** The table is cleared first, whatever happens next. *)
Definition sqfs_hash_init (vsize initial : Z) (ms : mallocs)
    : sqfs_err * sqfs_hash * mallocs :=
  if negb ((initial &&& u64 (initial - 1)) =? 0) then (SQFS_ERR, hash_zero, ms)
  else
    let (ok, ms) := malloc ms in
    if ok then
      (SQFS_OK, {| value_size := vsize; capacity := initial; size := 0;
                   buckets := replicate (Z.to_nat initial) [] |}, ms)
    else (SQFS_ERR, hash_zero, ms).

(** The inner loop of [sqfs_hash_double] over one old chain: after an error the
    rest of the nodes are only freed. *)
Fixpoint rehash_chain (b : list (Z * V)) (err : sqfs_err) (h : sqfs_hash)
    (ms : mallocs) : outcome (sqfs_err * sqfs_hash * mallocs) :=
  match b with
  | [] => Ret (err, h, ms)
  | (k, v) :: b =>
      match err with
      | SQFS_OK =>
          '(err, h, ms) ← sqfs_hash_add_internal h k v ms;
          rehash_chain b err h ms
      | _ => rehash_chain b err h ms
      end
  end.

Fixpoint rehash (ob : list (list (Z * V))) (err : sqfs_err) (h : sqfs_hash)
    (ms : mallocs) : outcome (sqfs_err * sqfs_hash * mallocs) :=
  match ob with
  | [] => Ret (err, h, ms)
  | b :: ob =>
      '(err, h, ms) ← rehash_chain b err h ms;
      rehash ob err h ms
  end.

Definition sqfs_hash_double (h : sqfs_hash) (ms : mallocs)
    : outcome (sqfs_err * sqfs_hash * mallocs) :=
  let ob := h.(buckets) in
  let oc := h.(capacity) in
  match sqfs_hash_init h.(value_size) (u64 (oc * 2)) ms with
  | (SQFS_OK, h, ms) => rehash (take (Z.to_nat oc) ob) SQFS_OK h ms
  | r => Ret r
  end.

Definition sqfs_hash_add (h : sqfs_hash) (k : Z) (v : V) (ms : mallocs)
    : outcome (sqfs_err * sqfs_hash * mallocs) :=
  if h.(capacity) <=? h.(size) then
    '(err, h, ms) ← sqfs_hash_double h ms;
    match err with
    | SQFS_OK => sqfs_hash_add_internal h k v ms
    | _ => Ret (err, h, ms)
    end
  else sqfs_hash_add_internal h k v ms.

(** The walk along a chain: the first value whose key is [k]. *)
Fixpoint chain_find (b : list (Z * V)) (k : Z) : option V :=
  match b with
  | [] => None
  | (k', v) :: b => if k' =? k then Some v else chain_find b k
  end.

Definition sqfs_hash_get (h : sqfs_hash) (k : Z) : outcome (option V) :=
  b ← bucket h (bucket_of h k);
  Ret (chain_find b k).

(** The caller's write through the pointer [sqfs_hash_get] returned. *)
Fixpoint chain_update (b : list (Z * V)) (k : Z) (v : V) : list (Z * V) :=
  match b with
  | [] => []
  | (k', v') :: b =>
      if k' =? k then (k', v) :: b else (k', v') :: chain_update b k v
  end.

Definition sqfs_hash_update (h : sqfs_hash) (k : Z) (v : V) : outcome sqfs_hash :=
  b ← bucket h (bucket_of h k);
  Ret (set_bucket h (bucket_of h k) (chain_update b k v) h.(size)).

(** Unlink the first node with key [k]; the flag says whether there was one. *)
Fixpoint chain_remove (b : list (Z * V)) (k : Z) : bool * list (Z * V) :=
  match b with
  | [] => (false, [])
  | (k', v) :: b =>
      if k' =? k then (true, b)
      else let (found, b) := chain_remove b k in (found, (k', v) :: b)
  end.

Definition sqfs_hash_remove (h : sqfs_hash) (k : Z) : outcome (sqfs_err * sqfs_hash) :=
  b ← bucket h (bucket_of h k);
  match chain_remove b k with
  | (true, b) => Ret (SQFS_OK, set_bucket h (bucket_of h k) b (u64 (h.(size) - 1)))
  | (false, _) => Ret (SQFS_OK, h)
  end.

(** Number of nodes freed by [sqfs_hash_destroy]. *)
Definition sqfs_hash_destroy (h : sqfs_hash) : Z :=
  len (concat (take (Z.to_nat h.(capacity)) h.(buckets))).

#[local] Arguments sqfs_hash_add_internal : simpl never.
#[local] Arguments sqfs_hash_double : simpl never.
#[local] Arguments sqfs_hash_add : simpl never.
#[local] Arguments sqfs_hash_get : simpl never.
#[local] Arguments sqfs_hash_update : simpl never.
#[local] Arguments sqfs_hash_remove : simpl never.

(** ** The table as a finite map *)

Definition entries (h : sqfs_hash) : list (Z * V) := concat h.(buckets).

Definition hash_map (h : sqfs_hash) : gmap Z V := list_to_map (entries h).

(** The capacity is a power of two, every node is in the bucket its key selects,
    keys are not duplicated, [size] counts the nodes and no more nodes than buckets. *)
Record hash_ok (h : sqfs_hash) : Prop := {
  ok_capacity : exists n, 0 <= n < 63 /\ h.(capacity) = 2 ^ n;
  ok_length : len h.(buckets) = h.(capacity);
  ok_place : forall i b k v, h.(buckets) !! i = Some b -> (k, v) ∈ b ->
    bucket_of h k = Z.of_nat i;
  ok_nodup : NoDup (entries h).*1;
  ok_size : h.(size) = len (entries h);
  ok_load : h.(size) <= h.(capacity)
}.

(** *** Buckets *)

Lemma bucket_of_mod h k n :
  0 <= n < 63 -> h.(capacity) = 2 ^ n -> bucket_of h k = k mod 2 ^ n.
Proof.
  intros Hn E. unfold bucket_of. rewrite E.
  assert (2 ^ n < 2 ^ 64) by (apply Z.pow_lt_mono_r; lia).
  assert (0 < 2 ^ n) by (apply Z.pow_pos_nonneg; lia).
  rewrite (wrap_small 64) by lia. apply land_ones_wrap. lia.
Qed.

Lemma bucket_of_range h k : hash_ok h -> 0 <= bucket_of h k < h.(capacity).
Proof.
  intros Hok. destruct (ok_capacity _ Hok) as (n & Hn & E).
  rewrite (bucket_of_mod h k n), E by done.
  apply Z.mod_pos_bound, Z.pow_pos_nonneg; lia.
Qed.

(** The entries seen from bucket [i]: its chain, and the rest of the table,
    which holds no key of that bucket and does not change when the chain does. *)
Lemma bucket_split h i b :
  hash_ok h -> h.(buckets) !! i = Some b ->
  exists rest, entries h ≡ₚ b ++ rest /\
    (forall b' n, entries (set_bucket h (Z.of_nat i) b' n) ≡ₚ b' ++ rest) /\
    (forall k v, (k, v) ∈ rest -> bucket_of h k <> Z.of_nat i).
Proof.
  intros Hok Hb. pose proof (lookup_lt_Some _ _ _ Hb) as Hlt.
  exists (concat (take i h.(buckets)) ++ concat (drop (S i) h.(buckets))).
  assert (forall b0 : list (Z * V), concat (take i (buckets h) ++ b0 :: drop (S i) (buckets h))
    ≡ₚ b0 ++ concat (take i (buckets h)) ++ concat (drop (S i) (buckets h))) as Hp.
  { intros b0. rewrite concat_app. cbn. apply Permutation_app_swap_app. }
  split; [|split].
  - unfold entries. rewrite <- (take_drop_middle _ _ _ Hb) at 1. apply Hp.
  - intros b' n. unfold entries. cbn. rewrite zinsert_insert, Nat2Z.id by lia.
    rewrite insert_take_drop by done. apply Hp.
  - intros k v [Hin|Hin]%elem_of_app.
    + apply list_elem_of_In, in_concat in Hin as (b' & [j Hj]%list_elem_of_In%list_elem_of_lookup & Hkv).
      apply lookup_take_Some in Hj as [Hj Hji].
      rewrite (ok_place _ Hok j b' k v Hj) by (by apply list_elem_of_In). lia.
    + apply list_elem_of_In, in_concat in Hin as (b' & [j Hj]%list_elem_of_In%list_elem_of_lookup & Hkv).
      rewrite lookup_drop in Hj.
      rewrite (ok_place _ Hok _ b' k v Hj) by (by apply list_elem_of_In). lia.
Qed.

Lemma hash_bucket h k :
  hash_ok h -> exists i b, bucket_of h k = Z.of_nat i /\
    h.(buckets) !! i = Some b /\ bucket h (bucket_of h k) = Ret b.
Proof.
  intros Hok. pose proof (bucket_of_range h k Hok) as Hr.
  pose proof (ok_length _ Hok) as Hl.
  exists (Z.to_nat (bucket_of h k)).
  destruct (lookup_lt_is_Some_2 h.(buckets) (Z.to_nat (bucket_of h k))) as [b Hb]; [lia|].
  exists b. split; [lia|]. split; [done|].
  unfold bucket. by rewrite zlookup_lookup, Hb by lia.
Qed.

Lemma chain_find_map b k : chain_find b k = (list_to_map b : gmap Z V) !! k.
Proof.
  induction b as [|[k' v] b IH]; cbn; [done|].
  rewrite lookup_insert. case_decide; zbool; congruence.
Qed.

Lemma map_not_in (l : list (Z * V)) k :
  (forall v, (k, v) ∉ l) -> (list_to_map l : gmap Z V) !! k = None.
Proof.
  intros H. apply not_elem_of_list_to_map.
  intros ([k' v] & -> & Hin)%list_elem_of_fmap. by apply (H v).
Qed.

Lemma hash_map_perm h l :
  hash_ok h -> entries h ≡ₚ l -> hash_map h = list_to_map l.
Proof. intros Hok Hp. apply list_to_map_proper; [apply (ok_nodup _ Hok)|done]. Qed.

(** A chain replaced by one with the keys placed in the same bucket. *)
Lemma set_bucket_ok h i b b' rest n :
  hash_ok h -> h.(buckets) !! i = Some b ->
  (forall b'' n, entries (set_bucket h (Z.of_nat i) b'' n) ≡ₚ b'' ++ rest) ->
  (forall k v, (k, v) ∈ b' -> bucket_of h k = Z.of_nat i) ->
  NoDup (b' ++ rest).*1 -> n = len (b' ++ rest) -> n <= h.(capacity) ->
  let h' := set_bucket h (Z.of_nat i) b' n in
  hash_ok h' /\ hash_map h' = list_to_map (b' ++ rest).
Proof.
  intros Hok Hb Hrest Hplace Hnd Hn Hcap h'.
  pose proof (lookup_lt_Some _ _ _ Hb) as Hlt.
  assert (hash_ok h') as Hok'.
  { split; cbn.
    - apply (ok_capacity _ Hok).
    - rewrite zinsert_length. apply (ok_length _ Hok).
    - intros j bj k v. rewrite zinsert_insert, Nat2Z.id by lia.
      destruct (decide (i = j)) as [<-|Hne].
      + rewrite list_lookup_insert_eq by done. intros [= <-]. apply Hplace.
      + rewrite list_lookup_insert_ne by done. apply (ok_place _ Hok).
    - unfold h'. by rewrite (Hrest b' n).
    - unfold h'. by rewrite (Hrest b' n).
    - done. }
  split; [done|]. apply hash_map_perm; [done|]. apply Hrest.
Qed.

(** *** The operations on the map *)

Lemma hash_get_map h k :
  hash_ok h -> sqfs_hash_get h k = Ret (hash_map h !! k).
Proof.
  intros Hok. destruct (hash_bucket h k Hok) as (i & b & Hi & Hb & E).
  destruct (bucket_split h i b Hok Hb) as (rest & Hp & _ & Hne).
  unfold sqfs_hash_get. rewrite E. cbn. f_equal.
  rewrite (hash_map_perm h (b ++ rest)) by done.
  rewrite chain_find_map, list_to_map_app, lookup_union.
  rewrite (map_not_in rest); [by destruct (_ !! k)|].
  intros v Hin. by apply (Hne k v).
Qed.

Lemma chain_remove_spec b k :
  NoDup b.*1 ->
  match chain_remove b k with
  | (true, b') => exists v, b ≡ₚ (k, v) :: b'
  | (false, _) => forall v, (k, v) ∉ b
  end.
Proof.
  induction b as [|[k' v'] b IH]; cbn; intros Hnd.
  { intros v. apply not_elem_of_nil. }
  inversion_clear Hnd as [|?? Hk Hnd']. zbool.
  - subst. by exists v'.
  - specialize (IH Hnd'). destruct (chain_remove b k) as [[] b'].
    + destruct IH as [v Hp]. exists v. rewrite Hp. constructor.
    + intros v [?|?]%elem_of_cons; [congruence|by apply (IH v)].
Qed.

Lemma chain_update_spec b k v :
  (chain_update b k v).*1 = b.*1 /\
  (list_to_map (chain_update b k v) : gmap Z V) =
    match (list_to_map b : gmap Z V) !! k with
    | Some _ => <[k := v]> (list_to_map b)
    | None => list_to_map b
    end.
Proof.
  induction b as [|[k' v'] b [IH1 IH2]]; cbn; [done|].
  rewrite lookup_insert. zbool.
  - subst. rewrite decide_True by done. cbn. by rewrite insert_insert_eq.
  - rewrite decide_False by done. cbn. rewrite IH1, IH2. split; [done|].
    case_match; [|done]. by rewrite insert_insert_ne.
Qed.

Lemma hash_nodup_split h b rest :
  hash_ok h -> entries h ≡ₚ b ++ rest -> NoDup (b ++ rest).*1 /\ NoDup b.*1.
Proof.
  intros Hok Hp. pose proof (ok_nodup _ Hok) as Hnd. rewrite Hp in Hnd.
  split; [done|]. rewrite fmap_app in Hnd. by apply NoDup_app in Hnd as [? _].
Qed.

Lemma hash_remove_map h k :
  hash_ok h ->
  exists h', sqfs_hash_remove h k = Ret (SQFS_OK, h') /\ hash_ok h' /\
    hash_map h' = delete k (hash_map h) /\
    h'.(capacity) = h.(capacity) /\ h'.(size) <= h.(size).
Proof.
  intros Hok. destruct (hash_bucket h k Hok) as (i & b & Hi & Hb & E).
  destruct (bucket_split h i b Hok Hb) as (rest & Hp & Hset & Hne).
  destruct (hash_nodup_split h b rest Hok Hp) as [Hnd Hndb].
  pose proof (ok_size _ Hok) as Hs. pose proof (ok_load _ Hok) as Hl.
  destruct (ok_capacity _ Hok) as (n & Hn & Hc).
  assert (2 ^ n < 2 ^ 63) by (apply Z.pow_lt_mono_r; lia).
  unfold sqfs_hash_remove. rewrite E, Hi. cbn.
  pose proof (chain_remove_spec b k Hndb) as Hr.
  destruct (chain_remove b k) as [[] b'].
  - destruct Hr as [v Hr].
    assert (len (entries h) = 1 + len (b' ++ rest)) as Hlen
      by (rewrite Hp, Hr; cbn; lia).
    rewrite wrap_small by lia. rewrite Hr in Hnd.
    eexists; split; [done|].
    destruct (set_bucket_ok h i b b' rest (h.(size) - 1)) as [Hok' Hm];
      try done; try lia.
    { intros k' v' Hin. apply (ok_place _ Hok i b k' v' Hb). rewrite Hr. by right. }
    { by inversion Hnd. }
    split; [done|]. split; [|cbn; lia]. rewrite Hm.
    rewrite (hash_map_perm h ((k, v) :: b' ++ rest)) by (try done; by rewrite Hp, Hr).
    cbn. rewrite delete_insert_id; [done|]. apply not_elem_of_list_to_map.
    by inversion Hnd.
  - exists h. split; [done|]. split; [done|]. split; [|lia].
    rewrite delete_id; [done|].
    rewrite (hash_map_perm h (b ++ rest)) by done. apply map_not_in.
    intros v [Hin|Hin]%elem_of_app; [by apply (Hr v)|by apply (Hne k v)].
Qed.

Lemma hash_update_map h k v :
  hash_ok h -> is_Some (hash_map h !! k) ->
  exists h', sqfs_hash_update h k v = Ret h' /\ hash_ok h' /\
    hash_map h' = <[k := v]> (hash_map h) /\
    h'.(capacity) = h.(capacity) /\ h'.(size) = h.(size).
Proof.
  intros Hok Hin. destruct (hash_bucket h k Hok) as (i & b & Hi & Hb & E).
  destruct (bucket_split h i b Hok Hb) as (rest & Hp & Hset & Hne).
  destruct (hash_nodup_split h b rest Hok Hp) as [Hnd Hndb].
  rewrite (hash_map_perm h (b ++ rest)) in * by done.
  destruct (chain_update_spec b k v) as [Hk Hm].
  rewrite list_to_map_app, lookup_union, (map_not_in rest k) in Hin
    by (intros v' Hin'; by apply (Hne k v')).
  destruct (list_to_map b !! k) as [v0|] eqn:Hv0; [|by destruct Hin].
  unfold sqfs_hash_update. rewrite E, Hi. cbn. eexists; split; [done|].
  pose proof (ok_load _ Hok). pose proof (ok_size _ Hok) as Hs.
  assert (length (chain_update b k v) = length b) as Hlen
    by (rewrite <- (length_fmap fst), Hk; apply length_fmap).
  destruct (set_bucket_ok h i b (chain_update b k v) rest h.(size)) as [Hok' Hm'];
    try done; try lia.
  { clear Hin. intros k' v' Hin. assert (k' ∈ b.*1) as Hk'.
    { rewrite <- Hk. apply list_elem_of_fmap. by exists (k', v'). }
    apply list_elem_of_fmap in Hk' as ([k2 v2] & -> & Hin2).
    by apply (ok_place _ Hok i b k2 v2 Hb). }
  { by rewrite fmap_app, Hk, <- fmap_app. }
  { rewrite Hs, Hp, !length_app, Hlen. done. }
  split; [done|]. split; [|done].
  rewrite Hm', !list_to_map_app, Hm. by rewrite insert_union_l.
Qed.

Lemma hash_add_internal_map h k v ms :
  hash_ok h -> hash_map h !! k = None -> h.(size) < h.(capacity) ->
  (sqfs_hash_add_internal h k v (false :: ms) = Ret (SQFS_ERR, h, ms)) /\
  (fst (malloc ms) = true ->
   exists h', sqfs_hash_add_internal h k v ms = Ret (SQFS_OK, h', snd (malloc ms)) /\
     hash_ok h' /\ hash_map h' = <[k := v]> (hash_map h) /\
     h'.(capacity) = h.(capacity) /\ h'.(size) = h.(size) + 1).
Proof.
  intros Hok Hk Hlt. split; [done|]. intros Hms.
  destruct (hash_bucket h k Hok) as (i & b & Hi & Hb & E).
  destruct (bucket_split h i b Hok Hb) as (rest & Hp & Hset & Hne).
  destruct (hash_nodup_split h b rest Hok Hp) as [Hnd Hndb].
  unfold sqfs_hash_add_internal. destruct (malloc ms) as [ok ms']. cbn in Hms. subst ok.
  cbn. rewrite E. cbn. rewrite Hi. eexists; split; [done|].
  pose proof (ok_size _ Hok) as Hs. destruct (ok_capacity _ Hok) as (n & Hn & Hc).
  assert (2 ^ n < 2 ^ 63) by (apply Z.pow_lt_mono_r; lia).
  rewrite wrap_small by lia.
  rewrite (hash_map_perm h (b ++ rest)) in * by done.
  destruct (set_bucket_ok h i b ((k, v) :: b) rest (h.(size) + 1)) as [Hok' Hm];
    try done; try lia.
  { intros k' v' [[= -> ->]|Hin]%elem_of_cons; [done|].
    by apply (ok_place _ Hok i b k' v' Hb). }
  { cbn. constructor; [|done]. by apply not_elem_of_list_to_map. }
  { rewrite Hs, Hp. cbn. lia. }
Qed.

(** *** Growing *)

Lemma hash_init_ok vsize n ms :
  0 <= n < 63 ->
  fst (malloc ms) = true ->
  exists h, sqfs_hash_init vsize (2 ^ n) ms = (SQFS_OK, h, snd (malloc ms)) /\
    hash_ok h /\ hash_map h = ∅ /\ h.(capacity) = 2 ^ n /\ h.(size) = 0.
Proof.
  intros Hn Hms. unfold sqfs_hash_init.
  assert (0 < 2 ^ n) by (apply Z.pow_pos_nonneg; lia).
  assert (2 ^ n < 2 ^ 64) by (apply Z.pow_lt_mono_r; lia).
  rewrite (wrap_small 64), land_ones_wrap by lia. unfold wrap at 1.
  rewrite Z_mod_same_full. cbn.
  destruct (malloc ms) as [ok ms']. cbn in *. subst ok.
  eexists; split; [done|].
  assert (forall m, concat (replicate m ([] : list (Z * V))) = []) as Hnil.
  { induction m; cbn; auto. }
  split; [split; cbn|unfold hash_map, entries; cbn; rewrite Hnil; done].
  - by exists n.
  - rewrite length_replicate. lia.
  - intros i b k v [-> _]%lookup_replicate Hin. by apply not_elem_of_nil in Hin.
  - unfold entries; cbn. rewrite Hnil. constructor.
  - unfold entries; cbn. by rewrite Hnil.
  - lia.
Qed.

Lemma rehash_concat ob err h ms :
  rehash ob err h ms = rehash_chain (concat ob) err h ms.
Proof.
  assert (forall b1 b2 err h ms, rehash_chain (b1 ++ b2) err h ms =
    ('(err, h, ms) ← rehash_chain b1 err h ms; rehash_chain b2 err h ms)) as Happ.
  { clear. induction b1 as [|[k v] b1 IH]; intros b2 err h ms; cbn; [done|].
    destruct err; try apply IH.
    destruct (sqfs_hash_add_internal h k v ms) as [[[err' h'] ms']|]; cbn; [apply IH|done]. }
  revert err h ms. induction ob as [|b ob IH]; intros err h ms; cbn; [done|].
  rewrite Happ. destruct (rehash_chain b err h ms) as [[[err' h'] ms']|]; cbn; auto.
Qed.

(** Without allocation failure every node of the old chains is added. *)
Lemma rehash_chain_map l h :
  hash_ok h -> NoDup l.*1 -> (forall k, k ∈ l.*1 -> hash_map h !! k = None) ->
  h.(size) + len l <= h.(capacity) ->
  exists h', rehash_chain l SQFS_OK h [] = Ret (SQFS_OK, h', []) /\ hash_ok h' /\
    hash_map h' = list_to_map l ∪ hash_map h /\
    h'.(capacity) = h.(capacity) /\ h'.(size) = h.(size) + len l.
Proof.
  revert h. induction l as [|[k v] l IH]; intros h Hok Hnd Hfresh Hcap;
    cbn [rehash_chain].
  - exists h. cbn. by rewrite Z.add_0_r, (left_id_L ∅ (∪)).
  - cbn in Hcap, Hnd. inversion_clear Hnd as [|?? Hk Hnd'].
    destruct (hash_add_internal_map h k v []) as [_ (h1 & E & Hok1 & Hm1 & Hc1 & Hs1)];
      [done|apply Hfresh; by left|lia|done|].
    rewrite E. cbn [mbind outcome_bind snd malloc].
    destruct (IH h1) as (h' & E' & Hok' & Hm' & Hc' & Hs'); try done; [|lia|].
    { intros k' Hk'. rewrite Hm1, lookup_insert_ne by (by intros ->).
      apply Hfresh. by right. }
    exists h'. rewrite E'. split; [done|]. split; [done|].
    cbn. split; [|lia]. rewrite Hm', Hm1. rewrite <- insert_union_r, insert_union_l; [done|].
    by apply not_elem_of_list_to_map.
Qed.

Lemma hash_double_map h :
  hash_ok h -> h.(capacity) < 2 ^ 62 ->
  exists h', sqfs_hash_double h [] = Ret (SQFS_OK, h', []) /\ hash_ok h' /\
    hash_map h' = hash_map h /\
    h'.(capacity) = 2 * h.(capacity) /\ h'.(size) = h.(size).
Proof.
  intros Hok Hmax. unfold sqfs_hash_double.
  destruct (ok_capacity _ Hok) as (n & Hn & Hc).
  assert (2 ^ n < 2 ^ 62) as Hn'%Z.pow_lt_mono_r_iff by lia; [|lia..].
  assert (u64 (h.(capacity) * 2) = 2 ^ (n + 1)) as ->.
  { rewrite wrap_small by lia. rewrite Hc, Z.pow_add_r by lia. done. }
  destruct (hash_init_ok h.(value_size) (n + 1) []) as (h0 & E & Hok0 & Hm0 & Hc0 & Hs0);
    [lia|done|].
  rewrite E. cbn [fst snd malloc].
  rewrite take_ge by (pose proof (ok_length _ Hok); lia).
  rewrite rehash_concat.
  pose proof (ok_size _ Hok). pose proof (ok_load _ Hok).
  rewrite Z.pow_add_r in Hc0 by lia.
  destruct (rehash_chain_map (entries h) h0) as (h' & E' & Hok' & Hm' & Hc' & Hs');
    try done; try lia.
  { apply (ok_nodup _ Hok). }
  { intros k _. by rewrite Hm0. }
  exists h'. unfold entries in E'. rewrite E'. split; [done|]. split; [done|]. split; [|lia].
  rewrite Hm', Hm0, (right_id_L ∅ (∪)). done.
Qed.

Lemma hash_add_map h k v :
  hash_ok h -> hash_map h !! k = None -> h.(capacity) < 2 ^ 62 ->
  exists h', sqfs_hash_add h k v [] = Ret (SQFS_OK, h', []) /\ hash_ok h' /\
    hash_map h' = <[k := v]> (hash_map h) /\
    h'.(capacity) <= Z.max h.(capacity) (2 * h.(size)) /\ h'.(size) = h.(size) + 1.
Proof.
  intros Hok Hk Hmax. unfold sqfs_hash_add.
  pose proof (ok_load _ Hok). pose proof (ok_size _ Hok).
  destruct (Z.leb_spec h.(capacity) h.(size)).
  - destruct (hash_double_map h Hok Hmax) as (h1 & -> & Hok1 & Hm1 & Hc1 & Hs1). cbn.
    destruct (ok_capacity _ Hok) as (n & Hn & Hc).
    assert (0 < 2 ^ n) by (apply Z.pow_pos_nonneg; lia).
    destruct (hash_add_internal_map h1 k v []) as [_ (h2 & E & Hok2 & Hm2 & Hc2 & Hs2)];
      try done; [by rewrite Hm1|lia|].
    exists h2. rewrite Hm2, Hm1. split; [done|]. repeat split; try done; try lia; apply Hok2.
  - destruct (hash_add_internal_map h k v []) as [_ (h2 & E & Hok2 & Hm2 & Hc2 & Hs2)];
      try done; try lia.
    exists h2. repeat split; try done; try lia; apply Hok2.
Qed.

(** *** Refinement: any sequence of operations against a finite map

    [MAdd] is only specified for a key that is absent, as the callers use it. *)
Inductive map_op := MGet (k : Z) | MAdd (k : Z) (v : V) | MUpdate (k : Z) (v : V)
  | MRemove (k : Z).

(** The specification: the new map and the answer; [None] outside the contract. *)
Definition spec_step (m : gmap Z V) (o : map_op) : option (gmap Z V * option V) :=
  match o with
  | MGet k => Some (m, m !! k)
  | MAdd k v => match m !! k with None => Some (<[k := v]> m, None) | Some _ => None end
  | MUpdate k v => match m !! k with Some _ => Some (<[k := v]> m, None) | None => None end
  | MRemove k => Some (delete k m, None)
  end.

Fixpoint spec_run (m : gmap Z V) (ops : list map_op) : option (gmap Z V * list (option V)) :=
  match ops with
  | [] => Some (m, [])
  | o :: ops =>
      '(m, a) ← spec_step m o;
      '(m, l) ← spec_run m ops;
      Some (m, a :: l)
  end.

Definition hash_step (h : sqfs_hash) (o : map_op) : outcome (sqfs_hash * option V) :=
  match o with
  | MGet k => a ← sqfs_hash_get h k; Ret (h, a)
  | MAdd k v => '(_, h, _) ← sqfs_hash_add h k v []; Ret (h, None)
  | MUpdate k v => h ← sqfs_hash_update h k v; Ret (h, None)
  | MRemove k => '(_, h) ← sqfs_hash_remove h k; Ret (h, None)
  end.

Fixpoint hash_run (h : sqfs_hash) (ops : list map_op) : outcome (sqfs_hash * list (option V)) :=
  match ops with
  | [] => Ret (h, [])
  | o :: ops =>
      '(h, a) ← hash_step h o;
      '(h, l) ← hash_run h ops;
      Ret (h, a :: l)
  end.

Lemma hash_step_refines h o m' a bound :
  hash_ok h -> spec_step (hash_map h) o = Some (m', a) ->
  Z.max h.(capacity) (2 * (h.(size) + 1)) <= bound -> bound < 2 ^ 62 ->
  exists h', hash_step h o = Ret (h', a) /\ hash_ok h' /\ hash_map h' = m' /\
    h'.(capacity) <= bound /\ h'.(size) <= h.(size) + 1.
Proof.
  intros Hok Hs Hb Hmax. destruct o as [k|k v|k v|k]; cbn in *.
  - simplify_eq. rewrite hash_get_map by done. cbn. exists h. repeat split; auto; try lia;
      apply Hok.
  - destruct (hash_map h !! k) eqn:Hk; simplify_eq.
    destruct (hash_add_map h k v) as (h' & -> & Hok' & Hm' & Hc' & Hs'); try done; [lia|].
    cbn. exists h'. repeat split; try done; try lia; apply Hok'.
  - destruct (hash_map h !! k) eqn:Hk; simplify_eq.
    destruct (hash_update_map h k v) as (h' & -> & Hok' & Hm' & Hc' & Hs'); [done..|].
    cbn. exists h'. repeat split; try done; try lia; apply Hok'.
  - simplify_eq. destruct (hash_remove_map h k Hok) as (h' & -> & Hok' & Hm' & Hc' & Hs').
    cbn. exists h'. repeat split; try done; try lia; apply Hok'.
Qed.

(** C17: the hash table implements a finite map.  Over any sequence of look-ups,
    additions of absent keys, in-place updates of present ones and removals, with
    memory available, the table never crashes, answers as the map does, and ends
    representing the map the sequence leads to, through however many doublings. *)
Theorem sqfs_hash_refines_map (ops : list map_op) (h : sqfs_hash) (m' : gmap Z V)
    (out : list (option V)) :
  hash_ok h -> spec_run (hash_map h) ops = Some (m', out) ->
  Z.max h.(capacity) (2 * (h.(size) + len ops)) < 2 ^ 62 ->
  exists h', hash_run h ops = Ret (h', out) /\ hash_ok h' /\ hash_map h' = m'.
Proof.
  remember (Z.max h.(capacity) (2 * (h.(size) + len ops))) as bound eqn:Eb.
  intros Hok Hrun Hmax. assert (Z.max h.(capacity) (2 * (h.(size) + len ops)) <= bound)
    as Hb by lia. clear Eb.
  revert h m' out Hok Hrun Hb. induction ops as [|o ops IH]; intros h m' out Hok Hrun Hb.
  - cbn in *. simplify_eq. by exists h.
  - cbn in Hrun. destruct (spec_step (hash_map h) o) as [[m1 a]|] eqn:E1; [|done].
    cbn in Hrun. destruct (spec_run m1 ops) as [[m2 l]|] eqn:E2; [|done].
    cbn in Hrun. simplify_eq. cbn [length] in Hb.
    destruct (hash_step_refines h o m1 a bound) as (h1 & E & Hok1 & <- & Hc1 & Hs1);
      try done; [lia|].
    destruct (IH h1 m' l) as (h2 & E' & Hok2 & Hm2); [done..|lia|].
    exists h2. cbn. rewrite E. cbn. rewrite E'. done.
Qed.

(** A cleared table has no bucket to look into. *)
Lemma hash_zero_get k : sqfs_hash_get (hash_zero : sqfs_hash) k = Crash MemFault.
Proof. unfold sqfs_hash_get, bucket, zlookup. cbn. zbool; done || lia. Qed.

(** when the table is full and the allocation inside [sqfs_hash_double] fails,
    [sqfs_hash_add] reports [SQFS_ERR] but has already cleared the table: the old
    entries are gone and every later look-up reads through a null bucket array. *)
Theorem sqfs_hash_add_failure_destroys (h : sqfs_hash) (k : Z) (v : V) (ms : mallocs) :
  hash_ok h -> h.(size) = h.(capacity) -> h.(capacity) < 2 ^ 62 ->
  sqfs_hash_add h k v (false :: ms) = Ret (SQFS_ERR, hash_zero, ms) /\
  (forall k', sqfs_hash_get (hash_zero : sqfs_hash) k' = Crash MemFault).
Proof.
  intros Hok Hfull Hmax. split.
  2: { intros k'. apply hash_zero_get. }
  unfold sqfs_hash_add. rewrite Hfull, Z.leb_refl. unfold sqfs_hash_double, sqfs_hash_init.
  destruct (ok_capacity _ Hok) as (n & Hn & Hc).
  assert (2 ^ n < 2 ^ 62) as Hn'%Z.pow_lt_mono_r_iff by lia; [|lia..].
  assert (0 < 2 ^ n) by (apply Z.pow_pos_nonneg; lia).
  assert (u64 (h.(capacity) * 2) = 2 ^ (n + 1)) as ->.
  { rewrite wrap_small by lia. rewrite Hc, Z.pow_add_r by lia. done. }
  assert (0 < 2 ^ (n + 1) < 2 ^ 64) by (split; [apply Z.pow_pos_nonneg|apply Z.pow_lt_mono_r]; lia).
  rewrite (wrap_small 64), land_ones_wrap by lia. unfold wrap.
  rewrite Z_mod_same_full. done.
Qed.
End hash.
Arguments sqfs_hash : clear implicits.

(** ** Witnesses *)

(** Two entries in a table of capacity 2 (keys 5 and 8): full. *)
Definition sample_hash : sqfs_hash Z :=
  {| value_size := 12; capacity := 2; size := 2; buckets := [[(8, 80)]; [(5, 50)]] |}.

Lemma sample_hash_ok : hash_ok sample_hash.
Proof.
  split; cbn; try done.
  - exists 1. split; [lia|done].
  - intros [|[|i]] b k v Hb Hin; cbn in Hb; simplify_eq;
      apply list_elem_of_singleton in Hin; by simplify_eq.
  - repeat (constructor; [set_solver|]). constructor.
Qed.

Lemma sqfs_hash_refines_map_witness :
  exists h', hash_run sample_hash [MAdd 9 90; MGet 5; MRemove 5; MGet 5; MGet 9]
      = Ret (h', [None; Some 50; None; None; Some 90]) /\ hash_ok h' /\
    hash_map h' = <[8 := 80]> {[9 := 90]}.
Proof.
  apply (sqfs_hash_refines_map [MAdd 9 90; MGet 5; MRemove 5; MGet 5; MGet 9]
    sample_hash); [exact sample_hash_ok|vm_compute; reflexivity|vm_compute; reflexivity].
Defined.

Lemma sqfs_hash_add_failure_destroys_witness :
  sqfs_hash_add sample_hash 9 90 [false] = Ret (SQFS_ERR, hash_zero, []).
Proof.
  apply (sqfs_hash_add_failure_destroys sample_hash 9 90 []);
    [exact sample_hash_ok|reflexivity|reflexivity].
Defined.
