(* ===== verification/Cache.v ===== *)
(** * Cache: the interface of cache.h and its two implementations

    [CacheImpl] is cache.h: a cache of values of any type [V], whose entries are
    handed out by index.  [sqfs_cache_get] may dispose of an entry: the callback
    works on the state [S] of the caller.  [CacheLaws] is what the clients (fs.c,
    file.c) rely on.  [CacheST] is cache.c (linear search, eviction in turn);
    [CacheMT] is cache_mt.c (hashed slots, one mutex per slot), seen from one
    thread. *)
From S2P Require Import Prelude.

(** ** The interface *)
Class CacheImpl := {
  cache : Type -> Type;
  (** The NULL of a [struct sqfs] whose cache is not initialised. *)
  cache_null {V} : cache V;
  (** [sqfs_cache_init]: [zero] is the value [calloc] leaves in the entries. *)
  cache_init {V} (zero : V) (count : Z) (ms : mallocs) : result (cache V) * mallocs;
  cache_destroy {V S} (dispose : V -> S -> outcome S) (c : cache V) (st : S) : outcome S;
  cache_get {V S} (dispose : V -> S -> outcome S) (c : cache V) (idx : Z) (st : S) :
    outcome (S * (cache V * Z));
  cache_entry_valid {V} (c : cache V) (e : Z) : outcome bool;
  cache_entry_mark_valid {V} (c : cache V) (e : Z) : outcome (cache V);
  cache_put {V} (c : cache V) (e : Z) : outcome (cache V);
  (** The caller's accesses through the entry pointer. *)
  cache_data {V} (c : cache V) (e : Z) : outcome V;
  cache_set_data {V} (c : cache V) (e : Z) (v : V) : outcome (cache V);
  (** The numbers of entries configured with the implementation. *)
  SQUASHFS_CACHED_BLKS : Z;
  DATA_CACHED_BLKS : Z;
  FRAG_CACHED_BLKS : Z
}.

Definition dispose_opt {V S} (dispose : V -> S -> outcome S) (ev : option (Z * V))
    (st : S) : outcome S :=
  match ev with Some (_, v) => dispose v st | None => Ret st end.

Fixpoint dispose_all {V S} (dispose : V -> S -> outcome S) (l : list (Z * V))
    (st : S) : outcome S :=
  match l with
  | [] => Ret st
  | (_, v) :: l => st ← dispose v st; dispose_all dispose l st
  end.

Class CacheLaws `(CacheImpl) := {
  (** The (key, value) pairs of the valid entries. *)
  cache_entries {V} : cache V -> list (Z * V);
  (** No entry is handed out. *)
  cache_quiet {V} : cache V -> Prop;
  (** Entry [e] is handed out for key [idx]. *)
  cache_holding {V} : cache V -> Z -> Z -> Prop;
  law_counts : 0 < SQUASHFS_CACHED_BLKS /\ 0 < DATA_CACHED_BLKS /\ 0 < FRAG_CACHED_BLKS;
  law_null {V} :
    cache_entries (@cache_null _ V) = [] /\
    (forall S (dispose : V -> S -> outcome S) idx st,
      cache_get dispose cache_null idx st = Crash MemFault) /\
    (forall S (dispose : V -> S -> outcome S) st, cache_destroy dispose cache_null st = Ret st);
  law_init {V} (zero : V) count ms c ms' :
    0 < count -> cache_init zero count ms = (Success c, ms') ->
    cache_quiet c /\ cache_entries c = [];
  law_init_fail {V} (zero : V) count ms e ms' :
    cache_init zero count ms = (Failure e, ms') -> e = SQFS_ERR /\ ms <> [];
  law_init_nil {V} (zero : V) count : exists c, cache_init zero count [] = (Success c, []);
  law_destroy {V S} (dispose : V -> S -> outcome S) c st :
    cache_quiet c ->
    cache_destroy dispose c st = dispose_all dispose (cache_entries c) st;
  law_get {V} (c : cache V) idx :
    cache_quiet c ->
    exists c' e ev b,
      (forall S (dispose : V -> S -> outcome S) st,
        cache_get dispose c idx st = (st ← dispose_opt dispose ev st; Ret (st, (c', e)))) /\
      cache_holding c' e idx /\
      cache_entries c ≡ₚ option_list ev ++ cache_entries c' /\
      cache_entry_valid c' e = Ret b /\
      (b = true -> exists v, cache_data c' e = Ret v /\ (idx, v) ∈ cache_entries c');
  law_put {V} (c : cache V) e idx :
    cache_holding c e idx ->
    exists c', cache_put c e = Ret c' /\ cache_quiet c' /\
      cache_entries c' = cache_entries c;
  law_fill {V} (c : cache V) e idx v :
    cache_holding c e idx -> cache_entry_valid c e = Ret false ->
    exists c1 c2, cache_set_data c e v = Ret c1 /\
      cache_entry_mark_valid c1 e = Ret c2 /\
      cache_holding c2 e idx /\ cache_data c2 e = Ret v /\
      cache_entries c2 ≡ₚ (idx, v) :: cache_entries c
}.
