(* ===== verification/CacheST.v ===== *)
(** * CacheST: cache.c, the cache of the single-threaded build

    An entry is its header ([valid], [idx]) and its data.  [ndebug] tells whether
    the build compiles the assertions out. *)
From S2P Require Import Prelude Cache.

Record sqfs_cache_entry (V : Type) := mk_entry {
  valid : bool;
  idx : Z;
  data : V
}.
Arguments mk_entry {V}.
Arguments valid {V}.
Arguments idx {V}.
Arguments data {V}.

Record sqfs_cache_internal (V : Type) := mk_cache {
  buf : list (sqfs_cache_entry V);
  count : Z;
  next : Z  (* next block to evict *)
}.
Arguments mk_cache {V}.
Arguments buf {V}.
Arguments count {V}.
Arguments next {V}.

Section cache.
Context (ndebug : bool).
Context {V : Type}.
Implicit Types (c : sqfs_cache_internal V) (h : sqfs_cache_entry V).

(** Two allocations: the structure and the zeroed entries. *)
Definition sqfs_cache_init (zero : V) (n : Z) (ms : mallocs)
    : result (sqfs_cache_internal V) * mallocs :=
  let (ok, ms) := malloc ms in
  if negb ok then (Failure SQFS_ERR, ms)
  else
    let (ok, ms) := malloc ms in
    if ok then
      (Success (mk_cache (replicate (Z.to_nat n) (mk_entry false 0 zero)) n 0), ms)
    else (Failure SQFS_ERR, ms).

Definition sqfs_cache_entry_header c (i : Z) : outcome (sqfs_cache_entry V) :=
  match zlookup c.(buf) i with Some h => Ret h | None => Crash MemFault end.

Definition set_header c (i : Z) h : sqfs_cache_internal V :=
  mk_cache (zinsert i h c.(buf)) c.(count) c.(next).

Fixpoint dispose_valid {S} (dispose : V -> S -> outcome S)
    (l : list (sqfs_cache_entry V)) (st : S) : outcome S :=
  match l with
  | [] => Ret st
  | h :: l => st ← (if h.(valid) then dispose h.(data) st else Ret st);
              dispose_valid dispose l st
  end.

Definition sqfs_cache_destroy {S} (dispose : V -> S -> outcome S) c (st : S)
    : outcome S :=
  dispose_valid dispose (take (Z.to_nat c.(count)) c.(buf)) st.

(** The search loop of [sqfs_cache_get]: the first entry with this key. *)
Fixpoint search (l : list (sqfs_cache_entry V)) (key : Z) (i : Z)
    : option (Z * sqfs_cache_entry V) :=
  match l with
  | [] => None
  | h :: l => if h.(idx) =? key then Some (i, h) else search l key (i + 1)
  end.

Definition sqfs_cache_get {S} (dispose : V -> S -> outcome S) c (key : Z) (st : S)
    : outcome (S * (sqfs_cache_internal V * Z)) :=
  match search (take (Z.to_nat c.(count)) c.(buf)) key 0 with
  | Some (i, h) =>
      if ndebug || h.(valid) then Ret (st, (c, i)) else Crash AssertFail
  | None =>
      let i := c.(next) in
      let c := mk_cache c.(buf) c.(count) (u64 (c.(next) + 1) mod c.(count)) in
      h ← sqfs_cache_entry_header c i;
      st ← (if h.(valid) then dispose h.(data) st else Ret st);
      Ret (st, (set_header c i (mk_entry false key h.(data)), i))
  end.

Definition sqfs_cache_entry_valid c (e : Z) : outcome bool :=
  h ← sqfs_cache_entry_header c e; Ret h.(valid).

Definition sqfs_cache_entry_mark_valid c (e : Z) : outcome (sqfs_cache_internal V) :=
  h ← sqfs_cache_entry_header c e;
  if ndebug || negb h.(valid)
  then Ret (set_header c e (mk_entry true h.(idx) h.(data)))
  else Crash AssertFail.

(** Nothing: there is no locking in the single-threaded implementation. *)
Definition sqfs_cache_put c (e : Z) : outcome (sqfs_cache_internal V) := Ret c.

Definition sqfs_cache_data c (e : Z) : outcome V :=
  h ← sqfs_cache_entry_header c e; Ret h.(data).

Definition sqfs_cache_set_data c (e : Z) (v : V) : outcome (sqfs_cache_internal V) :=
  h ← sqfs_cache_entry_header c e;
  Ret (set_header c e (mk_entry h.(valid) h.(idx) v)).
End cache.

Definition cache_st (ndebug : bool) : CacheImpl := {|
  cache := sqfs_cache_internal;
  cache_null V := mk_cache [] 0 0;
  cache_init := @sqfs_cache_init;
  cache_destroy := @sqfs_cache_destroy;
  cache_get := @sqfs_cache_get ndebug;
  cache_entry_valid := @sqfs_cache_entry_valid;
  cache_entry_mark_valid := @sqfs_cache_entry_mark_valid ndebug;
  cache_put := @sqfs_cache_put;
  cache_data := @sqfs_cache_data;
  cache_set_data := @sqfs_cache_set_data;
  SQUASHFS_CACHED_BLKS := 8;
  DATA_CACHED_BLKS := 1;
  FRAG_CACHED_BLKS := 3
|}.

(** ** The laws, in the build without assertions *)
Section laws.
Context {V : Type}.
Implicit Types (c : sqfs_cache_internal V) (h : sqfs_cache_entry V).

Definition entry_pair h : option (Z * V) :=
  if h.(valid) then Some (h.(idx), h.(data)) else None.

Definition st_entries c : list (Z * V) := omap entry_pair c.(buf).

Definition st_wf c : Prop := len c.(buf) = c.(count) /\ 0 <= c.(next) < c.(count).

Definition st_holding c (e key : Z) : Prop :=
  st_wf c /\ exists h, zlookup c.(buf) e = Some h /\ h.(idx) = key.

Lemma search_spec l key i :
  match search l key i with
  | Some (j, h) => i <= j < i + len l /\ l !! Z.to_nat (j - i) = Some h /\ h.(idx) = key
  | None => forall h, h ∈ l -> h.(idx) <> key
  end.
Proof.
  revert i. induction l as [|h l IH]; intros i; cbn [search].
  { intros h Hin. by apply not_elem_of_nil in Hin. }
  zbool.
  - rewrite Z.sub_diag. cbn. split; [lia|done].
  - specialize (IH (i + 1)). destruct (search l key (i + 1)) as [[j h']|].
    + destruct IH as (Hj & Hl & Hk). cbn [length]. split; [lia|]. split; [|done].
      replace (Z.to_nat (j - i)) with (S (Z.to_nat (j - (i + 1)))) by lia. done.
    + intros h' [->|Hin]%elem_of_cons; auto.
Qed.

(** Replacing entry [e] touches no other entry. *)
Lemma set_header_entries c e h h' :
  zlookup c.(buf) e = Some h ->
  exists rest, st_entries c ≡ₚ option_list (entry_pair h) ++ rest /\
    st_entries (set_header c e h') ≡ₚ option_list (entry_pair h') ++ rest.
Proof.
  intros Hl. assert (0 <= e < len c.(buf)) as He by (apply zlookup_is_Some; eauto).
  rewrite zlookup_lookup in Hl by lia.
  exists (omap entry_pair (take (Z.to_nat e) c.(buf)) ++
          omap entry_pair (drop (S (Z.to_nat e)) c.(buf))).
  assert (forall h0, omap entry_pair (take (Z.to_nat e) (buf c) ++ h0 :: drop (S (Z.to_nat e)) (buf c))
     ≡ₚ option_list (entry_pair h0) ++ omap entry_pair (take (Z.to_nat e) (buf c)) ++
        omap entry_pair (drop (S (Z.to_nat e)) (buf c))) as Hp.
  { intros h0. rewrite omap_app. cbn. destruct (entry_pair h0); cbn; [|done].
    by rewrite Permutation_middle. }
  unfold st_entries, set_header; cbn. split.
  - rewrite <- (take_drop_middle _ _ _ Hl) at 1. apply Hp.
  - rewrite zinsert_insert, insert_take_drop by lia. apply Hp.
Qed.

Lemma set_header_holding c e h key :
  st_wf c -> 0 <= e < c.(count) -> h.(idx) = key -> st_holding (set_header c e h) e key.
Proof.
  intros [Hl Hn] He Hk. split.
  - unfold st_wf; cbn. by rewrite zinsert_length.
  - exists h. cbn. rewrite zlookup_zinsert_eq by lia. done.
Qed.

Lemma st_init zero n ms c ms' :
  0 < n -> sqfs_cache_init zero n ms = (Success c, ms') ->
  st_wf c /\ st_entries c = [].
Proof.
  intros Hn. unfold sqfs_cache_init.
  destruct (malloc ms) as [[] ms1]; cbn; [|done].
  destruct (malloc ms1) as [[] ms2]; intros [= <- _]. unfold st_wf, st_entries; cbn.
  rewrite length_replicate. split; [lia|].
  induction (Z.to_nat n) as [|m IH]; [done|]. apply IH.
Qed.

Lemma st_init_fail (zero : V) n ms e ms' :
  sqfs_cache_init zero n ms = (Failure e, ms') -> e = SQFS_ERR /\ ms <> [].
Proof.
  unfold sqfs_cache_init. destruct ms as [|[] [|[] ms]]; cbn; by intros [= <- _].
Qed.

Lemma st_destroy {S} (dispose : V -> S -> outcome S) c st :
  st_wf c -> sqfs_cache_destroy dispose c st = dispose_all dispose (st_entries c) st.
Proof.
  intros [Hl _]. unfold sqfs_cache_destroy, st_entries. rewrite take_ge by lia. clear.
  revert st. induction (buf c) as [|h l IH]; intros st; [done|].
  cbn [dispose_valid omap list_omap]. unfold entry_pair at 1.
  destruct (valid h); cbn; [|apply IH].
  destruct (dispose (data h) st); cbn; [apply IH|done].
Qed.

Lemma st_get c key :
  st_wf c ->
  exists c' e ev b,
    (forall S (dispose : V -> S -> outcome S) st,
      sqfs_cache_get true dispose c key st =
        (st ← dispose_opt dispose ev st; Ret (st, (c', e)))) /\
    st_holding c' e key /\
    st_entries c ≡ₚ option_list ev ++ st_entries c' /\
    sqfs_cache_entry_valid c' e = Ret b /\
    (b = true -> exists v, sqfs_cache_data c' e = Ret v /\ (key, v) ∈ st_entries c').
Proof.
  intros Hwf. pose proof Hwf as [Hl Hn]. unfold sqfs_cache_get.
  rewrite take_ge by lia. pose proof (search_spec c.(buf) key 0) as Hs.
  destruct (search _ key 0) as [[i h]|].
  - destruct Hs as (Hi & Hlk & Hk). rewrite Z.sub_0_r in Hlk.
    assert (zlookup c.(buf) i = Some h) as Hz by (rewrite zlookup_lookup by lia; done).
    exists c, i, None, h.(valid). cbn. split; [done|]. split; [split; eauto|].
    split; [done|]. unfold sqfs_cache_entry_valid, sqfs_cache_data, sqfs_cache_entry_header.
    rewrite Hz. split; [done|]. intros Hv. exists h.(data). split; [done|].
    apply list_elem_of_omap. exists h. split; [by apply list_elem_of_lookup_2 in Hlk|].
    unfold entry_pair. by rewrite Hv, Hk.
  - destruct (zlookup_is_Some c.(buf) c.(next)) as [_ [h Hh]]; [lia|].
    set (c0 := mk_cache c.(buf) c.(count) (u64 (c.(next) + 1) mod c.(count))).
    assert (st_wf c0) as Hwf0.
    { split; [done|]. cbn. apply Z.mod_pos_bound. lia. }
    destruct (set_header_entries c0 c.(next) h (mk_entry false key h.(data)) Hh)
      as (rest & Hp & Hp').
    exists (set_header c0 c.(next) (mk_entry false key h.(data))), c.(next),
      (entry_pair h), false.
    split; [|split; [|split; [|split]]]; try done.
    + intros S dispose st. unfold sqfs_cache_entry_header; cbn. rewrite Hh. cbn.
      unfold entry_pair. by destruct (valid h).
    + by apply set_header_holding.
    + rewrite Hp'. cbn. apply Hp.
    + unfold sqfs_cache_entry_valid, sqfs_cache_entry_header. cbn.
      rewrite zlookup_zinsert_eq by lia. done.
Qed.

Lemma st_fill c e key v :
  st_holding c e key -> sqfs_cache_entry_valid c e = Ret false ->
  exists c1 c2, sqfs_cache_set_data c e v = Ret c1 /\
    sqfs_cache_entry_mark_valid true c1 e = Ret c2 /\
    st_holding c2 e key /\ sqfs_cache_data c2 e = Ret v /\
    st_entries c2 ≡ₚ (key, v) :: st_entries c.
Proof.
  intros [Hwf (h & Hh & Hk)] Hv. pose proof Hwf as [Hl _].
  assert (0 <= e < len c.(buf)) as He by (apply zlookup_is_Some; eauto).
  unfold sqfs_cache_entry_valid, sqfs_cache_set_data, sqfs_cache_entry_mark_valid,
    sqfs_cache_data, sqfs_cache_entry_header in *.
  rewrite Hh in *. cbn in Hv. injection Hv as Hv.
  destruct (set_header_entries c e h (mk_entry (valid h) (idx h) v) Hh) as (rest & Hp & Hp1).
  set (c1 := set_header c e (mk_entry (valid h) (idx h) v)) in *.
  assert (zlookup c1.(buf) e = Some (mk_entry (valid h) (idx h) v)) as Hh1
    by (cbn; by apply zlookup_zinsert_eq).
  destruct (set_header_entries c1 e _ (mk_entry true (idx h) v) Hh1) as (rest' & Hp2 & Hp3).
  destruct (set_header_holding c e (mk_entry (valid h) (idx h) v) key Hwf) as [Hwf1 _];
    [lia|done|].
  exists c1, (set_header c1 e (mk_entry true (idx h) v)).
  split; [done|]. rewrite Hh1. split; [done|].
  split; [apply set_header_holding; [done|cbn; lia|done]|].
  cbn [buf set_header]. rewrite zlookup_zinsert_eq by (cbn; rewrite zinsert_length; lia).
  split; [done|]. rewrite Hp3. unfold entry_pair in *. cbn in *. rewrite Hv in *. cbn in *.
  rewrite Hp, Hk, <- Hp1, Hp2. done.
Qed.
End laws.

#[global, program] Instance cache_st_laws : CacheLaws (cache_st true) := {|
  cache_entries := @st_entries;
  cache_quiet := @st_wf;
  cache_holding := @st_holding;
  law_init := @st_init;
  law_init_fail := @st_init_fail;
  law_init_nil V zero n := ex_intro _ _ eq_refl;
  law_destroy := @st_destroy;
  law_get := @st_get;
  law_fill := @st_fill
|}.
Next Obligation. done. Qed.
Next Obligation. done. Qed.
Next Obligation. intros V c e key [Hwf _]. by exists c. Qed.

(** ** Retention, and the assertion of [sqfs_cache_get] *)
Section behaviour.
Context {V : Type}.
Implicit Types (c : sqfs_cache_internal V).

Context (ndebug : bool).

(** A client of the cache, as [sqfs_md_cache] and its likes in fs.c: it gets an entry, fills
    it and marks it when it is not valid (here that does not fail), and puts it. *)
Definition use c (key : Z) (v : V) : outcome (sqfs_cache_internal V * Z) :=
  '(_, (c, e)) ← sqfs_cache_get ndebug (fun _ (u : unit) => Ret u) c key tt;
  ok ← sqfs_cache_entry_valid c e;
  c ← (if (ok : bool) then Ret c
       else c ← sqfs_cache_set_data c e v; sqfs_cache_entry_mark_valid ndebug c e);
  c ← sqfs_cache_put c e;
  Ret (c, e).

Fixpoint use_all c (l : list (Z * V)) : outcome (sqfs_cache_internal V) :=
  match l with
  | [] => Ret c
  | (key, v) :: l => '(c, _) ← use c key v; use_all c l
  end.

(** An entry that is not valid has the key zero, as [calloc] leaves it. *)
Definition stale_zero c : Prop :=
  forall i h, zlookup c.(buf) i = Some h -> h.(valid) = false -> h.(idx) = 0.

(** Where the assertions are compiled in they hold. *)
Definition asserted c (key : Z) : Prop := ndebug = true \/ stale_zero c /\ key <> 0.

(** How many misses from now until entry [e] is the one evicted. *)
Definition misses_left c (e : Z) : Z := (e - c.(next)) mod c.(count).

Lemma u64_next c : st_wf c -> c.(count) < 2 ^ 64 -> u64 (c.(next) + 1) = c.(next) + 1.
Proof. intros [_ Hn] Hc. apply wrap_small. lia. Qed.

(** A use either hits, and changes no entry but a filled one with the same key,
    or replaces exactly entry [next]. *)
Lemma use_step c key v :
  st_wf c -> c.(count) < 2 ^ 64 -> asserted c key ->
  exists c' e, use c key v = Ret (c', e) /\ st_wf c' /\ c'.(count) = c.(count) /\
    (stale_zero c -> stale_zero c' \/ ndebug = true) /\
    ((search c.(buf) key 0 <> None /\ c'.(next) = c.(next) /\
      forall i h, zlookup c.(buf) i = Some h -> h.(valid) = true ->
        zlookup c'.(buf) i = Some h) \/
     (search c.(buf) key 0 = None /\ e = c.(next) /\
      c'.(next) = (c.(next) + 1) mod c.(count) /\
      zlookup c'.(buf) e = Some (mk_entry true key v) /\
      forall i, i <> e -> zlookup c'.(buf) i = zlookup c.(buf) i)).
Proof.
  intros Hwf Hcnt Has. pose proof Hwf as [Hl Hn].
  assert (forall (l : list (sqfs_cache_entry V)) i j h, i <> j -> 0 <= i < len l ->
    zlookup (zinsert i h l) j = zlookup l j) as Hne.
  { intros l i j h Hij Hi. unfold zlookup. rewrite zinsert_length, zinsert_insert by done.
    case_match; [|done]. apply list_lookup_insert_ne. zbool; try done; lia. }
  unfold use, sqfs_cache_get. rewrite take_ge, u64_next by (done || lia).
  pose proof (search_spec c.(buf) key 0) as Hs.
  destruct (search (buf c) key 0) as [[i h]|].
  - destruct Hs as (Hi & Hlk & Hk). rewrite Z.sub_0_r in Hlk.
    assert (zlookup c.(buf) i = Some h) as Hz by (rewrite zlookup_lookup by lia; done).
    destruct (valid h) eqn:Hv.
    { rewrite orb_true_r. cbn. unfold sqfs_cache_entry_valid, sqfs_cache_entry_header. rewrite Hz. cbn. rewrite Hv.
      cbn. exists c, i. do 3 (split; [done|]). split; [by left|]. left. done. }
    assert (ndebug = true) as Hnd.
    { destruct Has as [?|[Hst Hk0]]; [done|]. destruct Hk0. rewrite <- Hk. by apply (Hst i). }
    rewrite Hnd. cbn. unfold sqfs_cache_entry_valid, sqfs_cache_entry_header. rewrite Hz. cbn. rewrite Hv. cbn.
    unfold sqfs_cache_set_data, sqfs_cache_entry_mark_valid, sqfs_cache_entry_header.
    rewrite Hz. cbn. rewrite zlookup_zinsert_eq by lia. cbn.
    eexists _, i. split; [done|]. split; [unfold st_wf; cbn; by rewrite !zinsert_length|].
    split; [done|]. split; [by right|]. left. split; [done|]. split; [done|]. cbn.
    intros j h' Hj Hv'. assert (i <> j) by congruence.
    rewrite !Hne; rewrite ?zinsert_length; auto; lia.
  - destruct (zlookup_is_Some c.(buf) c.(next)) as [_ [h Hh]]; [lia|].
    unfold sqfs_cache_entry_valid, sqfs_cache_set_data, sqfs_cache_entry_mark_valid,
      sqfs_cache_entry_header. cbn. rewrite Hh. cbn.
    assert ((if valid h then Ret () else Ret ()) = Ret ()) as -> by (by destruct (valid h)).
    cbn. rewrite !zlookup_zinsert_eq by (rewrite ?zinsert_length; lia). cbn.
    rewrite !zlookup_zinsert_eq by (rewrite ?zinsert_length; lia). cbn. rewrite orb_true_r.
    eexists _, c.(next). split; [done|]. split.
    { unfold st_wf; cbn. rewrite !zinsert_length. split; [done|].
      apply Z.mod_pos_bound. lia. }
    split; [done|]. split.
    { intros Hst. left. intros i h' Hi Hv'. destruct (decide (i = c.(next))) as [->|Hi'].
      - cbn in Hi. rewrite zlookup_zinsert_eq in Hi by (rewrite !zinsert_length; lia). by injection Hi as <-.
      - cbn in Hi. rewrite !Hne in Hi by (rewrite ?zinsert_length; auto; lia). by apply (Hst i). }
    right. cbn. do 3 (split; [done|]). split.
    + by rewrite zlookup_zinsert_eq by (rewrite !zinsert_length; lia).
    + intros i Hi. rewrite !Hne; rewrite ?zinsert_length; auto; lia.
Qed.

Lemma use_all_keeps l c e h :
  st_wf c -> c.(count) < 2 ^ 64 -> zlookup c.(buf) e = Some h -> h.(valid) = true ->
  Forall (fun p => ndebug = true \/ p.1 <> 0) l -> ndebug = true \/ stale_zero c ->
  len l <= misses_left c e ->
  exists c', use_all c l = Ret c' /\ zlookup c'.(buf) e = Some h.
Proof.
  revert c. induction l as [|[key v] l IH]; intros c Hwf Hcnt Hh Hv Hkeys Hst Hlen; [by exists c|].
  cbn [length] in Hlen. apply Forall_cons in Hkeys as [Hkey Hkeys]. cbn in Hkey.
  destruct (use_step c key v Hwf Hcnt) as (c1 & e1 & E & Hwf1 & Hc1 & Hst1 & Hcase); [unfold asserted; tauto|].
  assert (ndebug = true \/ stale_zero c1) as Hs1 by tauto.
  cbn. rewrite E. cbn. unfold misses_left in Hlen.
  destruct Hcase as [(_ & Hn1 & Hkeep)|(_ & -> & Hn1 & _ & Hkeep)].
  - apply IH; auto; [lia|]. unfold misses_left. rewrite Hn1, Hc1. lia.
  - destruct (decide (e = c.(next))) as [->|Hne].
    { rewrite Z.sub_diag, Zmod_0_l in Hlen. lia. }
    apply IH; auto; [lia| |].
    { by rewrite Hkeep. }
    unfold misses_left. rewrite Hn1, Hc1, Zminus_mod_idemp_r.
    pose proof Hwf as [_ Hn].
    replace (e - (next c + 1)) with ((e - next c) - 1) by lia.
    rewrite <- Zminus_mod_idemp_l, Z.mod_small; [lia|].
    pose proof (Z.mod_pos_bound (e - next c) (count c) ltac:(lia)). lia.
Qed.

(** C31: eviction in turn.  An entry that a client has filled on a miss is still there, with
    its value, after any uses of the cache by clients whose fills succeed, fewer than the
    number of entries: so in the build without assertions for whatever keys, and in the
    build with them for keys other than zero, on a cache whose entries that are not valid
    have the key zero, as a new one's have.  (There a use of the key zero would find such an
    entry, and [assert(hdr->valid)] ends the program: cache.c:112.) *)
Theorem sqfs_cache_retention (c : sqfs_cache_internal V) (key : Z) (v : V)
    (l : list (Z * V)) :
  st_wf c -> c.(count) < 2 ^ 64 -> search c.(buf) key 0 = None -> len l < c.(count) ->
  ndebug = true \/ stale_zero c /\ key <> 0 /\ Forall (fun p => p.1 <> 0) l ->
  exists c1 e c2, use c key v = Ret (c1, e) /\ use_all c1 l = Ret c2 /\
    zlookup c2.(buf) e = Some (mk_entry true key v).
Proof.
  intros Hwf Hcnt Hmiss Hlen Has. pose proof Hwf as [_ Hn].
  destruct (use_step c key v Hwf Hcnt) as (c1 & e & E & Hwf1 & Hc1 & Hst & [[? _]|Hcase]);
    [unfold asserted; tauto|done|].
  destruct Hcase as (_ & -> & Hn1 & Hz & _).
  destruct (use_all_keeps l c1 c.(next) (mk_entry true key v)) as (c2 & E2 & Hz2);
    try done; [lia| |tauto| |by exists c1, c.(next), c2].
  { destruct Has as [->|(_ & _ & Hkeys)]; [by apply Forall_true; left|].
    eapply Forall_impl; [exact Hkeys|]. by right. }
  unfold misses_left. rewrite Hn1, Hc1, Zminus_mod_idemp_r.
  replace (next c - (next c + 1)) with (c.(count) - 1 + (-1) * c.(count)) by lia.
  rewrite Z_mod_plus_full, Z.mod_small; lia.
Qed.
End behaviour.

Section failed.
Context {V : Type}.
Implicit Types (c : sqfs_cache_internal V).

(** in the build with assertions, a fill that fails poisons the key: the
    entry keeps its index without becoming valid, so the next [sqfs_cache_get] of
    the same key aborts, while the build without assertions hands the same entry
    out again.  A fresh cache is poisoned for key zero in the same way. *)
Theorem sqfs_cache_get_after_failed_fill (c : sqfs_cache_internal V) (key : Z)
    {S : Type} (dispose : V -> S -> outcome S) (st : S) (c1 : sqfs_cache_internal V)
    (e : Z) (st1 : S) :
  st_wf c -> sqfs_cache_get false dispose c key st = Ret (st1, (c1, e)) ->
  sqfs_cache_entry_valid c1 e = Ret false ->
  (c2 ← sqfs_cache_put c1 e; sqfs_cache_get false dispose c2 key st1) = Crash AssertFail /\
  (c2 ← sqfs_cache_put c1 e; sqfs_cache_get true dispose c2 key st1) = Ret (st1, (c1, e)).
Proof.
  intros Hwf Hget Hv. pose proof Hwf as [Hl Hn].
  unfold sqfs_cache_get in Hget. rewrite take_ge in Hget by lia.
  pose proof (search_spec c.(buf) key 0) as Hs.
  destruct (search c.(buf) key 0) as [[i h]|].
  - cbn in Hget. destruct Hs as (Hi & Hlk & _). rewrite Z.sub_0_r in Hlk.
    destruct (valid h) eqn:Hvh; simplify_eq/=.
    unfold sqfs_cache_entry_valid, sqfs_cache_entry_header in Hv.
    rewrite zlookup_lookup, Hlk in Hv by lia. cbn in Hv. congruence.
  - destruct (zlookup_is_Some c.(buf) c.(next)) as [_ [h Hh]]; [lia|].
    unfold sqfs_cache_entry_header in Hget. cbn in Hget. rewrite Hh in Hget. cbn in Hget.
    destruct (if valid h then _ else _) as [st'|]; cbn in Hget; simplify_eq.
    cbn. unfold sqfs_cache_get. cbn. rewrite take_ge by (rewrite zinsert_length; lia).
    pose proof (search_spec (zinsert (next c) (mk_entry false key (data h)) (buf c)) key 0) as Hs'.
    assert (zlookup (zinsert (next c) (mk_entry false key (data h)) (buf c)) (next c)
      = Some (mk_entry false key (data h))) as Hz by (apply zlookup_zinsert_eq; lia).
    rewrite zlookup_lookup in Hz by lia.
    destruct (search _ key 0) as [[i h']|].
    + destruct Hs' as (Hi & Hlk & Hk). rewrite Z.sub_0_r in Hlk.
      destruct (decide (i = c.(next))) as [->|Hne].
      { rewrite Hlk in Hz. injection Hz as ->. done. }
      rewrite zinsert_insert, list_lookup_insert_ne in Hlk by lia.
      destruct (Hs h'); [|done]. by apply list_elem_of_lookup_2 in Hlk.
    + destruct (Hs' (mk_entry false key (data h))); [|done].
      by apply list_elem_of_lookup_2 in Hz.
Qed.
End failed.

Definition sample_cache : sqfs_cache_internal Z :=
  mk_cache [mk_entry true 96 1; mk_entry true 40 2; mk_entry false 0 0] 3 2.

(** With the assertions. *)
Lemma sqfs_cache_retention_witness :
  exists c1 e c2, use false sample_cache 7 70 = Ret (c1, e) /\
    use_all false c1 [(96, 5); (8, 80)] = Ret c2 /\
    zlookup c2.(buf) e = Some (mk_entry true 7 70).
Proof.
  apply (sqfs_cache_retention false sample_cache 7 70 [(96, 5); (8, 80)]);
    [split; cbn; lia|reflexivity|reflexivity|cbn; lia|].
  right. split; [|split; [lia|repeat constructor; cbn; lia]].
  intros i h Hi Hv. unfold zlookup in Hi. destruct (_ && _); [|discriminate Hi].
  destruct (Z.to_nat i) as [|[|[|n]]]; cbn in Hi; try discriminate Hi; injection Hi as <-; try discriminate Hv.
  reflexivity.
Defined.

Lemma sqfs_cache_get_after_failed_fill_witness :
  (c2 ← sqfs_cache_put (mk_cache [mk_entry true 96 1; mk_entry true 40 2; mk_entry false 7 0] 3 0) 2;
   sqfs_cache_get false (fun _ (u : unit) => Ret u) c2 7 tt) = Crash AssertFail.
Proof.
  apply (sqfs_cache_get_after_failed_fill sample_cache 7 (fun _ (u : unit) => Ret u) tt
    (mk_cache [mk_entry true 96 1; mk_entry true 40 2; mk_entry false 7 0] 3 0) 2 tt);
    [split; cbn; lia|reflexivity|reflexivity].
Defined.

(** A fresh cache and key zero. *)
Example sqfs_cache_get_zero :
  sqfs_cache_get false (fun _ (u : unit) => Ret u)
    (mk_cache (replicate 8 (mk_entry false 0 tt)) 8 0) 0 tt = Crash AssertFail.
Proof. reflexivity. Qed.
