(* ===== verification/CacheMT.v ===== *)
(** * CacheMT: cache_mt.c, the cache of the multi-threaded build

    A table of slots, each with its mutex: a key has one slot, [sqfs_cache_get]
    returns with the mutex of the slot locked and [sqfs_cache_put] unlocks it.
    [locked] is the mutex.  Seen from one thread it is another implementation of
    the interface of Cache ([cache_mt_laws]); the second part is about several
    threads, as a step relation. *)
From S2P Require Import Prelude Cache.

Record sqfs_cache_entry (V : Type) := mk_slot {
  full : bool;  (* state == FULL *)
  idx : Z;
  locked : bool;
  data : V
}.
Arguments mk_slot {V}.
Arguments full {V}.
Arguments idx {V}.
Arguments locked {V}.
Arguments data {V}.

(** [NULL] has no entries. *)
Record sqfs_cache_internal (V : Type) := mk_cache {
  buf : list (sqfs_cache_entry V);
  count : Z
}.
Arguments mk_cache {V}.
Arguments buf {V}.
Arguments count {V}.

Definition kMurmur2Seed : Z := 4193360111.

Definition MurmurRehash64A (key : Z) : Z :=
  let m := 0xc6a4a7935bd1e995 in
  let r := 47 in
  let h := Z.lxor kMurmur2Seed (u64 (8 * m)) in
  let key := u64 (key * m) in
  let key := Z.lxor key (Z.shiftr key r) in
  let key := u64 (key * m) in
  let h := Z.lxor h key in
  let h := u64 (h * m) in
  let h := Z.lxor h (Z.shiftr h r) in
  let h := u64 (h * m) in
  Z.lxor h (Z.shiftr h r).

Section cache.
Context (ndebug : bool).
Context {V : Type}.
Implicit Types (c : sqfs_cache_internal V) (h : sqfs_cache_entry V).

(** [pthread_mutex_init] does not fail. *)
Definition sqfs_cache_init (zero : V) (n : Z) (ms : mallocs)
    : result (sqfs_cache_internal V) * mallocs :=
  let (ok, ms) := malloc ms in
  if negb ok then (Failure SQFS_ERR, ms)
  else
    let (ok, ms) := malloc ms in
    if ok then
      (Success (mk_cache (replicate (Z.to_nat n) (mk_slot false 0 false zero)) n), ms)
    else (Failure SQFS_ERR, ms).

Definition sqfs_cache_entry_header c (i : Z) : outcome (sqfs_cache_entry V) :=
  match zlookup c.(buf) i with Some h => Ret h | None => Crash MemFault end.

Definition set_header c (i : Z) h : sqfs_cache_internal V :=
  mk_cache (zinsert i h c.(buf)) c.(count).

(** [pthread_mutex_destroy] fails on a locked mutex. *)
Fixpoint destroy_entries {S} (dispose : V -> S -> outcome S)
    (l : list (sqfs_cache_entry V)) (st : S) : outcome S :=
  match l with
  | [] => Ret st
  | h :: l =>
      st ← (if h.(full) then dispose h.(data) st else Ret st);
      if h.(locked) && negb ndebug then Crash AssertFail else destroy_entries dispose l st
  end.

Definition sqfs_cache_destroy {S} (dispose : V -> S -> outcome S) c (st : S) : outcome S :=
  destroy_entries dispose (take (Z.to_nat c.(count)) c.(buf)) st.

(** The slot of a key. *)
Definition slot_of c (key : Z) : Z := MurmurRehash64A key mod c.(count).

(** A thread that locks a mutex it already holds stops there: in the builds with
    assertions the mutexes check for errors and the assertion fails. *)
Definition get_slot {S} (dispose : V -> S -> outcome S) c (i key : Z) (st : S)
    : outcome (S * (sqfs_cache_internal V * Z)) :=
  h ← sqfs_cache_entry_header c i;
  if h.(locked) then Crash AssertFail
  else if negb h.(full) then
    Ret (st, (set_header c i (mk_slot false key true h.(data)), i))
  else if h.(idx) =? key then
    Ret (st, (set_header c i (mk_slot true h.(idx) true h.(data)), i))
  else  (* collision *)
    st ← dispose h.(data) st;
    Ret (st, (set_header c i (mk_slot false key true h.(data)), i)).

Definition sqfs_cache_get {S} (dispose : V -> S -> outcome S) c (key : Z) (st : S)
    : outcome (S * (sqfs_cache_internal V * Z)) :=
  get_slot dispose c (slot_of c key) key st.

Definition sqfs_cache_entry_valid c (e : Z) : outcome bool :=
  h ← sqfs_cache_entry_header c e; Ret h.(full).

Definition sqfs_cache_entry_mark_valid c (e : Z) : outcome (sqfs_cache_internal V) :=
  h ← sqfs_cache_entry_header c e;
  if ndebug || negb h.(full)
  then Ret (set_header c e (mk_slot true h.(idx) h.(locked) h.(data)))
  else Crash AssertFail.

(** Unlocking a mutex that is not locked is an error. *)
Definition sqfs_cache_put c (e : Z) : outcome (sqfs_cache_internal V) :=
  h ← sqfs_cache_entry_header c e;
  if h.(locked) then Ret (set_header c e (mk_slot h.(full) h.(idx) false h.(data)))
  else Crash AssertFail.

Definition sqfs_cache_data c (e : Z) : outcome V :=
  h ← sqfs_cache_entry_header c e; Ret h.(data).

Definition sqfs_cache_set_data c (e : Z) (v : V) : outcome (sqfs_cache_internal V) :=
  h ← sqfs_cache_entry_header c e;
  Ret (set_header c e (mk_slot h.(full) h.(idx) h.(locked) v)).
End cache.

(** Rewriting with this equation keeps the hash folded. *)
Lemma sqfs_cache_get_eq {V S} (dispose : V -> S -> outcome S) (c : sqfs_cache_internal V) key st :
  sqfs_cache_get dispose c key st = get_slot dispose c (slot_of c key) key st.
Proof. reflexivity. Qed.

Definition cache_mt (ndebug : bool) : CacheImpl := {|
  cache := sqfs_cache_internal;
  cache_null V := mk_cache [] 0;
  cache_init := @sqfs_cache_init;
  cache_destroy := @sqfs_cache_destroy ndebug;
  cache_get := @sqfs_cache_get;
  cache_entry_valid := @sqfs_cache_entry_valid;
  cache_entry_mark_valid := @sqfs_cache_entry_mark_valid ndebug;
  cache_put := @sqfs_cache_put;
  cache_data := @sqfs_cache_data;
  cache_set_data := @sqfs_cache_set_data;
  SQUASHFS_CACHED_BLKS := 128;
  DATA_CACHED_BLKS := 48;
  FRAG_CACHED_BLKS := 48
|}.

(** ** The laws, seen from one thread *)
Section laws.
Context (ndebug : bool).
Context {V : Type}.
Implicit Types (c : sqfs_cache_internal V) (h : sqfs_cache_entry V).

Definition entry_pair h : option (Z * V) :=
  if h.(full) then Some (h.(idx), h.(data)) else None.
Definition mt_entries c : list (Z * V) := omap entry_pair c.(buf).

Definition mt_wf c : Prop := len c.(buf) = c.(count) /\ 0 < c.(count).

(** The mutexes that are locked are the ones of the slots in [l]. *)
Definition mt_locked c (l : list Z) : Prop :=
  forall i h, zlookup c.(buf) i = Some h -> h.(locked) = bool_decide (i ∈ l).

Definition mt_quiet c : Prop := mt_wf c /\ mt_locked c [].
Definition mt_holding c (e key : Z) : Prop :=
  mt_wf c /\ mt_locked c [e] /\ exists h, zlookup c.(buf) e = Some h /\ h.(idx) = key.

Lemma zlookup_zinsert (l : list (sqfs_cache_entry V)) i j h :
  0 <= i < len l -> zlookup (zinsert i h l) j = if decide (i = j) then Some h else zlookup l j.
Proof.
  intros Hi. case_decide as Hd; [subst; by apply zlookup_zinsert_eq|].
  unfold zlookup. rewrite zinsert_length, zinsert_insert by done.
  case_match; [|done]. apply list_lookup_insert_ne. zbool; try done; lia.
Qed.

Lemma mt_slot c key : mt_wf c -> exists h, zlookup c.(buf) (slot_of c key) = Some h.
Proof.
  intros [Hl Hc]. apply zlookup_is_Some. unfold slot_of. rewrite Hl. by apply Z.mod_pos_bound.
Qed.

Lemma set_header_wf c e h : mt_wf c -> mt_wf (set_header c e h).
Proof. intros [Hl Hc]. split; [|done]. cbn. by rewrite zinsert_length. Qed.

(** Replacing entry [e] touches no other entry. *)
Lemma mt_set_header_entries c e h h' :
  zlookup c.(buf) e = Some h ->
  exists rest, mt_entries c ≡ₚ option_list (entry_pair h) ++ rest /\
    mt_entries (set_header c e h') ≡ₚ option_list (entry_pair h') ++ rest.
Proof.
  intros Hl. assert (0 <= e < len c.(buf)) as He by (apply zlookup_is_Some; eauto).
  rewrite zlookup_lookup in Hl by lia.
  exists (omap entry_pair (take (Z.to_nat e) c.(buf)) ++
          omap entry_pair (drop (S (Z.to_nat e)) c.(buf))).
  assert (forall h0, omap entry_pair (take (Z.to_nat e) (buf c) ++ h0 :: drop (S (Z.to_nat e)) (buf c))
     ≡ₚ option_list (entry_pair h0) ++ omap entry_pair (take (Z.to_nat e) (buf c)) ++
        omap entry_pair (drop (S (Z.to_nat e)) (buf c))) as Hp.
  { intros h0. rewrite omap_app. cbn. destruct (entry_pair h0); cbn; [|done].
    by rewrite Permutation_middle. }
  unfold mt_entries, set_header; cbn. split.
  - rewrite <- (take_drop_middle _ _ _ Hl) at 1. apply Hp.
  - rewrite zinsert_insert, insert_take_drop by lia. apply Hp.
Qed.

Lemma set_header_locked c e h l l' :
  0 <= e < len c.(buf) -> mt_locked c l -> h.(locked) = bool_decide (e ∈ l') ->
  (forall i, i <> e -> i ∈ l <-> i ∈ l') -> mt_locked (set_header c e h) l'.
Proof.
  intros He Hlk Hh Hl i h'. cbn. rewrite zlookup_zinsert by done. destruct (decide (e = i)) as [Hd|Hd].
  - intros [= <-]. by subst i.
  - intros Hi. rewrite (Hlk i h' Hi). apply bool_decide_ext. apply Hl. congruence.
Qed.

Lemma mt_init zero n ms c ms' :
  0 < n -> sqfs_cache_init zero n ms = (Success c, ms') -> mt_quiet c /\ mt_entries c = [].
Proof.
  intros Hn. unfold sqfs_cache_init.
  destruct (malloc ms) as [[] ms1]; cbn; [|done].
  destruct (malloc ms1) as [[] ms2]; intros [= <- _]. split; [split|].
  - split; cbn; [rewrite length_replicate; lia|done].
  - intros i h Hi. cbn in Hi. unfold zlookup in Hi. case_match; [|done].
    by apply lookup_replicate in Hi as [-> _].
  - unfold mt_entries; cbn. induction (Z.to_nat n) as [|m IH]; [done|]. apply IH.
Qed.

Lemma mt_init_fail (zero : V) n ms e ms' :
  sqfs_cache_init zero n ms = (Failure e, ms') -> e = SQFS_ERR /\ ms <> [].
Proof.
  unfold sqfs_cache_init. destruct ms as [|[] [|[] ms]]; cbn; by intros [= <- _].
Qed.

Lemma mt_destroy {S} (dispose : V -> S -> outcome S) c st :
  mt_quiet c -> sqfs_cache_destroy ndebug dispose c st = dispose_all dispose (mt_entries c) st.
Proof.
  intros [[Hl _] Hlk]. unfold sqfs_cache_destroy, mt_entries. rewrite take_ge by lia.
  assert (Forall (fun h => h.(locked) = false) c.(buf)) as Hall.
  { apply Forall_lookup. intros i h Hi. apply (Hlk (Z.of_nat i) h).
    rewrite zlookup_lookup, Nat2Z.id by lia. done. }
  clear Hl Hlk. revert st Hall. induction (buf c) as [|h l IH]; intros st Hall; [done|].
  apply Forall_cons in Hall as [Hh Hall].
  cbn [destroy_entries omap list_omap]. unfold entry_pair at 1. rewrite Hh. cbn [andb].
  destruct (full h); cbn; [|by apply IH].
  destruct (dispose (data h) st); cbn; [by apply IH|done].
Qed.

Lemma mt_get_slot c key h b :
  mt_quiet c -> zlookup c.(buf) (slot_of c key) = Some h ->
  mt_holding (set_header c (slot_of c key) (mk_slot b key true h.(data))) (slot_of c key) key.
Proof.
  intros [Hwf Hlk] Hh. assert (0 <= slot_of c key < len c.(buf)) as He by (apply zlookup_is_Some; eauto).
  split; [by apply set_header_wf|]. split.
  - eapply set_header_locked; [done|done|by rewrite bool_decide_eq_true_2 by (by left)|].
    intros i Hi. rewrite elem_of_nil, list_elem_of_singleton. tauto.
  - eexists. split; [by apply zlookup_zinsert_eq|done].
Qed.

Lemma mt_get c key :
  mt_quiet c ->
  exists c' e ev b,
    (forall S (dispose : V -> S -> outcome S) st,
      sqfs_cache_get dispose c key st = (st ← dispose_opt dispose ev st; Ret (st, (c', e)))) /\
    mt_holding c' e key /\
    mt_entries c ≡ₚ option_list ev ++ mt_entries c' /\
    sqfs_cache_entry_valid c' e = Ret b /\
    (b = true -> exists v, sqfs_cache_data c' e = Ret v /\ (key, v) ∈ mt_entries c').
Proof.
  intros Hq. pose proof Hq as [Hwf Hlk]. destruct (mt_slot c key Hwf) as [h Hh].
  set (e := slot_of c key) in *.
  assert (0 <= e < len c.(buf)) as He by (apply zlookup_is_Some; eauto).
  assert (locked h = false) as Hun by (apply (Hlk e h Hh)).
  set (hit := full h && (idx h =? key)).
  set (h' := mk_slot hit key true h.(data)).
  destruct (mt_set_header_entries c e h h' Hh) as (rest & Hp & Hp').
  exists (set_header c e h'), e, (if hit then None else entry_pair h), hit.
  split; [|split; [|split; [|split]]].
  - intros S dispose st. rewrite sqfs_cache_get_eq. unfold get_slot, sqfs_cache_entry_header. fold e. rewrite Hh. cbn.
    rewrite Hun. unfold h', hit, entry_pair. destruct (full h); cbn; [|done].
    destruct (Z.eqb_spec (idx h) key) as [<-|]; cbn; [done|]. by destruct (dispose _ _).
  - by apply mt_get_slot.
  - rewrite Hp, Hp'. unfold h', hit, entry_pair. destruct (full h); cbn; [|done].
    destruct (Z.eqb_spec (idx h) key) as [<-|]; done.
  - unfold sqfs_cache_entry_valid, sqfs_cache_entry_header. cbn. by rewrite zlookup_zinsert_eq.
  - intros Hhit. exists h.(data). unfold sqfs_cache_data, sqfs_cache_entry_header. cbn.
    rewrite zlookup_zinsert_eq by done. split; [done|]. rewrite Hp'. unfold h', entry_pair. cbn.
    rewrite Hhit. by left.
Qed.

Lemma mt_put c e key :
  mt_holding c e key ->
  exists c', sqfs_cache_put c e = Ret c' /\ mt_quiet c' /\ mt_entries c' = mt_entries c.
Proof.
  intros (Hwf & Hlk & h & Hh & Hk).
  assert (0 <= e < len c.(buf)) as He by (apply zlookup_is_Some; eauto).
  unfold sqfs_cache_put, sqfs_cache_entry_header. rewrite Hh. cbn.
  rewrite (Hlk e h Hh), bool_decide_eq_true_2 by (by left).
  eexists. split; [done|]. split; [split; [by apply set_header_wf|]|].
  - eapply set_header_locked; [done|done|done|].
    intros i Hi. rewrite elem_of_nil, list_elem_of_singleton. tauto.
  - unfold mt_entries. cbn. rewrite zinsert_insert by done. rewrite zlookup_lookup in Hh by lia.
    rewrite <- (take_drop_middle _ _ _ Hh) at 2. rewrite insert_take_drop by lia.
    by rewrite !omap_app.
Qed.

Lemma mt_fill c e key v :
  mt_holding c e key -> sqfs_cache_entry_valid c e = Ret false ->
  exists c1 c2, sqfs_cache_set_data c e v = Ret c1 /\
    sqfs_cache_entry_mark_valid ndebug c1 e = Ret c2 /\
    mt_holding c2 e key /\ sqfs_cache_data c2 e = Ret v /\
    mt_entries c2 ≡ₚ (key, v) :: mt_entries c.
Proof.
  intros (Hwf & Hlk & h & Hh & Hk) Hv.
  assert (0 <= e < len c.(buf)) as He by (apply zlookup_is_Some; eauto).
  pose proof (Hlk e h Hh) as Hl. rewrite bool_decide_eq_true_2 in Hl by (by left).
  unfold sqfs_cache_entry_valid, sqfs_cache_set_data, sqfs_cache_entry_mark_valid,
    sqfs_cache_data, sqfs_cache_entry_header in *.
  rewrite Hh in *. cbn in Hv. injection Hv as Hv. cbn [mbind outcome_bind]. rewrite Hv, Hl.
  set (c1 := set_header c e (mk_slot false (idx h) true v)).
  assert (zlookup c1.(buf) e = Some (mk_slot false (idx h) true v)) as Hh1
    by (cbn; by apply zlookup_zinsert_eq).
  exists c1, (set_header c1 e (mk_slot true (idx h) true v)).
  split; [done|]. rewrite Hh1. cbn [mbind outcome_bind full negb idx locked data]. rewrite orb_true_r.
  split; [done|].
  destruct (mt_set_header_entries c e h (mk_slot false (idx h) true v) Hh) as (rest & Hp & Hp1).
  destruct (mt_set_header_entries c1 e _ (mk_slot true (idx h) true v) Hh1) as (rest' & Hp2 & Hp3).
  assert (0 <= e < len c1.(buf)) as He1 by (cbn; by rewrite zinsert_length).
  split; [split; [by apply set_header_wf, set_header_wf|split]|split].
  - eapply set_header_locked with (l := [e]); [done| |by rewrite bool_decide_eq_true_2 by (by left)|done].
    eapply set_header_locked with (l := [e]); [done|done|by rewrite bool_decide_eq_true_2 by (by left)|done].
  - eexists. split; [by apply zlookup_zinsert_eq|done].
  - cbn [buf set_header]. by rewrite zlookup_zinsert_eq.
  - rewrite Hp3. unfold entry_pair in *. cbn in *. rewrite Hv in *. cbn in *.
    rewrite Hp, Hk, <- Hp1, Hp2. done.
Qed.
End laws.

#[global, program] Instance cache_mt_laws ndebug : CacheLaws (cache_mt ndebug) := {|
  cache_entries := @mt_entries;
  cache_quiet := @mt_quiet;
  cache_holding := @mt_holding;
  law_init := @mt_init;
  law_init_fail := @mt_init_fail;
  law_init_nil V zero n := ex_intro _ _ eq_refl;
  law_destroy V S := @mt_destroy ndebug V S;
  law_get := @mt_get;
  law_put := @mt_put;
  law_fill := @mt_fill ndebug
|}.
Next Obligation. done. Qed.
Next Obligation.
  intros ndebug V. split; [done|]. split; [|done]. intros S dispose key st.
  cbn. rewrite sqfs_cache_get_eq. unfold get_slot, sqfs_cache_entry_header.
  assert (zlookup (buf (mk_cache (V := V) [] 0)) (slot_of (mk_cache (V := V) [] 0) key) = None) as ->;
    [|done]. apply eq_None_not_Some. rewrite zlookup_is_Some. cbn. lia.
Qed.

(** ** Several threads

    Each thread uses the cache as fs.c does: it gets an entry, fills and marks it if
    it is not valid, reads it and puts it back, or gives up and puts it back.  A
    step is one call of one thread; a thread that gets an entry whose mutex is
    locked waits, so it has no step.  [load] is what a key stands for. *)
Inductive phase :=
  | Idle
  | Got (e key : Z)     (* [sqfs_cache_get] returned entry [e] *)
  | Filled (e key : Z)  (* the caller wrote the value *)
  | Ready (e key : Z).  (* [sqfs_cache_entry_valid] holds: the caller may read *)

Definition holds_entry (p : phase) : option (Z * Z) :=
  match p with Idle => None | Got e key | Filled e key | Ready e key => Some (e, key) end.

Section threads.
Context {V : Type} (load : Z -> V).
Implicit Types (c : sqfs_cache_internal V) (h : sqfs_cache_entry V).

Definition state : Type := sqfs_cache_internal V * (nat -> phase).

Definition set_phase (ph : nat -> phase) (t : nat) (p : phase) : nat -> phase :=
  fun t' => if decide (t' = t) then p else ph t'.

(** Eviction drops the value. *)
Definition drop_value (_ : V) (_ : unit) : outcome unit := Ret tt.

Inductive step : state -> state -> Prop :=
  | step_get t key e c c' ph :
      ph t = Idle -> sqfs_cache_get drop_value c key tt = Ret (tt, (c', e)) ->
      step (c, ph) (c', set_phase ph t (Got e key))
  | step_hit t key e c ph :
      ph t = Got e key -> sqfs_cache_entry_valid c e = Ret true ->
      step (c, ph) (c, set_phase ph t (Ready e key))
  | step_fill t key e c c' ph :
      ph t = Got e key -> sqfs_cache_entry_valid c e = Ret false ->
      sqfs_cache_set_data c e (load key) = Ret c' ->
      step (c, ph) (c', set_phase ph t (Filled e key))
  | step_mark t key e c c' ph :
      ph t = Filled e key -> sqfs_cache_entry_mark_valid false c e = Ret c' ->
      step (c, ph) (c', set_phase ph t (Ready e key))
  | step_put t key e c c' ph :
      holds_entry (ph t) = Some (e, key) -> sqfs_cache_put c e = Ret c' ->
      step (c, ph) (c', set_phase ph t Idle).

(** A slot, as the thread that holds it left it. *)
Definition phase_ok (p : phase) (h : sqfs_cache_entry V) : Prop :=
  match p with
  | Idle => h.(locked) = false
  | Got _ key => h.(locked) = true /\ h.(idx) = key
  | Filled _ key => h.(locked) = true /\ h.(idx) = key /\ h.(full) = false /\ h.(data) = load key
  | Ready _ key => h.(locked) = true /\ h.(idx) = key /\ h.(full) = true
  end.

Definition slot_ok (e : Z) (h : sqfs_cache_entry V) (ph : nat -> phase) : Prop :=
  (h.(full) = true -> h.(data) = load h.(idx)) /\
  (h.(locked) = true -> exists t key, holds_entry (ph t) = Some (e, key)) /\
  forall t key, holds_entry (ph t) = Some (e, key) -> phase_ok (ph t) h.

Record threads_inv (s : state) : Prop := {
  ti_wf : mt_wf s.1;
  ti_slot e h : zlookup s.1.(buf) e = Some h -> slot_ok e h s.2;
  ti_place t e key : holds_entry (s.2 t) = Some (e, key) -> 0 <= e < s.1.(count);
  ti_one t t' e key key' :
    holds_entry (s.2 t) = Some (e, key) -> holds_entry (s.2 t') = Some (e, key') -> t = t'
}.

Lemma set_phase_eq ph t p : set_phase ph t p t = p.
Proof. unfold set_phase. by rewrite decide_True. Qed.
Lemma set_phase_ne ph t p t' : t' <> t -> set_phase ph t p t' = ph t'.
Proof. intros. unfold set_phase. by rewrite decide_False. Qed.

Lemma held_slot s t e key :
  threads_inv s -> holds_entry (s.2 t) = Some (e, key) ->
  exists h, zlookup s.1.(buf) e = Some h /\ slot_ok e h s.2.
Proof.
  intros Hi Hh. pose proof (ti_place _ Hi _ _ _ Hh) as He. destruct (ti_wf _ Hi) as [Hl _].
  destruct (zlookup_is_Some s.1.(buf) e) as [_ [h Hz]]; [lia|].
  exists h. split; [done|]. by apply (ti_slot _ Hi).
Qed.

(** A step of [t] that replaces entry [e], which no other thread holds, and leaves
    [t] in phase [p]. *)
Lemma threads_inv_step c ph t p e h :
  threads_inv (c, ph) -> 0 <= e < c.(count) ->
  (forall e0 key0, holds_entry (ph t) = Some (e0, key0) -> e0 = e) ->
  (forall t' key', t' <> t -> holds_entry (ph t') <> Some (e, key')) ->
  (forall e0 key0, holds_entry p = Some (e0, key0) -> e0 = e) ->
  (h.(full) = true -> h.(data) = load h.(idx)) -> phase_ok p h ->
  threads_inv (set_header c e h, set_phase ph t p).
Proof.
  intros Hi He Ht Hno Hp Hfull Hok. pose proof (ti_wf _ Hi) as [Hl Hc]. cbn in Hl, Hc. split; cbn [fst snd].
  - by apply set_header_wf.
  - intros e' h'. cbn. rewrite zlookup_zinsert by lia. destruct (decide (e = e')) as [<-|Hne].
    + intros [= <-]. split; [done|]. split.
      * intros Hlk. exists t. rewrite set_phase_eq. destruct p as [|e0 k0|e0 k0|e0 k0]; cbn in *;
          [congruence|exists k0..]; by rewrite (Hp _ _ eq_refl).
      * intros t' key'. unfold set_phase. case_decide; [done|]. intros Hk. by destruct (Hno t' key').
    + intros Hz. pose proof (ti_slot _ Hi _ _ Hz) as (Hf & Hlk & Hh). cbn in *. split; [done|]. split.
      * intros (t' & key' & Hk)%Hlk. exists t', key'. rewrite set_phase_ne; [done|].
        intros ->. apply Hne. symmetry. by eapply Ht.
      * intros t' key'. unfold set_phase. case_decide; [|apply Hh]. intros Hk%Hp. congruence.
  - intros t' e' key'. unfold set_phase. case_decide; [|apply (ti_place _ Hi)]. by intros ->%Hp.
  - intros t1 t2 e' k1 k2. unfold set_phase. repeat case_decide; subst; try done.
    + intros ->%Hp Hk. by destruct (Hno t2 k2).
    + intros Hk ->%Hp. by destruct (Hno t1 k1).
    + apply (ti_one _ Hi).
Qed.

(** The same when [t] holds [e] already. *)
Lemma threads_inv_held c ph t p e key h :
  threads_inv (c, ph) -> holds_entry (ph t) = Some (e, key) ->
  (holds_entry p = None \/ holds_entry p = Some (e, key)) ->
  (h.(full) = true -> h.(data) = load h.(idx)) -> phase_ok p h ->
  threads_inv (set_header c e h, set_phase ph t p).
Proof.
  intros Hi Ht Hp Hf Hok. apply threads_inv_step; try done.
  - by apply (ti_place _ Hi t e key).
  - intros e0 k0. rewrite Ht. by intros [= <- _].
  - intros t' key' Hne Hk'. apply Hne. by eapply (ti_one _ Hi).
  - intros e0 k0. destruct Hp as [->| ->]; [done|]. by intros [= <- _].
Qed.

Lemma set_header_self c e h : zlookup c.(buf) e = Some h -> set_header c e h = c.
Proof.
  intros Hz. unfold set_header. assert (0 <= e < len (buf c)) by (apply zlookup_is_Some; eauto).
  rewrite zinsert_insert by done. rewrite zlookup_lookup in Hz by lia.
  rewrite list_insert_id by done. by destruct c.
Qed.

(** The slot a thread gets is not held, and afterwards belongs to its key. *)
Lemma get_step c ph t key e c' :
  threads_inv (c, ph) -> ph t = Idle -> sqfs_cache_get drop_value c key tt = Ret (tt, (c', e)) ->
  threads_inv (c', set_phase ph t (Got e key)).
Proof.
  intros Hi Hph E. pose proof (mt_slot c key (ti_wf _ Hi)) as Hslot.
  rewrite sqfs_cache_get_eq in E. revert E Hslot.
  generalize (slot_of c key). intros sl E [h Hz]. unfold get_slot, sqfs_cache_entry_header in E.
  pose proof (ti_slot _ Hi _ _ Hz) as (Hf & Hl & Hh). cbn [fst snd] in *.
  assert (0 <= sl < count c) as He.
  { pose proof (ti_wf _ Hi) as [Hlen _]. cbn in Hlen. rewrite <- Hlen. apply zlookup_is_Some. eauto. }
  rewrite Hz in E. cbn in E. destruct (locked h) eqn:Elk; [done|].
  assert (exists b, c' = set_header c sl (mk_slot b key true h.(data)) /\
            e = sl /\ (b = true -> h.(full) = true /\ h.(idx) = key)) as (b & -> & -> & Hb).
  { destruct (full h); cbn in E; [|injection E as <- <-; by exists false].
    destruct (Z.eqb_spec (idx h) key) as [Hk|]; injection E as <- <-;
      [exists true; by rewrite Hk|by exists false]. }
  apply threads_inv_step; [done|done| | | | |done].
  - intros e0 k0. by rewrite Hph.
  - intros t' key' _ Hk. specialize (Hh t' key' Hk). destruct (ph t'); cbn in *; try done;
      destruct Hh as [? _]; congruence.
  - cbn. by intros e0 k0 [= <- _].
  - cbn. intros [Hfull <-]%Hb. by apply Hf.
Qed.

Lemma threads_inv_preserved s s' : threads_inv s -> step s s' -> threads_inv s'.
Proof.
  intros Hi Hs. destruct Hs as [t key e c c' ph Hph E|t key e c ph Hph E|t key e c c' ph Hph E E'
    |t key e c c' ph Hph E|t key e c c' ph Hph E]; [by eapply get_step| | | |].
  1-3: assert (holds_entry (ph t) = Some (e, key)) as Ht by (by rewrite Hph).
  4: rename Hph into Ht.
  all: destruct (held_slot (c, ph) t e key Hi Ht) as (h & Hz & Hf & _ & Hh); cbn in Hz, Hh;
    specialize (Hh t key Ht); rewrite ?Hph in Hh; cbn in Hh;
    unfold sqfs_cache_entry_valid, sqfs_cache_set_data, sqfs_cache_entry_mark_valid, sqfs_cache_put,
      sqfs_cache_entry_header in *; rewrite ?Hz in *; cbn in *.
  - injection E as E. destruct Hh as [Hlk Hk]. rewrite <- (set_header_self c e h Hz).
    apply (threads_inv_held _ _ _ _ _ key); [done|done|by right|done|done].
  - injection E as E. injection E' as <-. destruct Hh as [Hlk Hk].
    apply (threads_inv_held _ _ _ _ _ key); [done|done|by right|cbn; congruence|done].
  - destruct Hh as (Hlk & Hk & Hfu & Hd). rewrite Hfu in E. injection E as <-.
    apply (threads_inv_held _ _ _ _ _ key); [done|done|by right|cbn; congruence|done].
  - destruct (locked h); [|done]. injection E as <-.
    apply (threads_inv_held _ _ _ _ _ key); [done|done|by left|done|done].
Qed.

(** The states the threads reach from an empty cache. *)
Definition reachable (c0 : sqfs_cache_internal V) : state -> Prop :=
  rtc step (c0, fun _ => Idle).

Lemma reachable_inv c0 s :
  mt_quiet c0 -> mt_entries c0 = [] -> reachable c0 s -> threads_inv s.
Proof.
  intros Hq He Hr. assert (threads_inv (c0, fun _ => Idle)) as Hi.
  { destruct Hq as [Hwf Hl]. split; try done. cbn. intros e h Hz. split; [|split; [|done]].
    - intros Hf. assert ((h.(idx), h.(data)) ∈ mt_entries c0) as Hin; [|by rewrite He in Hin;
        apply not_elem_of_nil in Hin].
      apply list_elem_of_omap. exists h. unfold entry_pair. rewrite Hf. split; [|done].
      assert (0 <= e < len (buf c0)) by (apply zlookup_is_Some; eauto).
      rewrite zlookup_lookup in Hz by lia. by apply list_elem_of_lookup_2 in Hz.
    - by rewrite (Hl e h Hz). }
  revert Hi. unfold reachable in Hr. induction Hr as [s|s1 s2 s3 Hs _ IH]; intros Hi; [done|].
  by apply IH, (threads_inv_preserved s1).
Qed.

(** C5: whatever the order in which threads use the cache, an entry belongs to one
    thread from [sqfs_cache_get] to [sqfs_cache_put]: no other thread has it, what
    its owner reads is what its key stands for, and the calls of the owner succeed
    (no assertion fails). *)
Theorem sqfs_cache_threads_safe (c0 : sqfs_cache_internal V) (s : state) :
  mt_quiet c0 -> mt_entries c0 = [] -> reachable c0 s ->
  (forall t t' e key key', holds_entry (s.2 t) = Some (e, key) ->
     holds_entry (s.2 t') = Some (e, key') -> t = t') /\
  (forall t e key, s.2 t = Ready e key -> sqfs_cache_data s.1 e = Ret (load key)) /\
  (forall t e key, s.2 t = Filled e key ->
     exists c', sqfs_cache_entry_mark_valid false s.1 e = Ret c') /\
  (forall t e key, holds_entry (s.2 t) = Some (e, key) -> exists c', sqfs_cache_put s.1 e = Ret c').
Proof.
  intros Hq He Hr. pose proof (reachable_inv c0 s Hq He Hr) as Hi.
  split; [by apply (ti_one _ Hi)|].
  unfold sqfs_cache_data, sqfs_cache_entry_mark_valid, sqfs_cache_put, sqfs_cache_entry_header.
  split; [|split]; intros t e key Hph.
  - destruct (held_slot s t e key Hi ltac:(by rewrite Hph)) as (h & -> & Hf & _ & Hh).
    specialize (Hh t key ltac:(by rewrite Hph)). rewrite Hph in Hh. destruct Hh as (_ & <- & Hfu).
    cbn. by rewrite (Hf Hfu).
  - destruct (held_slot s t e key Hi ltac:(by rewrite Hph)) as (h & -> & Hf & _ & Hh).
    specialize (Hh t key ltac:(by rewrite Hph)). rewrite Hph in Hh. destruct Hh as (_ & _ & Hfu & _).
    cbn. rewrite Hfu. by eexists.
  - destruct (held_slot s t e key Hi Hph) as (h & -> & Hf & _ & Hh). specialize (Hh t key Hph).
    cbn. assert (locked h = true) as -> by (destruct (s.2 t); [done|apply Hh..]). by eexists.
Qed.

(** C32: no deadlock: a thread that asks for an entry gets it, or the mutex of the
    slot is held by another thread, which can put the entry back. *)
Theorem sqfs_cache_threads_progress (c0 : sqfs_cache_internal V) (s : state) (t : nat) (key : Z) :
  mt_quiet c0 -> mt_entries c0 = [] -> reachable c0 s -> s.2 t = Idle ->
  (exists c' e, step s (c', set_phase s.2 t (Got e key))) \/
  (exists t' key' c', t' <> t /\ holds_entry (s.2 t') = Some (slot_of s.1 key, key') /\
     step s (c', set_phase s.2 t' Idle)).
Proof.
  intros Hq He Hr Hidle. pose proof (reachable_inv c0 s Hq He Hr) as Hi. destruct s as [c ph].
  cbn [fst snd] in *. destruct (mt_slot c key (ti_wf _ Hi)) as [h Hz].
  pose proof (ti_slot _ Hi _ _ Hz) as (_ & Hl & _). cbn in Hl.
  destruct (locked h) eqn:Elk.
  - right. destruct (Hl eq_refl) as (t' & key' & Ht').
    exists t', key', (set_header c (slot_of c key) (mk_slot h.(full) h.(idx) false h.(data))).
    split; [intros ->; by rewrite Hidle in Ht'|]. split; [done|].
    apply step_put with (key := key') (e := slot_of c key); [done|].
    unfold sqfs_cache_put, sqfs_cache_entry_header. rewrite Hz. cbn. by rewrite Elk.
  - left. assert (exists c' e, sqfs_cache_get drop_value c key tt = Ret (tt, (c', e))) as (c' & e & E).
    { rewrite sqfs_cache_get_eq. unfold get_slot, sqfs_cache_entry_header. rewrite Hz. cbn. rewrite Elk.
      destruct (full h); cbn; [|eauto]. destruct (_ =? _); cbn; eauto. }
    exists c', e. by eapply step_get.
Qed.
End threads.

(** ** Two threads and two slots *)
Definition sample_mt : sqfs_cache_internal Z := mk_cache (replicate 2 (mk_slot false 0 false 0)) 2.

Lemma sample_mt_quiet : mt_quiet sample_mt /\ mt_entries sample_mt = [].
Proof.
  split; [split|done].
  - split; [done|]. cbn. lia.
  - intros i h Hi. cbn in Hi. unfold zlookup in Hi. case_match; [|done].
    by apply (lookup_replicate 2) in Hi as [-> _].
Qed.

Definition sample_load (key : Z) : Z := key * 10.

(** Thread 0 gets key 96 and thread 1 key 99, then thread 0 fills and marks. *)
Definition sample_phases : nat -> phase :=
  set_phase (set_phase (set_phase (set_phase (fun _ => Idle) 0 (Got 0 96)) 1 (Got 1 99))
    0 (Filled 0 96)) 0 (Ready 0 96).
Definition sample_threads : state (V := Z) :=
  (mk_cache [mk_slot true 96 true 960; mk_slot false 99 true 0] 2, sample_phases).

Lemma sample_threads_reachable : reachable sample_load sample_mt sample_threads.
Proof.
  pose (c1 := mk_cache [mk_slot false 96 true 0; mk_slot false 0 false 0] 2).
  pose (c2 := mk_cache [mk_slot false 96 true 0; mk_slot false 99 true 0] 2).
  pose (c3 := mk_cache [mk_slot false 96 true 960; mk_slot false 99 true 0] 2).
  assert (sqfs_cache_get drop_value sample_mt 96 tt = Ret (tt, (c1, 0))) as E1 by (vm_compute; reflexivity).
  assert (sqfs_cache_get drop_value c1 99 tt = Ret (tt, (c2, 1))) as E2 by (vm_compute; reflexivity).
  exact (rtc_l _ _ _ _ (step_get sample_load 0 96 0 _ _ _ eq_refl E1)
    (rtc_l _ _ _ _ (step_get sample_load 1 99 1 _ _ _ eq_refl E2)
    (rtc_l _ _ _ _ (step_fill sample_load 0 96 0 c2 c3 _ eq_refl eq_refl eq_refl)
    (rtc_once _ _ (step_mark sample_load 0 96 0 c3 _ _ eq_refl eq_refl))))).
Qed.

Lemma sqfs_cache_threads_safe_witness : sqfs_cache_data sample_threads.1 0 = Ret 960.
Proof.
  destruct (sqfs_cache_threads_safe sample_load sample_mt sample_threads (proj1 sample_mt_quiet)
    (proj2 sample_mt_quiet) sample_threads_reachable) as (_ & H & _).
  exact (H 0%nat 0 96 eq_refl).
Defined.

(** Thread 2 wants key 96 too: it waits for thread 0. *)
Lemma sqfs_cache_threads_progress_witness :
  (exists c' e, step sample_load sample_threads (c', set_phase sample_phases 2 (Got e 96))) \/
  (exists t' key' c', t' <> 2%nat /\ holds_entry (sample_phases t') = Some (0, key') /\
     step sample_load sample_threads (c', set_phase sample_phases t' Idle)).
Proof.
  exact (sqfs_cache_threads_progress sample_load sample_mt sample_threads 2 96 (proj1 sample_mt_quiet)
    (proj2 sample_mt_quiet) sample_threads_reachable eq_refl).
Defined.
