(* ===== verification/Decompress.v ===== *)
(** * Decompress: the choice of a decompressor (decompress.c)

    The compression libraries are not part of the sources: [codec_libs] holds one
    function per library, absent when the build does not have it (the [HAVE_*_H]
    tests).  Each one takes the compressed bytes and the room in the output
    buffer, as the library call does. *)
From Stdlib Require Import Strings.String.
From S2P Require Import Prelude Swap.

(** The result of [lzma_code] on the header and then on the rest of the input, as
    far as decompress.c looks at it. *)
Record lzma_stream := {
  lzma_init_ok : bool;         (* lzma_alone_decoder returned LZMA_OK *)
  lzma_header_ok : bool;       (* LZMA_OK and the header was consumed *)
  lzma_stream_end : bool;      (* LZMA_STREAM_END on the rest *)
  lzma_ok : bool;              (* LZMA_OK on the rest *)
  lzma_total_out : Z;
  lzma_avail_in : Z;
  lzma_out : list byte         (* the output buffer, [outsz] bytes *)
}.

Record codec_libs := {
  uncompress : option (list byte -> Z -> option (list byte));     (* Z_OK *)
  lzma_stream_buffer_decode : option (list byte -> Z -> option (list byte));
  lzma_alone : list byte -> list byte -> Z -> lzma_stream;
  lzo1x_decompress_safe : option (list byte -> Z -> option (list byte));
  LZ4_decompress_safe : option (list byte -> Z -> option (list byte));
  ZSTD_decompress : option (list byte -> Z -> option (list byte))
}.

(** A decompressor: the input, the size of the output buffer, the output. *)
Definition sqfs_decompressor : Type := list byte -> Z -> outcome (result (list byte)).

(** The wrappers that turn the library's answer into an [sqfs_err]. *)
Definition of_library (f : list byte -> Z -> option (list byte)) : sqfs_decompressor :=
  fun input outsz =>
    Ret (match f input outsz with Some out => Success out | None => Failure SQFS_ERR end).

Definition sqfs_decompressor_zlib := of_library.
Definition sqfs_decompressor_xz := of_library.
Definition sqfs_decompressor_lzo := of_library.
Definition sqfs_decompressor_lz4 := of_library.
Definition sqfs_decompressor_zstd := of_library.

Definition LZMA_PROPS_SIZE : Z := 5.
Definition LZMA_UNCOMP_SIZE : Z := 8.
Definition LZMA_HEADER_SIZE : Z := LZMA_PROPS_SIZE + LZMA_UNCOMP_SIZE.

(** The 13 header bytes are copied without a look at the input size; the size
    field is overwritten with 255 before the header goes to the library. *)
Definition sqfs_decompressor_lzma (alone : list byte -> list byte -> Z -> lzma_stream)
    : sqfs_decompressor := fun input outsz =>
  if negb (alone [] [] outsz).(lzma_init_ok) then Ret (Failure SQFS_ERR)
  else
    lzma_header ← mem_read input 0 LZMA_HEADER_SIZE;
    let uncompressed_size := sqfs_swapin32 (slice lzma_header LZMA_PROPS_SIZE 4) in
    if outsz <? uncompressed_size then Ret (Failure SQFS_ERR)
    else
      let lzma_header := slice lzma_header 0 LZMA_PROPS_SIZE ++ replicate 8 xff in
      let strm := alone lzma_header (drop (Z.to_nat LZMA_HEADER_SIZE) input) outsz in
      if negb strm.(lzma_header_ok) then Ret (Failure SQFS_ERR)
      else if strm.(lzma_stream_end) ||
              (strm.(lzma_ok) && (uncompressed_size <=? strm.(lzma_total_out)) &&
               (strm.(lzma_avail_in) =? 0))
      then Ret (Success (slice strm.(lzma_out) 0 uncompressed_size))
      else Ret (Failure SQFS_ERR).

Definition ZLIB_COMPRESSION : Z := 1.
Definition LZMA_COMPRESSION : Z := 2.
Definition LZO_COMPRESSION : Z := 3.
Definition XZ_COMPRESSION : Z := 4.
Definition LZ4_COMPRESSION : Z := 5.
Definition ZSTD_COMPRESSION : Z := 6.
Definition SQFS_COMP_UNKNOWN : Z := 0.
Definition SQFS_COMP_MAX : Z := 16.

(** HAVE_LZMA_H gives both the xz and the lzma decompressor. *)
Definition sqfs_decompressor_get (libs : codec_libs) (type : Z) : option sqfs_decompressor :=
  if type =? ZLIB_COMPRESSION then sqfs_decompressor_zlib <$> libs.(uncompress)
  else if type =? LZMA_COMPRESSION then
    (fun _ => sqfs_decompressor_lzma libs.(lzma_alone)) <$> libs.(lzma_stream_buffer_decode)
  else if type =? LZO_COMPRESSION then sqfs_decompressor_lzo <$> libs.(lzo1x_decompress_safe)
  else if type =? XZ_COMPRESSION then
    sqfs_decompressor_xz <$> libs.(lzma_stream_buffer_decode)
  else if type =? LZ4_COMPRESSION then sqfs_decompressor_lz4 <$> libs.(LZ4_decompress_safe)
  else if type =? ZSTD_COMPRESSION then sqfs_decompressor_zstd <$> libs.(ZSTD_decompress)
  else None.

Definition is_some {A} (o : option A) : bool := match o with Some _ => true | None => false end.

(** The array [sqfs_compression_supported] fills: the supported types first, then
    [SQFS_COMP_UNKNOWN]. *)
Definition sqfs_compression_supported (libs : codec_libs) : list Z :=
  let types :=
    (if is_some libs.(uncompress) then [ZLIB_COMPRESSION] else []) ++
    (if is_some libs.(lzma_stream_buffer_decode) then [LZMA_COMPRESSION] else []) ++
    (if is_some libs.(lzo1x_decompress_safe) then [LZO_COMPRESSION] else []) ++
    (if is_some libs.(lzma_stream_buffer_decode) then [XZ_COMPRESSION] else []) ++
    (if is_some libs.(LZ4_decompress_safe) then [LZ4_COMPRESSION] else []) ++
    (if is_some libs.(ZSTD_decompress) then [ZSTD_COMPRESSION] else []) in
  types ++ replicate (Z.to_nat SQFS_COMP_MAX - length types) SQFS_COMP_UNKNOWN.

Definition sqfs_compression_names : list (option (list byte)) :=
  map (fun s => Some (String.list_byte_of_string s)) ["zlib"; "lzma"; "lzo"; "xz"; "lz4"; "zstd"]%string.

(** NULL for a type without a name. *)
Definition sqfs_compression_name (type : Z) : option (list byte) :=
  if (type <? 0) || (SQFS_COMP_MAX <=? type) then None
  else default None (zlookup (None :: sqfs_compression_names) type).

(** the compression types announced as supported are exactly those for which
    [sqfs_decompressor_get] finds a decompressor. *)
Theorem sqfs_compression_supported_iff (libs : codec_libs) (type : Z) :
  type <> SQFS_COMP_UNKNOWN ->
  type ∈ sqfs_compression_supported libs <-> is_Some (sqfs_decompressor_get libs type).
Proof.
  intros Hk. unfold sqfs_compression_supported. rewrite elem_of_app, elem_of_replicate.
  unfold sqfs_decompressor_get, ZLIB_COMPRESSION, LZMA_COMPRESSION, LZO_COMPRESSION,
    XZ_COMPRESSION, LZ4_COMPRESSION, ZSTD_COMPRESSION.
  destruct libs as [[] [] ? [] [] []]; cbn [is_some uncompress lzma_stream_buffer_decode
    lzo1x_decompress_safe LZ4_decompress_safe ZSTD_decompress];
  repeat rewrite ?elem_of_app, ?elem_of_cons, ?elem_of_nil; cbn;
  zbool; subst; split; intros;
  try (eexists; reflexivity); try (intuition lia);
  match goal with H : is_Some None |- _ => by destruct H end.
Qed.

(** ** What the clients rely on *)

(** A decompressor never writes more than the room it is given.  What it is given is a part
    of a file, and room for a block. *)
Definition decomp_ok (d : sqfs_decompressor) : Prop :=
  forall input outsz, len input <= 2 ^ 62 -> 0 <= outsz < 2 ^ 32 ->
  match d input outsz with
  | Ret (Success out) => len out <= outsz
  | Ret (Failure _) => True
  | Crash c => c = MemFault
  end.

(** The libraries' documented contract: the output fits the buffer. *)
Definition codec_ok (f : option (list byte -> Z -> option (list byte))) : Prop :=
  forall g input outsz out, f = Some g -> g input outsz = Some out -> len out <= outsz.

Record codec_laws (libs : codec_libs) : Prop := {
  law_uncompress : codec_ok libs.(uncompress);
  law_xz : codec_ok libs.(lzma_stream_buffer_decode);
  law_lzo : codec_ok libs.(lzo1x_decompress_safe);
  law_lz4 : codec_ok libs.(LZ4_decompress_safe);
  law_zstd : codec_ok libs.(ZSTD_decompress)
}.

Lemma of_library_ok f : codec_ok (Some f) -> decomp_ok (of_library f).
Proof.
  intros Hf input outsz _ _. unfold of_library. destruct (f input outsz) eqn:E; [|done].
  by eapply Hf.
Qed.

Lemma sqfs_decompressor_lzma_ok alone : decomp_ok (sqfs_decompressor_lzma alone).
Proof.
  intros input outsz _ Hsz. unfold sqfs_decompressor_lzma.
  destruct (lzma_init_ok _); [|done]. unfold mem_read, mbind, outcome_bind. cbn [negb].
  destruct ((0 <=? 0) && _ && _); [|done].
  set (hdr := slice input 0 LZMA_HEADER_SIZE).
  destruct (Z.ltb_spec outsz (sqfs_swapin32 (slice hdr LZMA_PROPS_SIZE 4))); [done|].
  destruct (negb _); [done|]. destruct (_ || _); [|done].
  rewrite slice_length by lia. lia.
Qed.

Lemma sqfs_decompressor_get_ok libs type d :
  codec_laws libs -> sqfs_decompressor_get libs type = Some d -> decomp_ok d.
Proof.
  intros [] Hd. unfold sqfs_decompressor_get in Hd.
  repeat match goal with H : (if ?b then _ else _) = Some _ |- _ => destruct b end;
    try done; apply fmap_Some in Hd as (g & Hg & ->);
    first [apply sqfs_decompressor_lzma_ok | apply of_library_ok; by rewrite <- Hg].
Qed.
