(* ===== verification/FsState.v ===== *)
(** * FsState: struct sqfs, its heap of blocks and the monad of its operations

    struct sqfs (fs.h) is split in two.  [sqfs] holds the members that do not
    change once [sqfs_init] has returned; [sqfs_state] holds the caches, with the
    two parts of the process the operations act on: the allocated blocks and the
    answers of the allocator.  An operation takes the first and is a computation
    in [M] over the second.

    A function that fails leaves the caller's structures (a cursor, a directory
    position, a block list) part-way through; every caller in the sources returns
    at once and drops them, so a [Failure] carries no value. *)
From S2P Require Import Prelude Swap Cache Decompress.

(** ** common.h, cache entries and tables *)
Record sqfs_block := mk_block {
  blk_size : Z;
  blk_data : list byte;
  blk_refcount : Z
}.

Record sqfs_md_cursor := mk_cursor {
  cur_block : Z;
  cur_offset : Z
}.

(** [bce_block] is the pointer to the block, [None] for NULL. *)
Record sqfs_block_cache_entry := mk_bce {
  bce_block : option positive;
  bce_data_size : Z
}.

Record sqfs_blockidx_entry := mk_blockidx {
  bi_data_block : Z;
  bi_md_block : Z
}.

(** [tbl_blocks] is [None] for a null pointer. *)
Record sqfs_table := mk_table {
  tbl_each : Z;
  tbl_count : Z;
  tbl_blocks : option (list Z)
}.
Definition table_zero : sqfs_table := mk_table 0 0 None.

(** ** struct sqfs: what does not change after the initialisation *)
Record sqfs := mk_sqfs {
  fd : list byte;  (* the contents of the image file *)
  fs_offset : Z;
  fs_uid : Z;
  fs_gid : Z;
  sb : squashfs_super_block;
  id_table : sqfs_table;
  frag_table : sqfs_table;
  export_table : sqfs_table;
  decompressor : option sqfs_decompressor;
  xattr_info : squashfs_xattr_id_table;
  xattr_table : sqfs_table
}.

Abbreviation heap := (gmap positive sqfs_block).

(** [sqfs_pread]: at most [count] bytes of the file from [off]; fewer at the end
    of the file, [None] (that is, -1) for a negative offset. *)
Definition sqfs_pread (f : list byte) (count off : Z) : option (list byte) :=
  if off <? 0 then None else Some (slice f off count).

(** The pattern [sqfs_pread(fd, buf, n, off) != n]. *)
Definition pread_exact (f : list byte) (n off : Z) : option (list byte) :=
  match sqfs_pread f n off with
  | Some bs => if len bs =? n then Some bs else None
  | None => None
  end.

Section state.
Context {CI : CacheImpl}.

Record sqfs_state := mk_state {
  md_cache : cache sqfs_block_cache_entry;
  data_cache : cache sqfs_block_cache_entry;
  frag_cache : cache sqfs_block_cache_entry;
  blockidx : cache (list sqfs_blockidx_entry);
  blocks : heap;
  mem : mallocs
}.

Definition M (A : Type) : Type := sqfs_state -> outcome (sqfs_state * result A).

#[global] Instance M_ret : MRet M := fun A a s => Ret (s, Success a).
#[global] Instance M_bind : MBind M := fun A B k m s =>
  match m s with
  | Ret (s, Success a) => k a s
  | Ret (s, Failure e) => Ret (s, Failure e)
  | Crash c => Crash c
  end.

Definition fail {A} (e : sqfs_err) : M A := fun s => Ret (s, Failure e).
Definition lift {A} (o : outcome A) : M A := fun s =>
  match o with Ret a => Ret (s, Success a) | Crash c => Crash c end.

(** Run [m] and look at its error code. *)
Definition try {A} (m : M A) : M (result A) := fun s =>
  match m s with
  | Ret (s, r) => Ret (s, Success r)
  | Crash c => Crash c
  end.
Definition of_result {A} (r : result A) : M A := fun s => Ret (s, r).

Definition set_blocks (s : sqfs_state) (b : heap) : sqfs_state :=
  mk_state s.(md_cache) s.(data_cache) s.(frag_cache) s.(blockidx) b s.(mem).
Definition set_mem (s : sqfs_state) (m : mallocs) : sqfs_state :=
  mk_state s.(md_cache) s.(data_cache) s.(frag_cache) s.(blockidx) s.(blocks) m.

Definition malloc_ok : M bool := fun s =>
  let (ok, m) := malloc s.(mem) in Ret (set_mem s m, Success ok).

(** ** The block caches *)
Inductive which := MdCache | DataCache | FragCache.
#[export] Instance which_eq_dec : EqDecision which.
Proof. solve_decision. Defined.

Definition get_cache (w : which) (s : sqfs_state) : cache sqfs_block_cache_entry :=
  match w with
  | MdCache => s.(md_cache) | DataCache => s.(data_cache) | FragCache => s.(frag_cache)
  end.

Definition set_cache (w : which) (s : sqfs_state) (c : cache sqfs_block_cache_entry)
    : sqfs_state :=
  match w with
  | MdCache =>
      mk_state c s.(data_cache) s.(frag_cache) s.(blockidx) s.(blocks) s.(mem)
  | DataCache =>
      mk_state s.(md_cache) c s.(frag_cache) s.(blockidx) s.(blocks) s.(mem)
  | FragCache =>
      mk_state s.(md_cache) s.(data_cache) c s.(blockidx) s.(blocks) s.(mem)
  end.

Definition set_blockidx (s : sqfs_state) (c : cache (list sqfs_blockidx_entry))
    : sqfs_state :=
  mk_state s.(md_cache) s.(data_cache) s.(frag_cache) c s.(blocks) s.(mem).

(** ** Blocks and their reference counts *)

(** [malloc(sizeof( **block))] that succeeded, with [refcount = 1]. *)
Definition block_new : M positive := fun s =>
  let l := fresh (dom s.(blocks)) in
  Ret (set_blocks s (<[l := mk_block 0 [] 1]> s.(blocks)), Success l).

Definition block_deref (l : positive) (h : heap) : outcome sqfs_block :=
  match h !! l with Some b => Ret b | None => Crash MemFault end.

(** [( *block)->data = ...; ( *block)->size = ...]. *)
Definition block_set (l : positive) (size : Z) (data : list byte) : M unit := fun s =>
  match s.(blocks) !! l with
  | Some b =>
      Ret (set_blocks s (<[l := mk_block size data b.(blk_refcount)]> s.(blocks)),
           Success tt)
  | None => Crash MemFault
  end.

(** The counters are [long]: they would wrap only after [2^63] references. *)
Definition sqfs_block_ref (l : positive) (h : heap) : outcome heap :=
  b ← block_deref l h;
  Ret (<[l := mk_block b.(blk_size) b.(blk_data) (b.(blk_refcount) + 1)]> h).

(** The heap after the decrement, and whether it was the last reference. *)
Definition sqfs_block_deref (l : positive) (h : heap) : outcome (heap * bool) :=
  b ← block_deref l h;
  let n := b.(blk_refcount) - 1 in
  Ret (<[l := mk_block b.(blk_size) b.(blk_data) n]> h, n =? 0).

Definition sqfs_block_dispose (l : positive) (h : heap) : outcome heap :=
  '(h, last) ← sqfs_block_deref l h;
  Ret (if (last : bool) then delete l h else h).

Definition sqfs_block_cache_dispose (e : sqfs_block_cache_entry) (h : heap) : outcome heap :=
  match e.(bce_block) with
  | Some l => sqfs_block_dispose l h
  | None => Crash MemFault
  end.

Definition on_heap (f : heap -> outcome heap) : M unit := fun s =>
  match f s.(blocks) with
  | Ret h => Ret (set_blocks s h, Success tt)
  | Crash c => Crash c
  end.

Definition block_dispose (l : positive) : M unit := on_heap (sqfs_block_dispose l).
Definition block_ref (l : positive) : M unit := on_heap (sqfs_block_ref l).
Definition block_get (l : positive) : M sqfs_block := fun s => lift (block_deref l s.(blocks)) s.

(** ** cache.h on the caches of the state *)
Definition m_cache_get (w : which) (key : Z) : M Z := fun s =>
  match cache_get sqfs_block_cache_dispose (get_cache w s) key s.(blocks) with
  | Ret (h, (c, e)) => Ret (set_cache w (set_blocks s h) c, Success e)
  | Crash c => Crash c
  end.

Definition m_cache_upd (w : which)
    (f : cache sqfs_block_cache_entry -> outcome (cache sqfs_block_cache_entry)) : M unit :=
  fun s => match f (get_cache w s) with
           | Ret c => Ret (set_cache w s c, Success tt)
           | Crash c => Crash c
           end.

Definition m_cache_read {A} (w : which)
    (f : cache sqfs_block_cache_entry -> outcome A) : M A :=
  fun s => lift (f (get_cache w s)) s.
End state.
