(* ===== verification/Block.v ===== *)
(** * Block: reading, caching and releasing blocks (fs.c)

    The functions of fs.c below [sqfs_md_read], over the monad of FsState, and the
    interface [FsMonad] through which everything above them (metadata, inodes,
    directories, files, attributes) uses blocks.  A client never keeps a block
    past one use: it takes a reference, copies bytes out and disposes of the
    reference.  The interface therefore passes the use as a function. *)
From S2P Require Import Prelude Swap Cache Decompress FsState.

(** ** Block headers *)
Definition SQUASHFS_COMPRESSED_BIT : Z := Z.shiftl 1 15.
Definition SQUASHFS_COMPRESSED_BIT_BLOCK : Z := Z.shiftl 1 24.
Definition SQUASHFS_METADATA_SIZE : Z := 8192.

(** (compressed, size) *)
Definition sqfs_md_header (hdr : Z) : bool * Z :=
  let size := u16 (hdr &&& Z.lnot SQUASHFS_COMPRESSED_BIT) in
  ((hdr &&& SQUASHFS_COMPRESSED_BIT) =? 0,
   if size =? 0 then SQUASHFS_COMPRESSED_BIT else size).

Definition sqfs_data_header (hdr : Z) : bool * Z :=
  ((hdr &&& SQUASHFS_COMPRESSED_BIT_BLOCK) =? 0,
   u32 (hdr &&& Z.lnot SQUASHFS_COMPRESSED_BIT_BLOCK)).

Section block.
Context {CI : CacheImpl}.

(** The [error:] label of [sqfs_block_read]. *)
Definition block_error {A} (l : positive) (err : sqfs_err) : M A :=
  block_dispose l;; fail err.

Definition sqfs_block_read (fs : sqfs) (pos : Z) (compressed : bool) (size outsize : Z)
    : M positive :=
  ok ← malloc_ok;
  if negb ok then fail SQFS_ERR
  else
    l ← block_new;
    ok ← malloc_ok;
    if negb ok then block_error l SQFS_ERR
    else
      match pread_exact fs.(fd) size (s64 (pos + fs.(fs_offset))) with
      | None => block_error l SQFS_ERR
      | Some data =>
          if compressed then
            ok ← malloc_ok;
            if negb ok then block_error l SQFS_ERR
            else
              match fs.(decompressor) with
              | None => lift (Crash MemFault)
              | Some decomp =>
                  r ← lift (decomp data outsize);
                  match r with
                  | Failure err => block_error l err
                  | Success out => block_set l (len out) out;; mret l
                  end
              end
          else block_set l size data;; mret l
      end.

(** The block and [*data_size], its size in the archive with the header. *)
Definition sqfs_md_block_read (fs : sqfs) (pos : Z) : M (Z * positive) :=
  match pread_exact fs.(fd) 2 (s64 (pos + fs.(fs_offset))) with
  | None => fail SQFS_ERR
  | Some bs =>
      let pos := s64 (pos + 2) in
      let hdr := sqfs_swapin16 bs in
      let (compressed, size) := sqfs_md_header hdr in
      l ← sqfs_block_read fs pos compressed size SQUASHFS_METADATA_SIZE;
      mret (2 + size, l)
  end.

Definition sqfs_data_block_read (fs : sqfs) (pos hdr : Z) : M positive :=
  let (compressed, size) := sqfs_data_header hdr in
  sqfs_block_read fs pos compressed size (sb_block_size fs.(sb)).

(** The block with a reference for the caller, and the position after it. *)
Definition sqfs_md_cache (fs : sqfs) (pos : Z) : M (Z * positive) :=
  e ← m_cache_get MdCache (u64 pos);
  v ← m_cache_read MdCache (fun c => cache_entry_valid c e);
  r ← (if (v : bool) then mret (Success tt)
       else
         r ← try (sqfs_md_block_read fs pos);
         match r with
         | Failure err => m_cache_upd MdCache (fun c => cache_put c e);; mret (Failure err)
         | Success (data_size, l) =>
             m_cache_upd MdCache (fun c => cache_set_data c e (mk_bce (Some l) data_size));;
             m_cache_upd MdCache (fun c => cache_entry_mark_valid c e);;
             mret (Success tt)
         end);
  match r with
  | Failure err => fail err
  | Success _ =>
      d ← m_cache_read MdCache (fun c => cache_data c e);
      match d.(bce_block) with
      | None => lift (Crash MemFault)
      | Some l =>
          block_ref l;;
          m_cache_upd MdCache (fun c => cache_put c e);;
          mret (s64 (pos + d.(bce_data_size)), l)
      end
  end.

(** [w] is the cache the caller passes: the data cache or the fragment cache. *)
Definition sqfs_data_cache (fs : sqfs) (w : which) (pos hdr : Z) : M positive :=
  e ← m_cache_get w (u64 pos);
  v ← m_cache_read w (fun c => cache_entry_valid c e);
  r ← (if (v : bool) then mret (Success tt)
       else
         r ← try (sqfs_data_block_read fs pos hdr);
         match r with
         | Failure err => m_cache_upd w (fun c => cache_put c e);; mret (Failure err)
         | Success l =>
             m_cache_upd w (fun c => cache_set_data c e (mk_bce (Some l) 0));;
             m_cache_upd w (fun c => cache_entry_mark_valid c e);;
             mret (Success tt)
         end);
  match r with
  | Failure err => fail err
  | Success _ =>
      d ← m_cache_read w (fun c => cache_data c e);
      match d.(bce_block) with
      | None => lift (Crash MemFault)
      | Some l =>
          block_ref l;;
          m_cache_upd w (fun c => cache_put c e);;
          mret l
      end
  end.

Definition sqfs_block_cache_init (count : Z) (m : mallocs)
    : result (cache sqfs_block_cache_entry) * mallocs :=
  cache_init (mk_bce None 0) count m.
End block.

(** ** The interface of blocks *)
Class FsMonad (m : Type -> Type) := {
  fm_ret :: MRet m;
  fm_bind :: MBind m;
  fm_fail {A} : sqfs_err -> m A;
  fm_lift {A} : outcome A -> m A;
  (** [malloc], with a return of [SQFS_ERR] when it fails. *)
  fm_alloc : m unit;
  (** [if (...) return SQFS_ERR;] whatever the code was. *)
  fm_or_err {A} : m A -> m A;
  (** [sqfs_md_cache], a use of the block's size and data with the position after
      it, [sqfs_block_dispose]. *)
  with_md_block {A} : sqfs -> Z -> (Z -> Z -> list byte -> outcome A) -> m A;
  (** The same with [sqfs_data_cache] on one of the two data caches. *)
  with_data_block {A} : sqfs -> which -> Z -> Z -> (Z -> list byte -> outcome A) -> m A;
  (** [sqfs_cache_get] on the block-index cache, the creation of the index when
      the entry is not valid, a use of the index, [sqfs_cache_put]. *)
  with_blockidx {A} : Z -> m (list sqfs_blockidx_entry) ->
    (list sqfs_blockidx_entry -> outcome A) -> m A
}.

Section implementation.
Context {CI : CacheImpl}.

Definition impl_or_err {A} (x : M A) : M A :=
  r ← try x;
  match r with Success a => mret a | Failure _ => fail SQFS_ERR end.

Definition impl_with_md_block {A} (fs : sqfs) (pos : Z)
    (use : Z -> Z -> list byte -> outcome A) : M A :=
  '(pos, l) ← sqfs_md_cache fs pos;
  b ← block_get l;
  a ← lift (use pos b.(blk_size) b.(blk_data));
  block_dispose l;;
  mret a.

Definition impl_with_data_block {A} (fs : sqfs) (w : which) (pos hdr : Z)
    (use : Z -> list byte -> outcome A) : M A :=
  l ← sqfs_data_cache fs w pos hdr;
  b ← block_get l;
  a ← lift (use b.(blk_size) b.(blk_data));
  block_dispose l;;
  mret a.

Definition m_blockidx_get (key : Z) : M Z := fun s =>
  match cache_get (fun _ (u : unit) => Ret u) s.(blockidx) key tt with
  | Ret (_, (c, e)) => Ret (set_blockidx s c, Success e)
  | Crash c => Crash c
  end.
Definition m_blockidx_upd
    (f : cache (list sqfs_blockidx_entry) -> outcome (cache (list sqfs_blockidx_entry)))
    : M unit :=
  fun s => match f s.(blockidx) with
           | Ret c => Ret (set_blockidx s c, Success tt)
           | Crash c => Crash c
           end.
Definition m_blockidx_read {A} (f : cache (list sqfs_blockidx_entry) -> outcome A) : M A :=
  fun s => lift (f s.(blockidx)) s.

Definition impl_with_blockidx {A} (key : Z) (create : M (list sqfs_blockidx_entry))
    (use : list sqfs_blockidx_entry -> outcome A) : M A :=
  e ← m_blockidx_get key;
  v ← m_blockidx_read (fun c => cache_entry_valid c e);
  r ← (if (v : bool) then mret (Success tt)
       else
         r ← try create;
         match r with
         | Failure err => m_blockidx_upd (fun c => cache_put c e);; mret (Failure err)
         | Success index =>
             m_blockidx_upd (fun c => cache_set_data c e index);;
             m_blockidx_upd (fun c => cache_entry_mark_valid c e);;
             mret (Success tt)
         end);
  match r with
  | Failure err => fail err
  | Success _ =>
      index ← m_blockidx_read (fun c => cache_data c e);
      a ← lift (use index);
      m_blockidx_upd (fun c => cache_put c e);;
      mret a
  end.

#[global] Instance fs_impl : FsMonad M := {|
  fm_ret := M_ret;
  fm_bind := M_bind;
  fm_fail := @fail _;
  fm_lift := @lift _;
  fm_alloc := (ok ← malloc_ok; if (ok : bool) then mret tt else fail SQFS_ERR);
  fm_or_err := @impl_or_err;
  with_md_block := @impl_with_md_block;
  with_data_block := @impl_with_data_block;
  with_blockidx := @impl_with_blockidx
|}.
End implementation.

(** ** The reference: the archive read without caches, heap or allocation failures *)
Definition O (A : Type) : Type := outcome (result A).

#[export] Instance O_ret : MRet O := fun A a => Ret (Success a).
#[export] Instance O_bind : MBind O := fun A B k m =>
  match m with
  | Ret (Success a) => k a
  | Ret (Failure e) => Ret (Failure e)
  | Crash c => Crash c
  end.

Definition block_spec (fs : sqfs) (pos : Z) (compressed : bool) (size outsize : Z)
    : O (list byte) :=
  match pread_exact fs.(fd) size (s64 (pos + fs.(fs_offset))) with
  | None => Ret (Failure SQFS_ERR)
  | Some data =>
      if compressed then
        match fs.(decompressor) with
        | None => Crash MemFault
        | Some decomp => decomp data outsize
        end
      else Ret (Success data)
  end.

Definition md_block_spec (fs : sqfs) (pos : Z) : O (Z * list byte) :=
  match pread_exact fs.(fd) 2 (s64 (pos + fs.(fs_offset))) with
  | None => Ret (Failure SQFS_ERR)
  | Some bs =>
      let (compressed, size) := sqfs_md_header (sqfs_swapin16 bs) in
      data ← block_spec fs (pos + 2) compressed size SQUASHFS_METADATA_SIZE;
      mret (2 + size, data)
  end.

Definition data_block_spec (fs : sqfs) (pos hdr : Z) : O (list byte) :=
  let (compressed, size) := sqfs_data_header hdr in
  block_spec fs pos compressed size (sb_block_size fs.(sb)).

Definition spec_lift {A} (o : outcome A) : O A :=
  match o with Ret a => Ret (Success a) | Crash c => Crash c end.

#[export] Instance fs_spec : FsMonad O := {|
  fm_ret := O_ret;
  fm_bind := O_bind;
  fm_fail A e := Ret (Failure e);
  fm_lift := @spec_lift;
  fm_alloc := Ret (Success tt);
  fm_or_err A x :=
    match x with Ret (Failure _) => Ret (Failure SQFS_ERR) | _ => x end;
  with_md_block A fs pos use :=
    '(data_size, data) ← md_block_spec fs pos;
    spec_lift (use (s64 (pos + data_size)) (len data) data);
  with_data_block A fs w pos hdr use :=
    data ← data_block_spec fs pos hdr;
    spec_lift (use (len data) data);
  with_blockidx A key create use :=
    index ← create;
    spec_lift (use index)
|}.

(** ** Archives the theorems are about

    A file has at most [2^62] bytes ([off_t] is signed), and the decompressor
    keeps to its buffer. *)
Record fs_ok (fs : sqfs) : Prop := {
  fs_small : len fs.(fd) <= 2 ^ 62;
  fs_decomp d : fs.(decompressor) = Some d -> decomp_ok d
}.
