(* ===== verification/BlockOk.v ===== *)
(** * BlockOk: the block store and its caches are right

    The invariant of the state: every live block's reference count is the number
    of its owners (valid cache entries and references handed out), no owner points
    to a released block, and what a cache holds under a key is what the archive
    holds there.  [sim] relates a computation over the caches to the reference of
    Block; the primitives of [FsMonad] satisfy it, and so does everything built
    from them. *)
From S2P Require Import Prelude Swap Cache Decompress FsState Block.

(** Unfold the monads on both sides. *)
Ltac run_m :=
  cbn [fm_ret fm_bind fm_fail fm_lift fm_alloc fm_or_err fs_impl fs_spec];
  unfold mbind, mret, M_bind, M_ret, O_bind, O_ret; cbn beta iota.

(** ** Owners *)
Definition occ (l : positive) (owners : list positive) : Z :=
  Z.of_nat (count_occ Pos.eq_dec owners l).

Lemma occ_cons l l' o : occ l (l' :: o) = (if decide (l' = l) then 1 else 0) + occ l o.
Proof.
  unfold occ. cbn. destruct (Pos.eq_dec l' l), (decide (l' = l)); try congruence; lia.
Qed.

Lemma occ_nonneg l o : 0 <= occ l o.
Proof. unfold occ. lia. Qed.

Lemma occ_elem l o : 0 < occ l o <-> l ∈ o.
Proof.
  unfold occ. rewrite list_elem_of_In, (count_occ_In Pos.eq_dec). lia.
Qed.

Lemma occ_perm l o o' : o ≡ₚ o' -> occ l o = occ l o'.
Proof.
  intros Hp. unfold occ. f_equal. revert l. by apply (Permutation_count_occ Pos.eq_dec).
Qed.

(** Reference counts are exact and nothing else is allocated. *)
Definition heap_ok (h : heap) (owners : list positive) : Prop :=
  forall l, match h !! l with
            | Some b => 0 < occ l owners /\ b.(blk_refcount) = occ l owners
            | None => occ l owners = 0
            end.

#[export] Instance heap_ok_proper h : Proper ((≡ₚ) ==> iff) (heap_ok h).
Proof.
  intros o o' Hp. unfold heap_ok.
  split; intros H l; specialize (H l); rewrite (occ_perm l o o' Hp) in *; done.
Qed.

(** Size and contents of a block, apart from its counter. *)
Definition view (h : heap) (l : positive) : option (Z * list byte) :=
  (fun b => (b.(blk_size), b.(blk_data))) <$> h !! l.

Definition same_view (h h' : heap) (owners : list positive) : Prop :=
  forall l, l ∈ owners -> view h' l = view h l.

Lemma heap_ok_live h o l : heap_ok h o -> l ∈ o -> exists b, h !! l = Some b.
Proof.
  intros Hok Hl%occ_elem. specialize (Hok l). destruct (h !! l); [eauto|lia].
Qed.

Lemma heap_ok_dead h o l : heap_ok h o -> h !! l = None -> l ∉ o.
Proof. intros Hok Hl Hin%occ_elem. specialize (Hok l). rewrite Hl in Hok. lia. Qed.

Lemma heap_ok_insert h o l b :
  heap_ok h o -> h !! l = None -> b.(blk_refcount) = 1 -> heap_ok (<[l := b]> h) (l :: o).
Proof.
  intros Hok Hl Hb l'. rewrite occ_cons, lookup_insert. pose proof (Hok l') as Hl'.
  case_decide as E; [|by rewrite Z.add_0_l].
  subst l'. rewrite Hl in Hl'. rewrite Hl', Hb. lia.
Qed.

Lemma block_ref_ok h o l :
  heap_ok h o -> l ∈ o ->
  exists h', sqfs_block_ref l h = Ret h' /\ heap_ok h' (l :: o) /\ same_view h h' o /\
    (forall l', is_Some (h !! l') -> is_Some (h' !! l')).
Proof.
  intros Hok Hl. destruct (heap_ok_live h o l Hok Hl) as [b Hb].
  unfold sqfs_block_ref, block_deref. rewrite Hb. cbn. eexists; split; [done|].
  split; [|split].
  - intros l'. rewrite occ_cons, lookup_insert. pose proof (Hok l') as Hl'.
    case_decide; [subst; rewrite Hb in Hl'; cbn; lia|by rewrite Z.add_0_l].
  - intros l' _. unfold view. rewrite lookup_insert.
    case_decide; [subst; by rewrite Hb|done].
  - intros l' ?. rewrite lookup_insert. case_decide; eauto.
Qed.

Lemma block_dispose_ok h o l :
  heap_ok h (l :: o) ->
  exists h', sqfs_block_dispose l h = Ret h' /\ heap_ok h' o /\ same_view h h' o.
Proof.
  intros Hok. destruct (heap_ok_live h (l :: o) l Hok) as [b Hb]; [by left|].
  unfold sqfs_block_dispose, sqfs_block_deref, block_deref. rewrite Hb. cbn.
  pose proof (Hok l) as Hl. rewrite Hb, occ_cons, decide_True in Hl by done.
  eexists; split; [done|]. split.
  - intros l'. pose proof (Hok l') as Hl'. rewrite occ_cons in Hl'.
    destruct (decide (l = l')) as [<-|Hne].
    + zbool.
      * rewrite lookup_delete_eq. lia.
      * rewrite lookup_insert_eq. cbn. pose proof (occ_nonneg l o). lia.
    + zbool; rewrite ?lookup_delete_ne, ?lookup_insert_ne by done; by rewrite Z.add_0_l in Hl'.
  - intros l' Hin%occ_elem. unfold view. destruct (decide (l = l')) as [<-|Hne].
    + zbool; [lia|]. rewrite lookup_insert_eq, Hb. done.
    + zbool; by rewrite ?lookup_delete_ne, ?lookup_insert_ne by done.
Qed.

(** What the keys of the data caches and of the index cache may stand for: the headers
    with which a data position is read, and the indexes of an inode number.  In a
    well-formed archive each is one. *)
Record expectations := {
  data_hdr : Z -> Z -> Prop;
  frag_hdr : Z -> Z -> Prop;
  index_of : Z -> list sqfs_blockidx_entry -> Prop
}.

(** An archive of which nothing is known. *)
Definition any_expectations : expectations :=
  {| data_hdr _ _ := True; frag_hdr _ _ := True; index_of _ _ := True |}.

Section invariant.
Context {CI : CacheImpl} {CL : CacheLaws CI}.
Context (fs : sqfs) (X : expectations).

Definition P_of (w : which) (key n : Z) (data : list byte) : Prop :=
  match w with
  | MdCache => md_block_spec fs key = Ret (Success (n, data))
  | DataCache => n = 0 /\
      exists hdr, X.(data_hdr) key hdr /\ data_block_spec fs key hdr = Ret (Success data)
  | FragCache => n = 0 /\
      exists hdr, X.(frag_hdr) key hdr /\ data_block_spec fs key hdr = Ret (Success data)
  end.

Definition entry_ok (w : which) (h : heap) (p : Z * sqfs_block_cache_entry) : Prop :=
  exists l data, (p.2).(bce_block) = Some l /\ view h l = Some (len data, data) /\
    P_of w p.1 (p.2).(bce_data_size) data.

Definition cache_refs (c : cache sqfs_block_cache_entry) : list positive :=
  omap (fun p : Z * sqfs_block_cache_entry => (p.2).(bce_block)) (cache_entries c).

Definition refs (s : sqfs_state) : list positive :=
  cache_refs s.(md_cache) ++ cache_refs s.(data_cache) ++ cache_refs s.(frag_cache).

(** Everything but which entries are handed out; [held] lists the references the
    caller holds. *)
Record core (s : sqfs_state) (held : list positive) : Prop := {
  core_heap : heap_ok s.(blocks) (refs s ++ held);
  core_content w p : p ∈ cache_entries (get_cache w s) -> entry_ok w s.(blocks) p;
  core_index k v : (k, v) ∈ cache_entries s.(blockidx) -> X.(index_of) k v
}.

(** [bst] is [None] when no index is handed out; while one is, nothing touches
    the index cache. *)
Record inv (s : sqfs_state) (held : list positive)
    (bst : option (cache (list sqfs_blockidx_entry))) : Prop := {
  inv_core : core s held;
  inv_quiet w : cache_quiet (get_cache w s);
  inv_blockidx : match bst with
                 | None => cache_quiet s.(blockidx)
                 | Some c => s.(blockidx) = c
                 end
}.

(** [m] gives what the reference [o] gives, or fails because an allocation failed;
    the invariant is kept in every case, so no block leaks and none is used after
    its release.  [b] tells whether [m] uses the index cache. *)
Definition sim (b : bool) {A} (m : M A) (o : O A) : Prop :=
  forall s held bst, (b = true -> bst = None) -> inv s held bst ->
  match m s with
  | Crash c => o = Crash c
  | Ret (s', r) =>
      inv s' held bst /\
      (o = Ret r \/ (s.(mem) <> [] /\ exists e, r = Failure e)) /\
      (s.(mem) = [] -> s'.(mem) = [])
  end.

(** [m] gives something in [R], or fails because an allocation failed: [sim] for when
    the caches leave open what the reference is. *)
Definition meets (b : bool) {A} (m : M A) (R : O A -> Prop) : Prop :=
  forall s held bst, (b = true -> bst = None) -> inv s held bst ->
  match m s with
  | Crash c => R (Crash c)
  | Ret (s', r) =>
      inv s' held bst /\
      (R (Ret r) \/ (s.(mem) <> [] /\ exists e, r = Failure e)) /\
      (s.(mem) = [] -> s'.(mem) = [])
  end.

Lemma meets_sim b {A} (m : M A) o : meets b m (eq o) <-> sim b m o.
Proof. done. Qed.

Lemma sim_meets b {A} (m : M A) o (R : O A -> Prop) : sim b m o -> R o -> meets b m R.
Proof.
  intros Hm HR s held bst Hb Hi. specialize (Hm s held bst Hb Hi).
  destruct (m s) as [[s' r]|]; [|by subst]. destruct Hm as (? & [->|?] & ?); auto.
Qed.

(** ** The rules of [sim] *)
Lemma sim_weaken b {A} (m : M A) o : sim false m o -> sim b m o.
Proof. intros H s held bst _. by apply H. Qed.

Lemma sim_ret b {A} (a : A) : sim b (@mret _ (@fm_ret _ fs_impl) _ a) (@mret _ (@fm_ret _ fs_spec) _ a).
Proof. intros s held bst _ Hi. cbn. auto. Qed.

Lemma sim_fail b {A} e : sim b (fm_fail (A := A) e) (fm_fail e).
Proof. intros s held bst _ Hi. cbn. auto. Qed.

Lemma sim_lift b {A} (o : outcome A) : sim b (fm_lift o) (fm_lift o).
Proof. intros s held bst _ Hi. cbn. destruct o; cbn; auto. Qed.

Lemma sim_bind_eq b {A B} (m : M A) (o : O A) (k : A -> M B) (ko : A -> O B) :
  sim b m o -> (forall a, o = Ret (Success a) -> sim b (k a) (ko a)) ->
  sim b (@mbind _ (@fm_bind _ fs_impl) _ _ k m) (@mbind _ (@fm_bind _ fs_spec) _ _ ko o).
Proof.
  intros Hm Hk s held bst Hb Hi. specialize (Hm s held bst Hb Hi).
  run_m. destruct (m s) as [[s1 [a|e]]|c].
  - destruct Hm as (Hi1 & [Ho|(? & ? & ?)] & Hmem); [|done]. subst o. run_m.
    specialize (Hk a eq_refl s1 held bst Hb Hi1). destruct (k a s1) as [[s2 r]|c]; [|done].
    destruct Hk as (Hi2 & Hr & Hmem2). split; [done|]. split; [|auto].
    destruct Hr as [?|[Hne ?]]; [auto|]. right. split; [|done]. intros E. by apply Hne, Hmem.
  - destruct Hm as (Hi1 & Hr & Hmem). split; [done|]. split; [|done].
    destruct Hr as [->|[? ?]]; [auto|]. right. eauto.
  - by rewrite Hm.
Qed.

Lemma sim_bind b {A B} (m : M A) (o : O A) (k : A -> M B) (ko : A -> O B) :
  sim b m o -> (forall a, sim b (k a) (ko a)) ->
  sim b (@mbind _ (@fm_bind _ fs_impl) _ _ k m) (@mbind _ (@fm_bind _ fs_spec) _ _ ko o).
Proof. intros Hm Hk. apply sim_bind_eq; [done|]. intros a _. apply Hk. Qed.

Lemma sim_or_err b {A} (m : M A) o : sim b m o -> sim b (fm_or_err m) (fm_or_err o).
Proof.
  intros Hm s held bst Hb Hi. specialize (Hm s held bst Hb Hi).
  run_m. unfold impl_or_err, try; run_m.
  destruct (m s) as [[s1 [a|e]]|c]; cbn.
  - destruct Hm as (Hi1 & [->|(? & ? & ?)] & Hmem); [|done]. auto.
  - destruct Hm as (Hi1 & [->|[? ?]] & Hmem); eauto 6.
  - by rewrite Hm.
Qed.

Lemma get_cache_set_mem w s m : get_cache w (set_mem s m) = get_cache w s.
Proof. by destruct w. Qed.
Lemma get_cache_set_blocks w s h : get_cache w (set_blocks s h) = get_cache w s.
Proof. by destruct w. Qed.
Lemma get_cache_set_blockidx w s c : get_cache w (set_blockidx s c) = get_cache w s.
Proof. by destruct w. Qed.
Lemma get_set_cache w s c : get_cache w (set_cache w s c) = c.
Proof. by destruct w. Qed.
Lemma get_set_cache_ne w w' s c : w <> w' -> get_cache w (set_cache w' s c) = get_cache w s.
Proof. by destruct w, w'. Qed.

Lemma core_set_mem s held m : core s held -> core (set_mem s m) held.
Proof. intros [? Hc ?]. split; try done; intros w; rewrite get_cache_set_mem; auto. Qed.

Lemma inv_set_mem s m held bst : inv s held bst -> inv (set_mem s m) held bst.
Proof.
  intros [? Hq ?]. split; [by apply core_set_mem| |done].
  intros w. rewrite get_cache_set_mem. auto.
Qed.

Lemma malloc_ok_run s :
  malloc_ok s = Ret (set_mem s (snd (malloc s.(mem))), Success (fst (malloc s.(mem)))).
Proof. unfold malloc_ok. by destruct (malloc s.(mem)). Qed.

Lemma malloc_fail m : fst (malloc m) = false -> m <> [].
Proof. by destruct m. Qed.

Lemma malloc_nil m : m = [] -> snd (malloc m) = [].
Proof. by intros ->. Qed.

Lemma sim_alloc b : sim b fm_alloc fm_alloc.
Proof.
  intros s held bst Hb Hi. run_m. rewrite malloc_ok_run. cbn beta iota.
  destruct (fst (malloc (mem s))) eqn:E; cbn;
    (split; [by apply inv_set_mem|]); (split; [|apply malloc_nil]).
  - by left.
  - right. eauto using malloc_fail.
Qed.

(** ** Reading a block *)
Definition with_store (s : sqfs_state) (h : heap) (m : mallocs) : sqfs_state :=
  set_mem (set_blocks s h) m.

(** What a reader of blocks does from [s]: a new block with the contents the
    reference gives, or the heap as it was.  [R] relates the reader's result to the
    block, its contents and the reference's result. *)
Definition reads {V W} (R : V -> positive -> list byte -> W -> Prop) (s : sqfs_state)
    (o : O W) (out : outcome (sqfs_state * result V)) : Prop :=
  match out with
  | Crash c => o = Crash c
  | Ret (s', r) =>
      (s.(mem) = [] -> s'.(mem) = []) /\ s' = with_store s s'.(blocks) s'.(mem) /\
      match r with
      | Success v => exists l data w, R v l data w /\ o = Ret (Success w) /\
          s.(blocks) !! l = None /\
          s'.(blocks) = <[l := mk_block (len data) data 1]> s.(blocks)
      | Failure e => s'.(blocks) = s.(blocks) /\
          (o = Ret (Failure e) \/ s.(mem) <> [])
      end
  end.
Definition is_block (v l : positive) (data w : list byte) : Prop := v = l /\ w = data.
Definition is_sized (v : Z * positive) (l : positive) (data : list byte)
    (w : Z * list byte) : Prop := exists n, v = (n, l) /\ w = (n, data).

Lemma set_blocks_self s : set_blocks s s.(blocks) = s.
Proof. by destruct s. Qed.

(** The error label gives back the block just made: nothing leaks. *)
Lemma block_error_run {A} s h l size data e :
  s.(blocks) = <[l := mk_block size data 1]> h -> h !! l = None ->
  block_error (A := A) l e s = Ret (set_blocks s h, Failure e).
Proof.
  intros Hs Hl. unfold block_error, block_dispose, on_heap. run_m.
  unfold sqfs_block_dispose, sqfs_block_deref, block_deref.
  rewrite Hs, lookup_insert_eq. cbn.
  by rewrite insert_insert_eq, delete_insert_id.
Qed.

Lemma block_new_run s :
  let l := fresh (dom s.(blocks)) in
  block_new s = Ret (set_blocks s (<[l := mk_block 0 [] 1]> s.(blocks)), Success l) /\
  s.(blocks) !! l = None.
Proof.
  intros l. split; [done|]. apply not_elem_of_dom, is_fresh.
Qed.

Lemma pread_exact_len f n off bs : pread_exact f n off = Some bs -> len bs = n.
Proof.
  unfold pread_exact. destruct (sqfs_pread f n off); [|done].
  intros E. zbool; by simplify_eq.
Qed.

Lemma reads_error {V W} (R : V -> positive -> list byte -> W -> Prop) s o l m size data e :
  s.(blocks) !! l = None -> (s.(mem) = [] -> m = []) ->
  o = Ret (Failure e) \/ s.(mem) <> [] ->
  reads R s o (block_error l e (with_store s (<[l := mk_block size data 1]> s.(blocks)) m)).
Proof. intros Hl Hm Ho. by erewrite block_error_run. Qed.

Lemma reads_done s l m data :
  s.(blocks) !! l = None -> (s.(mem) = [] -> m = []) ->
  reads is_block s (Ret (Success data))
    ((block_set l (len data) data;; mret l)
       (with_store s (<[l := mk_block 0 [] 1]> s.(blocks)) m)).
Proof.
  intros Hl Hm. run_m. unfold block_set. cbn. rewrite lookup_insert_eq. cbn.
  rewrite insert_insert_eq. split; [done|]. split; [done|].
  by exists l, data, data.
Qed.

Lemma block_read_run s pos compressed size outsize :
  reads is_block s (block_spec fs pos compressed size outsize)
    (sqfs_block_read fs pos compressed size outsize s).
Proof.
  unfold sqfs_block_read. run_m. rewrite malloc_ok_run. cbn beta iota.
  pose proof (malloc_fail s.(mem)) as Hf1. pose proof (malloc_nil s.(mem)) as Hn1.
  destruct (malloc s.(mem)) as [[] m1]; cbn [fst snd negb] in *; [|cbn; naive_solver].
  destruct (block_new_run (set_mem s m1)) as [-> Hl].
  set (l := fresh _) in *. cbn [blocks set_mem] in Hl |- *.
  run_m. rewrite malloc_ok_run. cbn beta iota. cbn [mem set_blocks set_mem].
  pose proof (malloc_fail m1) as Hf2. pose proof (malloc_nil m1) as Hn2.
  destruct (malloc m1) as [ok2 m2]; cbn [fst snd negb] in *.
  change (set_mem _ m2) with (with_store s (<[l := mk_block 0 [] 1]> s.(blocks)) m2).
  destruct ok2; cbn [negb]; [|apply reads_error; naive_solver].
  unfold block_spec. destruct (pread_exact _ _ _) as [data|] eqn:Hr;
    [|apply reads_error; naive_solver].
  apply pread_exact_len in Hr. subst size.
  destruct compressed; [|apply reads_done; naive_solver].
  rewrite malloc_ok_run. cbn beta iota. cbn [mem with_store set_mem].
  pose proof (malloc_fail m2) as Hf3. pose proof (malloc_nil m2) as Hn3.
  destruct (malloc m2) as [ok3 m3]; cbn [fst snd negb] in *.
  change (set_mem _ m3) with (with_store s (<[l := mk_block 0 [] 1]> s.(blocks)) m3).
  destruct ok3; cbn [negb]; [|apply reads_error; naive_solver].
  destruct (decompressor fs) as [decomp|]; [|done].
  unfold lift. destruct (decomp data outsize) as [[out|e]|c]; [| |done].
  - apply reads_done; naive_solver.
  - apply reads_error; naive_solver.
Qed.

Lemma reads_sized s o n (m : M positive) :
  reads is_block s o (m s) ->
  reads is_sized s (data ← o; mret (n, data)) ((l ← m; mret (n, l)) s).
Proof.
  unfold reads. run_m. destruct (m s) as [[s' [l|e]]|c]; [| |by intros ->].
  - intros (? & ? & l' & data & w & [<- ->] & -> & ? & ?).
    do 2 (split; [done|]). exists l, data, (n, data). repeat split; try done. by exists n.
  - intros (? & ? & ? & [->|?]); auto.
Qed.

Lemma block_spec_pos pos compressed size outsize :
  block_spec fs (s64 pos) compressed size outsize = block_spec fs pos compressed size outsize.
Proof. unfold block_spec. by rewrite swrap_add_swrap. Qed.

Lemma block_spec_key pos compressed size outsize :
  block_spec fs (u64 pos) compressed size outsize = block_spec fs pos compressed size outsize.
Proof. unfold block_spec. by rewrite swrap_add_wrap. Qed.

Lemma md_block_spec_key pos : md_block_spec fs (u64 pos) = md_block_spec fs pos.
Proof.
  unfold md_block_spec. rewrite swrap_add_wrap. destruct (pread_exact _ _ _); [|done].
  destruct (sqfs_md_header _) as [c size].
  by rewrite <- block_spec_key, wrap_add_l, block_spec_key.
Qed.

Lemma data_block_spec_key pos hdr : data_block_spec fs (u64 pos) hdr = data_block_spec fs pos hdr.
Proof. unfold data_block_spec. destruct (sqfs_data_header hdr). apply block_spec_key. Qed.

Lemma md_block_read_run s pos :
  reads is_sized s (md_block_spec fs pos) (sqfs_md_block_read fs pos s).
Proof.
  unfold sqfs_md_block_read, md_block_spec. destruct (pread_exact _ _ _);
    [|destruct s; cbn; auto].
  destruct (sqfs_md_header _) as [compressed size].
  rewrite <- block_spec_pos. apply reads_sized, block_read_run.
Qed.

Lemma data_block_read_run s pos hdr :
  reads is_block s (data_block_spec fs pos hdr) (sqfs_data_block_read fs pos hdr s).
Proof.
  unfold sqfs_data_block_read, data_block_spec. destruct (sqfs_data_header hdr).
  apply block_read_run.
Qed.

(** ** The cache of one kind of block among the owners *)
Definition others (w : which) (s : sqfs_state) : list positive :=
  match w with
  | MdCache => cache_refs s.(data_cache) ++ cache_refs s.(frag_cache)
  | DataCache => cache_refs s.(md_cache) ++ cache_refs s.(frag_cache)
  | FragCache => cache_refs s.(md_cache) ++ cache_refs s.(data_cache)
  end.

Lemma refs_others w s : refs s ≡ₚ cache_refs (get_cache w s) ++ others w s.
Proof.
  unfold refs. destruct w; cbn; [done|apply Permutation_app_swap_app|].
  by rewrite app_assoc, Permutation_app_comm.
Qed.

Lemma others_set w s c : others w (set_cache w s c) = others w s.
Proof. by destruct w. Qed.

Lemma refs_set w s h c : refs (set_cache w (set_blocks s h) c) ≡ₚ cache_refs c ++ others w s.
Proof. rewrite (refs_others w), get_set_cache, others_set. by destruct w. Qed.

Lemma elem_cache_refs (c : cache sqfs_block_cache_entry) p l :
  p ∈ cache_entries c -> bce_block p.2 = Some l -> l ∈ cache_refs c.
Proof. intros Hp Hl. apply list_elem_of_omap. eauto. Qed.

Lemma elem_others w w' s p l :
  w <> w' -> p ∈ cache_entries (get_cache w' s) -> bce_block p.2 = Some l -> l ∈ others w s.
Proof.
  intros Hw Hp Hl. pose proof (elem_cache_refs _ _ _ Hp Hl) as Hr.
  destruct w, w'; cbn in *; try done; apply elem_of_app; auto.
Qed.

Lemma entry_ok_view w h h' p :
  (forall l, bce_block p.2 = Some l -> view h' l = view h l) ->
  entry_ok w h p -> entry_ok w h' p.
Proof. intros Hv (l & data & Hl & Hd & HP). exists l, data. by rewrite Hv. Qed.

Lemma blocks_set_cache w s c : blocks (set_cache w s c) = blocks s.
Proof. by destruct w. Qed.
Lemma blockidx_set_cache w s c : blockidx (set_cache w s c) = blockidx s.
Proof. by destruct w. Qed.
Lemma mem_set_cache w s c : mem (set_cache w s c) = mem s.
Proof. by destruct w. Qed.

Lemma core_set w s held h c held' :
  core s held -> heap_ok h (cache_refs c ++ others w s ++ held') ->
  (forall p, p ∈ cache_entries c -> entry_ok w h p) ->
  same_view s.(blocks) h (others w s) ->
  core (set_cache w (set_blocks s h) c) held'.
Proof.
  intros [_ Hc Hi] Hh He Hv. split.
  - rewrite blocks_set_cache, refs_set, <- app_assoc. done.
  - intros w' p. rewrite blocks_set_cache. destruct (decide (w = w')) as [<-|Hne].
    + rewrite get_set_cache. apply He.
    + rewrite get_set_cache_ne, get_cache_set_blocks by done. intros Hp.
      eapply entry_ok_view; [|by apply Hc]. eauto using elem_others.
  - rewrite blockidx_set_cache. apply Hi.
Qed.

(** [sqfs_cache_get] disposes of the evicted block. *)
Lemma core_evict w s held c ev :
  core s held -> cache_entries (get_cache w s) ≡ₚ option_list ev ++ cache_entries c ->
  exists h, dispose_opt sqfs_block_cache_dispose ev s.(blocks) = Ret h /\
    core (set_cache w (set_blocks s h) c) held.
Proof.
  intros Hcore Hp. pose proof Hcore as [Hh Hc _]. rewrite (refs_others w) in Hh.
  unfold cache_refs in Hh. rewrite Hp, omap_app in Hh.
  assert (forall p, p ∈ cache_entries c -> entry_ok w s.(blocks) p) as He
    by (intros p Hin; apply Hc; rewrite Hp; apply elem_of_app; auto).
  destruct ev as [[k v]|]; cbn in *.
  - assert (entry_ok w s.(blocks) (k, v)) as (l & data & Hl & _)
      by (apply Hc; rewrite Hp; by left).
    cbn in Hl. rewrite Hl in Hh. cbn in Hh. unfold sqfs_block_cache_dispose. rewrite Hl.
    apply block_dispose_ok in Hh as (h & Hd & Hh & Hv). exists h. split; [done|].
    rewrite <- app_assoc in Hh.
    eapply core_set; [done..| |]; [|by intros ??; apply Hv; set_solver].
    intros p Hin. eapply entry_ok_view; [|by apply He]. intros l' Hl'.
    apply Hv. rewrite !elem_of_app. fold (cache_refs c). eauto using elem_cache_refs.
  - eexists; split; [done|]. eapply core_set; [done| |done|done]. by rewrite app_assoc.
Qed.

(** [sqfs_block_ref] and the caller's [sqfs_block_dispose]. *)
Lemma core_ref w s held c p l :
  core s held -> get_cache w s = c -> p ∈ cache_entries c -> bce_block p.2 = Some l ->
  exists h, sqfs_block_ref l s.(blocks) = Ret h /\ core (set_blocks s h) (l :: held) /\
    view h l = view s.(blocks) l.
Proof.
  intros [Hh Hc Hi] <- Hp Hl.
  assert (l ∈ refs s ++ held) as Hin
    by (rewrite (refs_others w), !elem_of_app; eauto using elem_cache_refs).
  destruct (block_ref_ok _ _ _ Hh Hin) as (h & Hr & Hh' & Hv & _).
  exists h. split; [done|]. split; [|by apply Hv]. split.
  - cbn [blocks set_blocks]. by rewrite <- Permutation_middle.
  - intros w' p'. rewrite get_cache_set_blocks. intros Hp'.
    eapply entry_ok_view; [|by apply Hc]. intros l' Hl'. apply Hv.
    rewrite (refs_others w'), !elem_of_app. eauto using elem_cache_refs.
  - apply Hi.
Qed.

Lemma core_dispose s held l :
  core s (l :: held) ->
  exists h, sqfs_block_dispose l s.(blocks) = Ret h /\ core (set_blocks s h) held.
Proof.
  intros [Hh Hc Hi]. rewrite <- Permutation_middle in Hh.
  destruct (block_dispose_ok _ _ _ Hh) as (h & Hd & Hh' & Hv).
  exists h. split; [done|]. split.
  - done.
  - intros w' p'. rewrite get_cache_set_blocks. intros Hp'.
    eapply entry_ok_view; [|by apply Hc]. intros l' Hl'. apply Hv.
    rewrite (refs_others w'), !elem_of_app. eauto using elem_cache_refs.
  - apply Hi.
Qed.

(** Filling an entry of cache [w] with a new block. *)
Lemma core_fill w s held c c' key n l data m :
  core s held -> get_cache w s = c ->
  cache_entries c' ≡ₚ (key, mk_bce (Some l) n) :: cache_entries c ->
  s.(blocks) !! l = None -> P_of w key n data ->
  core (set_cache w (with_store s (<[l := mk_block (len data) data 1]> s.(blocks)) m) c') held.
Proof.
  intros Hcore <- Hp Hl HP. pose proof Hcore as [Hh Hc Hi].
  apply (heap_ok_insert _ _ l (mk_block (len data) data 1)) in Hh as Hh'; [|done..].
  rewrite (refs_others w) in Hh, Hh'.
  assert (same_view s.(blocks) (<[l:=mk_block (len data) data 1]> s.(blocks))
            ((cache_refs (get_cache w s) ++ others w s) ++ held)) as Hv.
  { intros l' Hin. unfold view. rewrite lookup_insert_ne; [done|]. intros <-.
    exact (heap_ok_dead _ _ _ Hh Hl Hin). }
  enough (core (set_cache w (set_blocks s (<[l := mk_block (len data) data 1]> s.(blocks)))
                  c') held) as Hnew by (by apply (core_set_mem _ _ m) in Hnew; destruct w).
  eapply core_set; [done| | |].
  - unfold cache_refs. rewrite Hp. cbn. by rewrite <- app_assoc in Hh'.
  - intros p. rewrite Hp, elem_of_cons. intros [->|Hin].
    + exists l, data. unfold view. by rewrite lookup_insert_eq.
    + eapply entry_ok_view; [|by apply Hc]. intros l' Hl'. apply Hv.
      rewrite !elem_of_app. eauto using elem_cache_refs.
  - intros l' Hl'. apply Hv. set_solver.
Qed.

(** ** One use of a block cache *)

(** The common shape of [sqfs_md_cache] and [sqfs_data_cache]; [rd] gives the
    block with its size in the archive. *)
Definition cached_tail (w : which) (e : Z) : M (Z * positive) :=
  d ← m_cache_read w (fun c => cache_data c e);
  match d.(bce_block) with
  | None => lift (Crash MemFault)
  | Some l =>
      block_ref l;;
      m_cache_upd w (fun c => cache_put c e);;
      mret (d.(bce_data_size), l)
  end.

Definition cached (w : which) (pos : Z) (rd : M (Z * positive)) : M (Z * positive) :=
  e ← m_cache_get w (u64 pos);
  v ← m_cache_read w (fun c => cache_entry_valid c e);
  r ← (if (v : bool) then mret (Success tt)
       else
         r ← try rd;
         match r with
         | Failure err => m_cache_upd w (fun c => cache_put c e);; mret (Failure err)
         | Success (n, l) =>
             m_cache_upd w (fun c => cache_set_data c e (mk_bce (Some l) n));;
             m_cache_upd w (fun c => cache_entry_mark_valid c e);;
             mret (Success tt)
         end);
  match r with
  | Failure err => fail err
  | Success _ => cached_tail w e
  end.

(** Entry [e] of cache [w] is handed out for [key]. *)
Record mid (w : which) (s : sqfs_state) (held : list positive)
    (bst : option (cache (list sqfs_blockidx_entry))) (e key : Z) : Prop := {
  mid_core : core s held;
  mid_hold : cache_holding (get_cache w s) e key;
  mid_quiet w' : w <> w' -> cache_quiet (get_cache w' s);
  mid_blockidx : match bst with
                 | None => cache_quiet s.(blockidx)
                 | Some c => s.(blockidx) = c
                 end
}.

(** What follows holds of the run [out] from [s]: it gives a live block with contents in
    [R], or a failure in [R], or an allocation failed. *)
Definition fetched (s : sqfs_state) held bst (R : O (Z * list byte) -> Prop)
    (out : outcome (sqfs_state * result (Z * positive))) : Prop :=
  match out with
  | Crash c => R (Crash c)
  | Ret (s', r) =>
      (s.(mem) = [] -> s'.(mem) = []) /\
      match r with
      | Success (n, l) => exists data, R (Ret (Success (n, data))) /\
          inv s' (l :: held) bst /\ view s'.(blocks) l = Some (len data, data)
      | Failure e => inv s' held bst /\ (R (Ret (Failure e)) \/ s.(mem) <> [])
      end
  end.

Lemma mid_put w s held bst e key :
  mid w s held bst e key ->
  exists s', m_cache_upd w (fun c => cache_put c e) s = Ret (s', Success tt) /\
    inv s' held bst /\ s'.(mem) = s.(mem) /\ s'.(blocks) = s.(blocks).
Proof.
  intros [Hcore Hhold Hq Hb]. destruct (law_put _ _ _ Hhold) as (c' & Hput & Hquiet & He).
  unfold m_cache_upd. rewrite Hput. eexists; split; [done|].
  rewrite mem_set_cache, blocks_set_cache. split; [|done]. split.
  - pose proof Hcore as [Hh Hc Hi]. rewrite (refs_others w), <- app_assoc in Hh.
    rewrite <- (set_blocks_self s). eapply core_set; [done| | |done].
    + unfold cache_refs. rewrite He. apply Hh.
    + intros p. rewrite He. apply Hc.
  - intros w'. destruct (decide (w = w')) as [<-|Hne].
    + by rewrite get_set_cache.
    + rewrite get_set_cache_ne by done. auto.
  - by rewrite blockidx_set_cache.
Qed.

Lemma mid_tail w s held bst e key v R :
  mid w s held bst e key -> cache_data (get_cache w s) e = Ret v ->
  (key, v) ∈ cache_entries (get_cache w s) ->
  (forall n data, P_of w key n data -> R (Ret (Success (n, data)))) ->
  fetched s held bst R (cached_tail w e s).
Proof.
  intros Hmid Hd Hin HP. pose proof Hmid as [Hcore Hhold Hq Hb].
  destruct (core_content _ _ Hcore w _ Hin) as (l & data & Hl & Hview & Hdata).
  destruct (core_ref w _ _ _ _ _ Hcore eq_refl Hin Hl) as (h & Hr & Hcore' & Hv).
  cbn in Hl. unfold cached_tail, m_cache_read. run_m.
  unfold lift. rewrite Hd. cbn beta iota. rewrite Hl. unfold block_ref, on_heap. rewrite Hr.
  destruct (mid_put w (set_blocks s h) (l :: held) bst e key) as (s' & -> & Hinv & Hm & Hs').
  { split; [done|rewrite get_cache_set_blocks; done|intros w' ?; rewrite get_cache_set_blocks; auto|done]. }
  split; [by rewrite Hm|]. exists data. split; [by apply HP|]. split; [done|].
  rewrite Hs', <- Hview. apply Hv.
Qed.

Lemma mid_get w s held bst key :
  inv s held bst ->
  exists s' e b, m_cache_get w key s = Ret (s', Success e) /\ mid w s' held bst e key /\
    s'.(mem) = s.(mem) /\ cache_entry_valid (get_cache w s') e = Ret b /\
    (b = true -> exists v, cache_data (get_cache w s') e = Ret v /\
                           (key, v) ∈ cache_entries (get_cache w s')).
Proof.
  intros [Hcore Hq Hb].
  destruct (law_get (get_cache w s) key (Hq w)) as (c & e & ev & b & Hg & Hhold & Hp & Hvb).
  destruct (core_evict w s held c ev Hcore Hp) as (h & Hd & Hcore').
  unfold m_cache_get. rewrite Hg, Hd. cbn.
  exists (set_cache w (set_blocks s h) c), e, b. split; [done|].
  rewrite get_set_cache, mem_set_cache. split; [|done]. split; [done|by rewrite get_set_cache| |].
  - intros w' Hne. rewrite get_set_cache_ne, get_cache_set_blocks by done. auto.
  - by rewrite blockidx_set_cache.
Qed.

Lemma set_set_cache w s c c' : set_cache w (set_cache w s c) c' = set_cache w s c'.
Proof. by destruct w. Qed.

Lemma get_cache_with_store w s h m : get_cache w (with_store s h m) = get_cache w s.
Proof. by destruct w. Qed.

Lemma mid_fill w s held bst e key n l data m :
  mid w s held bst e key -> cache_entry_valid (get_cache w s) e = Ret false ->
  s.(blocks) !! l = None -> P_of w key n data ->
  let v := mk_bce (Some l) n in
  exists s',
    (m_cache_upd w (fun c => cache_set_data c e v);;
     m_cache_upd w (fun c => cache_entry_mark_valid c e))
      (with_store s (<[l := mk_block (len data) data 1]> s.(blocks)) m)
      = Ret (s', Success tt) /\
    mid w s' held bst e key /\ s'.(mem) = m /\ cache_data (get_cache w s') e = Ret v /\
    (key, v) ∈ cache_entries (get_cache w s').
Proof.
  intros [Hcore Hhold Hq Hb] Hvalid Hl HP v.
  destruct (law_fill _ e key v Hhold Hvalid) as (c1 & c2 & H1 & H2 & Hhold2 & Hd & Hp).
  unfold m_cache_upd. run_m. rewrite get_cache_with_store, H1. cbn beta iota.
  rewrite get_set_cache, H2, set_set_cache. eexists; split; [done|].
  rewrite get_set_cache, mem_set_cache. split; [|split; [done|split; [done|rewrite Hp; by left]]].
  split.
  - by eapply core_fill.
  - by rewrite get_set_cache.
  - intros w' Hne. rewrite get_set_cache_ne, get_cache_with_store by done. auto.
  - by rewrite blockidx_set_cache.
Qed.

Lemma mid_store w s held bst e key m :
  mid w s held bst e key -> mid w (with_store s s.(blocks) m) held bst e key.
Proof.
  intros [Hcore Hhold Hq Hb]. unfold with_store. rewrite set_blocks_self.
  split; [by apply core_set_mem|by rewrite get_cache_set_mem| |done].
  intros w' ?. rewrite get_cache_set_mem. auto.
Qed.

Lemma cached_run w s held bst pos rd o (R : O (Z * list byte) -> Prop) :
  inv s held bst ->
  (forall s, reads is_sized s o (rd s)) -> R o ->
  (forall n data, o = Ret (Success (n, data)) -> P_of w (u64 pos) n data) ->
  (forall n data, P_of w (u64 pos) n data -> R (Ret (Success (n, data)))) ->
  fetched s held bst R (cached w pos rd s).
Proof.
  intros Hinv Hrd HRo HP HR.
  destruct (mid_get w s held bst (u64 pos) Hinv) as (s1 & e & b & Hg & Hmid & Hm & Hv & Hval).
  unfold cached. run_m. rewrite Hg. cbn beta iota. unfold m_cache_read, lift at 1.
  rewrite Hv. cbn beta iota. unfold fetched. rewrite <- Hm. destruct b.
  - destruct (Hval eq_refl) as (v & Hd & Hin). by eapply mid_tail.
  - specialize (Hrd s1). unfold try, reads in *. destruct (rd s1) as [[s2 r]|c]; [|by subst o].
    destruct Hrd as (Hmem & Hs2 & Hr). destruct r as [v|err].
    + destruct Hr as (l & data & ? & (n & -> & ->) & Ho & Hl & Hbl). rewrite Hbl in Hs2.
      destruct (mid_fill w s1 held bst e (u64 pos) n l data s2.(mem) Hmid Hv Hl)
        as (s3 & Hf & Hmid3 & Hm3 & Hd3 & Hin3); [by apply HP|].
      rewrite <- Hs2 in Hf. unfold mbind, M_bind in Hf.
      destruct (m_cache_upd w _ s2) as [[s2' [[]|?]]|?]; try done. rewrite Hf.
      pose proof (mid_tail w s3 held bst e _ _ R Hmid3 Hd3 Hin3 HR) as Ht.
      unfold fetched in Ht. destruct (cached_tail w e s3) as [[s4 r]|c]; [|done].
      destruct Ht as [Hm4 Ht]. split; [intros; apply Hm4; rewrite Hm3; auto|].
      destruct r as [[]|]; [done|]. destruct Ht as [? [?|Hne]]; [by auto|].
      split; [done|]. right. intros E. apply Hne. rewrite Hm3. auto.
    + destruct Hr as [Hbl Ho]. rewrite Hbl in Hs2.
      destruct (mid_put w s2 held bst e (u64 pos)) as (s3 & -> & Hinv3 & Hm3 & _);
        [rewrite Hs2; by apply mid_store|].
      cbn. split; [rewrite Hm3; auto|]. split; [done|]. destruct Ho as [->|?]; auto.
Qed.

(** ** The primitives of [FsMonad] *)
Lemma bind_ext {A B} (m m' : M A) (k k' : A -> M B) s :
  m s = m' s -> (forall a s, k a s = k' a s) -> (m ≫= k) s = (m' ≫= k') s.
Proof.
  intros Hm Hk. unfold mbind, M_bind. rewrite Hm. by destruct (m' s) as [[? []]|].
Qed.

Lemma bind_assoc {A B C} (m : M A) (k : A -> M B) (k' : B -> M C) s :
  ((m ≫= k) ≫= k') s = (m ≫= (fun a => k a ≫= k')) s.
Proof. unfold mbind, M_bind. by destruct (m s) as [[? []]|]. Qed.

Ltac bind_step := rewrite ?bind_assoc; apply bind_ext; [done|intros ??].

Lemma md_cache_cached pos s :
  sqfs_md_cache fs pos s =
  ('(n, l) ← cached MdCache pos (sqfs_md_block_read fs pos); mret (s64 (pos + n), l)) s.
Proof.
  unfold sqfs_md_cache, cached. do 3 bind_step. destruct a1 as [[]|]; [|done].
  unfold cached_tail. bind_step. destruct (bce_block a1); [|done]. by do 2 bind_step.
Qed.

Lemma try_bind_ret {A B} (m : M A) (f : A -> B) s :
  try (a ← m; mret (f a)) s =
  (r ← try m; mret (match r with Success a => Success (f a) | Failure e => Failure e end)) s.
Proof. unfold try. run_m. by destruct (m s) as [[? []]|]. Qed.

Lemma data_cache_cached w pos hdr s :
  sqfs_data_cache fs w pos hdr s =
  ('(n, l) ← cached w pos (l ← sqfs_data_block_read fs pos hdr; mret (0, l)); mret l) s.
Proof.
  unfold sqfs_data_cache, cached. do 2 bind_step. rewrite bind_assoc. apply bind_ext.
  - destruct a0; [done|].
    etrans; [|symmetry; apply bind_ext; [apply try_bind_ret|done]].
    bind_step. by destruct a0.
  - intros [[]|] s'; [|done].
    unfold cached_tail. bind_step. destruct (bce_block a1); [|done]. by do 2 bind_step.
Qed.

(** The caller copies out of its block and disposes of it. *)
Lemma use_run {A} s l held bst data (f : Z -> list byte -> outcome A) :
  inv s (l :: held) bst -> view s.(blocks) l = Some (len data, data) ->
  exists s', inv s' held bst /\ s'.(mem) = s.(mem) /\
    (b ← block_get l; a ← lift (f b.(blk_size) b.(blk_data)); block_dispose l;; mret a) s
    = match f (len data) data with
      | Ret a => Ret (s', Success a)
      | Crash c => Crash c
      end.
Proof.
  intros [Hcore Hq Hb] Hv. destruct (core_dispose _ _ _ Hcore) as (h & Hd & Hcore').
  exists (set_blocks s h). split; [|split; [done|]].
  { split; [done| |done]. intros w. rewrite get_cache_set_blocks. auto. }
  unfold view in Hv. apply fmap_Some in Hv as (b & Hl & [= Hs Hdata]).
  run_m. unfold block_get, lift, block_deref. rewrite Hl. cbn beta iota.
  rewrite <- Hs, <- Hdata. destruct (f _ _); [|done].
  unfold block_dispose, on_heap. by rewrite Hd.
Qed.

Definition meets_at {A} (s : sqfs_state) held bst (R : O A -> Prop)
    (out : outcome (sqfs_state * result A)) : Prop :=
  match out with
  | Crash c => R (Crash c)
  | Ret (s', r) =>
      inv s' held bst /\
      (R (Ret r) \/ (s.(mem) <> [] /\ exists e, r = Failure e)) /\
      (s.(mem) = [] -> s'.(mem) = [])
  end.

Lemma fetch_use {A} s held bst R (R' : O A -> Prop) (m : M (Z * positive))
    (f : Z -> Z -> list byte -> outcome A) :
  fetched s held bst R (m s) ->
  (forall o, R o -> R' ('(n, data) ← o; spec_lift (f n (len data) data))) ->
  meets_at s held bst R'
    (('(n, l) ← m;
      b ← block_get l; a ← lift (f n b.(blk_size) b.(blk_data)); block_dispose l;; mret a) s).
Proof.
  intros Hc HR. unfold mbind at 1, M_bind at 1. destruct (m s) as [[s1 [[n l]|e]]|c].
  - destruct Hc as (Hm & data & Ho%HR & Hinv1 & Hv).
    destruct (use_run s1 l held bst data (f n) Hinv1 Hv) as (s2 & Hinv2 & Hm2 & Hrun).
    cbn beta iota. rewrite Hrun. revert Ho. run_m. cbn. destruct (f _ _ _); cbn; [|done].
    rewrite Hm2. auto.
  - destruct Hc as (Hm & Hinv1 & Ho).
    split; [done|]. split; [|done]. destruct Ho as [Ho%HR|?]; [by left|]. right; eauto.
  - by apply HR in Hc.
Qed.

Lemma sim_md_block b {A} pos (use : Z -> Z -> list byte -> outcome A) :
  sim b (with_md_block fs pos use) (with_md_block fs pos use).
Proof.
  intros s held bst _ Hinv. cbn [with_md_block fs_impl fs_spec].
  pose proof (fetch_use s held bst _ (eq ('(n, data) ← md_block_spec fs pos;
      spec_lift (use (s64 (pos + n)) (len data) data))) _ (fun n => use (s64 (pos + n)))
    (cached_run MdCache s held bst pos _ _ (eq (md_block_spec fs pos)) Hinv
      (fun s => md_block_read_run s pos) eq_refl
      ltac:(intros; cbn; by rewrite md_block_spec_key)
      ltac:(intros ??; cbn; by rewrite md_block_spec_key))
    ltac:(intros ? <-; exact eq_refl)) as Hc.
  unfold impl_with_md_block.
  rewrite (bind_ext _ _ _ _ _ (md_cache_cached pos s) (fun _ _ => eq_refl)), bind_assoc.
  erewrite bind_ext; [exact Hc|done|]. by intros [n l] s'.
Qed.

Definition hdr_of (w : which) : Z -> Z -> Prop :=
  match w with FragCache => X.(frag_hdr) | _ => X.(data_hdr) end.

Lemma P_of_data w pos n data :
  w <> MdCache ->
  P_of w (u64 pos) n data <->
  n = 0 /\ exists hdr, hdr_of w (u64 pos) hdr /\ data_block_spec fs pos hdr = Ret (Success data).
Proof.
  intros Hw. assert (P_of w (u64 pos) n data <-> n = 0 /\ exists hdr, hdr_of w (u64 pos) hdr /\
    data_block_spec fs (u64 pos) hdr = Ret (Success data)) as -> by (by destruct w).
  by setoid_rewrite data_block_spec_key.
Qed.

(** The caches do not look at the header again: what comes out of them is what was read
    with some header that the position may have. *)
Lemma meets_data_block b {A} w pos hdr (use : Z -> list byte -> outcome A) (R : O A -> Prop) :
  w <> MdCache -> hdr_of w (u64 pos) hdr ->
  (forall h, hdr_of w (u64 pos) h -> R (with_data_block fs w pos h use)) ->
  meets b (with_data_block fs w pos hdr use) R.
Proof.
  intros Hw Hh HR s held bst _ Hinv. cbn [with_data_block fs_impl fs_spec] in *.
  set (R0 := fun o => exists hdr, hdr_of w (u64 pos) hdr /\
    o = (data ← data_block_spec fs pos hdr; mret (0, data))).
  pose proof (fetch_use s held bst R0 R _ (fun _ => use)
    (cached_run w s held bst pos _ _ R0 Hinv
      (fun s => reads_sized s _ 0 _ (data_block_read_run s pos hdr))
      ltac:(by exists hdr)
      ltac:(intros n data; rewrite P_of_data by done; run_m;
            destruct (data_block_spec fs pos hdr) as [[]|] eqn:E; intros [=]; subst; eauto)
      ltac:(intros n data; rewrite P_of_data by done; intros (-> & h & ? & E);
            exists h; split; [done|by rewrite E]))) as Hc.
  unfold impl_with_data_block.
  rewrite (bind_ext _ _ _ _ _ (data_cache_cached w pos hdr s) (fun _ _ => eq_refl)), bind_assoc.
  erewrite bind_ext; [|done|].
  - instantiate (1 := fun '(n, l) => b ← block_get l; a ← lift (use b.(blk_size) b.(blk_data));
      block_dispose l;; mret a).
    apply Hc. intros o (h & Hh' & ->). specialize (HR h Hh').
    by destruct (data_block_spec _ _ _) as [[]|].
  - by intros [n l] s'.
Qed.

(** The data cache is the reference where the position has one header. *)
Lemma sim_data_block b {A} w pos hdr (use : Z -> list byte -> outcome A) :
  w <> MdCache -> (forall h, hdr_of w (u64 pos) h <-> h = hdr) ->
  sim b (with_data_block fs w pos hdr use) (with_data_block fs w pos hdr use).
Proof.
  intros Hw Hh. apply meets_sim, meets_data_block; [done|by apply Hh|].
  by intros h ->%Hh.
Qed.

(** ** The index cache *)
Lemma core_set_blockidx s held c :
  core s held -> (forall k v, (k, v) ∈ cache_entries c -> X.(index_of) k v) ->
  core (set_blockidx s c) held.
Proof.
  intros [Hh Hc _] Hi. split; [done| |done]. intros w. rewrite get_cache_set_blockidx. apply Hc.
Qed.

Lemma inv_set_blockidx s held bst bst' c :
  inv s held bst ->
  (forall k v, (k, v) ∈ cache_entries c -> X.(index_of) k v) ->
  match bst' with None => cache_quiet c | Some c' => c = c' end ->
  inv (set_blockidx s c) held bst'.
Proof.
  intros [Hcore Hq _] Hi Hb. split; [by apply core_set_blockidx| |done].
  intros w. rewrite get_cache_set_blockidx. auto.
Qed.

(** The index cache is used once the entry [e] holds the index. *)
Definition index_tail {A} (e : Z) (use : list sqfs_blockidx_entry -> outcome A) : M A :=
  index ← m_blockidx_read (fun c => cache_data c e);
  a ← lift (use index);
  m_blockidx_upd (fun c => cache_put c e);;
  mret a.

Lemma blockidx_put s held bst e key :
  inv s held bst -> cache_holding s.(blockidx) e key ->
  exists s', m_blockidx_upd (fun c => cache_put c e) s = Ret (s', Success tt) /\
    inv s' held None /\ s'.(mem) = s.(mem).
Proof.
  intros Hinv Hhold. destruct (law_put _ _ _ Hhold) as (c' & Hput & Hquiet & He).
  unfold m_blockidx_upd. rewrite Hput. eexists; split; [done|]. split; [|done].
  eapply inv_set_blockidx; [done| |done]. rewrite He. apply Hinv.
Qed.

Lemma index_tail_run {A} s held bst e key v (use : list sqfs_blockidx_entry -> outcome A) :
  inv s held bst -> cache_holding s.(blockidx) e key -> cache_data s.(blockidx) e = Ret v ->
  meets_at s held None (eq (spec_lift (use v))) (index_tail e use s).
Proof.
  intros Hinv Hhold Hd. unfold index_tail, m_blockidx_read. run_m.
  unfold lift. rewrite Hd. cbn beta iota. destruct (use v); [|done].
  destruct (blockidx_put s held bst e key Hinv Hhold) as (s' & -> & Hinv' & Hm).
  cbn. rewrite Hm. auto.
Qed.

Definition index_body {A} (e : Z) (create : M (list sqfs_blockidx_entry))
    (use : list sqfs_blockidx_entry -> outcome A) : M A :=
  v ← m_blockidx_read (fun c => cache_entry_valid c e);
  r ← (if (v : bool) then mret (Success tt)
       else
         r ← try create;
         match r with
         | Failure err => m_blockidx_upd (fun c => cache_put c e);; mret (Failure err)
         | Success index =>
             m_blockidx_upd (fun c => cache_set_data c e index);;
             m_blockidx_upd (fun c => cache_entry_mark_valid c e);;
             mret (Success tt)
         end);
  match r with
  | Failure err => fail err
  | Success _ => index_tail e use
  end.

Lemma index_fill s held bst e key v :
  inv s held bst -> cache_holding s.(blockidx) e key ->
  cache_entry_valid s.(blockidx) e = Ret false -> X.(index_of) key v ->
  exists s' bst',
    (m_blockidx_upd (fun c => cache_set_data c e v);;
     m_blockidx_upd (fun c => cache_entry_mark_valid c e)) s = Ret (s', Success tt) /\
    inv s' held bst' /\ s'.(mem) = s.(mem) /\
    cache_holding s'.(blockidx) e key /\ cache_data s'.(blockidx) e = Ret v.
Proof.
  intros Hinv Hhold Hvalid Hv.
  destruct (law_fill _ e key v Hhold Hvalid) as (c1 & c2 & H1 & H2 & Hhold2 & Hd & Hp).
  unfold m_blockidx_upd. run_m. rewrite H1. cbn [blockidx set_blockidx]. rewrite H2.
  exists (set_blockidx s c2), (Some c2). split; [done|]. split; [|done].
  eapply inv_set_blockidx; [done| |done]. intros k v'. rewrite Hp, elem_of_cons.
  intros [[= -> ->]|Hin]; [done|]. by apply Hinv.
Qed.

Lemma meets_at_eq {A} s held bst (o : O A) (R : O A -> Prop) out :
  meets_at s held bst (eq o) out -> R o -> meets_at s held bst R out.
Proof.
  intros H HR. destruct out as [[s' r]|]; cbn in *; [|by subst].
  destruct H as (? & [->|?] & ?); auto.
Qed.

Lemma index_body_run {A} s held e key b create (Rc : O (list sqfs_blockidx_entry) -> Prop)
    (use : list sqfs_blockidx_entry -> outcome A) (R : O A -> Prop) :
  inv s held (Some s.(blockidx)) -> cache_holding s.(blockidx) e key ->
  cache_entry_valid s.(blockidx) e = Ret b ->
  (b = true -> exists v, cache_data s.(blockidx) e = Ret v /\
                         (key, v) ∈ cache_entries s.(blockidx)) ->
  meets false create Rc -> (forall v, Rc (Ret (Success v)) -> X.(index_of) key v) ->
  (forall v, X.(index_of) key v -> R (spec_lift (use v))) ->
  (forall e, Rc (Ret (Failure e)) -> R (Ret (Failure e))) -> (forall c, Rc (Crash c) -> R (Crash c)) ->
  meets_at s held None R (index_body e create use s).
Proof.
  intros Hinv Hhold Hv Hval Hcreate Hkey HR HRe HRc.
  unfold index_body, m_blockidx_read, lift. unfold mbind at 1, M_bind at 1. rewrite Hv.
  cbn beta iota. destruct b.
  - destruct (Hval eq_refl) as (v & Hd & Hin). run_m.
    eapply meets_at_eq; [by eapply index_tail_run|].
    apply HR. exact (core_index _ _ (inv_core _ _ _ Hinv) _ _ Hin).
  - specialize (Hcreate s held (Some s.(blockidx)) ltac:(done) Hinv).
    run_m. unfold try. destruct (create s) as [[s1 r]|c]; [|by apply HRc].
    destruct Hcreate as (Hinv1 & Hr & Hm1).
    pose proof (inv_blockidx _ _ _ Hinv1) as Hb1. cbn in Hb1. rewrite <- Hb1 in Hhold, Hv.
    destruct r as [v|err].
    + destruct Hr as [Hr%Hkey|(_ & ? & ?)]; [|done].
      destruct (index_fill s1 held _ e key v Hinv1 Hhold Hv Hr) as
        (s2 & bst & Hf & Hinv2 & Hm2 & Hhold2 & Hd2).
      unfold mbind, M_bind in Hf.
      destruct (m_blockidx_upd _ s1) as [[s2' [[]|?]]|?]; try done. rewrite Hf.
      pose proof (meets_at_eq _ _ _ _ R _ (index_tail_run s2 held bst e key v use Hinv2 Hhold2 Hd2)
        (HR v Hr)) as Ht.
      unfold meets_at in *. destruct (index_tail e use s2) as [[s3 r]|c]; [|done].
      destruct Ht as (? & Ho & Hm3). rewrite Hm2 in *. split; [done|]. split; [|auto].
      destruct Ho as [?|[Hne ?]]; [by left|]. right. split; [|done]. intros E. by apply Hne, Hm1.
    + destruct (blockidx_put s1 held _ e key Hinv1 Hhold) as (s2 & -> & Hinv2 & Hm2).
      cbn. rewrite Hm2. split; [done|]. split; [|done].
      destruct Hr as [?%HRe|[? _]]; [by left|right; eauto].
Qed.

Lemma meets_blockidx {A} key create (Rc : O (list sqfs_blockidx_entry) -> Prop)
    (use : list sqfs_blockidx_entry -> outcome A) (R : O A -> Prop) :
  meets false create Rc -> (forall v, Rc (Ret (Success v)) -> X.(index_of) key v) ->
  (forall v, X.(index_of) key v -> R (spec_lift (use v))) ->
  (forall e, Rc (Ret (Failure e)) -> R (Ret (Failure e))) -> (forall c, Rc (Crash c) -> R (Crash c)) ->
  meets true (with_blockidx key create use) R.
Proof.
  intros Hcreate Hkey HR HRe HRc s held bst Hb Hinv. specialize (Hb eq_refl). subst bst.
  pose proof (inv_blockidx _ _ _ Hinv) as Hquiet. cbn in Hquiet.
  destruct (law_get s.(blockidx) key Hquiet) as (c & e & ev & b & Hg & Hhold & Hp & Hv & Hval).
  cut (meets_at s held None R (impl_with_blockidx key create use s)); [done|].
  unfold impl_with_blockidx, mbind at 1, M_bind at 1, m_blockidx_get. rewrite Hg.
  assert (dispose_opt (fun (_ : list sqfs_blockidx_entry) (u : unit) => Ret u) ev tt = Ret tt)
    as -> by (by destruct ev as [[]|]). cbn beta iota.
  apply (index_body_run (set_blockidx s c) held e key b create Rc); try done.
  eapply inv_set_blockidx; [done| |done]. intros k v Hin.
  apply (core_index _ _ (inv_core _ _ _ Hinv)). rewrite Hp. apply elem_of_app. auto.
Qed.

Lemma sim_blockidx {A} key create create_o (use : list sqfs_blockidx_entry -> outcome A) :
  sim false create create_o -> (forall v, X.(index_of) key v <-> create_o = Ret (Success v)) ->
  sim true (with_blockidx key create use) (with_blockidx key create_o use).
Proof.
  intros Hcreate Hkey. apply meets_sim, (meets_blockidx key create (eq create_o)).
  - done.
  - intros v. apply Hkey.
  - by intros v ->%Hkey.
  - by intros e ->.
  - by intros c ->.
Qed.

(** ** The state [sqfs_init] leaves *)
Definition fresh_state (s : sqfs_state) : Prop :=
  (forall w, cache_quiet (get_cache w s) /\ cache_entries (get_cache w s) = []) /\
  cache_quiet s.(blockidx) /\ cache_entries s.(blockidx) = [] /\ s.(blocks) = ∅.

Lemma inv_fresh s : fresh_state s -> inv s [] None.
Proof.
  intros (Hc & Hq & He & Hb). split; [split| |done].
  - unfold refs, cache_refs.
    destruct (Hc MdCache) as [_ E1], (Hc DataCache) as [_ E2], (Hc FragCache) as [_ E3].
    cbn in E1, E2, E3. rewrite E1, E2, E3. intros l. rewrite Hb, lookup_empty. done.
  - intros w p. destruct (Hc w) as [_ ->]. by intros ?%not_elem_of_nil.
  - intros k v. rewrite He. by intros ?%not_elem_of_nil.
  - intros w. apply Hc.
Qed.

(** What [sim] says of a run, for the theorems of the clients. *)
Lemma sim_run b {A} (m : M A) o s :
  sim b m o -> inv s [] None ->
  match m s with
  | Crash c => o = Crash c
  | Ret (s', r) => inv s' [] None /\ (o = Ret r \/ s.(mem) <> [] /\ exists e, r = Failure e)
  end.
Proof. intros Hs Hi. specialize (Hs s [] None ltac:(done) Hi). destruct (m s) as [[]|]; [|done].
  by destruct Hs as (? & ? & _).
Qed.

(** Without allocation failures a run gives exactly the reference's result. *)
Lemma sim_exact b {A} (m : M A) o s r :
  sim b m o -> inv s [] None -> s.(mem) = [] -> o = Ret r ->
  exists s', m s = Ret (s', r) /\ inv s' [] None /\ s'.(mem) = [].
Proof.
  intros Hs Hi Hm ->. specialize (Hs s [] None ltac:(done) Hi).
  destruct (m s) as [[s' r']|]; [|done]. destruct Hs as (? & [[= ->]|[? _]] & ?); [|done].
  eauto.
Qed.

(** So does a crash of the reference. *)
Lemma sim_crash b {A} (m : M A) o s c :
  sim b m o -> inv s [] None -> s.(mem) = [] -> o = Crash c -> m s = Crash c.
Proof.
  intros Hs Hi Hm ->. pose proof (sim_run b m _ s Hs Hi) as H.
  destruct (m s) as [[s' r]|c']; [|congruence]. destruct H as [_ [?|[? _]]]; congruence.
Qed.

(** ** The code of an operation that its client looks at *)

(** A state between two calls, without allocation failures. *)
Definition good (s : sqfs_state) : Prop := inv s [] None /\ s.(mem) = [].

Lemma good_set_mem s ms : good s -> ms = [] -> good (set_mem s ms).
Proof. intros [Hi Hm] ->. split; [by apply inv_set_mem|done]. Qed.

Lemma good_exact b {A} (m : M A) o s r :
  sim b m o -> good s -> o = Ret r -> exists s', m s = Ret (s', r) /\ good s'.
Proof.
  intros Hs [Hi Hm] E. destruct (sim_exact b m o s r Hs Hi Hm E) as (s' & E' & ? & ?). by exists s'.
Qed.

Lemma try_exact b {A} (m : M A) o s r :
  sim b m o -> good s -> o = Ret r -> exists s', try m s = Ret (s', Success r) /\ good s'.
Proof.
  intros Hs Hg E. destruct (good_exact b m o s r Hs Hg E) as (s' & E' & ?).
  exists s'. unfold try. by rewrite E'.
Qed.

Lemma try_run b {A} (m : M A) o s (P : A -> Prop) :
  sim b m o -> inv s [] None ->
  match o with Crash c => c = MemFault | Ret (Success a) => P a | Ret (Failure _) => True end ->
  match try m s with
  | Crash c => c = MemFault
  | Ret (s', Success r) =>
      inv s' [] None /\ match r with Success a => P a | Failure _ => True end
  | Ret (_, Failure _) => False
  end.
Proof.
  intros Hs Hi Ho. pose proof (sim_run b m o s Hs Hi) as H. unfold try.
  destruct (m s) as [[s' r]|c]; [|by rewrite H in Ho]. destruct H as [Hi' [E|(_ & e & ->)]]; [|done].
  rewrite E in Ho. split; [done|]. by destruct r.
Qed.
End invariant.

(** The rules as a tactic: one rule per construct of the client, then the lemmas
    of the operations it calls. *)
Create HintDb sim.
#[export] Hint Resolve sim_ret sim_fail sim_lift sim_alloc sim_md_block : sim.

Ltac sim_step :=
  match goal with
  | |- sim _ _ _ (match ?x with _ => _ end) _ => destruct x
  | |- sim _ _ _ (let _ := _ in _) _ => cbv zeta
  | |- forall _, _ => intro
  | |- sim _ _ _ _ _ => apply sim_bind
  | |- sim _ _ _ _ _ => apply sim_or_err
  end.
Ltac sim_tac := repeat first [solve [eauto 3 with sim] | sim_step].
