(* ===== verification/Sample.v ===== *)
(** * Sample: small archives and states on which the theorems are evaluated

    The state is the one [sqfs_init] leaves, with the caches of cache.c. *)
From S2P Require Import Prelude Swap Cache CacheST Decompress FsState Block BlockOk.

Definition sample_block_cache (n : Z) : sqfs_cache_internal sqfs_block_cache_entry :=
  mk_cache (replicate (Z.to_nat n) (mk_entry false 0 (mk_bce None 0))) n 0.
Definition sample_index_cache : sqfs_cache_internal (list sqfs_blockidx_entry) :=
  mk_cache (replicate 8 (mk_entry false 0 [])) 8 0.

Definition sample_cache : CacheImpl := cache_st true.
#[local] Existing Instance sample_cache.
Definition sample_laws : CacheLaws sample_cache := cache_st_laws.
#[local] Existing Instance sample_laws.

Definition sample_state (ms : mallocs) : sqfs_state :=
  mk_state (sample_block_cache 8 : cache _) (sample_block_cache 1 : cache _)
    (sample_block_cache 3 : cache _) (sample_index_cache : cache _) ∅ ms.

Lemma sample_fresh ms : fresh_state (sample_state ms).
Proof.
  split; [|split; [|done]].
  - intros w. split; [|by destruct w].
    destruct w; cbn; (split; [reflexivity|cbn; lia]).
  - cbn. split; [reflexivity|cbn; lia].
Qed.

Definition sample_sb : squashfs_super_block :=
  match swapin_struct (replicate 96 x00) with
  | Some sb => sb
  | None => Build_squashfs_super_block 0 0 0 0 0 0 0 0 0 0 0 0 0 0 0 0 0 0 0
  end.

(** An archive with the given contents, no table and no compression. *)
Definition sample_fs (image : list byte) (sb : squashfs_super_block) : sqfs :=
  mk_sqfs image 0 0 0 sb table_zero table_zero table_zero None
    (Build_squashfs_xattr_id_table 0 0 0) table_zero.

(** A metadata block stored without compression. *)
Definition stored_md (data : list byte) : list byte :=
  le_encode 2 (32768 + len data) ++ data.

(** Two metadata blocks, of four and three bytes. *)
Definition sample_md : list byte :=
  stored_md [x61; x62; x63; x64] ++ stored_md [x65; x66; x67].

Lemma sample_fs_ok image sb : len image <= 2 ^ 62 -> fs_ok (sample_fs image sb).
Proof. by split. Qed.

Definition no_expectations : expectations := {|
  data_hdr _ _ := False; frag_hdr _ _ := False; index_of _ _ := False
|}.

Lemma sample_inv fs X ms : inv fs X (sample_state ms) [] None.
Proof. apply inv_fresh, sample_fresh. Qed.

(** The two parts of a run. *)
Definition answer {A} (out : outcome (sqfs_state * A)) : outcome A :=
  match out with Ret (_, r) => Ret r | Crash c => Crash c end.
Definition final {A} (s : sqfs_state) (out : outcome (sqfs_state * A)) : sqfs_state :=
  match out with Ret (s', _) => s' | Crash _ => s end.
