(* ===== verification/MdRead.v ===== *)
(** * MdRead: reading from the metadata stream (fs.c)

    The metadata of an archive is a sequence of small compressed blocks.
    [sqfs_md_read] reads across them from a cursor.  Fuel: each turn of its loop
    reads one block, and a block occupies at least three bytes of the file after
    the previous one, so [S (length fd)] turns are enough
    ([sqfs_md_read_total]). *)
From S2P Require Import Prelude Swap Cache Decompress FsState Block BlockOk Sample.

Definition sqfs_md_cursor_inode (id base : Z) : sqfs_md_cursor :=
  mk_cursor (s64 (Z.shiftr id 16 + base)) (id &&& 0xffff).

Section md_read.
Context {m : Type -> Type} {FM : FsMonad m}.

(** One turn on a block already in the cache: the new position, the new cursor,
    how many bytes were taken and, unless the buffer is null, the bytes. *)
Definition md_take (cur : sqfs_md_cursor) (buf : bool) (size : Z)
    (pos blk_size : Z) (data : list byte)
    : outcome (Z * sqfs_md_cursor * Z * list byte) :=
  let take := u64 (blk_size - cur.(cur_offset)) in
  let take := if size <? take then size else take in
  bytes ← (if buf then mem_read data cur.(cur_offset) take else mret []);
  let offset := u64 (cur.(cur_offset) + take) in
  let cur := if offset =? blk_size then mk_cursor pos 0 else mk_cursor cur.(cur_block) offset in
  mret (pos, cur, take, bytes).

Fixpoint md_read_loop (fuel : nat) (fs : sqfs) (pos : Z) (cur : sqfs_md_cursor)
    (buf : bool) (size : Z) : m (sqfs_md_cursor * list byte) :=
  if 0 <? size then
    match fuel with
    | 0%nat => fm_lift (Crash OutOfFuel)
    | S fuel =>
        '(pos, cur, take, bytes) ← with_md_block fs pos (md_take cur buf size);
        '(cur, rest) ← md_read_loop fuel fs pos cur buf (size - take);
        mret (cur, bytes ++ rest)
    end
  else mret (cur, []).

(** The cursor after the read and the [size] bytes read; [buf] tells whether the
    buffer is not null. *)
Definition sqfs_md_read (fs : sqfs) (cur : sqfs_md_cursor) (buf : bool) (size : Z)
    : m (sqfs_md_cursor * list byte) :=
  md_read_loop (S (length fs.(fd))) fs cur.(cur_block) cur buf size.
End md_read.

(** ** Headers *)

(** A statement on every number of a range, by evaluation. *)
Fixpoint forall_from (n : nat) (z : Z) (p : Z -> bool) : bool :=
  match n with 0%nat => true | S n => p z && forall_from n (Z.succ z) p end.

Lemma forall_from_spec n z p :
  forall_from n z p = true -> forall k, z <= k < z + Z.of_nat n -> p k = true.
Proof.
  revert z. induction n as [|n IH]; intros z; cbn [forall_from]; [lia|].
  intros [Hz Hp]%andb_true_iff k Hk.
  destruct (decide (k = z)) as [->|]; [done|]. eapply IH; [done|lia].
Qed.

Definition md_header_value (hdr : Z) : bool * Z :=
  (hdr <? 32768, if hdr mod 32768 =? 0 then 32768 else hdr mod 32768).

Lemma sqfs_md_header_spec hdr :
  0 <= hdr < 65536 -> sqfs_md_header hdr = md_header_value hdr.
Proof.
  intros Hr. set (p hdr := bool_decide (sqfs_md_header hdr = md_header_value hdr)).
  assert (p hdr = true) as Hp; [|by apply bool_decide_eq_true in Hp].
  apply (forall_from_spec (Z.to_nat 65536) 0); [by vm_compute|lia].
Qed.

Lemma sqfs_swapin16_range bs : len bs = 2 -> 0 <= sqfs_swapin16 bs < 65536.
Proof.
  intros Hl. destruct bs as [|a [|b [|c bs]]]; cbn in Hl; try lia.
  pose proof (byte_val_range a). pose proof (byte_val_range b).
  unfold sqfs_swapin16. rewrite sqfs_swapin_le by done. cbn [le_decode]. lia.
Qed.

Lemma sqfs_md_header_size bs :
  len bs = 2 -> 1 <= snd (sqfs_md_header (sqfs_swapin16 bs)) <= 32768.
Proof.
  intros H%sqfs_swapin16_range. rewrite sqfs_md_header_spec by done. cbn [snd md_header_value].
  pose proof (Z.mod_pos_bound (sqfs_swapin16 bs) 32768). zbool; lia.
Qed.

(** The place of a position in the file. *)
Definition file_pos (fs : sqfs) (pos : Z) : Z := s64 (pos + fs.(fs_offset)).

Lemma pread_exact_inside f n off bs :
  pread_exact f n off = Some bs -> 0 <= off /\ (0 < n -> off + n <= len f) /\ len bs = n.
Proof.
  unfold pread_exact, sqfs_pread. intros E. destruct (Z.ltb_spec off 0); [done|].
  destruct (Z.eqb_spec (len (slice f off n)) n) as [Hn|]; [|done]. injection E as <-.
  split; [done|]. split; [|done]. rewrite slice_length in Hn by lia. lia.
Qed.

Section metadata.
Context (fs : sqfs) (Hfs : fs_ok fs).

Lemma pread_small n off bs : pread_exact fs.(fd) n off = Some bs -> len bs <= 2 ^ 62.
Proof.
  pose proof (fs_small _ Hfs). intros (? & ? & ?)%pread_exact_inside. lia.
Qed.

(** A block read at [pos] lies inside the file, and the next one follows it. *)
Lemma md_block_advance pos n data :
  md_block_spec fs pos = Ret (Success (n, data)) ->
  3 <= n /\ 0 <= file_pos fs pos /\ file_pos fs pos + n <= len fs.(fd) /\
  file_pos fs (s64 (pos + n)) = file_pos fs pos + n.
Proof.
  pose proof (fs_small _ Hfs) as Hsmall.
  unfold md_block_spec. fold (file_pos fs pos).
  destruct (pread_exact _ 2 _) as [bs|] eqn:E1; [|done]. apply pread_exact_inside in E1 as (H1 & H2 & H3).
  pose proof (sqfs_md_header_size bs H3) as Hs.
  destruct (sqfs_md_header _) as [compressed size]; cbn [snd] in Hs.
  unfold block_spec. destruct (pread_exact _ size _) as [d|] eqn:E2; [|done].
  apply pread_exact_inside in E2 as (H4 & H5 & H6).
  assert (s64 (pos + 2 + fs_offset fs) = file_pos fs pos + 2) as Hp.
  { unfold file_pos. rewrite <- (swrap_small 64 (s64 _ + 2)) by (unfold file_pos in *; lia).
    rewrite swrap_add_swrap. f_equal. lia. }
  intros Hr. assert (n = 2 + size) as ->.
  { revert Hr. run_m. by repeat case_match; intros; simplify_eq. }
  split; [lia|]. split; [done|]. split; [lia|].
  unfold file_pos at 1. rewrite swrap_add_swrap.
  rewrite <- (swrap_small 64 (file_pos fs pos + _)) by lia.
  unfold file_pos. rewrite swrap_add_swrap. f_equal. lia.
Qed.

(** Enough turns for the metadata that remains from [pos]. *)
Definition enough (fuel : nat) (pos : Z) : Prop :=
  (0 < fuel)%nat /\ (0 <= file_pos fs pos -> len fs.(fd) - file_pos fs pos < Z.of_nat fuel).

Lemma enough_start pos : enough (S (length fs.(fd))) pos.
Proof. unfold enough. lia. Qed.

Lemma enough_next fuel pos n data :
  enough (S fuel) pos -> md_block_spec fs pos = Ret (Success (n, data)) ->
  enough fuel (s64 (pos + n)).
Proof.
  intros [_ He] (H1 & H2 & H3 & H4)%md_block_advance. unfold enough. rewrite H4. lia.
Qed.

Lemma md_block_len pos n data :
  md_block_spec fs pos = Ret (Success (n, data)) -> len data <= 32768.
Proof.
  unfold md_block_spec. destruct (pread_exact _ 2 _) as [bs|] eqn:E1; [|done].
  apply pread_exact_inside in E1 as (_ & _ & H3).
  pose proof (sqfs_md_header_size bs H3) as Hs.
  destruct (sqfs_md_header _) as [compressed size]; cbn [snd] in Hs.
  unfold block_spec. destruct (pread_exact _ size _) as [d|] eqn:E2; [|done].
  pose proof (pread_exact_inside _ _ _ _ E2) as (_ & _ & H6). run_m. destruct compressed.
  - destruct (decompressor fs) as [dec|] eqn:Hd; [|done].
    pose proof (fs_decomp _ Hfs _ Hd d SQUASHFS_METADATA_SIZE (pread_small _ _ _ E2) ltac:(done)) as Hout.
    destruct (dec d _) as [[]|]; [|done..]. intros [= <- <-].
    unfold SQUASHFS_METADATA_SIZE in Hout. lia.
  - intros [= <- <-]. lia.
Qed.

Lemma md_block_crash pos c : md_block_spec fs pos = Crash c -> c = MemFault.
Proof.
  unfold md_block_spec. destruct (pread_exact _ 2 _) as [bs|]; [|done].
  destruct (sqfs_md_header _) as [compressed size].
  unfold block_spec. destruct (pread_exact _ size _) as [d|] eqn:E2; [|done]. run_m.
  destruct compressed; [|done]. destruct (decompressor fs) as [dec|] eqn:Hd; [|congruence].
  pose proof (fs_decomp _ Hfs _ Hd d SQUASHFS_METADATA_SIZE (pread_small _ _ _ E2) ltac:(done)) as Hout.
  destruct (dec d _) as [[]|]; [done..|congruence].
Qed.

(** ** One turn *)

(** [a] is a size or an offset in the metadata. *)
Definition in_size (a : Z) : Prop := 0 <= a < 2 ^ 62.

Definition advance (pos : Z) (cur : sqfs_md_cursor) (blk take : Z) : sqfs_md_cursor :=
  if cur.(cur_offset) + take =? blk then mk_cursor pos 0
  else mk_cursor cur.(cur_block) (cur.(cur_offset) + take).

Lemma md_take_eq cur buf size pos data :
  in_size size -> in_size cur.(cur_offset) -> in_size (len data) ->
  md_take cur buf size pos (len data) data =
  let take := if cur.(cur_offset) <=? len data then Z.min (len data - cur.(cur_offset)) size
              else size in
  if buf && (len data <? cur.(cur_offset)) then Crash MemFault
  else Ret (pos, advance pos cur (len data) take, take,
            if buf then slice data cur.(cur_offset) take else []).
Proof.
  unfold in_size. intros Hs Ho Hd. unfold md_take, advance.
  set (off := cur_offset cur) in *. set (n := len data) in *.
  assert ((if size <? u64 (n - off) then size else u64 (n - off)) =
          (if off <=? n then Z.min (n - off) size else size)) as ->.
  { destruct (Z.leb_spec off n).
    - rewrite wrap_small by lia. zbool; lia.
    - unfold wrap. replace ((n - off) mod 2 ^ 64) with (n - off + 2 ^ 64)
        by (symmetry; rewrite <- (Z.mod_small (n - off + 2 ^ 64) (2 ^ 64)) by lia;
            by rewrite <- Z.add_mod_idemp_r, Z.mod_same, Z.add_0_r by lia).
      zbool; lia. }
  set (take := if off <=? n then _ else _).
  assert (0 <= take <= size /\ (off <= n -> off + take <= n)) as [Ht Ht']
    by (unfold take; zbool; lia).
  rewrite (wrap_small 64 (off + take)) by lia.
  unfold mem_read. fold n. destruct buf; cbn [andb]; [|by destruct (off + take =? n)].
  destruct (Z.ltb_spec n off); zbool; try lia; try done; by destruct (off + take =? n).
Qed.

Lemma md_read_zero {m} {FM : FsMonad m} fuel pos cur buf size :
  size <= 0 -> md_read_loop (m := m) fuel fs pos cur buf size = mret (cur, []).
Proof. intros. destruct fuel; cbn [md_read_loop]; zbool; done || lia. Qed.

Lemma md_read_step fuel pos cur buf size :
  0 < size -> in_size size -> in_size cur.(cur_offset) ->
  md_read_loop (m := O) (S fuel) fs pos cur buf size =
  ('(n, data) ← md_block_spec fs pos;
   if buf && (len data <? cur.(cur_offset)) then Crash MemFault
   else
     let take := if cur.(cur_offset) <=? len data then Z.min (len data - cur.(cur_offset)) size
                 else size in
     '(cur', rest) ← md_read_loop fuel fs (s64 (pos + n)) (advance (s64 (pos + n)) cur (len data) take)
                       buf (size - take);
     mret (cur', (if buf then slice data cur.(cur_offset) take else []) ++ rest)).
Proof.
  intros Hsize Hs Ho. cbn [md_read_loop]. zbool; [|lia].
  cbn [with_md_block fs_spec]. run_m.
  destruct (md_block_spec fs pos) as [[[n data]|e]|c] eqn:E; [|done..].
  apply md_block_len in E. rewrite md_take_eq by (unfold in_size in *; lia || done).
  cbn zeta. by destruct (buf && _).
Qed.

(** The cursor is where the position is, as long as bytes remain to be read. *)
Lemma advance_next pos cur blk size :
  0 < size - (if cur.(cur_offset) <=? blk then Z.min (blk - cur.(cur_offset)) size else size) ->
  advance pos cur blk
    (if cur.(cur_offset) <=? blk then Z.min (blk - cur.(cur_offset)) size else size)
  = mk_cursor pos 0.
Proof. unfold advance. intros H. zbool; done || lia. Qed.

(** Any number of turns that is enough gives the same result. *)
Lemma md_read_fuel f f' pos cur buf size :
  enough f pos -> enough f' pos -> in_size size -> in_size cur.(cur_offset) ->
  md_read_loop (m := O) f fs pos cur buf size = md_read_loop f' fs pos cur buf size.
Proof.
  revert f' pos cur size. induction f as [|f IH]; intros f' pos cur size He He' Hs Ho;
    [destruct He; lia|]. destruct f' as [|f']; [destruct He'; lia|].
  destruct (Z.ltb_spec 0 size); [|by rewrite !md_read_zero].
  rewrite !md_read_step by done. run_m.
  destruct (md_block_spec fs pos) as [[[n data]|e]|c] eqn:E; [|done..].
  destruct (buf && _); [done|]. cbn zeta.
  set (take := if _ <=? _ then _ else _).
  destruct (Z.ltb_spec 0 (size - take)); [|by rewrite !md_read_zero].
  assert (advance (s64 (pos + n)) cur (len data) take = mk_cursor (s64 (pos + n)) 0) as ->
    by (by apply advance_next).
  rewrite (IH f'); [done|by eapply enough_next..| |done]. unfold in_size in *. unfold take in *.
  zbool; lia.
Qed.

Lemma md_read_crash f pos cur buf size c :
  enough f pos -> in_size size -> in_size cur.(cur_offset) ->
  md_read_loop (m := O) f fs pos cur buf size = Crash c -> c = MemFault.
Proof.
  revert pos cur size. induction f as [|f IH]; intros pos cur size He Hs Ho; [destruct He; lia|].
  destruct (Z.ltb_spec 0 size); [|by rewrite md_read_zero].
  rewrite md_read_step by done. run_m.
  destruct (md_block_spec fs pos) as [[[n data]|e]|c'] eqn:E; [|done|].
  2: intros [= <-]; by eapply md_block_crash.
  destruct (buf && _); [congruence|]. cbn zeta.
  set (take := if _ <=? _ then _ else _).
  destruct (Z.ltb_spec 0 (size - take)); [|by rewrite md_read_zero].
  assert (advance (s64 (pos + n)) cur (len data) take = mk_cursor (s64 (pos + n)) 0) as ->
    by (by apply advance_next).
  destruct (md_read_loop _ _ _ _ _ _) as [[[]|]|c'] eqn:E'; try done.
  intros [= <-]. eapply IH, E'; [by eapply enough_next| |done].
  unfold in_size in *. unfold take in *. zbool; lia.
Qed.

(** ** Reading in two parts *)
Lemma advance_split pos cur blk a b :
  0 <= a -> 0 < b -> cur.(cur_offset) + a <> blk ->
  advance pos (advance pos cur blk a) blk b = advance pos cur blk (a + b).
Proof.
  intros Ha Hb Hne. unfold advance at 2. destruct (Z.eqb_spec (cur_offset cur + a) blk); [done|].
  unfold advance. cbn. by rewrite Z.add_assoc.
Qed.

Lemma md_read_ok_nil {A B} (o : O (A * list B)) :
  ('(c, r) ← o; mret (c, [] ++ r)) = o.
Proof. run_m. by destruct o as [[[]|]|]. Qed.

(** The second part of a read that stops inside a block. *)
Lemma md_read_resume f pos cur buf a b n data :
  enough (S f) pos -> cur.(cur_block) = pos -> md_block_spec fs pos = Ret (Success (n, data)) ->
  0 < a -> 0 < b -> in_size (a + b) -> in_size (cur.(cur_offset) + a) -> 0 <= cur.(cur_offset) ->
  (cur.(cur_offset) <=? len data) = true -> cur.(cur_offset) + a < len data ->
  md_read_loop (m := O) (S f) fs pos cur buf (a + b) =
  ('(cur', rest) ← sqfs_md_read fs (advance (s64 (pos + n)) cur (len data) a) buf b;
   mret (cur', (if buf then slice data cur.(cur_offset) a else []) ++ rest)).
Proof.
  intros He Hpos E Ha Hb Hs Ho Ho' Hle Hlt. unfold in_size in *.
  rewrite md_read_step, E by (unfold in_size; lia). run_m. cbn zeta. rewrite Hle.
  replace (len data <? cur_offset cur) with false by (zbool; lia). rewrite andb_false_r.
  assert (advance (s64 (pos + n)) cur (len data) a = mk_cursor pos (cur_offset cur + a)) as Ha'.
  { unfold advance. destruct (Z.eqb_spec (cur_offset cur + a) (len data)); [lia|].
    by rewrite Hpos. }
  rewrite Ha'. unfold sqfs_md_read. cbn [cur_block].
  rewrite <- (md_read_fuel (S f) (S (length (fd fs))) pos) by
    (try apply enough_start; try done; unfold in_size; cbn; lia).
  rewrite (md_read_step f pos _ buf b), E by (unfold in_size; cbn; lia).
  run_m. cbn [cur_offset cur_block]. cbn zeta.
  replace (len data <? cur_offset cur + a) with false by (zbool; lia). rewrite andb_false_r.
  replace (cur_offset cur + a <=? len data) with true by (symmetry; zbool; lia).
  replace (Z.min (len data - cur_offset cur) (a + b))
    with (a + Z.min (len data - (cur_offset cur + a)) b) by lia.
  set (t := Z.min (len data - (cur_offset cur + a)) b).
  rewrite <- Ha', advance_split by lia.
  replace (a + b - (a + t)) with (b - t) by lia.
  destruct (md_read_loop _ _ _ _ _ _) as [[[c r]|]|]; try done.
  destruct buf; [|done]. by rewrite slice_split, app_assoc by lia.
Qed.

Lemma md_read_app f cur buf a b :
  enough f cur.(cur_block) -> 0 <= a -> 0 <= b -> in_size (a + b) ->
  in_size (cur.(cur_offset) + (a + b)) -> 0 <= cur.(cur_offset) ->
  md_read_loop (m := O) f fs cur.(cur_block) cur buf (a + b) =
  ('(cur1, x) ← md_read_loop f fs cur.(cur_block) cur buf a;
   '(cur2, y) ← sqfs_md_read fs cur1 buf b;
   mret (cur2, x ++ y)).
Proof.
  remember cur.(cur_block) as pos eqn:Hpos.
  revert pos cur a Hpos. induction f as [|f IH]; intros pos cur a Hpos He Ha Hb Hs Ho Ho';
    [destruct He; lia|]. unfold in_size in *.
  destruct (decide (a = 0)) as [->|Hane].
  { rewrite (md_read_zero _ _ _ _ 0) by done. run_m. cbn [app Z.add].
    unfold sqfs_md_read. rewrite <- Hpos.
    rewrite (md_read_fuel (S f) (S (length (fd fs)))) by (apply enough_start || (unfold in_size; lia) || done).
    by destruct (md_read_loop _ _ _ _ _ _) as [[[]|]|]. }
  destruct (decide (b = 0)) as [->|Hbne].
  { rewrite Z.add_0_r. unfold sqfs_md_read. run_m.
    destruct (md_read_loop _ _ _ _ _ _) as [[[]|]|]; try done.
    rewrite md_read_zero by done. run_m. by rewrite app_nil_r. }
  destruct (md_block_spec fs pos) as [[[n data]|e]|c] eqn:E;
    [|rewrite !md_read_step, E by (unfold in_size; lia); done..].
  destruct (Z.leb_spec (cur_offset cur) (len data)) as [Hle|Hgt].
  - destruct (Z.ltb_spec (cur_offset cur + a) (len data)) as [Hlt|Hge].
    + rewrite (md_read_resume f pos cur buf a b n data) by (first [done | unfold in_size; zbool; lia]).
      rewrite (md_read_step f pos cur buf a), E by (unfold in_size; lia). run_m. cbn zeta.
      replace (len data <? cur_offset cur) with false by (zbool; lia).
      replace (cur_offset cur <=? len data) with true by (zbool; lia).
      rewrite andb_false_r, Z.min_r, Z.sub_diag, md_read_zero by lia. run_m.
      cbn beta iota. rewrite app_nil_r. done.
    + rewrite !md_read_step, E by (unfold in_size; lia). run_m. cbn zeta.
      replace (len data <? cur_offset cur) with false by (zbool; lia).
      replace (cur_offset cur <=? len data) with true by (zbool; lia).
      rewrite andb_false_r, !Z.min_l by lia. set (t := len data - cur_offset cur).
      replace (a + b - t) with ((a - t) + b) by lia.
      assert (advance (s64 (pos + n)) cur (len data) t = mk_cursor (s64 (pos + n)) 0) as ->.
      { unfold advance, t. zbool; done || lia. }
      rewrite (IH _ (mk_cursor (s64 (pos + n)) 0)) by
        (first [done | by eapply enough_next | cbn; lia]).
      run_m. destruct (md_read_loop f _ _ _ _ _) as [[[c1 x]|]|]; try done.
      destruct (sqfs_md_read _ _ _ _) as [[[c2 y]|]|]; try done. by rewrite app_assoc.
  - rewrite !md_read_step, E by (unfold in_size; lia). run_m. cbn zeta.
    replace (len data <? cur_offset cur) with true by (zbool; lia).
    replace (cur_offset cur <=? len data) with false by (zbool; lia).
    destruct buf; [done|]. cbn [andb]. rewrite !Z.sub_diag, !md_read_zero by done. run_m.
    cbn beta iota. unfold advance at 2, sqfs_md_read.
    replace (cur_offset cur + a =? len data) with false by (zbool; lia). cbn [cur_block].
    rewrite <- Hpos, md_read_step, E by (unfold in_size; cbn; lia). run_m. cbn zeta. cbn [cur_offset].
    replace (cur_offset cur + a <=? len data) with false by (zbool; lia).
    cbn [andb]. rewrite Z.sub_diag, md_read_zero by done. run_m.
    unfold advance. cbn [cur_offset cur_block]. rewrite Z.add_assoc, Hpos.
    by replace (cur_offset cur + a + b =? len data) with false by (zbool; lia).
Qed.

Lemma md_read_length f pos cur buf size cur' bs :
  enough f pos -> in_size size -> in_size cur.(cur_offset) ->
  md_read_loop (m := O) f fs pos cur buf size = Ret (Success (cur', bs)) ->
  len bs = if buf then size else 0.
Proof.
  revert pos cur size bs. induction f as [|f IH]; intros pos cur size bs He Hs Ho; [destruct He; lia|].
  destruct (Z.ltb_spec 0 size).
  2: { rewrite md_read_zero by done. intros [= <- <-]. unfold in_size in *. destruct buf; cbn; lia. }
  rewrite md_read_step by done. run_m.
  destruct (md_block_spec fs pos) as [[[n data]|e]|c'] eqn:E; [|done..].
  destruct (buf && (len data <? _)) eqn:Hb; [done|]. cbn zeta.
  set (take := if _ <=? _ then _ else _).
  assert (0 <= take <= size /\ (buf = true -> len (slice data (cur_offset cur) take) = take))
    as [Ht Hsl].
  { unfold in_size, take in *. split; [zbool; lia|]. intros ->. cbn [andb] in Hb.
    rewrite slice_length by lia. zbool; lia. }
  destruct (Z.ltb_spec 0 (size - take)).
  - assert (advance (s64 (pos + n)) cur (len data) take = mk_cursor (s64 (pos + n)) 0) as ->
      by (by apply advance_next).
    destruct (md_read_loop _ _ _ _ _ _) as [[[c r]|]|] eqn:E'; try done. intros [= <- <-].
    apply IH in E'; [|by eapply enough_next|unfold in_size in *; lia|done].
    rewrite length_app, Nat2Z.inj_add, E'. destruct buf; cbn; [rewrite Hsl; [lia|done]|done].
  - rewrite md_read_zero by done. run_m. intros [= <- <-]. rewrite app_nil_r.
    destruct buf; [rewrite Hsl; [lia|done]|done].
Qed.
End metadata.

(** ** What a successful read says of shorter ones *)
Section md_parts.
Context (fs : sqfs) (Hfs : fs_ok fs).

Lemma advance_offset pos cur blk take :
  0 <= cur.(cur_offset) -> 0 <= take ->
  0 <= (advance pos cur blk take).(cur_offset) <= cur.(cur_offset) + take.
Proof. intros. unfold advance. case_match; cbn; lia. Qed.

(** The cursor does not go further than the bytes read; a null buffer changes
    nothing to where it ends. *)
Lemma md_read_loop_end f pos cur buf size cur' bs :
  enough fs f pos -> in_size size -> in_size cur.(cur_offset) ->
  md_read_loop (m := O) f fs pos cur buf size = Ret (Success (cur', bs)) ->
  0 <= cur'.(cur_offset) <= cur.(cur_offset) + size /\
  md_read_loop (m := O) f fs pos cur false size = Ret (Success (cur', [])).
Proof.
  revert pos cur size bs. induction f as [|f IH]; intros pos cur size bs He Hs Ho; [destruct He; lia|].
  destruct (Z.ltb_spec 0 size).
  2: { rewrite !md_read_zero by done. intros [= <- <-]. unfold in_size in *. split; [lia|done]. }
  rewrite !md_read_step by done. run_m.
  destruct (md_block_spec fs pos) as [[[n data]|e]|c'] eqn:E; [|done..].
  destruct (buf && _); [done|]. cbn [andb]. cbn zeta.
  set (take := if _ <=? _ then _ else _).
  assert (0 <= take <= size) as Ht by (unfold in_size, take in *; zbool; lia).
  destruct (Z.ltb_spec 0 (size - take)).
  - assert (advance (s64 (pos + n)) cur (len data) take = mk_cursor (s64 (pos + n)) 0) as ->
      by (by apply advance_next).
    destruct (md_read_loop _ _ _ _ buf _) as [[[c r]|]|] eqn:E'; try done. intros [= <- <-].
    apply IH in E' as [Hc ->]; [|by eapply enough_next|unfold in_size in *; lia|done].
    cbn in Hc. unfold in_size in *. split; [lia|done].
  - rewrite !md_read_zero by done. run_m. intros [= <- <-]. split; [|done].
    unfold in_size in *.
    pose proof (advance_offset (s64 (pos + n)) cur (len data) take). lia.
Qed.

Lemma md_read_end cur buf size cur' bs :
  in_size size -> in_size cur.(cur_offset) ->
  sqfs_md_read (m := O) fs cur buf size = Ret (Success (cur', bs)) ->
  0 <= cur'.(cur_offset) <= cur.(cur_offset) + size /\
  sqfs_md_read (m := O) fs cur false size = Ret (Success (cur', [])) /\
  (buf = true -> len bs = size).
Proof.
  intros Hs Ho E. unfold sqfs_md_read in *.
  pose proof (enough_start fs cur.(cur_block)) as He.
  apply md_read_loop_end in E as H; try done. destruct H as [Hc Hn].
  split; [done|]. split; [done|]. intros ->. eapply md_read_length in E; done.
Qed.

(** After a read into a buffer the cursor is inside its block or at its end. *)
Lemma md_read_inside cur size cur' bs :
  0 < size -> in_size size -> in_size cur.(cur_offset) ->
  sqfs_md_read (m := O) fs cur true size = Ret (Success (cur', bs)) ->
  0 <= cur'.(cur_offset) <= 32768.
Proof.
  unfold sqfs_md_read. pose proof (enough_start fs cur.(cur_block)) as He. revert He.
  generalize (S (length (fd fs))) (cur_block cur). intros f. revert cur size bs.
  induction f as [|f IH]; intros cur size bs pos He Hp Hs Ho; [destruct He; lia|].
  rewrite md_read_step by done. run_m.
  destruct (md_block_spec fs pos) as [[[n data]|e]|c'] eqn:E; [|done..].
  destruct (Z.ltb_spec (len data) (cur_offset cur)); [done|]. cbn [andb]. cbn zeta.
  set (take := if _ <=? _ then _ else _).
  assert (0 <= take <= size /\ take <= len data - cur_offset cur) as [Ht Ht']
    by (unfold in_size, take in *; zbool; lia).
  destruct (Z.ltb_spec 0 (size - take)).
  - assert (advance (s64 (pos + n)) cur (len data) take = mk_cursor (s64 (pos + n)) 0) as ->
      by (by apply advance_next).
    destruct (md_read_loop _ _ _ _ _ _) as [[[c r]|]|] eqn:E'; try done. intros [= <- <-].
    eapply IH, E'; [by eapply enough_next|done|unfold in_size in *; lia|done].
  - rewrite md_read_zero by done. run_m. intros [= <- <-]. apply md_block_len in E; [|done].
    unfold in_size in *. pose proof (advance_offset (s64 (pos + n)) cur (len data) take). lia.
Qed.

(** A successful read passes through the end of each of its prefixes. *)
Lemma md_read_prefix cur xs ys cur' :
  in_size (len xs + len ys) -> in_size cur.(cur_offset) ->
  in_size (cur.(cur_offset) + (len xs + len ys)) ->
  sqfs_md_read (m := O) fs cur true (len xs + len ys) = Ret (Success (cur', xs ++ ys)) ->
  exists cur1, sqfs_md_read (m := O) fs cur true (len xs) = Ret (Success (cur1, xs)) /\
    0 <= cur1.(cur_offset) <= cur.(cur_offset) + len xs /\
    sqfs_md_read (m := O) fs cur1 true (len ys) = Ret (Success (cur', ys)).
Proof.
  intros Hs Ho Ho' E. unfold in_size in *.
  assert (in_size (len xs)) as Hx by (unfold in_size; lia).
  unfold sqfs_md_read at 1 in E. rewrite md_read_app in E;
    try (unfold in_size in *; lia) || apply enough_start || done.
  fold (sqfs_md_read (m := O) fs cur true (len xs)) in E. revert E. run_m.
  destruct (sqfs_md_read (m := O) fs cur true (len xs)) as [[[c1 x]|]|] eqn:E1; try done.
  apply md_read_end in E1 as (Hc & _ & Hlen); [|done..].
  destruct (sqfs_md_read (m := O) fs c1 true (len ys)) as [[[c2 y]|]|] eqn:E2; try done.
  intros [= -> Happ]. specialize (Hlen eq_refl).
  apply app_inj_1 in Happ as [-> ->]; [|lia]. eauto.
Qed.
End md_parts.

(** ** The properties *)
Section md_theorems.
Context (fs : sqfs) (Hfs : fs_ok fs).

(** a read of [a + b] bytes is a read of [a] bytes followed by a read of [b]
    bytes from where the first one stopped: same bytes, same final cursor, same
    failure, and the same access outside a block.  So the position of every
    structure that follows another in the metadata is right, wherever the block
    borders fall. *)
Theorem sqfs_md_read_split (cur : sqfs_md_cursor) (buf : bool) (a b : Z) :
  0 <= a -> 0 <= b -> in_size (a + b) ->
  in_size cur.(cur_offset) -> in_size (cur.(cur_offset) + (a + b)) ->
  sqfs_md_read (m := O) fs cur buf (a + b) =
  ('(cur1, x) ← sqfs_md_read fs cur buf a;
   '(cur2, y) ← sqfs_md_read fs cur1 buf b;
   mret (cur2, x ++ y)).
Proof.
  intros Ha Hb Hs Ho Ho'. unfold sqfs_md_read at 1 2.
  apply md_read_app; unfold in_size in *; try done; [apply enough_start|lia].
Qed.

Context {CI : CacheImpl} {CL : CacheLaws CI} (X : expectations).

Lemma sim_md_read_loop b f pos cur buf size :
  sim fs X b (md_read_loop f fs pos cur buf size) (md_read_loop f fs pos cur buf size).
Proof.
  revert pos cur size. induction f as [|f IH]; intros pos cur size; cbn [md_read_loop]; sim_tac.
Qed.

Lemma sim_md_read b cur buf size :
  sim fs X b (sqfs_md_read fs cur buf size) (sqfs_md_read fs cur buf size).
Proof. apply sim_md_read_loop. Qed.

(** What a read gives, over the caches, in terms of the reference. *)
Lemma md_read_spec_result cur buf size :
  in_size size -> in_size cur.(cur_offset) ->
  match sqfs_md_read (m := O) fs cur buf size with
  | Crash c => c = MemFault
  | Ret (Failure _) => True
  | Ret (Success (_, bs)) => len bs = if buf then size else 0
  end.
Proof.
  intros Hs Ho. unfold sqfs_md_read.
  destruct (md_read_loop _ _ _ _ _ _) as [[[]|]|] eqn:E; [|done|].
  - eapply md_read_length, E; (done || apply enough_start).
  - eapply md_read_crash, E; (done || apply enough_start).
Qed.

(** C30: [sqfs_md_read] always returns, from every state of the caches and for
    every answer of the allocator: within [S (length fd)] turns of its loop it
    fails, gives exactly [size] bytes, or reads outside a block.  It leaks no block
    and leaves no dangling reference. *)
Theorem sqfs_md_read_total (s : sqfs_state) (cur : sqfs_md_cursor) (buf : bool) (size : Z) :
  inv fs X s [] None -> in_size size -> in_size cur.(cur_offset) ->
  match sqfs_md_read (m := M) fs cur buf size s with
  | Crash c => c = MemFault
  | Ret (s', Failure _) => inv fs X s' [] None
  | Ret (s', Success (_, bs)) => inv fs X s' [] None /\ len bs = if buf then size else 0
  end.
Proof.
  intros Hi Hs Ho. pose proof (md_read_spec_result cur buf size Hs Ho) as Hr.
  pose proof (sim_run fs X false _ _ s (sim_md_read false cur buf size) Hi) as Hsim.
  destruct (sqfs_md_read (m := M) fs cur buf size s) as [[s' [[cur' bs]|e]]|c].
  - destruct Hsim as [? [E|(_ & ? & ?)]]; [|done]. by rewrite E in Hr.
  - apply Hsim.
  - by rewrite Hsim in Hr.
Qed.

(** an offset beyond the end of its block is not noticed: the subtraction
    [block->size - cur->offset] wraps around and the read goes outside the block.
    The cursors of inodes, directories and attributes come from the archive. *)
Theorem sqfs_md_read_overrun (s : sqfs_state) (cur : sqfs_md_cursor) (size n : Z)
    (data : list byte) :
  inv fs X s [] None -> s.(mem) = [] ->
  0 < size -> in_size size -> in_size cur.(cur_offset) ->
  md_block_spec fs cur.(cur_block) = Ret (Success (n, data)) -> len data < cur.(cur_offset) ->
  sqfs_md_read (m := M) fs cur true size s = Crash MemFault.
Proof.
  intros Hi Hm Hsize Hs Ho E Hlt.
  assert (sqfs_md_read (m := O) fs cur true size = Crash MemFault) as Hr.
  { unfold sqfs_md_read. rewrite md_read_step, E by done. run_m.
    by replace (len data <? cur_offset cur) with true by (symmetry; by apply Z.ltb_lt). }
  pose proof (sim_run fs X false _ _ s (sim_md_read false cur true size) Hi) as Hsim.
  rewrite Hr in Hsim. destruct (sqfs_md_read (m := M) fs cur true size s) as [[s' r]|c]; [|congruence].
  destruct Hsim as [_ [?|[? _]]]; congruence.
Qed.
End md_theorems.

#[export] Hint Resolve sim_md_read : sim.

(** Two bytes of the first block and one of the second, then the rest. *)
Lemma sqfs_md_read_split_witness :
  sqfs_md_read (m := O) (sample_fs sample_md sample_sb) (mk_cursor 0 2) true (3 + 2) =
    Ret (Success (mk_cursor 11 0, [x63; x64; x65; x66; x67])) /\
  sqfs_md_read (m := O) (sample_fs sample_md sample_sb) (mk_cursor 0 2) true 3 =
    Ret (Success (mk_cursor 6 1, [x63; x64; x65])).
Proof.
  assert (fs_ok (sample_fs sample_md sample_sb)) as Hfs by (apply sample_fs_ok; vm_compute; congruence).
  split; [|vm_compute; reflexivity].
  rewrite (sqfs_md_read_split _ Hfs); [vm_compute; reflexivity|lia..| | |];
    vm_compute; intuition congruence.
Defined.

(** The second request for memory fails, then a run without failures. *)
Lemma sqfs_md_read_total_witness :
  let fs := sample_fs sample_md sample_sb in
  let run ms := sqfs_md_read (m := M) fs (mk_cursor 0 2) true 5 (sample_state ms) in
  answer (run [true; false]) = Ret (Failure SQFS_ERR) /\
  inv fs no_expectations (final (sample_state []) (run [true; false])) [] None /\
  answer (run []) = Ret (Success (mk_cursor 11 0, [x63; x64; x65; x66; x67])) /\
  inv fs no_expectations (final (sample_state []) (run [])) [] None.
Proof.
  intros fs run. assert (fs_ok fs) as Hfs by (apply sample_fs_ok; vm_compute; congruence).
  assert (forall ms, inv fs no_expectations (final (sample_state []) (run ms)) [] None) as Hinv.
  { intros ms. pose proof (sqfs_md_read_total (CL := sample_laws) _ Hfs no_expectations
      (sample_state ms) (mk_cursor 0 2) true 5 (sample_inv _ _ _)
      ltac:(vm_compute; intuition congruence) ltac:(vm_compute; intuition congruence)) as H.
    fold fs in H. fold (run ms) in H. unfold final.
    destruct (run ms) as [[s' [[]|]]|]; [apply H|apply H|apply sample_inv]. }
  split; [vm_compute; reflexivity|]. split; [apply Hinv|].
  split; [vm_compute; reflexivity|apply Hinv].
Defined.

Lemma sqfs_md_read_overrun_witness :
  md_block_spec (sample_fs sample_md sample_sb) 0 = Ret (Success (6, [x61; x62; x63; x64])) /\
  sqfs_md_read (m := M) (sample_fs sample_md sample_sb) (mk_cursor 0 5) true 1
    (sample_state []) = Crash MemFault.
Proof.
  split; [vm_compute; reflexivity|].
  assert (in_size 1 /\ in_size 5) as [H1 H5] by (vm_compute; intuition congruence).
  exact (sqfs_md_read_overrun (CL := sample_laws) _
    (sample_fs_ok sample_md sample_sb ltac:(vm_compute; congruence)) no_expectations
    (sample_state []) (mk_cursor 0 5) 1 6 [x61; x62; x63; x64]
    (sample_inv _ _ _) eq_refl eq_refl H1 H5
    ltac:(vm_compute; reflexivity) eq_refl).
Defined.
