(* ===== verification/Stream.v ===== *)
(** * Stream: the metadata as one stream of bytes

    mksquashfs cuts the metadata in blocks of [SQUASHFS_METADATA_SIZE] bytes, the
    last one excepted.  A chain is the list of blocks from a position on, each with
    its size in the archive; the stream is what they hold.  [sqfs_md_read] reads
    the stream, and the cursor is its place in it. *)
From S2P Require Import Prelude Swap Cache Decompress FsState Block BlockOk Sample MdRead.

Section stream.
Context (fs : sqfs) (Hfs : fs_ok fs).

Fixpoint md_chain (pos : Z) (mds : list (Z * list byte)) : Prop :=
  match mds with
  | [] => True
  | (n, d) :: mds =>
      md_block_spec fs pos = Ret (Success (n, d)) /\ d <> [] /\
      (mds <> [] -> len d = SQUASHFS_METADATA_SIZE) /\ len d <= SQUASHFS_METADATA_SIZE /\
      md_chain (s64 (pos + n)) mds
  end.

Definition stream (mds : list (Z * list byte)) : list byte := concat (snd <$> mds).

Lemma stream_cons n d mds : stream ((n, d) :: mds) = d ++ stream mds.
Proof. done. Qed.

(** The position of block [i] of the chain. *)
Fixpoint md_pos (pos : Z) (mds : list (Z * list byte)) (i : nat) : Z :=
  match i, mds with
  | S i, (n, _) :: mds => md_pos (s64 (pos + n)) mds i
  | _, _ => pos
  end.

(** The cursor of place [k] of the stream. *)
Definition cursor_at (pos : Z) (mds : list (Z * list byte)) (k : Z) : sqfs_md_cursor :=
  mk_cursor (md_pos pos mds (Z.to_nat (k / SQUASHFS_METADATA_SIZE)))
    (k mod SQUASHFS_METADATA_SIZE).

Lemma cursor_at_start pos mds k : 0 <= k < 8192 -> cursor_at pos mds k = mk_cursor pos k.
Proof.
  intros. unfold cursor_at, SQUASHFS_METADATA_SIZE. rewrite Z.div_small, Z.mod_small by done.
  by destruct mds as [|[]].
Qed.

Lemma cursor_at_next pos n d mds k :
  8192 <= k -> cursor_at pos ((n, d) :: mds) k = cursor_at (s64 (pos + n)) mds (k - 8192).
Proof.
  intros. unfold cursor_at, SQUASHFS_METADATA_SIZE.
  replace ((k - 8192) mod 8192) with (k mod 8192) by dlia.
  replace (Z.to_nat (k / 8192)) with (S (Z.to_nat ((k - 8192) / 8192))) by dlia. done.
Qed.

(** A place of the stream is in a block of the chain. *)
Lemma md_chain_length pos mds : md_chain pos mds -> len (stream mds) <= 8192 * len mds.
Proof.
  revert pos. induction mds as [|[n d] mds IH]; intros pos; [done|].
  intros (_ & _ & _ & Hd & Hc%IH). rewrite stream_cons, length_app. cbn [length].
  unfold SQUASHFS_METADATA_SIZE in Hd. lia.
Qed.

Lemma md_pos_range pos mds i :
  (0 < i < length mds)%nat -> - 2 ^ 63 <= md_pos pos mds i < 2 ^ 63.
Proof.
  revert pos i. induction mds as [|[n d] mds IH]; intros pos i Hi; [cbn in Hi; lia|].
  destruct i as [|i]; [lia|]. cbn [md_pos]. cbn [length] in Hi.
  destruct i as [|i]; [|apply IH; lia].
  destruct mds as [|[]]; cbn [md_pos]; by apply (swrap_range 64).
Qed.

(** What a read gives from place [k]: the bytes of the stream, and the cursor of
    the place after them unless it is the end of the chain. *)
Definition reads_stream (pos : Z) (mds : list (Z * list byte)) (k size : Z)
    (o : O (sqfs_md_cursor * list byte)) : Prop :=
  exists cur, o = Ret (Success (cur, slice (stream mds) k size)) /\
    (k + size < len (stream mds) -> cur = cursor_at pos mds (k + size)).

(** The part of a read inside the first block. *)
Lemma md_read_first f pos n d mds k size :
  enough fs (S f) pos -> md_chain pos ((n, d) :: mds) ->
  0 <= k < len d -> 0 < size -> in_size size ->
  (forall size, 0 < size -> in_size size -> size <= len (stream mds) ->
     reads_stream (s64 (pos + n)) mds 0 size
       (md_read_loop f fs (s64 (pos + n)) (mk_cursor (s64 (pos + n)) 0) true size)) ->
  k + size <= len (stream ((n, d) :: mds)) ->
  reads_stream pos ((n, d) :: mds) k size
    (md_read_loop (S f) fs pos (mk_cursor pos k) true size).
Proof.
  intros He (E & Hne & Hfull & Hlen & Hc) Hk Hs Hin Hrest. rewrite stream_cons, length_app, Nat2Z.inj_add.
  unfold SQUASHFS_METADATA_SIZE in *. intros Hle.
  rewrite md_read_step, E by (first [done | unfold in_size in *; cbn [cur_offset]; lia]).
  run_m. cbn [cur_offset andb]. cbv zeta. zbool; try lia.
  destruct (Z.le_gt_cases (k + size) (len d)) as [Hin1|Hout].
  - rewrite Z.min_r, Z.sub_diag, md_read_zero by lia. run_m.
    eexists. split; [by rewrite app_nil_r, stream_cons, slice_app_l by lia|].
    rewrite stream_cons, length_app, Nat2Z.inj_add. intros Hlt.
    unfold advance. cbn [cur_offset cur_block]. destruct (Z.eqb_spec (k + size) (len d)) as [Heq|].
    + assert (len d = 8192) as H8 by (apply Hfull; intros ->; cbn in Hlt; lia).
      rewrite Heq, H8, cursor_at_next, cursor_at_start by lia. done.
    + by rewrite cursor_at_start by lia.
  - rewrite Z.min_l by lia.
    assert (mds <> []) as Hm by (intros ->; cbn in Hle; lia). specialize (Hfull Hm).
    assert (advance (s64 (pos + n)) (mk_cursor pos k) (len d) (len d - k) =
            mk_cursor (s64 (pos + n)) 0) as ->.
    { unfold advance. cbn [cur_offset]. zbool; done || lia. }
    destruct (Hrest (size - (len d - k))) as (cur & -> & Hcur); [lia|unfold in_size in *; lia|lia|].
    run_m. exists cur. split.
    + rewrite stream_cons. do 3 f_equal.
      replace size with ((len d - k) + (size - (len d - k))) at 2 by lia.
      rewrite slice_split by (rewrite ?length_app; lia).
      rewrite slice_app_l by lia. f_equal.
      replace (k + (len d - k)) with (len d + 0) by lia. by rewrite slice_app_r by lia.
    + rewrite stream_cons, length_app, Nat2Z.inj_add. intros Hlt.
      rewrite cursor_at_next by lia. rewrite Hcur by lia. f_equal. lia.
Qed.

Lemma md_chain_positive pos n d mds : md_chain pos ((n, d) :: mds) -> 0 < len d.
Proof. intros (_ & Hne & _). destruct d; [done|cbn; lia]. Qed.

Lemma md_read_chain_start f mds pos size :
  enough fs f pos -> md_chain pos mds -> 0 < size -> in_size size -> size <= len (stream mds) ->
  reads_stream pos mds 0 size (md_read_loop f fs pos (mk_cursor pos 0) true size).
Proof.
  revert f pos size. induction mds as [|[n d] mds IH]; intros f pos size He Hc Hs Hin Hle;
    [cbn in Hle; lia|].
  destruct f as [|f]; [destruct He; lia|].
  pose proof (md_chain_positive _ _ _ _ Hc).
  apply md_read_first; try done.
  intros size' Hs' Hin' Hle'. apply IH; try done; [eapply enough_next; [done|done|apply Hc]|apply Hc].
Qed.

(** From a place in the first block. *)
Lemma md_read_chain f mds pos k size :
  enough fs f pos -> md_chain pos mds -> 0 < size -> in_size size -> 0 <= k < 8192 ->
  k + size <= len (stream mds) ->
  reads_stream pos mds k size (md_read_loop f fs pos (mk_cursor pos k) true size).
Proof.
  intros He Hc Hs Hin Hk Hle. destruct mds as [|[n d] mds]; [cbn in Hle; lia|].
  destruct f as [|f]; [destruct He; lia|].
  pose proof Hc as (E & Hne & Hfull & _ & Hc').
  apply md_read_first; try done.
  - destruct (decide (mds = [])) as [->|Hm].
    + rewrite stream_cons, length_app in Hle. cbn in Hle. lia.
    + rewrite (Hfull Hm). unfold SQUASHFS_METADATA_SIZE. lia.
  - intros size' Hs' Hin' Hle'. apply md_read_chain_start; try done. by eapply enough_next.
Qed.

(** A read from any place of the stream. *)
Lemma md_read_at mds pos k size :
  md_chain pos mds -> 0 <= k -> 0 < size -> in_size size -> k + size <= len (stream mds) ->
  reads_stream pos mds k size (sqfs_md_read fs (cursor_at pos mds k) true size).
Proof.
  revert pos k. induction mds as [|[n d] mds IH]; intros pos k Hc Hk Hs Hin Hle;
    [cbn in Hle; lia|].
  destruct (Z.lt_ge_cases k 8192).
  - rewrite cursor_at_start by lia. apply md_read_chain; try done. apply enough_start.
  - pose proof Hc as (E & Hne & Hfull & _ & Hc'). rewrite stream_cons, length_app, Nat2Z.inj_add in Hle.
    assert (mds <> []) as Hm.
    { intros ->. destruct Hc as (_ & _ & _ & Hl & _). unfold SQUASHFS_METADATA_SIZE in Hl.
      cbn in Hle. lia. }
    specialize (Hfull Hm). unfold SQUASHFS_METADATA_SIZE in Hfull. rewrite cursor_at_next by done.
    destruct (IH (s64 (pos + n)) (k - 8192)) as (cur & -> & Hcur); try done; [lia..|].
    exists cur. rewrite stream_cons, length_app, Nat2Z.inj_add. split.
    + do 3 f_equal. replace k with (len d + (k - 8192)) at 2 by lia.
      by rewrite slice_app_r by lia.
    + intros Hlt. rewrite cursor_at_next, Hcur by lia. f_equal. lia.
Qed.

Lemma md_read_at_inv mds pos k size cur bs :
  md_chain pos mds -> 0 <= k -> 0 < size -> in_size size -> k + size <= len (stream mds) ->
  sqfs_md_read (m := O) fs (cursor_at pos mds k) true size = Ret (Success (cur, bs)) ->
  bs = slice (stream mds) k size /\
  (k + size < len (stream mds) -> cur = cursor_at pos mds (k + size)).
Proof.
  intros Hc Hk Hs Hin Hle E. destruct (md_read_at mds pos k size) as (cur' & E' & Hcur); try done.
  rewrite E in E'. split; [congruence|]. intros H. rewrite <- (Hcur H). congruence.
Qed.

Context {CI : CacheImpl} {CL : CacheLaws CI} (X : expectations).

(** C6: over the caches, whatever they hold, reading [size] bytes from place [k]
    of the metadata stream gives bytes [k] to [k + size] of the concatenation of
    the metadata blocks, however many blocks the range covers, and leaves the
    cursor at place [k + size]. *)
Theorem sqfs_md_read_stream (s : sqfs_state) (mds : list (Z * list byte)) (pos k size : Z) :
  inv fs X s [] None -> s.(mem) = [] ->
  md_chain pos mds -> 0 <= k -> 0 < size -> in_size size -> k + size <= len (stream mds) ->
  exists s' cur,
    sqfs_md_read (m := M) fs (cursor_at pos mds k) true size s =
      Ret (s', Success (cur, slice (stream mds) k size)) /\
    (k + size < len (stream mds) -> cur = cursor_at pos mds (k + size)) /\
    inv fs X s' [] None.
Proof.
  intros Hi Hm Hc Hk Hs Hin Hle.
  destruct (md_read_at mds pos k size) as (cur & E & Hcur); try done.
  destruct (sim_exact fs X false _ _ s _ (sim_md_read fs X false _ true size) Hi Hm E)
    as (s' & E' & Hi' & _). by exists s', cur.
Qed.
End stream.

(** One full block and a short one. *)
Definition sample_letters : list byte := replicate (Z.to_nat 8192) x61.
Definition sample_stream : list byte :=
  stored_md (sample_letters) ++ stored_md [x62; x63].

Lemma sample_stream_chain sb :
  md_chain (sample_fs sample_stream sb) 0 [(8194, sample_letters); (4, [x62; x63])].
Proof.
  cbn [md_chain].
  assert (md_block_spec (sample_fs sample_stream sb) 0 =
    Ret (Success (8194, sample_letters))) as -> by (vm_compute; reflexivity).
  assert (md_block_spec (sample_fs sample_stream sb) (s64 (0 + 8194)) =
    Ret (Success (4, [x62; x63]))) as -> by (vm_compute; reflexivity).
  unfold sample_letters. rewrite length_replicate. unfold SQUASHFS_METADATA_SIZE. cbn [length]. repeat split; try done; lia.
Qed.

(** Two bytes of the first block and one of the second. *)
Lemma sqfs_md_read_stream_witness :
  let fs := sample_fs sample_stream sample_sb in
  let run := sqfs_md_read (m := M) fs (mk_cursor 0 8190) true 3 (sample_state []) in
  answer run = Ret (Success (mk_cursor 8194 1, [x61; x61; x62])) /\
  inv fs no_expectations (final (sample_state []) run) [] None.
Proof.
  intros fs run. split; [vm_compute; reflexivity|].
  assert (fs_ok fs) as Hfs by (apply sample_fs_ok; vm_compute; congruence).
  assert (in_size 3) as H3 by (vm_compute; intuition congruence).
  assert (8190 + 3 <= len (stream [(8194, sample_letters); (4, [x62; x63])])) as Hle
    by (vm_compute; congruence).
  destruct (sqfs_md_read_stream fs Hfs (CL := sample_laws) no_expectations (sample_state []) _ 0
    8190 3 (sample_inv _ _ _) eq_refl (sample_stream_chain sample_sb) ltac:(lia) ltac:(lia) H3 Hle)
    as (s' & cur & E & _ & Hi).
  rewrite cursor_at_start in E by lia. fold run in E. by rewrite E.
Defined.
