(* ===== verification/Table.v ===== *)
(** * Table: the tables of fixed-size entries (table.c)

    A table is stored as metadata blocks; the list of their positions is read when
    the archive is opened, the entries when they are needed. *)
From S2P Require Import Prelude Swap Cache Decompress FsState Block BlockOk Sample MdRead.

(** fs.c.  [total] is a [uint64_t], [group] a [size_t]. *)
Definition sqfs_divceil (total group : Z) : Z :=
  let q := total / group in
  if total mod group =? 0 then q else u64 (q + 1).

(** [swapin64] of each of [n] numbers. *)
Fixpoint swapin64_array (n : nat) (bs : list byte) : list Z :=
  match n with
  | 0%nat => []
  | S n => sqfs_swapin64 (take 8 bs) :: swapin64_array n (drop 8 bs)
  end.

(** The error code with the table as it is left: [sqfs_init] looks at the code
    only after it has initialised everything. *)
Definition sqfs_table_init (table : sqfs_table) (fd : list byte) (start each count : Z)
    (ms : mallocs) : sqfs_err * sqfs_table * mallocs :=
  if count =? 0 then (SQFS_OK, table, ms)
  else
    let nblocks := sqfs_divceil (u64 (each * count)) SQUASHFS_METADATA_SIZE in
    let bread := u64 (nblocks * 8) in
    let (ok, ms) := malloc ms in
    if negb ok then (SQFS_ERR, mk_table each count None, ms)
    else
      match pread_exact fd bread start with
      | None => (SQFS_ERR, mk_table each count None, ms)
      | Some bs =>
          (SQFS_OK, mk_table each count (Some (swapin64_array (Z.to_nat nblocks) bs)), ms)
      end.

Definition sqfs_table_destroy (table : sqfs_table) : sqfs_table :=
  mk_table table.(tbl_each) table.(tbl_count) None.

(** [table->blocks[bnum]]. *)
Definition table_block (table : sqfs_table) (bnum : Z) : outcome Z :=
  match table.(tbl_blocks) with
  | None => Crash MemFault
  | Some blocks =>
      match zlookup blocks bnum with Some b => Ret b | None => Crash MemFault end
  end.

Section table.
Context {m : Type -> Type} {FM : FsMonad m}.

(** The [each] bytes of entry [idx]. *)
Definition sqfs_table_get (table : sqfs_table) (fs : sqfs) (idx : Z) : m (list byte) :=
  if table.(tbl_count) <=? idx then fm_fail SQFS_ERR
  else
    let pos := u64 (idx * table.(tbl_each)) in
    let bnum := pos / SQUASHFS_METADATA_SIZE in
    let off := pos mod SQUASHFS_METADATA_SIZE in
    bpos ← fm_lift (table_block table bnum);
    fm_or_err (with_md_block fs (s64 bpos) (fun _ _ data => mem_read data off table.(tbl_each))).
End table.

(** ** Correctness *)
Lemma swapin64_array_lookup n bs i :
  (i < n)%nat -> swapin64_array n bs !! i = Some (sqfs_swapin64 (take 8 (drop (8 * i) bs))).
Proof.
  revert bs i. induction n as [|n IH]; intros bs i Hi; [lia|].
  destruct i as [|i]; cbn [swapin64_array lookup list_lookup]; [done|].
  rewrite IH by lia. rewrite drop_drop. repeat f_equal. lia.
Qed.

Lemma swapin64_array_length n bs : length (swapin64_array n bs) = n.
Proof. revert bs. induction n; intros; cbn; auto. Qed.

Lemma sqfs_divceil_spec total group :
  0 <= total < 2 ^ 63 -> 1 < group -> sqfs_divceil total group = (total + group - 1) / group.
Proof.
  intros Ht Hg. unfold sqfs_divceil.
  pose proof (Z.div_mod total group ltac:(lia)) as E.
  pose proof (Z.mod_pos_bound total group ltac:(lia)) as Hm.
  assert (0 <= total / group <= total)
    by (split; [apply Z.div_pos; lia|apply Z.div_le_upper_bound; nia]).
  destruct (Z.eqb_spec (total mod group) 0).
  - apply Z.div_unique with (group - 1); lia.
  - rewrite wrap_small by lia. apply Z.div_unique with (total mod group - 1); lia.
Qed.

(** The table [t] stands for the entries laid out in the blocks [D]: every block
    but the last is full, and there is room for all the entries. *)
Record table_on_disk (fs : sqfs) (t : sqfs_table) (bl : list Z) (D : list (list byte)) : Prop := {
  td_blocks : t.(tbl_blocks) = Some bl;
  td_each : exists k, 0 < k /\ 0 < t.(tbl_each) /\ t.(tbl_each) * k = SQUASHFS_METADATA_SIZE;
  td_size : in_size (t.(tbl_count) * t.(tbl_each));
  td_read : Forall2 (fun b d => exists n, md_block_spec fs (s64 b) = Ret (Success (n, d))) bl D;
  td_full j d : D !! j = Some d -> (S j < length D)%nat -> len d = SQUASHFS_METADATA_SIZE;
  td_max j d : D !! j = Some d -> len d <= SQUASHFS_METADATA_SIZE;
  td_room : t.(tbl_count) * t.(tbl_each) <= len (concat D)
}.

Lemma concat_length_le {A} (D : list (list A)) size :
  0 <= size -> (forall j d, D !! j = Some d -> len d <= size) -> len (concat D) <= size * len D.
Proof.
  intros Hs. induction D as [|d D IH]; intros Hd; cbn [concat length]; [lia|].
  rewrite length_app. specialize (Hd 0%nat d eq_refl) as H0.
  specialize (IH (fun j => Hd (S j))). lia.
Qed.

Lemma concat_length_last {A} (D : list (list A)) size b :
  (forall j d, D !! j = Some d -> (S j < length D)%nat -> len d = size) ->
  D !! pred (length D) = Some b -> len (concat D) = size * (len D - 1) + len b.
Proof.
  induction D as [|d D IH]; intros Hd Hb; [done|]. destruct D as [|d' D].
  - cbn in *. injection Hb as ->. rewrite app_nil_r. lia.
  - cbn [concat]. rewrite length_app. cbn [pred length] in Hb.
    specialize (Hd 0%nat d eq_refl ltac:(cbn; lia)) as H0.
    assert (len (concat (d' :: D)) = size * (len (d' :: D) - 1) + len b) as E.
    { apply IH; [|done]. intros j e Hj Hlt. apply (Hd (S j)); [done|]. cbn in *. lia. }
    cbn [concat length] in *. lia.
Qed.

(** Where entry [idx] lies. *)
Lemma table_entry_place fs t bl D idx :
  table_on_disk fs t bl D -> 0 <= idx < t.(tbl_count) ->
  let pos := idx * t.(tbl_each) in
  exists b d, u64 pos = pos /\ zlookup bl (pos / SQUASHFS_METADATA_SIZE) = Some b /\
    (exists n, md_block_spec fs (s64 b) = Ret (Success (n, d))) /\
    pos mod SQUASHFS_METADATA_SIZE + t.(tbl_each) <= len d /\
    slice (concat D) pos t.(tbl_each) = slice d (pos mod SQUASHFS_METADATA_SIZE) t.(tbl_each).
Proof.
  intros [Hbl (k & Hk & He & Hke) Hsize Hread Hfull Hmax Hroom] Hidx pos.
  unfold in_size in *. pose proof (Forall2_length _ _ _ Hread) as Hlen.
  set (S := SQUASHFS_METADATA_SIZE) in *. assert (S = 8192) as HS by done.
  assert (0 <= pos /\ pos + tbl_each t <= tbl_count t * tbl_each t) as [Hp0 Hp] by (unfold pos; nia).
  pose proof (concat_length_le D S ltac:(lia) Hmax) as Hc.
  assert (pos mod S = tbl_each t * (idx mod k)) as Hmod.
  { unfold pos. rewrite <- Hke, (Z.mul_comm idx). apply Z.mul_mod_distr_l; lia. }
  pose proof (Z.mod_pos_bound idx k Hk) as Hik.
  assert (pos mod S + tbl_each t <= S) as Hoff by (rewrite Hmod, <- Hke; nia).
  pose proof (Z.div_mod pos S ltac:(lia)) as Hdm.
  pose proof (Z.mod_pos_bound pos S ltac:(lia)) as Hpm.
  assert (0 <= pos / S < len D) as Hdiv by (split; [apply Z.div_pos; lia|nia]).
  destruct (lookup_lt_is_Some_2 bl (Z.to_nat (pos / S))) as [b Hb]; [lia|].
  destruct (Forall2_lookup_l _ _ _ _ _ Hread Hb) as (d & Hd & Hr).
  assert (pos mod S + tbl_each t <= len d) as Hfit.
  { destruct (decide (Datatypes.S (Z.to_nat (pos / S)) < length D)%nat) as [Hlt|Hge].
    - rewrite (Hfull _ _ Hd Hlt). done.
    - rewrite (concat_length_last D S d) in Hroom; [nia|done|].
      rewrite <- Hd. f_equal. lia. }
  exists b, d. split; [by rewrite wrap_small by lia|]. split.
  { rewrite zlookup_lookup; [done|lia]. }
  split; [done|]. split; [done|].
  rewrite Hdm at 1. rewrite (Z.mul_comm S), <- (Z2Nat.id (pos / S)) by lia.
  apply slice_concat; try lia; [|done].
  intros j c Hj Hc'. eapply Hfull; [done|]. apply lookup_lt_Some in Hd. lia.
Qed.

Lemma sqfs_table_get_ref fs t bl D idx :
  table_on_disk fs t bl D -> 0 <= idx < t.(tbl_count) ->
  sqfs_table_get (m := O) t fs idx =
  Ret (Success (slice (concat D) (idx * t.(tbl_each)) t.(tbl_each))).
Proof.
  intros Ht Hidx. destruct (table_entry_place fs t bl D idx Ht Hidx)
    as (b & d & Hw & Hb & [n Hr] & Hfit & Hs).
  pose proof (td_each _ _ _ _ Ht) as (k & Hk & He & Hke).
  unfold sqfs_table_get. zbool; [lia|]. rewrite Hw. unfold table_block.
  rewrite (td_blocks _ _ _ _ Ht), Hb. run_m. cbn [spec_lift with_md_block fs_spec].
  rewrite Hr. run_m. rewrite mem_read_ok; [|apply Z.mod_pos_bound; done|lia|done].
  cbn. by rewrite Hs.
Qed.

Section table_theorems.
Context {CI : CacheImpl} {CL : CacheLaws CI} (fs : sqfs) (X : expectations).

Lemma sim_table_get b t idx :
  sim fs X b (sqfs_table_get t fs idx) (sqfs_table_get t fs idx).
Proof. unfold sqfs_table_get. sim_tac. Qed.

(** entry [idx] of a table comes out as its bytes in the concatenation of the
    table's blocks, through the caches and from any of their states, when the
    table in the archive is complete; an index at or beyond [count] is refused. *)
Theorem sqfs_table_get_correct (s : sqfs_state) (t : sqfs_table) (bl : list Z)
    (D : list (list byte)) (idx : Z) :
  inv fs X s [] None -> s.(mem) = [] -> table_on_disk fs t bl D -> 0 <= idx ->
  exists s', inv fs X s' [] None /\
    sqfs_table_get (m := M) t fs idx s =
    Ret (s', if idx <? t.(tbl_count)
             then Success (slice (concat D) (idx * t.(tbl_each)) t.(tbl_each))
             else Failure SQFS_ERR).
Proof.
  intros Hi Hm Ht Hidx.
  destruct (sim_exact fs X false _ _ s (if idx <? tbl_count t
      then Success (slice (concat D) (idx * tbl_each t) (tbl_each t)) else Failure SQFS_ERR)
      (sim_table_get false t idx) Hi Hm) as (s' & ? & ? & ?); [|by exists s'].
  destruct (Z.ltb_spec idx (tbl_count t)).
  - eapply sqfs_table_get_ref; [done|lia].
  - unfold sqfs_table_get. by rewrite (proj2 (Z.leb_le _ _)).
Qed.
End table_theorems.
#[export] Hint Resolve sim_table_get : sim.

(** a table that [sqfs_table_init] read holds the little-endian positions
    found in the file, one for every block an entry below [count] can lie in: the
    lookup of a block never leaves the array. *)
Theorem sqfs_table_init_correct (t0 : sqfs_table) (fd : list byte) (start each count : Z)
    (ms ms' : mallocs) (t : sqfs_table) :
  0 < count -> 0 < each -> in_size (each * count) ->
  sqfs_table_init t0 fd start each count ms = (SQFS_OK, t, ms') ->
  t.(tbl_each) = each /\ t.(tbl_count) = count /\
  forall idx, 0 <= idx < count ->
    let bnum := (idx * each) / SQUASHFS_METADATA_SIZE in
    table_block t bnum = Ret (le_decode (slice fd (start + 8 * bnum) 8)).
Proof.
  intros Hc He Hs. unfold sqfs_table_init, in_size in *.
  destruct (Z.eqb_spec count 0); [lia|].
  rewrite (wrap_small 64 (each * count)) by lia. rewrite sqfs_divceil_spec by (unfold SQUASHFS_METADATA_SIZE; lia).
  set (nblocks := (_ + _ - 1) / _).
  assert (0 <= nblocks < 2 ^ 60) as Hnb
    by (unfold nblocks, SQUASHFS_METADATA_SIZE; split; [apply Z.div_pos; lia|dlia]).
  rewrite (wrap_small 64 (nblocks * 8)) by lia.
  destruct (malloc ms) as [[] ms1]; cbn [negb]; [|done].
  destruct (pread_exact fd (nblocks * 8) start) as [bs|] eqn:E; [|done].
  intros [= <- <-]. split; [done|]. split; [done|]. intros idx Hidx.
  set (bnum := idx * each / SQUASHFS_METADATA_SIZE).
  assert (0 <= bnum < nblocks) as Hbn.
  { unfold bnum, nblocks, SQUASHFS_METADATA_SIZE. split; [apply Z.div_pos; nia|].
    assert (idx * each + each <= each * count) by nia. dlia. }
  unfold table_block. cbn [tbl_blocks]. rewrite zlookup_lookup, swapin64_array_lookup by lia.
  pose proof (pread_exact_inside _ _ _ _ E) as (Hst & Hin & Hlen).
  unfold pread_exact, sqfs_pread in E. destruct (start <? 0); [done|].
  destruct (_ =? _); [|done]. injection E as <-. f_equal.
  assert (take 8 (drop (8 * Z.to_nat bnum) (slice fd start (nblocks * 8))) =
          slice fd (start + 8 * bnum) 8) as ->.
  { unfold slice. rewrite !Z.min_l by lia. rewrite take_drop_commute, take_take, Nat.min_l by lia.
    rewrite <- take_drop_commute, drop_drop. f_equal. f_equal. lia. }
  unfold sqfs_swapin64. apply sqfs_swapin_le. rewrite slice_length; lia.
Qed.

(** An id table of three entries: the list of positions, then its one block. *)
Definition sample_ids : list byte := concat (map (le_encode 4) [1000; 0; 65534]).
Definition sample_table_image : list byte := le_encode 8 8 ++ stored_md sample_ids.
Definition sample_table : sqfs_table := mk_table 4 3 (Some [8]).

Lemma sqfs_table_init_correct_witness :
  sqfs_table_init table_zero sample_table_image 0 4 3 [] = (SQFS_OK, sample_table, []) /\
  table_block sample_table 0 = Ret 8.
Proof.
  assert (in_size (4 * 3)) as Hs by (vm_compute; intuition congruence).
  split; [vm_compute; reflexivity|].
  exact (proj2 (proj2 (sqfs_table_init_correct table_zero sample_table_image 0 4 3 [] [] sample_table
    eq_refl eq_refl Hs ltac:(vm_compute; reflexivity))) 2 ltac:(lia)).
Defined.

Lemma sqfs_table_get_correct_witness :
  table_on_disk (sample_fs sample_table_image sample_sb) sample_table [8] [sample_ids] /\
  answer (sqfs_table_get (m := M) sample_table (sample_fs sample_table_image sample_sb) 2
            (sample_state [])) = Ret (Success (le_encode 4 65534)).
Proof.
  assert (table_on_disk (sample_fs sample_table_image sample_sb) sample_table [8] [sample_ids])
    as Ht.
  { split.
    - reflexivity.
    - by exists 2048.
    - vm_compute; intuition congruence.
    - constructor; [|constructor]. eexists. vm_compute. reflexivity.
    - intros [|j] d Hd Hj; [cbn in Hj; lia|done].
    - intros [|j] d Hd; [|done]. injection Hd as <-. vm_compute. congruence.
    - vm_compute. congruence. }
  split; [exact Ht|].
  destruct (sqfs_table_get_correct (CL := sample_laws) _ no_expectations (sample_state [])
    sample_table [8] [sample_ids] 2 (sample_inv _ _ _) eq_refl Ht ltac:(lia)) as (s' & _ & ->).
  vm_compute. reflexivity.
Defined.
