(* ===== verification/Inode.v ===== *)
(** * Inode: decoding inodes (fs.c, nonstd-stat.c)

    [sqfs_inode_get] reads the common header of an inode, then the structure of its
    type from the same place, and spreads its fields over [sqfs_inode].  The union
    [xtra] is a tagged value: reading another member than the one stored is
    [BadUnion].  [memset] leaves it all zero, which every member reads as zero. *)
From S2P Require Import Prelude Swap Cache Decompress FsState Block BlockOk Sample MdRead Table.

(** ** Types and modes *)
Definition SQUASHFS_DIR_TYPE : Z := 1.
Definition SQUASHFS_REG_TYPE : Z := 2.
Definition SQUASHFS_SYMLINK_TYPE : Z := 3.
Definition SQUASHFS_BLKDEV_TYPE : Z := 4.
Definition SQUASHFS_CHRDEV_TYPE : Z := 5.
Definition SQUASHFS_FIFO_TYPE : Z := 6.
Definition SQUASHFS_SOCKET_TYPE : Z := 7.
Definition SQUASHFS_LDIR_TYPE : Z := 8.
Definition SQUASHFS_LREG_TYPE : Z := 9.
Definition SQUASHFS_LSYMLINK_TYPE : Z := 10.
Definition SQUASHFS_LBLKDEV_TYPE : Z := 11.
Definition SQUASHFS_LCHRDEV_TYPE : Z := 12.
Definition SQUASHFS_LFIFO_TYPE : Z := 13.
Definition SQUASHFS_LSOCKET_TYPE : Z := 14.

Definition S_IFMT : Z := 0xf000.
Definition S_IFSOCK : Z := 0xc000.
Definition S_IFLNK : Z := 0xa000.
Definition S_IFREG : Z := 0x8000.
Definition S_IFBLK : Z := 0x6000.
Definition S_IFDIR : Z := 0x4000.
Definition S_IFCHR : Z := 0x2000.
Definition S_IFIFO : Z := 0x1000.

Definition S_ISLNK (mode : Z) : bool := (mode &&& S_IFMT) =? S_IFLNK.
Definition S_ISREG (mode : Z) : bool := (mode &&& S_IFMT) =? S_IFREG.
Definition S_ISBLK (mode : Z) : bool := (mode &&& S_IFMT) =? S_IFBLK.
Definition S_ISDIR (mode : Z) : bool := (mode &&& S_IFMT) =? S_IFDIR.
Definition S_ISCHR (mode : Z) : bool := (mode &&& S_IFMT) =? S_IFCHR.

Definition sqfs_mode (inode_type : Z) : Z :=
  if (inode_type =? SQUASHFS_DIR_TYPE) || (inode_type =? SQUASHFS_LDIR_TYPE) then S_IFDIR
  else if (inode_type =? SQUASHFS_REG_TYPE) || (inode_type =? SQUASHFS_LREG_TYPE) then S_IFREG
  else if (inode_type =? SQUASHFS_SYMLINK_TYPE) || (inode_type =? SQUASHFS_LSYMLINK_TYPE)
  then S_IFLNK
  else if (inode_type =? SQUASHFS_BLKDEV_TYPE) || (inode_type =? SQUASHFS_LBLKDEV_TYPE)
  then S_IFBLK
  else if (inode_type =? SQUASHFS_CHRDEV_TYPE) || (inode_type =? SQUASHFS_LCHRDEV_TYPE)
  then S_IFCHR
  else if (inode_type =? SQUASHFS_FIFO_TYPE) || (inode_type =? SQUASHFS_LFIFO_TYPE)
  then S_IFIFO
  else if (inode_type =? SQUASHFS_SOCKET_TYPE) || (inode_type =? SQUASHFS_LSOCKET_TYPE)
  then S_IFSOCK
  else 0.

Definition SQUASHFS_INVALID_XATTR : Z := 0xffffffff.
Definition SQUASHFS_INVALID_FRAG : Z := 0xffffffff.
Definition SQUASHFS_INVALID_BLK : Z := -1.

(** ** struct sqfs_inode *)
Record xtra_reg := mk_xreg {
  xr_start_block : Z; xr_file_size : Z; xr_frag_idx : Z; xr_frag_off : Z
}.
Record xtra_dir := mk_xdir {
  xd_start_block : Z; xd_offset : Z; xd_dir_size : Z; xd_idx_count : Z; xd_parent_inode : Z
}.
Inductive xtra_union :=
  | XtraZero
  | XtraDev (major minor : Z)
  | XtraSymlink (symlink_size : Z)
  | XtraReg (r : xtra_reg)
  | XtraDir (d : xtra_dir).

Record sqfs_inode := mk_inode {
  base : squashfs_base_inode;
  nlink : Z;
  xattr : Z;
  next : sqfs_md_cursor;
  xtra : xtra_union
}.

Definition get_reg (i : sqfs_inode) : outcome xtra_reg :=
  match i.(xtra) with
  | XtraReg r => Ret r
  | XtraZero => Ret (mk_xreg 0 0 0 0)
  | _ => Crash BadUnion
  end.
Definition get_dir (i : sqfs_inode) : outcome xtra_dir :=
  match i.(xtra) with
  | XtraDir d => Ret d
  | XtraZero => Ret (mk_xdir 0 0 0 0 0)
  | _ => Crash BadUnion
  end.
Definition get_symlink_size (i : sqfs_inode) : outcome Z :=
  match i.(xtra) with
  | XtraSymlink n => Ret n
  | XtraZero => Ret 0
  | _ => Crash BadUnion
  end.
Definition get_dev (i : sqfs_inode) : outcome (Z * Z) :=
  match i.(xtra) with
  | XtraDev major minor => Ret (major, minor)
  | XtraZero => Ret (0, 0)
  | _ => Crash BadUnion
  end.

Definition mode (i : sqfs_inode) : Z := i.(base).(bi_mode).
Definition inode_number (i : sqfs_inode) : Z := i.(base).(bi_inode_number).

Definition with_mode (b : squashfs_base_inode) (mode : Z) : squashfs_base_inode :=
  Build_squashfs_base_inode b.(bi_inode_type) mode b.(bi_uid) b.(bi_guid) b.(bi_mtime)
    b.(bi_inode_number).

Definition sqfs_decode_dev (rdev : Z) : xtra_union :=
  XtraDev (Z.shiftr rdev 8 &&& 0xfff) ((rdev &&& 0xff) ||| (Z.shiftr rdev 12 &&& 0xfff00)).

(** ** The operations *)
Section inode.
Context {m : Type -> Type} {FM : FsMonad m}.

(** [sqfs_md_read] into a structure and the swap of its fields. *)
Definition md_struct (A : Type) `{OnDisk A} (fs : sqfs) (cur : sqfs_md_cursor)
    : m (sqfs_md_cursor * A) :=
  '(cur, bs) ← sqfs_md_read fs cur true (disk_size A);
  match swapin_struct bs with
  | Some a => mret (cur, a)
  | None => fm_lift (Crash MemFault)
  end.

Definition sqfs_inode_get (fs : sqfs) (id : Z) : m sqfs_inode :=
  let cur := sqfs_md_cursor_inode id fs.(sb).(sb_inode_table_start) in
  '(_, b) ← md_struct squashfs_base_inode fs cur;
  let t := b.(bi_inode_type) in
  let b := with_mode b (u16 (b.(bi_mode) ||| sqfs_mode t)) in
  if t =? SQUASHFS_REG_TYPE then
    '(next, x) ← md_struct squashfs_reg_inode fs cur;
    mret (mk_inode b 1 SQUASHFS_INVALID_XATTR next
      (XtraReg (mk_xreg x.(reg_start_block) x.(reg_file_size) x.(reg_fragment) x.(reg_offset))))
  else if t =? SQUASHFS_LREG_TYPE then
    '(next, x) ← md_struct squashfs_lreg_inode fs cur;
    mret (mk_inode b (s32 x.(lreg_nlink)) x.(lreg_xattr) next
      (XtraReg (mk_xreg x.(lreg_start_block) x.(lreg_file_size) x.(lreg_fragment)
                  x.(lreg_offset))))
  else if t =? SQUASHFS_DIR_TYPE then
    '(next, x) ← md_struct squashfs_dir_inode fs cur;
    mret (mk_inode b (s32 x.(dir_nlink)) SQUASHFS_INVALID_XATTR next
      (XtraDir (mk_xdir x.(dir_start_block) x.(dir_offset) x.(dir_file_size) 0
                  x.(dir_parent_inode))))
  else if t =? SQUASHFS_LDIR_TYPE then
    '(next, x) ← md_struct squashfs_ldir_inode fs cur;
    mret (mk_inode b (s32 x.(ldir_nlink)) x.(ldir_xattr) next
      (XtraDir (mk_xdir x.(ldir_start_block) x.(ldir_offset) x.(ldir_file_size)
                  x.(ldir_i_count) x.(ldir_parent_inode))))
  else if (t =? SQUASHFS_SYMLINK_TYPE) || (t =? SQUASHFS_LSYMLINK_TYPE) then
    '(next, x) ← md_struct squashfs_symlink_inode fs cur;
    let size := x.(sym_symlink_size) in
    xattr ← (if t =? SQUASHFS_LSYMLINK_TYPE then
               '(cur, _) ← sqfs_md_read fs next false size;
               '(_, bs) ← sqfs_md_read fs cur true 4;
               mret (sqfs_swapin32 bs)
             else mret SQUASHFS_INVALID_XATTR);
    mret (mk_inode b (s32 x.(sym_nlink)) xattr next (XtraSymlink size))
  else if (t =? SQUASHFS_BLKDEV_TYPE) || (t =? SQUASHFS_CHRDEV_TYPE) then
    '(next, x) ← md_struct squashfs_dev_inode fs cur;
    mret (mk_inode b (s32 x.(dev_nlink)) SQUASHFS_INVALID_XATTR next
      (sqfs_decode_dev x.(dev_rdev)))
  else if (t =? SQUASHFS_LBLKDEV_TYPE) || (t =? SQUASHFS_LCHRDEV_TYPE) then
    '(next, x) ← md_struct squashfs_ldev_inode fs cur;
    mret (mk_inode b (s32 x.(ldev_nlink)) x.(ldev_xattr) next (sqfs_decode_dev x.(ldev_rdev)))
  else if (t =? SQUASHFS_SOCKET_TYPE) || (t =? SQUASHFS_FIFO_TYPE) then
    '(next, x) ← md_struct squashfs_ipc_inode fs cur;
    mret (mk_inode b (s32 x.(ipc_nlink)) SQUASHFS_INVALID_XATTR next XtraZero)
  else if (t =? SQUASHFS_LSOCKET_TYPE) || (t =? SQUASHFS_LFIFO_TYPE) then
    '(next, x) ← md_struct squashfs_lipc_inode fs cur;
    mret (mk_inode b (s32 x.(lipc_nlink)) x.(lipc_xattr) next XtraZero)
  else fm_fail SQFS_ERR.

(** ** Ids, symbolic links, the export table *)
Definition sqfs_id_get (fs : sqfs) (idx : Z) : m Z :=
  bs ← sqfs_table_get fs.(id_table) fs idx;
  mret (sqfs_swapin32 bs).

(** [buf] is [None] for a null buffer, else its size [*size]; the result is the
    new [*size] and what was written in the buffer. *)
Definition sqfs_readlink (fs : sqfs) (inode : sqfs_inode) (buf : option Z) : m (Z * list byte) :=
  if negb (S_ISLNK (mode inode)) then fm_fail SQFS_ERR
  else
    want ← fm_lift (get_symlink_size inode);
    match buf with
    | None => mret (u64 (want + 1), [])
    | Some size =>
        let want := if u64 (size - 1) <? want then u64 (size - 1) else want in
        if size <=? want then fm_lift (Crash MemFault)  (* buf[want] *)
        else
          '(_, bs) ← sqfs_md_read fs inode.(next) true want;
          mret (size, bs ++ [x00])
    end.

Definition sqfs_export_ok (fs : sqfs) : bool :=
  negb (s64 fs.(sb).(sb_lookup_table_start) =? SQUASHFS_INVALID_BLK).

Definition sqfs_export_inode (fs : sqfs) (n : Z) : m Z :=
  if negb (sqfs_export_ok fs) then fm_fail SQFS_UNSUP
  else
    bs ← sqfs_table_get fs.(export_table) fs (u32 (n - 1));
    mret (sqfs_swapin64 bs).

Definition sqfs_inode_root (fs : sqfs) : Z := fs.(sb).(sb_root_inode).
End inode.

(** ** Inodes as the archive holds them *)
Inductive disk_inode :=
  | DReg (x : squashfs_reg_inode)
  | DLreg (x : squashfs_lreg_inode)
  | DDir (x : squashfs_dir_inode)
  | DLdir (x : squashfs_ldir_inode)
  | DSymlink (x : squashfs_symlink_inode)
  | DLsymlink (x : squashfs_symlink_inode) (target : list byte) (xattr : Z)
  | DDev (x : squashfs_dev_inode)
  | DLdev (x : squashfs_ldev_inode)
  | DIpc (x : squashfs_ipc_inode)
  | DLipc (x : squashfs_lipc_inode).

Definition disk_base (d : disk_inode) : squashfs_base_inode :=
  match d with
  | DReg x => x.(reg_base) | DLreg x => x.(lreg_base)
  | DDir x => x.(dir_base) | DLdir x => x.(ldir_base)
  | DSymlink x => x.(sym_base) | DLsymlink x _ _ => x.(sym_base)
  | DDev x => x.(dev_base) | DLdev x => x.(ldev_base)
  | DIpc x => x.(ipc_base) | DLipc x => x.(lipc_base)
  end.

(** The types under which each structure is stored. *)
Definition disk_types (d : disk_inode) : list Z :=
  match d with
  | DReg _ => [SQUASHFS_REG_TYPE] | DLreg _ => [SQUASHFS_LREG_TYPE]
  | DDir _ => [SQUASHFS_DIR_TYPE] | DLdir _ => [SQUASHFS_LDIR_TYPE]
  | DSymlink _ => [SQUASHFS_SYMLINK_TYPE] | DLsymlink _ _ _ => [SQUASHFS_LSYMLINK_TYPE]
  | DDev _ => [SQUASHFS_BLKDEV_TYPE; SQUASHFS_CHRDEV_TYPE]
  | DLdev _ => [SQUASHFS_LBLKDEV_TYPE; SQUASHFS_LCHRDEV_TYPE]
  | DIpc _ => [SQUASHFS_SOCKET_TYPE; SQUASHFS_FIFO_TYPE]
  | DLipc _ => [SQUASHFS_LSOCKET_TYPE; SQUASHFS_LFIFO_TYPE]
  end.

Definition fits {A} `{OnDisk A} (a : A) : Prop := fields_fit (layout A) (to_fields a).

Definition disk_fits (d : disk_inode) : Prop :=
  match d with
  | DReg x => fits x | DLreg x => fits x
  | DDir x => fits x | DLdir x => fits x
  | DSymlink x => fits x
  | DLsymlink x target xattr => fits x /\
      len target = x.(sym_symlink_size) /\ 0 <= xattr < 2 ^ 32
  | DDev x => fits x | DLdev x => fits x
  | DIpc x => fits x | DLipc x => fits x
  end.

Definition disk_struct (d : disk_inode) : list byte :=
  match d with
  | DReg x => to_disk x | DLreg x => to_disk x | DDir x => to_disk x | DLdir x => to_disk x
  | DSymlink x => to_disk x | DLsymlink x _ _ => to_disk x
  | DDev x => to_disk x | DLdev x => to_disk x | DIpc x => to_disk x | DLipc x => to_disk x
  end.
Definition disk_rest (d : disk_inode) : list byte :=
  match d with DLsymlink _ target xattr => target ++ le_encode 4 xattr | _ => [] end.
Definition disk_bytes (d : disk_inode) : list byte := disk_struct d ++ disk_rest d.

(** The file type an inode of the archive stands for, as the bits of a mode. *)
Definition disk_mode_bits (d : disk_inode) : Z :=
  let t := (disk_base d).(bi_inode_type) in
  match d with
  | DReg _ | DLreg _ => S_IFREG
  | DDir _ | DLdir _ => S_IFDIR
  | DSymlink _ | DLsymlink _ _ _ => S_IFLNK
  | DDev _ | DLdev _ =>
      if (t =? SQUASHFS_BLKDEV_TYPE) || (t =? SQUASHFS_LBLKDEV_TYPE) then S_IFBLK else S_IFCHR
  | DIpc _ | DLipc _ =>
      if (t =? SQUASHFS_SOCKET_TYPE) || (t =? SQUASHFS_LSOCKET_TYPE) then S_IFSOCK else S_IFIFO
  end.

(** A device number of the archive packs 8 low bits of the minor number, 12 bits of
    the major number and the 12 high bits of the minor number, from the low end. *)
Definition dev_major (rdev : Z) : Z := (rdev / 2 ^ 8) mod 2 ^ 12.
Definition dev_minor (rdev : Z) : Z := rdev mod 2 ^ 8 + 2 ^ 8 * (rdev / 2 ^ 20).

(** What [sqfs_inode_get] is to make of it; [next] is the place after the
    structure. *)
Definition decode_inode (d : disk_inode) (next : sqfs_md_cursor) : sqfs_inode :=
  let b := disk_base d in
  let b := with_mode b (u16 (b.(bi_mode) ||| disk_mode_bits d)) in
  let none := SQUASHFS_INVALID_XATTR in
  match d with
  | DReg x => mk_inode b 1 none next (XtraReg
      (mk_xreg x.(reg_start_block) x.(reg_file_size) x.(reg_fragment) x.(reg_offset)))
  | DLreg x => mk_inode b (s32 x.(lreg_nlink)) x.(lreg_xattr) next (XtraReg
      (mk_xreg x.(lreg_start_block) x.(lreg_file_size) x.(lreg_fragment) x.(lreg_offset)))
  | DDir x => mk_inode b (s32 x.(dir_nlink)) none next (XtraDir
      (mk_xdir x.(dir_start_block) x.(dir_offset) x.(dir_file_size) 0 x.(dir_parent_inode)))
  | DLdir x => mk_inode b (s32 x.(ldir_nlink)) x.(ldir_xattr) next (XtraDir
      (mk_xdir x.(ldir_start_block) x.(ldir_offset) x.(ldir_file_size) x.(ldir_i_count)
         x.(ldir_parent_inode)))
  | DSymlink x => mk_inode b (s32 x.(sym_nlink)) none next (XtraSymlink x.(sym_symlink_size))
  | DLsymlink x _ xattr =>
      mk_inode b (s32 x.(sym_nlink)) xattr next (XtraSymlink x.(sym_symlink_size))
  | DDev x => mk_inode b (s32 x.(dev_nlink)) none next
      (XtraDev (dev_major x.(dev_rdev)) (dev_minor x.(dev_rdev)))
  | DLdev x => mk_inode b (s32 x.(ldev_nlink)) x.(ldev_xattr) next
      (XtraDev (dev_major x.(ldev_rdev)) (dev_minor x.(ldev_rdev)))
  | DIpc x => mk_inode b (s32 x.(ipc_nlink)) none next XtraZero
  | DLipc x => mk_inode b (s32 x.(lipc_nlink)) x.(lipc_xattr) next XtraZero
  end.

Lemma disk_mode_spec d :
  (disk_base d).(bi_inode_type) ∈ disk_types d ->
  disk_mode_bits d = sqfs_mode (disk_base d).(bi_inode_type).
Proof.
  unfold disk_mode_bits. intros Ht. destruct d; cbn [disk_base disk_types] in *;
    repeat (apply elem_of_cons in Ht as [Ht|Ht]); try (by apply not_elem_of_nil in Ht);
    rewrite Ht; reflexivity.
Qed.

Lemma decode_dev_spec rdev :
  0 <= rdev < 2 ^ 32 -> sqfs_decode_dev rdev = XtraDev (dev_major rdev) (dev_minor rdev).
Proof.
  intros H. unfold sqfs_decode_dev, dev_major, dev_minor. f_equal.
  - change 0xfff with (Z.ones 12). by rewrite Z.land_ones, Z.shiftr_div_pow2.
  - assert ((Z.shiftr rdev 12 &&& 0xfff00) = Z.shiftl (rdev / 2 ^ 20) 8) as ->.
    { change 0xfff00 with (Z.shiftl (Z.ones 12) 8). rewrite <- (Z.mod_small rdev (2 ^ 32)) by done.
      rewrite <- Z.shiftr_div_pow2, <- Z.land_ones by done. apply Z.bits_inj'. intros i Hi.
      rewrite Z.land_spec, !Z.shiftl_spec, Z.shiftr_spec, Z.land_spec by lia.
      destruct (Z.ltb_spec i 8); [by rewrite !(Z.testbit_neg_r _ (i - 8)), andb_false_r by lia|].
      rewrite Z.shiftr_spec, Z.land_spec, !Z.testbit_ones_nonneg by lia.
      replace (i - 8 + 20) with (i + 12) by lia.
      destruct (Z.testbit rdev (i + 12)); [|done]. cbn [andb].
      destruct (Z.ltb_spec (i + 12) 32), (Z.ltb_spec (i - 8) 12); lia || done. }
    change 0xff with (Z.ones 8). rewrite (Z.mul_comm (2 ^ 8)), <- Z.shiftl_mul_pow2, Z.land_ones by done.
    pose proof (Z.add_lor_land (rdev mod 2 ^ 8) (Z.shiftl (rdev / 2 ^ 20) 8)) as E.
    assert ((rdev mod 2 ^ 8 &&& Z.shiftl (rdev / 2 ^ 20) 8) = 0) as Hz; [|lia].
    rewrite <- Z.land_ones by done. apply Z.bits_inj'. intros i Hi.
    rewrite !Z.land_spec, Z.shiftl_spec, Z.bits_0 by lia. rewrite Z.testbit_ones_nonneg by lia.
    destruct (Z.ltb_spec i 8); [|by rewrite andb_false_r].
    by rewrite (Z.testbit_neg_r _ (i - 8)), andb_false_r by lia.
Qed.

Lemma struct_base (A : Type) `{OnDisk A} (a : A) (b : squashfs_base_inode) ws vs :
  layout A = base_layout ++ ws -> to_fields a = base_fields b ++ vs ->
  fields_fit (layout A) (to_fields a) ->
  fields_fit (layout squashfs_base_inode) (to_fields b) /\
  exists rest, to_disk a = to_disk b ++ rest.
Proof.
  intros Hl Hv Hf. unfold to_disk. rewrite Hl, Hv in *. split.
  - unfold fields_fit in *. apply Forall2_app_inv in Hf; [apply Hf|done].
  - eexists. by rewrite write_fields_app.
Qed.

Lemma disk_base_spec d :
  disk_fits d ->
  fields_fit (layout squashfs_base_inode) (to_fields (disk_base d)) /\
  exists rest, disk_struct d = to_disk (disk_base d) ++ rest.
Proof.
  destruct d; cbn [disk_fits disk_base disk_struct]; intros Hf;
    try match type of Hf with _ /\ _ => destruct Hf as [Hf _] end;
    eapply struct_base; try exact Hf; reflexivity.
Qed.

Section decoding.
Context (fs : sqfs) (Hfs : fs_ok fs).

Lemma md_struct_read (A : Type) `{OnDisk A} (a : A) cur cur' rest :
  fields_fit (layout A) (to_fields a) ->
  in_size (cur.(cur_offset) + len (to_disk a ++ rest)) -> in_size cur.(cur_offset) ->
  sqfs_md_read (m := O) fs cur true (len (to_disk a ++ rest)) = Ret (Success (cur', to_disk a ++ rest)) ->
  exists next, md_struct (m := O) A fs cur = Ret (Success (next, a)) /\
    0 <= next.(cur_offset) <= cur.(cur_offset) + disk_size A /\
    sqfs_md_read (m := O) fs cur true (disk_size A) = Ret (Success (next, to_disk a)) /\
    sqfs_md_read (m := O) fs next true (len rest) = Ret (Success (cur', rest)).
Proof.
  intros Hf Hs Ho E. rewrite length_app, Nat2Z.inj_add in *. unfold in_size in *.
  apply md_read_prefix in E as (next & E1 & Hc & E2); unfold in_size; try lia; [|done].
  rewrite to_disk_length in * by done. exists next. split; [|done].
  unfold md_struct. rewrite E1. run_m. by rewrite swapin_to_disk.
Qed.

(** The part of an inode [d] that is read, at the cursor of its id. *)
Definition inode_at (id : Z) (d : disk_inode) : Prop :=
  let cur := sqfs_md_cursor_inode id fs.(sb).(sb_inode_table_start) in
  exists cur', sqfs_md_read (m := O) fs cur true (len (disk_bytes d))
               = Ret (Success (cur', disk_bytes d)).

Lemma cursor_inode_offset id base : 0 <= (sqfs_md_cursor_inode id base).(cur_offset) < 65536.
Proof.
  cbn. change 0xffff with (2 ^ 16 - 1). rewrite land_ones_wrap by done. by apply wrap_range.
Qed.

Lemma xattr_read next x target xattr cur' :
  len target = x.(sym_symlink_size) -> 0 <= xattr < 2 ^ 32 ->
  in_size (next.(cur_offset) + (len target + 4)) -> in_size next.(cur_offset) ->
  sqfs_md_read (m := O) fs next true (len (target ++ le_encode 4 xattr)) =
    Ret (Success (cur', target ++ le_encode 4 xattr)) ->
  ('(cur, _) ← sqfs_md_read (m := O) fs next false x.(sym_symlink_size);
   '(_, bs) ← sqfs_md_read fs cur true 4;
   mret (sqfs_swapin32 bs)) = Ret (Success xattr).
Proof.
  intros Hlen Hx Hs Ho E. rewrite length_app, Nat2Z.inj_add in E. unfold in_size in *.
  apply md_read_prefix in E as (c & E1 & Hc & E2); unfold in_size; cbn [length] in *;
    rewrite ?le_encode_length in *; try lia; [|done].
  apply md_read_end in E1 as (_ & E1 & _); unfold in_size; try lia; [|done].
  change (Z.of_nat 4) with 4 in E2. rewrite <- Hlen, E1. run_m. rewrite E2. unfold sqfs_swapin32.
  rewrite sqfs_swapin_le, le_decode_encode by (rewrite le_encode_length; lia).
  by rewrite Z.mod_small.
Qed.

Lemma base_read id d :
  inode_at id d -> disk_fits d -> in_size (65536 + len (disk_bytes d)) ->
  exists cur, md_struct (m := O) squashfs_base_inode fs
    (sqfs_md_cursor_inode id fs.(sb).(sb_inode_table_start)) = Ret (Success (cur, disk_base d)).
Proof.
  intros [cur' E] Hf Hs. destruct (disk_base_spec d Hf) as [Hb [rest Hr]].
  unfold disk_bytes in *. rewrite Hr, <- app_assoc in E, Hs.
  pose proof (cursor_inode_offset id (sb_inode_table_start (sb fs))) as Ho.
  apply md_struct_read in E as (next & E & _); unfold in_size in *; try lia; [|done].
  by exists next.
Qed.

Lemma struct_read (A : Type) `{OnDisk A} id d (a : A) :
  inode_at id d -> disk_fits d -> in_size (65536 + len (disk_bytes d)) ->
  disk_struct d = to_disk a -> fits a ->
  let cur := sqfs_md_cursor_inode id fs.(sb).(sb_inode_table_start) in
  exists next cur', md_struct (m := O) A fs cur = Ret (Success (next, a)) /\
    0 <= next.(cur_offset) <= 65536 + disk_size A /\
    sqfs_md_read (m := O) fs cur true (len (disk_struct d)) = Ret (Success (next, disk_struct d)) /\
    sqfs_md_read (m := O) fs next true (len (disk_rest d)) = Ret (Success (cur', disk_rest d)).
Proof.
  intros [cur' E] Hf Hs Hd Ha cur.
  pose proof (cursor_inode_offset id (sb_inode_table_start (sb fs))) as Ho. fold cur in Ho, E.
  unfold disk_bytes in *. rewrite Hd in *.
  apply md_struct_read in E as (next & E & Hc & En & Er); unfold in_size in *; try lia; [|done].
  exists next, cur'. rewrite to_disk_length by done. split; [done|]. split; [lia|done].
Qed.

Lemma dev_fits (x : squashfs_dev_inode) : fits x -> 0 <= x.(dev_rdev) < 2 ^ 32.
Proof.
  intros Hf. unfold fits, fields_fit in Hf. cbn in Hf. rewrite ?Forall2_cons in Hf. tauto.
Qed.
Lemma ldev_fits (x : squashfs_ldev_inode) : fits x -> 0 <= x.(ldev_rdev) < 2 ^ 32.
Proof.
  intros Hf. unfold fits, fields_fit in Hf. cbn in Hf. rewrite ?Forall2_cons in Hf. tauto.
Qed.

Lemma decode_ref id d :
  inode_at id d -> disk_fits d -> in_size (65536 + len (disk_bytes d)) ->
  (disk_base d).(bi_inode_type) ∈ disk_types d ->
  exists next, sqfs_inode_get (m := O) fs id = Ret (Success (decode_inode d next)) /\
    sqfs_md_read (m := O) fs (sqfs_md_cursor_inode id fs.(sb).(sb_inode_table_start)) true
      (len (disk_struct d)) = Ret (Success (next, disk_struct d)).
Proof.
  intros Hat Hf Hs Ht. destruct (base_read id d Hat Hf Hs) as [cur Eb].
  unfold sqfs_inode_get, decode_inode. rewrite Eb, (disk_mode_spec d Ht). run_m.
  destruct d; cbn [disk_base disk_types] in *;
    repeat (apply elem_of_cons in Ht as [Ht|Ht]); try (by apply not_elem_of_nil in Ht);
    rewrite Ht; cbn [Z.eqb Pos.eqb orb];
    match goal with
    | |- context [md_struct ?A _ _] =>
        destruct (struct_read A id _ x Hat Hf Hs eq_refl) as (next & cur' & E & Hc & En & Er);
        [try exact Hf; exact (proj1 Hf)|]
    end; rewrite E; run_m;
    try (exists next; split; [|exact En];
         first [reflexivity|rewrite <- (decode_dev_spec _ (dev_fits x Hf)); reflexivity
               |rewrite <- (decode_dev_spec _ (ldev_fits x Hf)); reflexivity]).
  destruct Hf as (Hfx & Hlen & Hx). cbn [disk_rest] in Er. unfold in_size in Hs.
  unfold disk_bytes in Hs. cbn [disk_rest disk_struct] in Hs.
  rewrite !length_app, le_encode_length, !Nat2Z.inj_add, to_disk_length in Hs by done.
  change (disk_size squashfs_symlink_inode) with 24 in Hc, Hs.
  pose proof (xattr_read next x target xattr0 cur' Hlen Hx
    ltac:(unfold in_size; lia) ltac:(unfold in_size; lia) Er) as Hxa. revert Hxa. run_m.
  destruct (sqfs_md_read fs next false _) as [[[c ?]|]|]; try done.
  destruct (sqfs_md_read fs c true 4) as [[[? bs]|]|]; try done. intros [= ->].
  exists next. split; [reflexivity|exact En].
Qed.
End decoding.

(** ** The union is read as it was written *)
Definition union_ok (i : sqfs_inode) : Prop :=
  (S_ISREG (mode i) = true -> exists r, i.(xtra) = XtraReg r) /\
  (S_ISDIR (mode i) = true -> exists d, i.(xtra) = XtraDir d) /\
  (S_ISLNK (mode i) = true -> exists n, i.(xtra) = XtraSymlink n) /\
  (S_ISBLK (mode i) || S_ISCHR (mode i) = true -> exists a b, i.(xtra) = XtraDev a b).

Lemma mode_type m t :
  (m &&& S_IFMT) = 0 -> (u16 (m ||| sqfs_mode t) &&& S_IFMT) = sqfs_mode t.
Proof.
  intros Hm. unfold wrap. rewrite <- Z.land_ones by done.
  rewrite <- Z.land_assoc. change (Z.ones 16 &&& S_IFMT) with S_IFMT.
  rewrite Z.land_lor_distr_l, Hm, Z.lor_0_l. unfold sqfs_mode. by repeat case_match.
Qed.

Section theorems.
Context (fs : sqfs) (Hfs : fs_ok fs).
Context {CI : CacheImpl} {CL : CacheLaws CI} (X : expectations).

Lemma sim_md_struct b (A : Type) `{OnDisk A} cur :
  sim fs X b (md_struct A fs cur) (md_struct A fs cur).
Proof. unfold md_struct. sim_tac. Qed.
Hint Resolve sim_md_struct : sim.

Lemma sim_inode_get b id : sim fs X b (sqfs_inode_get fs id) (sqfs_inode_get fs id).
Proof. unfold sqfs_inode_get. sim_tac. Qed.

Lemma sim_id_get b idx : sim fs X b (sqfs_id_get fs idx) (sqfs_id_get fs idx).
Proof. unfold sqfs_id_get. sim_tac. Qed.

Lemma sim_readlink b inode buf :
  sim fs X b (sqfs_readlink fs inode buf) (sqfs_readlink fs inode buf).
Proof. unfold sqfs_readlink. sim_tac. Qed.

Lemma sim_export_inode b n : sim fs X b (sqfs_export_inode fs n) (sqfs_export_inode fs n).
Proof. unfold sqfs_export_inode. sim_tac. Qed.

(** C4: an inode of any of the fourteen types, laid out at the place its id names
    (across as many metadata blocks as it takes), is decoded field by field: the
    type bits are added to its mode, its device number is split, the attribute
    index of a long symbolic link is found after the target, and the types without
    attributes get the invalid index.  The cursor left in it stands just behind the
    structure, where a target or a list of blocks starts. *)
Theorem sqfs_inode_get_decodes (s : sqfs_state) (id : Z) (d : disk_inode) :
  inv fs X s [] None -> s.(mem) = [] ->
  inode_at fs id d -> disk_fits d -> in_size (65536 + len (disk_bytes d)) ->
  (disk_base d).(bi_inode_type) ∈ disk_types d ->
  exists s' next, inv fs X s' [] None /\
    sqfs_inode_get (m := M) fs id s = Ret (s', Success (decode_inode d next)) /\
    sqfs_md_read (m := O) fs (sqfs_md_cursor_inode id fs.(sb).(sb_inode_table_start)) true
      (len (disk_struct d)) = Ret (Success (next, disk_struct d)).
Proof.
  intros Hi Hm Hat Hf Hs Ht.
  destruct (decode_ref fs Hfs id d Hat Hf Hs Ht) as (next & E & En).
  destruct (sim_exact fs X false _ _ s _ (sim_inode_get false id) Hi Hm E) as (s' & ? & ? & ?).
  by exists s', next.
Qed.

(** C35: when the mode in the archive has no file-type bits of its own, the mode of
    the decoded inode has the bits of its type, and a test of the mode (S_ISREG and
    the like) selects the member of the union that [sqfs_inode_get] filled. *)
Theorem sqfs_inode_get_union (id : Z) (cur : sqfs_md_cursor) (b : squashfs_base_inode)
    (i : sqfs_inode) :
  md_struct (m := O) squashfs_base_inode fs
    (sqfs_md_cursor_inode id fs.(sb).(sb_inode_table_start)) = Ret (Success (cur, b)) ->
  (b.(bi_mode) &&& S_IFMT) = 0 ->
  sqfs_inode_get (m := O) fs id = Ret (Success i) ->
  (mode i &&& S_IFMT) = sqfs_mode b.(bi_inode_type) /\ union_ok i.
Proof.
  intros Eb Hm. unfold sqfs_inode_get. rewrite Eb. run_m.
  pose proof (mode_type _ (bi_inode_type b) Hm) as Hmode. unfold union_ok.
  set (mo := u16 _) in *. unfold S_ISREG, S_ISDIR, S_ISLNK, S_ISBLK, S_ISCHR, mode.
  destruct b as [t m uid gid mt num]. cbn [bi_inode_type with_mode bi_mode bi_uid bi_guid bi_mtime
    bi_inode_number] in *.
  repeat match goal with
  | |- context [if ?x =? ?y then _ else _] => destruct (Z.eqb_spec x y) as [->|?]
  | |- context [if (?x =? ?y) || _ then _ else _] =>
      destruct (Z.eqb_spec x y) as [->|?]; cbn [orb]
  end; try done;
  repeat (case_match; try done); intros [= <-]; cbn [base bi_mode xtra with_mode];
    rewrite Hmode; (split; [done|]); split_and!; intros Hc;
    first [done | by eexists | by do 2 eexists].
Qed.
End theorems.
#[export] Hint Resolve sim_md_struct sim_inode_get sim_id_get sim_readlink sim_export_inode : sim.

Section link_theorems.
Context (fs : sqfs) (Hfs : fs_ok fs).
Context {CI : CacheImpl} {CL : CacheLaws CI} (X : expectations).

Lemma readlink_ref i target cur' buf :
  S_ISLNK (mode i) = true -> i.(xtra) = XtraSymlink (len target) ->
  in_size i.(next).(cur_offset) -> in_size (i.(next).(cur_offset) + len target) ->
  sqfs_md_read (m := O) fs i.(next) true (len target) = Ret (Success (cur', target)) ->
  (forall size, buf = Some size -> 0 < size < 2 ^ 63) ->
  sqfs_readlink (m := O) fs i buf = Ret (Success
    match buf with
    | Some size => (size, take (Z.to_nat (size - 1)) target ++ [x00])
    | None => (len target + 1, [])
    end).
Proof.
  intros Hl Hx Ho Ho' E Hb. unfold in_size in *.
  unfold sqfs_readlink, get_symlink_size. rewrite Hl, Hx. run_m. cbn [negb spec_lift].
  destruct buf as [size|]; [|by rewrite wrap_small by lia]. specialize (Hb size eq_refl).
  rewrite (wrap_small 64 (size - 1)) by lia.
  replace (if size - 1 <? len target then size - 1 else len target)
    with (Z.min (size - 1) (len target)) by (zbool; lia).
  destruct (Z.leb_spec size (Z.min (size - 1) (len target))); [lia|].
  rewrite <- (take_drop (Z.to_nat (size - 1)) target) in E at 1 2.
  rewrite length_app, Nat2Z.inj_add in E.
  assert (len (take (Z.to_nat (size - 1)) target) = Z.min (size - 1) (len target)) as Ht
    by (rewrite length_take; lia).
  pose proof (length_drop target (Z.to_nat (size - 1))) as Hd.
  apply md_read_prefix in E as (c & E & _); unfold in_size; try lia; [|done].
  rewrite Ht in E. by rewrite E.
Qed.

(** [sqfs_readlink] of a link whose target is in the archive puts as much of
    the target as fits in front of a final NUL, and reports the room a whole target
    needs when it gets no buffer. *)
Theorem sqfs_readlink_correct (s : sqfs_state) (i : sqfs_inode) (target : list byte)
    (cur' : sqfs_md_cursor) (size : Z) :
  inv fs X s [] None -> s.(mem) = [] ->
  S_ISLNK (mode i) = true -> i.(xtra) = XtraSymlink (len target) ->
  in_size i.(next).(cur_offset) -> in_size (i.(next).(cur_offset) + len target) ->
  sqfs_md_read (m := O) fs i.(next) true (len target) = Ret (Success (cur', target)) ->
  0 < size < 2 ^ 62 ->
  (exists s', inv fs X s' [] None /\
    sqfs_readlink (m := M) fs i (Some size) s =
    Ret (s', Success (size, take (Z.to_nat (size - 1)) target ++ [x00]))) /\
  (exists s', inv fs X s' [] None /\
    sqfs_readlink (m := M) fs i None s = Ret (s', Success (len target + 1, []))).
Proof.
  intros Hi Hm Hl Hx Ho Ho' E Hsize.
  assert (forall buf, (forall size, buf = Some size -> 0 < size < 2 ^ 63) -> exists s', inv fs X s' [] None /\
    sqfs_readlink (m := M) fs i buf s = Ret (s', Success match buf with
      | Some size => (size, take (Z.to_nat (size - 1)) target ++ [x00])
      | None => (len target + 1, [])
      end)) as H.
  { intros buf Hb. destruct (sim_exact fs X false _ _ s _ (sim_readlink fs X false i buf) Hi Hm
      (readlink_ref i target cur' buf Hl Hx Ho Ho' E Hb)) as (s' & ? & ? & ?). by exists s'. }
  split; [apply (H (Some size)); intros ? [= <-]; lia|by apply (H None)].
Qed.

(** the mode in the archive is combined with the bits of the type by [|=], not
    replaced: a regular file stored with mode bits 0x2000 comes out as a symbolic
    link, and [sqfs_readlink] then takes its length from the wrong union member. *)
Theorem sqfs_inode_mode_confusion (s : sqfs_state) (id : Z) (x : squashfs_reg_inode)
    (buf : option Z) :
  inv fs X s [] None -> s.(mem) = [] ->
  inode_at fs id (DReg x) -> fits x -> in_size (65536 + len (disk_bytes (DReg x))) ->
  x.(reg_base).(bi_inode_type) = SQUASHFS_REG_TYPE ->
  (x.(reg_base).(bi_mode) &&& S_IFMT) = 0x2000 ->
  exists s' i, sqfs_inode_get (m := M) fs id s = Ret (s', Success i) /\
    i.(xtra) = XtraReg (mk_xreg x.(reg_start_block) x.(reg_file_size) x.(reg_fragment)
                          x.(reg_offset)) /\
    S_ISLNK (mode i) = true /\ sqfs_readlink (m := M) fs i buf s' = Crash BadUnion.
Proof.
  intros Hi Hm Hat Hf Hs Ht Hmode.
  destruct (decode_ref fs Hfs id (DReg x) Hat Hf Hs) as (next & E & _);
    [cbn [disk_base disk_types]; rewrite Ht; by left|].
  destruct (sim_exact fs X false _ _ s _ (sim_inode_get fs X false id) Hi Hm E)
    as (s' & Er & _ & _).
  exists s', (decode_inode (DReg x) next). split; [done|]. split; [done|].
  assert (S_ISLNK (mode (decode_inode (DReg x) next)) = true) as Hl.
  { unfold S_ISLNK, mode. cbn [decode_inode base disk_base with_mode bi_mode].
    unfold wrap. rewrite <- Z.land_ones by done.
    rewrite <- Z.land_assoc. change (Z.ones 16 &&& S_IFMT) with S_IFMT.
    by rewrite Z.land_lor_distr_l, Hmode. }
  split; [done|]. unfold sqfs_readlink. rewrite Hl. done.
Qed.
End link_theorems.

(** ** An archive with a long symbolic link and a mistyped file *)
Definition sample_base (t mode num : Z) : squashfs_base_inode :=
  Build_squashfs_base_inode t mode 0 0 1700000000 num.
Definition sample_lsymlink : squashfs_symlink_inode :=
  Build_squashfs_symlink_inode (sample_base SQUASHFS_LSYMLINK_TYPE 0x1ff 7) 1 5.
Definition sample_target : list byte := [x2f; x74; x6d; x70; x31].
Definition sample_bad_reg : squashfs_reg_inode :=
  Build_squashfs_reg_inode (sample_base SQUASHFS_REG_TYPE 0x21ff 8) 96 0 0 4096.
Definition sample_inodes : list byte :=
  let bs := disk_bytes (DLsymlink sample_lsymlink sample_target 3) ++
            disk_bytes (DReg sample_bad_reg) in
  stored_md (take 20 bs) ++ stored_md (drop 20 bs).
Definition sample_inode_fs : sqfs := sample_fs sample_inodes sample_sb.
Lemma sample_inode_fs_ok : fs_ok sample_inode_fs.
Proof. apply sample_fs_ok. vm_compute. congruence. Qed.
Definition sample_lsymlink_disk : disk_inode := DLsymlink sample_lsymlink sample_target 3.
Definition sample_bad_reg_id : Z := Z.shiftl 22 16 + 13.

Lemma sample_lsymlink_fits : disk_fits sample_lsymlink_disk.
Proof. split; [|by split]. repeat constructor; vm_compute; congruence. Qed.
Lemma sample_bad_reg_fits : fits sample_bad_reg.
Proof. repeat constructor; vm_compute; congruence. Qed.
Lemma sample_lsymlink_at : inode_at sample_inode_fs 0 sample_lsymlink_disk.
Proof. eexists. vm_compute. reflexivity. Qed.
Lemma sample_bad_reg_at : inode_at sample_inode_fs sample_bad_reg_id (DReg sample_bad_reg).
Proof. eexists. vm_compute. reflexivity. Qed.

Lemma sqfs_inode_get_decodes_witness :
  exists s' next, inv sample_inode_fs no_expectations s' [] None /\
    sqfs_inode_get (m := M) sample_inode_fs 0 (sample_state []) =
      Ret (s', Success (decode_inode sample_lsymlink_disk next)) /\
    (decode_inode sample_lsymlink_disk next).(xattr) = 3 /\
    mode (decode_inode sample_lsymlink_disk next) = 0xa1ff.
Proof.
  destruct (sqfs_inode_get_decodes sample_inode_fs sample_inode_fs_ok (CL := sample_laws)
    no_expectations (sample_state []) 0 sample_lsymlink_disk (sample_inv _ _ _) eq_refl
    sample_lsymlink_at sample_lsymlink_fits ltac:(vm_compute; intuition congruence)
    ltac:(by left)) as (s' & next & Hi & E & _).
  exists s', next. split; [exact Hi|]. split; [exact E|]. split; reflexivity.
Defined.

Lemma sqfs_inode_get_union_witness :
  exists cur b i, md_struct (m := O) squashfs_base_inode sample_inode_fs (mk_cursor 0 0) =
      Ret (Success (cur, b)) /\
    sqfs_inode_get (m := O) sample_inode_fs 0 = Ret (Success i) /\ union_ok i.
Proof.
  do 3 eexists. split; [vm_compute; reflexivity|]. split; [vm_compute; reflexivity|].
  apply (sqfs_inode_get_union sample_inode_fs 0 (mk_cursor 0 16)
    (sample_base SQUASHFS_LSYMLINK_TYPE 0x1ff 7)); [vm_compute; reflexivity..].
Defined.

Definition sample_link : sqfs_inode :=
  mk_inode (sample_base SQUASHFS_LSYMLINK_TYPE 0xa1ff 7) 1 3 (mk_cursor 22 4) (XtraSymlink 5).

(** The target fits in six bytes; four keep its first three. *)
Lemma sqfs_readlink_correct_witness :
  exists s', sqfs_readlink (m := M) sample_inode_fs sample_link (Some 4) (sample_state []) =
    Ret (s', Success (4, [x2f; x74; x6d; x00])).
Proof.
  destruct (sqfs_readlink_correct sample_inode_fs sample_inode_fs_ok (CL := sample_laws)
    no_expectations (sample_state []) sample_link sample_target (mk_cursor 22 9) 4
    (sample_inv _ _ _) eq_refl eq_refl eq_refl ltac:(vm_compute; intuition congruence)
    ltac:(vm_compute; intuition congruence) ltac:(vm_compute; reflexivity) ltac:(lia))
    as [(s' & _ & E) _].
  exists s'. exact E.
Defined.

Lemma sqfs_inode_mode_confusion_witness :
  exists s' i,
    sqfs_inode_get (m := M) sample_inode_fs sample_bad_reg_id (sample_state []) =
      Ret (s', Success i) /\
    sqfs_readlink (m := M) sample_inode_fs i None s' = Crash BadUnion.
Proof.
  destruct (sqfs_inode_mode_confusion sample_inode_fs sample_inode_fs_ok (CL := sample_laws)
    no_expectations (sample_state []) sample_bad_reg_id sample_bad_reg None (sample_inv _ _ _)
    eq_refl sample_bad_reg_at sample_bad_reg_fits ltac:(vm_compute; intuition congruence)
    eq_refl eq_refl) as (s' & i & E & _ & _ & Hr).
  exists s', i. split; [exact E|exact Hr].
Defined.
