(* ===== verification/Dir.v ===== *)
(** * Dir: directories (dir.c)

    A directory is a run of metadata: headers, each followed by [count] entries.
    An indexed directory also has an index after its inode, with the offset and
    the first name of some of its headers. *)
From Stdlib Require Import Sorting.Sorted.
From S2P Require Import Prelude Swap Cache Decompress FsState Block BlockOk Sample MdRead Table Inode.

Definition SQUASHFS_NAME_LEN : Z := 256.

Record sqfs_dir := mk_dir {
  d_cur : sqfs_md_cursor;
  d_offset : Z;
  d_total : Z;
  d_header : squashfs_dir_header
}.

(** [e_name] is [None] when the entry was initialised without a name buffer. *)
Record sqfs_dir_entry := mk_dentry {
  e_inode : Z;
  e_inode_number : Z;
  e_type : Z;
  e_name : option (list byte);
  e_name_size : Z;
  e_offset : Z;
  e_next_offset : Z
}.

Definition sqfs_dentry_offset (e : sqfs_dir_entry) : Z := e.(e_offset).
Definition sqfs_dentry_next_offset (e : sqfs_dir_entry) : Z := e.(e_next_offset).
Definition sqfs_dentry_type (e : sqfs_dir_entry) : Z := e.(e_type).
Definition sqfs_dentry_mode (e : sqfs_dir_entry) : Z := sqfs_mode (sqfs_dentry_type e).
Definition sqfs_dentry_inode (e : sqfs_dir_entry) : Z := e.(e_inode).
Definition sqfs_dentry_inode_num (e : sqfs_dir_entry) : Z := e.(e_inode_number).
Definition sqfs_dentry_name_size (e : sqfs_dir_entry) : Z := e.(e_name_size).
Definition sqfs_dentry_name (e : sqfs_dir_entry) : option (list byte) := e.(e_name).
Definition sqfs_dentry_is_dir (e : sqfs_dir_entry) : bool := S_ISDIR (sqfs_dentry_mode e).

(** [strncmp] on C strings: past its end a string has its final NUL, and nothing
    is compared after a NUL. *)
Fixpoint strncmp (a b : list byte) (n : nat) : Z :=
  match n with
  | 0%nat => 0
  | S n =>
      let x := match a with x :: _ => byte_val x | [] => 0 end in
      let y := match b with y :: _ => byte_val y | [] => 0 end in
      if negb (x =? y) then x - y
      else if x =? 0 then 0
      else strncmp (tail a) (tail b) n
  end.

Definition with_count (h : squashfs_dir_header) (count : Z) : squashfs_dir_header :=
  Build_squashfs_dir_header count h.(dh_start_block) h.(dh_inode_number).

Section dir.
Context {m : Type -> Type} {FM : FsMonad m}.

Definition sqfs_dir_md_read (fs : sqfs) (dir : sqfs_dir) (buf : bool) (size : Z)
    : m (sqfs_dir * list byte) :=
  let offset := s64 (dir.(d_offset) + size) in
  '(cur, bs) ← sqfs_md_read fs dir.(d_cur) buf size;
  mret (mk_dir cur offset dir.(d_total) dir.(d_header), bs).

(** The loop on the headers; [None] at the end of the directory. *)
Fixpoint next_header (f : fuel) (fs : sqfs) (dir : sqfs_dir) : m (sqfs_dir * bool) :=
  if dir.(d_header).(dh_count) =? 0 then
    if dir.(d_total) <=? dir.(d_offset) then mret (dir, false)
    else
      match f with
      | NoFuel => fm_lift (Crash OutOfFuel)
      | More k =>
          '(dir, bs) ← sqfs_dir_md_read fs dir true (disk_size squashfs_dir_header);
          match swapin_struct bs with
          | None => fm_lift (Crash MemFault)
          | Some h =>
              (* biased by one *)
              let h := with_count h (u32 (h.(dh_count) + 1)) in
              next_header (k tt) fs (mk_dir dir.(d_cur) dir.(d_offset) dir.(d_total) h)
          end
      end
  else mret (dir, true).

(** The second half of [sqfs_dir_next], under a header that has entries left. *)
Definition next_entry (fs : sqfs) (dir : sqfs_dir) (named : bool) (offset : Z)
    : m (sqfs_dir * sqfs_dir_entry) :=
  '(dir, bs) ← sqfs_dir_md_read fs dir true (disk_size squashfs_dir_entry);
  match swapin_struct bs with
  | None => fm_lift (Crash MemFault)
  | Some e =>
      let h := with_count dir.(d_header) (dir.(d_header).(dh_count) - 1) in
      let dir := mk_dir dir.(d_cur) dir.(d_offset) dir.(d_total) h in
      let name_size := e.(de_size) + 1 in
      let inode := u64 (Z.shiftl h.(dh_start_block) 16 + e.(de_offset)) in
      (* e.inode_number is signed *)
      let inode_number := u32 (h.(dh_inode_number) + s16 e.(de_inode_number)) in
      if SQUASHFS_NAME_LEN <? name_size then fm_fail SQFS_ERR
      else
        '(dir, name) ← sqfs_dir_md_read fs dir named name_size;
        mret (dir, mk_dentry inode inode_number e.(de_type)
                     (if named then Some name else None) name_size offset dir.(d_offset))
  end.

(** [named] tells whether the entry has a name buffer; no entry at the end. *)
Definition sqfs_dir_next (fs : sqfs) (dir : sqfs_dir) (named : bool)
    : m (sqfs_dir * option sqfs_dir_entry) :=
  let offset := dir.(d_offset) in
  '(dir, more) ← next_header full_tank fs dir;
  if (more : bool) then
    '(dir, e) ← next_entry fs dir named offset;
    mret (dir, Some e)
  else mret (dir, None).

(** [func] works on the cursor in the index and says whether to stop. *)
Definition sqfs_dir_header_f : Type :=
  sqfs_md_cursor -> squashfs_dir_index -> m (sqfs_md_cursor * bool).

Fixpoint ff_header_loop (count : nat) (fs : sqfs) (cur : sqfs_md_cursor) (dir : sqfs_dir)
    (func : sqfs_dir_header_f) : m sqfs_dir :=
  match count with
  | 0%nat => mret dir
  | S count =>
      '(cur, idx) ← md_struct squashfs_dir_index fs cur;
      '(cur, stop) ← func cur idx;
      if (stop : bool) then mret dir
      else
        let block := s64 (idx.(di_start_block) + fs.(sb).(sb_directory_table_start)) in
        ff_header_loop count fs cur
          (mk_dir (mk_cursor block dir.(d_cur).(cur_offset)) idx.(di_index) dir.(d_total)
             dir.(d_header)) func
  end.

Definition sqfs_dir_ff_header (fs : sqfs) (inode : sqfs_inode) (dir : sqfs_dir)
    (func : sqfs_dir_header_f) : m sqfs_dir :=
  x ← fm_lift (get_dir inode);
  if x.(xd_idx_count) =? 0 then mret dir
  else
    dir ← ff_header_loop (Z.to_nat x.(xd_idx_count)) fs inode.(next) dir func;
    let offset := u64 (dir.(d_cur).(cur_offset) + dir.(d_offset)) mod SQUASHFS_METADATA_SIZE in
    mret (mk_dir (mk_cursor dir.(d_cur).(cur_block) offset) dir.(d_offset) dir.(d_total)
            dir.(d_header)).

Definition sqfs_dir_ff_offset_f (fs : sqfs) (offset : Z) : sqfs_dir_header_f := fun cur idx =>
  if offset <=? idx.(di_index) then mret (cur, true)
  else
    '(cur, _) ← sqfs_md_read fs cur false (u32 (idx.(di_size) + 1));  (* skip name *)
    mret (cur, false).

Fixpoint ff_offset_loop (f : fuel) (fs : sqfs) (dir : sqfs_dir) (offset : Z) : m sqfs_dir :=
  if dir.(d_offset) <? offset then
    match f with
    | NoFuel => fm_lift (Crash OutOfFuel)
    | More k =>
        '(dir, e) ← sqfs_dir_next fs dir false;
        match e with
        | Some _ => ff_offset_loop (k tt) fs dir offset
        | None => mret dir
        end
    end
  else mret dir.

Definition sqfs_dir_ff_offset (fs : sqfs) (inode : sqfs_inode) (dir : sqfs_dir) (offset : Z)
    : m sqfs_dir :=
  dir ← sqfs_dir_ff_header fs inode dir (sqfs_dir_ff_offset_f fs offset);
  dir ← ff_offset_loop full_tank fs dir offset;
  if dir.(d_offset) =? offset then mret dir else fm_fail SQFS_ERR.

Definition sqfs_dir_open (fs : sqfs) (inode : sqfs_inode) (offset : Z) : m sqfs_dir :=
  if negb (S_ISDIR (mode inode)) then fm_fail SQFS_ERR
  else
    x ← fm_lift (get_dir inode);
    let dir := mk_dir
      (mk_cursor (s64 (x.(xd_start_block) + fs.(sb).(sb_directory_table_start))) x.(xd_offset))
      0 (if x.(xd_dir_size) <=? 3 then 0 else x.(xd_dir_size) - 3)
      (Build_squashfs_dir_header 0 0 0) in
    if offset =? 0 then mret dir else sqfs_dir_ff_offset fs inode dir offset.

Definition sqfs_dir_ff_name_f (fs : sqfs) (name : list byte) (cmplen : Z)
    : sqfs_dir_header_f := fun cur idx =>
  let name_size := u32 (idx.(di_size) + 1) in
  if SQUASHFS_NAME_LEN <? name_size then fm_fail SQFS_ERR
  else
    '(cur, nm) ← sqfs_md_read fs cur true name_size;
    let order := strncmp nm name (Z.to_nat cmplen) in
    mret (cur, (0 <? order) || ((order =? 0) && (cmplen <? name_size))).

Fixpoint lookup_loop (f : fuel) (fs : sqfs) (dir : sqfs_dir) (name : list byte) (namelen : Z)
    : m (option sqfs_dir_entry) :=
  match f with
  | NoFuel => fm_lift (Crash OutOfFuel)
  | More k =>
      '(dir, e) ← sqfs_dir_next fs dir true;
      match e with
      | None => mret None
      | Some e =>
          let order := strncmp (default [] (sqfs_dentry_name e)) name (Z.to_nat namelen) in
          if 0 <=? order then
            mret (if (order =? 0) && (sqfs_dentry_name_size e =? namelen) then Some e else None)
          else lookup_loop (k tt) fs dir name namelen
      end
  end.

(** [name] is the C string at the pointer, of which [namelen] bytes count; the
    entry when it is found. *)
Definition sqfs_dir_lookup (fs : sqfs) (inode : sqfs_inode) (name : list byte) (namelen : Z)
    : m (option sqfs_dir_entry) :=
  dir ← sqfs_dir_open fs inode 0;
  dir ← sqfs_dir_ff_header fs inode dir (sqfs_dir_ff_name_f fs name namelen);
  lookup_loop full_tank fs dir name namelen.
End dir.

(** ** Paths *)
Definition slash : byte := x2f.

Fixpoint skip_slashes (path : list byte) : list byte :=
  match path with
  | c :: rest => if bool_decide (c = slash) then skip_slashes rest else path
  | [] => []
  end.

(** Up to the next slash or the end. *)
Fixpoint span_name (path : list byte) : list byte * list byte :=
  match path with
  | [] => ([], [])
  | c :: rest =>
      if bool_decide (c = slash) then ([], path)
      else let (name, rest) := span_name rest in (c :: name, rest)
  end.

Section path.
Context {m : Type -> Type} {FM : FsMonad m}.

(** [*found], the inode as it is left and [*id], which is [None] while nothing was
    stored in it.  Every turn but the last goes past a name. *)
Fixpoint lookup_path_loop (n : nat) (fs : sqfs) (inode : sqfs_inode) (path : list byte)
    (id : option Z) : m (bool * sqfs_inode * option Z) :=
  match path with
  | [] => mret (true, inode, id)
  | _ =>
      let path := skip_slashes path in
      let (name, rest) := span_name path in
      let size := len name in
      if size =? 0 then mret (true, inode, id)  (* we're done *)
      else
        match n with
        | 0%nat => fm_lift (Crash OutOfFuel)
        | S n =>
            e ← sqfs_dir_lookup fs inode path size;
            match e with
            | None => mret (false, inode, id)  (* not found *)
            | Some e =>
                inode ← sqfs_inode_get fs (sqfs_dentry_inode e);
                lookup_path_loop n fs inode rest (Some (sqfs_dentry_inode e))
            end
        end
  end.

Definition sqfs_lookup_path_with_id (fs : sqfs) (inode : sqfs_inode) (path : list byte)
    : m (bool * sqfs_inode * option Z) :=
  lookup_path_loop (length path) fs inode path None.

Definition sqfs_lookup_path (fs : sqfs) (inode : sqfs_inode) (path : list byte)
    : m (bool * sqfs_inode) :=
  '(found, inode, _) ← sqfs_lookup_path_with_id fs inode path;
  mret (found, inode).
End path.

(** ** Transparency *)
Section sims.
Context (fs : sqfs) {CI : CacheImpl} {CL : CacheLaws CI} (X : expectations).

Lemma sim_dir_md_read b dir buf size :
  sim fs X b (sqfs_dir_md_read fs dir buf size) (sqfs_dir_md_read fs dir buf size).
Proof. unfold sqfs_dir_md_read. sim_tac. Qed.
Hint Resolve sim_dir_md_read : sim.

Lemma sim_next_header b f dir : sim fs X b (next_header f fs dir) (next_header f fs dir).
Proof. revert dir. induction f as [|k IH]; intros dir; cbn [next_header]; sim_tac. Qed.
Hint Resolve sim_next_header : sim.

Lemma sim_dir_next b dir named :
  sim fs X b (sqfs_dir_next fs dir named) (sqfs_dir_next fs dir named).
Proof. unfold sqfs_dir_next, next_entry. sim_tac. Qed.
Hint Resolve sim_dir_next : sim.

Lemma sim_ff_header b inode dir func func' :
  (forall cur idx, sim fs X b (func cur idx) (func' cur idx)) ->
  sim fs X b (sqfs_dir_ff_header fs inode dir func) (sqfs_dir_ff_header fs inode dir func').
Proof.
  intros Hf. unfold sqfs_dir_ff_header. apply sim_bind; [sim_tac|]. intros x.
  destruct (_ =? _); [sim_tac|]. apply sim_bind; [|sim_tac].
  generalize inode.(next) dir. induction (Z.to_nat _) as [|n IH]; intros cur dir';
    cbn [ff_header_loop]; sim_tac.
Qed.

Lemma sim_ff_offset b inode dir offset :
  sim fs X b (sqfs_dir_ff_offset fs inode dir offset) (sqfs_dir_ff_offset fs inode dir offset).
Proof.
  unfold sqfs_dir_ff_offset. apply sim_bind.
  - apply sim_ff_header. intros. unfold sqfs_dir_ff_offset_f. sim_tac.
  - intros dir'. apply sim_bind; [|sim_tac].
    revert dir'. induction full_tank as [|k IH]; intros dir'; cbn [ff_offset_loop]; sim_tac.
Qed.
Hint Resolve sim_ff_offset : sim.

Lemma sim_dir_open b inode offset :
  sim fs X b (sqfs_dir_open fs inode offset) (sqfs_dir_open fs inode offset).
Proof. unfold sqfs_dir_open. sim_tac. Qed.
Hint Resolve sim_dir_open : sim.

Lemma sim_dir_lookup b inode name namelen :
  sim fs X b (sqfs_dir_lookup fs inode name namelen) (sqfs_dir_lookup fs inode name namelen).
Proof.
  unfold sqfs_dir_lookup. apply sim_bind; [sim_tac|]. intros dir. apply sim_bind.
  - apply sim_ff_header. intros. unfold sqfs_dir_ff_name_f. sim_tac.
  - induction full_tank as [|k IH]; intros dir'; cbn [lookup_loop]; sim_tac.
Qed.
Hint Resolve sim_dir_lookup : sim.

Lemma sim_lookup_path b inode path :
  sim fs X b (sqfs_lookup_path_with_id fs inode path) (sqfs_lookup_path_with_id fs inode path).
Proof.
  unfold sqfs_lookup_path_with_id. generalize (@None Z) inode.
  assert (forall n path inode id, sim fs X b (lookup_path_loop n fs inode path id)
                                    (lookup_path_loop n fs inode path id)) as H.
  { induction n as [|n IH]; intros p i id; destruct p; cbn [lookup_path_loop]; sim_tac. }
  intros. apply H.
Qed.
End sims.
#[export] Hint Resolve sim_dir_md_read sim_dir_next sim_dir_open sim_dir_lookup
  sim_lookup_path : sim.

(** ** Termination

    Headers are read only below [total], and each brings at most [2^32] entries:
    [dir_measure] goes down at every entry. *)
Definition dir_measure (d : sqfs_dir) : Z :=
  d.(d_header).(dh_count) + 2 ^ 32 * Z.max 0 (d.(d_total) - d.(d_offset)).

(** The ranges of the members; the offset cannot reach the end of its type. *)
Record dir_ok (d : sqfs_dir) : Prop := {
  ok_cur : 0 <= d.(d_cur).(cur_offset) < 65536;
  ok_count : 0 <= d.(d_header).(dh_count) < 2 ^ 32;
  ok_total : 0 <= d.(d_total) < 2 ^ 32;
  ok_offset : 0 <= d.(d_offset);
  ok_room : d.(d_offset) + 264 * d.(d_header).(dh_count) <= 2 ^ 42
}.

Section totality.
Context (fs : sqfs) (Hfs : fs_ok fs).

Lemma dir_md_read_spec d buf size :
  0 <= size <= 65536 -> in_size d.(d_cur).(cur_offset) -> 0 <= d.(d_offset) <= 2 ^ 50 ->
  match sqfs_dir_md_read (m := O) fs d buf size with
  | Crash c => c = MemFault
  | Ret (Failure _) => True
  | Ret (Success (d', bs)) => exists cur,
      d' = mk_dir cur (d.(d_offset) + size) d.(d_total) d.(d_header) /\
      0 <= cur.(cur_offset) <= d.(d_cur).(cur_offset) + size /\
      (buf = true -> 0 < size -> cur.(cur_offset) <= 32768) /\
      len bs = (if buf then size else 0)
  end.
Proof.
  intros Hs Hc Ho. unfold sqfs_dir_md_read. run_m.
  assert (in_size size) as Hs' by (unfold in_size; lia).
  pose proof (md_read_spec_result fs Hfs d.(d_cur) buf size Hs' Hc) as Hr.
  destruct (sqfs_md_read _ _ _ _) as [[[cur bs]|]|] eqn:E; [|done|done].
  exists cur. rewrite swrap_small by lia. split; [done|].
  apply md_read_end in E as H; [|done..]. split; [apply H|]. split; [|done].
  intros -> Hpos. apply md_read_inside in E; [|done..]. lia.
Qed.

Lemma swapin_fits (A : Type) `{OnDisk A} bs (a : A) :
  len bs = disk_size A -> swapin_struct bs = Some a -> fits a.
Proof.
  intros Hl E. unfold fits. rewrite (to_fields_read bs a E). apply read_fields_fit.
  unfold disk_size in Hl. lia.
Qed.

Lemma fits_header (h : squashfs_dir_header) : fits h -> 0 <= h.(dh_count) < 2 ^ 32.
Proof. intros Hf. unfold fits in Hf. cbn in Hf. apply Forall2_cons_1 in Hf as [Hf _]. exact Hf. Qed.

Lemma next_header_total f d :
  dir_ok d -> lasts f (Z.max 0 (d.(d_total) - d.(d_offset)) + 1) ->
  match next_header (m := O) f fs d with
  | Crash c => c = MemFault
  | Ret (Failure _) => True
  | Ret (Success (d', more)) =>
      dir_ok d' /\ d.(d_offset) <= d'.(d_offset) /\ d'.(d_total) = d.(d_total) /\
      if more then 0 < d'.(d_header).(dh_count) /\ dir_measure d' <= dir_measure d
      else d'.(d_total) <= d'.(d_offset)
  end.
Proof.
  revert d. induction f as [|k IH]; intros d Hd Hf; pose proof Hd as [H1 H2 H3 H4 H5];
    (apply lasts_turn in Hf as (k' & Hk & Hf); [|lia]); [done|].
  injection Hk as <-. cbn [next_header]. destruct (Z.eqb_spec (dh_count (d_header d)) 0) as [Hz|Hz].
  2: { cbn. split; [done|]. repeat split; lia. }
  destruct (Z.leb_spec (d_total d) (d_offset d)).
  { cbn. repeat split; done || lia. }
  pose proof (dir_md_read_spec d true (disk_size squashfs_dir_header)) as Hr.
  change (disk_size squashfs_dir_header) with 12 in *. run_m.
  destruct (sqfs_dir_md_read _ _ _ _) as [[[d1 bs]|]|]; [| |apply Hr; unfold in_size; lia];
    [|done].
  destruct Hr as (cur & -> & Hc & Hin & Hlen); [lia|unfold in_size; lia|lia|].
  destruct (swapin_struct_total (A := squashfs_dir_header) bs) as [h Hh]. rewrite Hh.
  pose proof (swapin_fits _ bs h Hlen Hh) as Hfit%fits_header.
  specialize (Hin eq_refl ltac:(lia)). cbn [d_cur d_offset d_total d_header].
  set (d2 := mk_dir cur (d_offset d + 12) (d_total d) (with_count h (u32 (dh_count h + 1)))).
  pose proof (wrap_range 32 (dh_count h + 1) ltac:(lia)) as Hw.
  assert (dir_ok d2) as Hd2 by (split; cbn; lia).
  specialize (IH tt d2 Hd2). unfold d2 in IH at 1 2. cbn [d_total d_offset] in IH.
  specialize (IH ltac:(eapply lasts_le; [|exact Hf]; lia)).
  destruct (next_header (k tt) fs d2) as [[[d' more]|]|]; try done.
  destruct IH as (Hd' & Ho & Ht & Hm). unfold dir_measure in *. cbn in Ho, Ht, Hm.
  repeat split; try apply Hd'; try lia. destruct more; [|done]. lia.
Qed.

Lemma fits_dir_entry (e : squashfs_dir_entry) : fits e -> 0 <= e.(de_size) < 2 ^ 16.
Proof.
  intros Hf. unfold fits in Hf. cbn in Hf. do 3 apply Forall2_cons_1 in Hf as [_ Hf].
  apply Forall2_cons_1 in Hf as [Hf _]. exact Hf.
Qed.

Lemma measure_lasts d : dir_ok d -> lasts full_tank (dir_measure d + 1).
Proof. intros []. apply full_tank_lasts. unfold dir_measure. lia. Qed.

(** One entry: the offsets grow and chain up, the measure goes down. *)
Lemma dir_next_total d named :
  dir_ok d ->
  match sqfs_dir_next (m := O) fs d named with
  | Crash c => c = MemFault
  | Ret (Failure _) => True
  | Ret (Success (d', Some e)) =>
      dir_ok d' /\ dir_measure d' < dir_measure d /\
      e.(e_offset) = d.(d_offset) /\ d.(d_offset) < e.(e_next_offset) /\
      e.(e_next_offset) = d'.(d_offset) /\
      1 <= e.(e_name_size) <= SQUASHFS_NAME_LEN /\
      (if named then exists nm, e.(e_name) = Some nm /\ len nm = e.(e_name_size)
       else e.(e_name) = None)
  | Ret (Success (d', None)) => dir_ok d'
  end.
Proof.
  intros Hd. unfold sqfs_dir_next, next_entry. run_m.
  pose proof (next_header_total full_tank d Hd) as Hn.
  destruct (next_header full_tank fs d) as [[[d1 more]|]|]; [|done|];
    specialize (Hn ltac:(apply full_tank_lasts; destruct Hd; lia)); [|done].
  destruct Hn as (Hd1 & Ho1 & Ht1 & Hm). destruct more; [|done].
  destruct Hm as [Hc Hm]. pose proof Hd1 as [H1 H2 H3 H4 H5].
  pose proof (dir_md_read_spec d1 true (disk_size squashfs_dir_entry)) as Hr.
  change (disk_size squashfs_dir_entry) with 8 in *.
  destruct (sqfs_dir_md_read fs d1 true 8) as [[[d2 bs]|]|]; [|done|apply Hr; unfold in_size; lia].
  destruct Hr as (cur & -> & Hcur & Hin & Hlen); [lia|unfold in_size; lia|lia|].
  destruct (swapin_struct_total (A := squashfs_dir_entry) bs) as [e He]. rewrite He.
  pose proof (swapin_fits _ bs e Hlen He) as Hfit%fits_dir_entry.
  specialize (Hin eq_refl ltac:(lia)). cbn [d_cur d_offset d_total d_header].
  destruct (Z.ltb_spec SQUASHFS_NAME_LEN (de_size e + 1)) as [|Hname]; [done|].
  unfold SQUASHFS_NAME_LEN in *.
  set (d3 := mk_dir cur (d_offset d1 + 8) (d_total d1) _).
  pose proof (dir_md_read_spec d3 named (de_size e + 1)) as Hr.
  cbn [d_cur d_offset d_total d_header d3] in Hr.
  destruct (sqfs_dir_md_read fs d3 named _) as [[[d4 nm]|]|]; [|done|apply Hr; unfold in_size; lia].
  destruct Hr as (cur' & -> & Hcur' & _ & Hlen'); [lia|unfold in_size; lia|lia|].
  unfold dir_measure in *. cbn in *. split; [split; cbn; lia|].
  repeat split; try lia. destruct named; [eauto|done].
Qed.

Lemma lookup_loop_total f d name namelen :
  dir_ok d -> lasts f (dir_measure d + 1) ->
  match lookup_loop (m := O) f fs d name namelen with Crash c => c = MemFault | Ret _ => True end.
Proof.
  revert d. induction f as [|k IH]; intros d Hd Hf;
    (apply lasts_turn in Hf as (k' & Hk & Hf); [|unfold dir_measure; destruct Hd; lia]); [done|].
  injection Hk as <-. cbn [lookup_loop]. run_m.
  pose proof (dir_next_total d true Hd) as Hn.
  destruct (sqfs_dir_next fs d true) as [[[d' [e|]]|]|]; try done.
  destruct Hn as (Hd' & Hm & _). destruct (0 <=? _); [done|]. apply IH; [done|].
  eapply lasts_le; [|exact Hf]. lia.
Qed.

Lemma ff_offset_loop_total f d offset :
  dir_ok d -> lasts f (dir_measure d + 1) ->
  match ff_offset_loop (m := O) f fs d offset with
  | Crash c => c = MemFault
  | Ret (Failure _) => True
  | Ret (Success d') => dir_ok d'
  end.
Proof.
  revert d. induction f as [|k IH]; intros d Hd Hf;
    (apply lasts_turn in Hf as (k' & Hk & Hf); [|unfold dir_measure; destruct Hd; lia]); [done|].
  injection Hk as <-. cbn [ff_offset_loop]. destruct (_ <? _); [|done]. run_m.
  pose proof (dir_next_total d false Hd) as Hn.
  destruct (sqfs_dir_next fs d false) as [[[d' [e|]]|]|]; try done.
  destruct Hn as (Hd' & Hm & _). apply IH; [done|]. eapply lasts_le; [|exact Hf]. lia.
Qed.

(** The inodes [sqfs_inode_get] gives. *)
Definition inode_ranges (i : sqfs_inode) : Prop :=
  0 <= i.(next).(cur_offset) < 2 ^ 40 /\
  match i.(xtra) with
  | XtraDir x => 0 <= x.(xd_offset) < 65536 /\ 0 <= x.(xd_dir_size) < 2 ^ 32 /\
                 0 <= x.(xd_idx_count) < 65536
  | XtraReg x => 0 <= x.(xr_file_size) < 2 ^ 64
  | XtraSymlink n => 0 <= n < 2 ^ 32
  | _ => True
  end.

Lemma md_struct_total (A : Type) `{OnDisk A} cur :
  0 < disk_size A <= 65536 -> in_size cur.(cur_offset) ->
  match md_struct (m := O) A fs cur with
  | Crash c => c = MemFault
  | Ret (Failure _) => True
  | Ret (Success (cur', a)) => 0 <= cur'.(cur_offset) <= 32768 /\ fits a
  end.
Proof.
  intros Hs Hc. unfold md_struct. run_m. assert (in_size (disk_size A)) by (unfold in_size; lia).
  pose proof (md_read_spec_result fs Hfs cur true (disk_size A) ltac:(done) Hc) as Hr.
  destruct (sqfs_md_read _ _ _ _) as [[[cur' bs]|]|] eqn:E; [|done|done].
  destruct (swapin_struct_total (A := A) bs) as [a Ha]. rewrite Ha.
  split; [eapply md_read_inside, E; (done || lia)|]. by eapply swapin_fits.
Qed.

(** A mode with a type bit that directories do not have. *)
Lemma not_dir_mode m t b :
  Z.testbit (sqfs_mode t) b = true -> 0 <= b < 16 -> Z.testbit S_IFMT b = true ->
  Z.testbit S_IFDIR b = false -> ((u16 (m ||| sqfs_mode t) &&& S_IFMT) =? S_IFDIR) = false.
Proof.
  intros Ht Hb Hm Hd. apply Z.eqb_neq. intros E. apply (f_equal (fun z => Z.testbit z b)) in E.
  rewrite Z.land_spec, Hm, Hd, andb_true_r in E. unfold wrap in E.
  rewrite Z.mod_pow2_bits_low, Z.lor_spec, Ht, orb_true_r in E by lia. done.
Qed.

Lemma dir_mode_type m t :
  ((u16 (m ||| sqfs_mode t) &&& S_IFMT) =? S_IFDIR) = true ->
  sqfs_mode t = S_IFDIR \/ sqfs_mode t = 0.
Proof.
  intros H. destruct (Z.testbit (sqfs_mode t) 15) eqn:H15; [by rewrite (not_dir_mode _ _ 15) in H|].
  destruct (Z.testbit (sqfs_mode t) 13) eqn:H13; [by rewrite (not_dir_mode _ _ 13) in H|].
  destruct (Z.testbit (sqfs_mode t) 12) eqn:H12; [by rewrite (not_dir_mode _ _ 12) in H|].
  unfold sqfs_mode in *. repeat case_match; auto; done.
Qed.

(** The attribute index behind the target of a long link. *)
Lemma link_xattr_total nx size :
  0 <= nx.(cur_offset) <= 32768 -> 0 <= size < 2 ^ 32 ->
  match ('(cur, _) ← sqfs_md_read (m := O) fs nx false size;
         '(_, bs) ← sqfs_md_read fs cur true 4;
         mret (sqfs_swapin32 bs)) with
  | Crash c => c = MemFault
  | Ret _ => True
  end.
Proof.
  intros Hn Hs. run_m.
  pose proof (md_read_spec_result fs Hfs nx false size ltac:(unfold in_size; lia)
    ltac:(unfold in_size; lia)) as H1.
  destruct (sqfs_md_read fs nx false size) as [[[c1 ?]|]|] eqn:E; [|done..].
  apply md_read_end in E as (Hc & _); unfold in_size in *; try lia; [|done].
  pose proof (md_read_spec_result fs Hfs c1 true 4 ltac:(unfold in_size; lia)
    ltac:(unfold in_size; lia)) as H2.
  by destruct (sqfs_md_read fs c1 true 4) as [[[? ?]|]|].
Qed.

(** [sqfs_inode_get] on any archive; what has the mode of a directory is one. *)
Lemma inode_get_total id :
  match sqfs_inode_get (m := O) fs id with
  | Crash c => c = MemFault
  | Ret (Failure _) => True
  | Ret (Success i) =>
      inode_ranges i /\ (S_ISDIR (mode i) = true -> exists x, i.(xtra) = XtraDir x)
  end.
Proof.
  unfold sqfs_inode_get. set (cur := sqfs_md_cursor_inode _ _).
  assert (in_size cur.(cur_offset)) as Hcur
    by (unfold cur, in_size; pose proof (cursor_inode_offset id fs.(sb).(sb_inode_table_start)); lia).
  run_m. pose proof (md_struct_total squashfs_base_inode cur ltac:(done) Hcur) as Hb.
  destruct (md_struct squashfs_base_inode fs cur) as [[[c0 b]|]|]; [|done..]. clear Hb.
  unfold inode_ranges, S_ISDIR, mode. set (t := bi_inode_type b).
  repeat (match goal with
  | |- context [if ?x =? ?y then _ else _] => destruct (Z.eqb_spec x y) as [Ht|?]
  | |- context [if (?x =? ?y) || _ then _ else _] =>
      destruct (Z.eqb_spec x y) as [Ht|?]; cbn [orb]
  end; try (rewrite Ht));
  try (match goal with
  | |- context [md_struct ?A fs cur] =>
      pose proof (md_struct_total A cur ltac:(done) Hcur) as Hx;
      destruct (md_struct A fs cur) as [[[nx x]|]|]; [|done..]; destruct Hx as [Hn Hf]
  end);
  try (match type of Hf with fits _ => unfold fits, fields_fit in Hf; cbn in Hf; rewrite ?Forall2_cons in Hf;
    decompose [and] Hf end).
  all: try exact I; rewrite ?orb_true_r; cbv iota.
  all: try (match goal with
  | |- context [sqfs_md_read fs ?n false ?k] =>
      pose proof (link_xattr_total n k ltac:(lia) ltac:(lia)) as Hl; revert Hl; run_m;
      destruct (sqfs_md_read fs n false k) as [[[c1 ?]|]|]; [|done..];
      destruct (sqfs_md_read fs c1 true 4) as [[[? ?]|]|]; [|done..]; intros _
  end); cbn [base bi_mode with_mode next xtra xd_offset xd_dir_size xd_idx_count xr_file_size sqfs_decode_dev];
    (split; [split; [lia|first [exact I | lia]]|]); intros Hmode;
    first [by eexists|apply dir_mode_type in Hmode as [Hmode|Hmode]; discriminate Hmode].
Qed.

(** What [sqfs_dir_ff_header] needs of the function it calls. *)
Definition func_total (func : sqfs_dir_header_f (m := O)) : Prop :=
  forall cur idx, 0 <= cur.(cur_offset) <= 32768 ->
  match func cur idx with
  | Crash c => c = MemFault
  | Ret (Failure _) => True
  | Ret (Success (cur', _)) => in_size cur'.(cur_offset)
  end.

Lemma ff_offset_f_total offset : func_total (sqfs_dir_ff_offset_f fs offset).
Proof.
  intros cur idx Hc. unfold sqfs_dir_ff_offset_f, in_size. destruct (_ <=? _); [cbn; lia|]. run_m.
  pose proof (wrap_range 32 (di_size idx + 1) ltac:(lia)) as Hw.
  pose proof (md_read_spec_result fs Hfs cur false (u32 (di_size idx + 1))
    ltac:(unfold in_size; lia) ltac:(unfold in_size; lia)) as Hr.
  destruct (sqfs_md_read _ _ _ _) as [[[cur' bs]|]|] eqn:E; [|done|done].
  apply md_read_end in E; unfold in_size in *; try lia. done.
Qed.

Lemma ff_name_f_total name namelen : func_total (sqfs_dir_ff_name_f fs name namelen).
Proof.
  intros cur idx Hc. unfold sqfs_dir_ff_name_f, in_size. destruct (_ <? _); [done|]. run_m.
  pose proof (wrap_range 32 (di_size idx + 1) ltac:(lia)) as Hw.
  pose proof (md_read_spec_result fs Hfs cur true (u32 (di_size idx + 1))
    ltac:(unfold in_size; lia) ltac:(unfold in_size; lia)) as Hr.
  destruct (sqfs_md_read _ _ _ _) as [[[cur' bs]|]|] eqn:E; [|done|done].
  apply md_read_end in E; unfold in_size in *; try lia. done.
Qed.

(** The directory of an inode that has one, before and after the headers are
    skipped. *)
Definition dir_start (d : sqfs_dir) : Prop :=
  0 <= d.(d_cur).(cur_offset) < 65536 /\ d.(d_header).(dh_count) = 0 /\
  0 <= d.(d_total) < 2 ^ 32 /\ 0 <= d.(d_offset) < 2 ^ 32.

Lemma dir_start_ok d : dir_start d -> dir_ok d.
Proof. intros (? & ? & ? & ?). split; lia. Qed.

Lemma fits_index (x : squashfs_dir_index) : fits x -> 0 <= x.(di_index) < 2 ^ 32.
Proof. intros Hf. unfold fits in Hf. cbn in Hf. apply Forall2_cons_1 in Hf as [Hf _]. exact Hf. Qed.

Lemma ff_header_loop_total n cur d func :
  func_total func -> in_size cur.(cur_offset) -> dir_start d ->
  match ff_header_loop (m := O) n fs cur d func with
  | Crash c => c = MemFault
  | Ret (Failure _) => True
  | Ret (Success d') => dir_start d'
  end.
Proof.
  intros Hfunc. revert cur d. induction n as [|n IH]; intros cur d Hc Hd; cbn [ff_header_loop];
    [done|]. run_m.
  pose proof (md_struct_total squashfs_dir_index cur ltac:(done) Hc) as Hs.
  destruct (md_struct _ _ _) as [[[cur1 idx]|]|]; [|done|done]. destruct Hs as [Hc1 Hi%fits_index].
  pose proof (Hfunc cur1 idx Hc1) as Hs2.
  destruct (func cur1 idx) as [[[cur2 stop]|]|]; [|done|done].
  destruct stop; [done|]. apply IH; [done|].
  destruct Hd as (? & ? & ? & ?). unfold dir_start. cbn. lia.
Qed.

Lemma ff_header_total inode d func x :
  func_total func -> inode.(xtra) = XtraDir x -> inode_ranges inode -> dir_start d ->
  match sqfs_dir_ff_header (m := O) fs inode d func with
  | Crash c => c = MemFault
  | Ret (Failure _) => True
  | Ret (Success d') => dir_start d'
  end.
Proof.
  intros Hfunc Hx [Hn Hr] Hd. unfold sqfs_dir_ff_header, get_dir. rewrite Hx in *.
  run_m. cbn [spec_lift]. destruct (_ =? _); [done|].
  pose proof (ff_header_loop_total (Z.to_nat (xd_idx_count x)) (next inode) d func Hfunc
    ltac:(unfold in_size; lia) Hd) as Hl.
  destruct (ff_header_loop _ _ _ _ _) as [[d'|]|]; [|done|done].
  destruct Hl as (? & ? & ? & ?). unfold dir_start. cbn.
  pose proof (Z.mod_pos_bound (u64 (cur_offset (d_cur d') + d_offset d')) SQUASHFS_METADATA_SIZE
    ltac:(done)) as Hm. unfold SQUASHFS_METADATA_SIZE in *. lia.
Qed.

Lemma dir_open_total inode offset x :
  inode.(xtra) = XtraDir x -> inode_ranges inode ->
  match sqfs_dir_open (m := O) fs inode offset with
  | Crash c => c = MemFault
  | Ret (Failure _) => True
  | Ret (Success d) => dir_ok d /\ (offset = 0 -> dir_start d)
  end.
Proof.
  intros Hx Hi. pose proof Hi as [Hn Hr]. unfold sqfs_dir_open, get_dir.
  destruct (negb _); [done|]. rewrite Hx in *. run_m. cbn [spec_lift].
  set (d := mk_dir _ _ _ _).
  assert (dir_start d) as Hd by (unfold dir_start; cbn; case_match; lia).
  destruct (Z.eqb_spec offset 0); [split; [by apply dir_start_ok|done]|].
  unfold sqfs_dir_ff_offset. run_m.
  pose proof (ff_header_total inode d _ x (ff_offset_f_total offset) Hx Hi Hd) as Hf.
  destruct (sqfs_dir_ff_header _ _ _ _) as [[d1|]|]; [|done|done]. apply dir_start_ok in Hf.
  pose proof (ff_offset_loop_total full_tank d1 offset Hf (measure_lasts d1 Hf)) as Hl.
  destruct (ff_offset_loop _ _ _ _) as [[d2|]|]; [|done|done].
  destruct (_ =? _); done.
Qed.

Lemma dir_lookup_total inode name namelen x :
  inode.(xtra) = XtraDir x -> inode_ranges inode ->
  match sqfs_dir_lookup (m := O) fs inode name namelen with
  | Crash c => c = MemFault
  | Ret _ => True
  end.
Proof.
  intros Hx Hi. unfold sqfs_dir_lookup. run_m.
  pose proof (dir_open_total inode 0 x Hx Hi) as Ho.
  destruct (sqfs_dir_open _ _ _) as [[d|]|]; [|done|done]. destruct Ho as [_ Ho].
  pose proof (ff_header_total inode d _ x (ff_name_f_total name namelen) Hx Hi (Ho eq_refl)) as Hf.
  destruct (sqfs_dir_ff_header _ _ _ _) as [[d1|]|]; [|done|done]. apply dir_start_ok in Hf.
  apply lookup_loop_total; [done|by apply measure_lasts].
Qed.
End totality.

(** ** Directories as the archive holds them

    An item is an entry, with the header in front of it when it is the first of its
    group. *)
Record dir_item := {
  it_header : option squashfs_dir_header;
  it_entry : squashfs_dir_entry;
  it_name : list byte
}.

Definition item_bytes (it : dir_item) : list byte :=
  match it.(it_header) with Some h => to_disk h | None => [] end ++
  to_disk it.(it_entry) ++ it.(it_name).
Definition items_bytes (its : list dir_item) : list byte := concat (map item_bytes its).

Definition item_fits (it : dir_item) : Prop :=
  fits it.(it_entry) /\ len it.(it_name) = it.(it_entry).(de_size) + 1 /\
  len it.(it_name) <= SQUASHFS_NAME_LEN.

(** [items_ok n its]: [n] entries remain of the current group, and every header in
    [its] has the right count (biased by one). *)
Inductive items_ok : Z -> list dir_item -> Prop :=
  | items_nil : items_ok 0 []
  | items_more n e nm its :
      item_fits {| it_header := None; it_entry := e; it_name := nm |} ->
      items_ok n its ->
      items_ok (n + 1) ({| it_header := None; it_entry := e; it_name := nm |} :: its)
  | items_group n h e nm its :
      item_fits {| it_header := Some h; it_entry := e; it_name := nm |} ->
      fits h -> h.(dh_count) = n -> n + 1 < 2 ^ 32 ->
      items_ok n its ->
      items_ok 0 ({| it_header := Some h; it_entry := e; it_name := nm |} :: its).

(** The entry that stands for an item at offset [off] under the header [h]. *)
Definition item_entry (h : squashfs_dir_header) (off : Z) (it : dir_item) : sqfs_dir_entry :=
  let e := it.(it_entry) in
  mk_dentry (u64 (Z.shiftl h.(dh_start_block) 16 + e.(de_offset)))
    (u32 (h.(dh_inode_number) + s16 e.(de_inode_number))) e.(de_type) (Some it.(it_name))
    (len it.(it_name)) off (off + len (item_bytes it)).

(** The entry as it is without a name buffer. *)
Definition with_name (named : bool) (e : sqfs_dir_entry) : sqfs_dir_entry :=
  mk_dentry e.(e_inode) e.(e_inode_number) e.(e_type) (if named then e.(e_name) else None)
    e.(e_name_size) e.(e_offset) e.(e_next_offset).

Fixpoint listing (h : squashfs_dir_header) (off : Z) (its : list dir_item)
    : list sqfs_dir_entry :=
  match its with
  | [] => []
  | it :: its =>
      let h := default h it.(it_header) in
      item_entry h off it :: listing h (off + len (item_bytes it)) its
  end.

Lemma items_ok_nonneg n its : items_ok n its -> 0 <= n.
Proof. induction 1; lia. Qed.

Section reading.
Context (fs : sqfs) (Hfs : fs_ok fs).

(** [its] are the items that remain to be read from [d]. *)
Record positioned (d : sqfs_dir) (its : list dir_item) : Prop := {
  pos_read : exists cur', sqfs_md_read (m := O) fs d.(d_cur) true (len (items_bytes its))
                          = Ret (Success (cur', items_bytes its));
  pos_items : items_ok d.(d_header).(dh_count) its;
  pos_total : d.(d_total) = d.(d_offset) + len (items_bytes its);
  pos_offset : 0 <= d.(d_offset) /\ d.(d_total) < 2 ^ 32;
  pos_cur : 0 <= d.(d_cur).(cur_offset) /\
            d.(d_cur).(cur_offset) + len (items_bytes its) < 2 ^ 60
}.

(** Reading the first structure or name of what remains. *)
Lemma dir_md_read_at d xs ys cur' :
  sqfs_md_read (m := O) fs d.(d_cur) true (len (xs ++ ys)) = Ret (Success (cur', xs ++ ys)) ->
  0 <= d.(d_cur).(cur_offset) -> d.(d_cur).(cur_offset) + len (xs ++ ys) < 2 ^ 60 ->
  0 <= d.(d_offset) < 2 ^ 40 -> len xs < 2 ^ 40 ->
  exists cur, (forall buf, sqfs_dir_md_read (m := O) fs d buf (len xs) =
      Ret (Success (mk_dir cur (d.(d_offset) + len xs) d.(d_total) d.(d_header),
                    if buf then xs else []))) /\
    sqfs_md_read (m := O) fs cur true (len ys) = Ret (Success (cur', ys)) /\
    0 <= cur.(cur_offset) /\ cur.(cur_offset) + len ys < 2 ^ 60.
Proof.
  intros E Hc Hr Ho Hx. rewrite length_app, Nat2Z.inj_add in *.
  apply md_read_prefix in E as (cur & E1 & Hb & E2); unfold in_size; try lia; [|done].
  exists cur. split; [|split; [done|lia]]. intros buf.
  apply md_read_end in E1 as H; unfold in_size; try lia; [|done]. destruct H as (_ & E3 & _).
  unfold sqfs_dir_md_read. rewrite (swrap_small 64) by lia.
  destruct buf; [rewrite E1|rewrite E3]; done.
Qed.

Lemma fits_entry_size (e : squashfs_dir_entry) : fits e -> len (to_disk e) = 8.
Proof. intros He. by rewrite to_disk_length. Qed.

(** An entry whose header is already read. *)
Lemma next_entry_at d e nm its cur' off :
  let bs := to_disk e ++ nm in
  let h := d.(d_header) in
  sqfs_md_read (m := O) fs d.(d_cur) true (len (bs ++ items_bytes its))
    = Ret (Success (cur', bs ++ items_bytes its)) ->
  fits e -> len nm = e.(de_size) + 1 -> len nm <= SQUASHFS_NAME_LEN ->
  0 <= d.(d_cur).(cur_offset) -> d.(d_cur).(cur_offset) + len (bs ++ items_bytes its) < 2 ^ 60 ->
  0 <= d.(d_offset) < 2 ^ 34 ->
  exists cur,
    (forall named, next_entry (m := O) fs d named off =
    Ret (Success (mk_dir cur (d.(d_offset) + len bs) d.(d_total) (with_count h (h.(dh_count) - 1)),
      mk_dentry (u64 (Z.shiftl h.(dh_start_block) 16 + e.(de_offset)))
        (u32 (h.(dh_inode_number) + s16 e.(de_inode_number))) e.(de_type)
        (if named then Some nm else None) (len nm) off (d.(d_offset) + len bs)))) /\
    sqfs_md_read (m := O) fs cur true (len (items_bytes its))
      = Ret (Success (cur', items_bytes its)) /\
    0 <= cur.(cur_offset) /\ cur.(cur_offset) + len (items_bytes its) < 2 ^ 60.
Proof.
  intros bs h E He Hnm Hmax Hc Hr Ho. unfold bs in *. rewrite <- app_assoc in E, Hr.
  pose proof (fits_entry_size e He) as H8. unfold SQUASHFS_NAME_LEN in *.
  apply dir_md_read_at in E as (cur1 & E1 & E & Hc1 & Hr1); try lia.
  rewrite H8 in E1. set (d2 := mk_dir cur1 (d_offset d + 8) (d_total d)
    (with_count h (h.(dh_count) - 1))).
  apply (dir_md_read_at d2) in E as (cur2 & E2 & E & Hc2 & Hr2); try (cbn; lia).
  exists cur2. split; [|done]. intros named.
  unfold next_entry. change (disk_size squashfs_dir_entry) with 8.
  run_m. rewrite E1. rewrite swapin_to_disk by done. cbn [d_header d_cur d_offset d_total].
  unfold SQUASHFS_NAME_LEN. rewrite <- Hnm.
  destruct (Z.ltb_spec 256 (len nm)); [lia|]. fold h d2.
  rewrite E2. cbn [d2 d_offset d_total d_header].
  replace (if named then Some (if named then nm else []) else None)
    with (if named then Some nm else None) by (by destruct named).
  rewrite length_app, Nat2Z.inj_add, H8.
  by replace (d_offset d + 8 + len nm) with (d_offset d + (8 + len nm)) by lia.
Qed.

(** ** One step of a listing *)
Lemma items_bytes_cons it its : items_bytes (it :: its) = item_bytes it ++ items_bytes its.
Proof. done. Qed.

Lemma dir_next_end d named :
  positioned d [] -> sqfs_dir_next (m := O) fs d named = Ret (Success (d, None)).
Proof.
  intros [_ Hi Ht _ _]. inversion Hi as [Hn| |]. unfold sqfs_dir_next.
  destruct (lasts_turn full_tank 1) as (k & -> & _); [by apply full_tank_lasts|done|].
  cbn [next_header]. rewrite <- Hn. cbn [Z.eqb]. cbn in Ht.
  by replace (d_total d <=? d_offset d) with true by (symmetry; apply Z.leb_le; lia).
Qed.

(** The header loop in front of an item. *)
Lemma next_header_at d it its :
  positioned d (it :: its) ->
  let h := default d.(d_header) it.(it_header) in
  exists d1 cur',
    next_header (m := O) full_tank fs d = Ret (Success (d1, true)) /\
    d1.(d_total) = d.(d_total) /\
    d1.(d_offset) = d.(d_offset) + len (item_bytes it) - len (to_disk it.(it_entry) ++ it.(it_name)) /\
    d1.(d_header).(dh_start_block) = h.(dh_start_block) /\
    d1.(d_header).(dh_inode_number) = h.(dh_inode_number) /\
    items_ok (d1.(d_header).(dh_count) - 1) its /\ item_fits it /\
    (let bs := (to_disk it.(it_entry) ++ it.(it_name)) ++ items_bytes its in
     sqfs_md_read (m := O) fs d1.(d_cur) true (len bs) = Ret (Success (cur', bs)) /\
     0 <= d1.(d_cur).(cur_offset) /\ d1.(d_cur).(cur_offset) + len bs < 2 ^ 60).
Proof.
  intros [[cur' E] Hi Ht Ho Hc] h. destruct (lasts_turn full_tank 2) as (k & -> & Hk);
    [by apply full_tank_lasts|done|]. cbn [next_header].
  remember (dh_count (d_header d)) as c eqn:Hc0.
  inversion Hi as [|n e nm its' Hf Hi' Hn|n hd e nm its' Hf Hh Hcount Hmax Hi' Hn]; subst it its'.
  - pose proof (items_ok_nonneg _ _ Hi') as Hpos. unfold h. cbn [it_header default].
    destruct (Z.eqb_spec (n + 1) 0); [lia|].
    exists d, cur'. split; [done|]. split; [done|]. unfold item_bytes. cbn [it_header app it_entry it_name].
    split; [lia|]. split; [done|]. split; [done|]. rewrite <- Hc0, <- Hn, Z.add_simpl_r.
    split; [done|]. split; [done|]. split; [exact E|]. split; [lia|]. apply Hc.
  - cbn [Z.eqb]. cbn [it_header default] in h.
    rewrite items_bytes_cons in E, Ht, Hc.
    assert (item_bytes {| it_header := Some hd; it_entry := e; it_name := nm |} =
            to_disk hd ++ to_disk e ++ nm) as Hb by done.
    rewrite Hb in *. rewrite <- app_assoc in E, Hc.
    assert (len (to_disk hd) = 12) as H12 by (by rewrite to_disk_length).
    destruct (Z.leb_spec (d_total d) (d_offset d)) as [Hle|_].
    { rewrite !length_app in Ht. lia. }
    apply dir_md_read_at in E as (cur1 & E1 & E & Hc1 & Hr1); try lia.
    change (disk_size squashfs_dir_header) with 12. rewrite H12 in E1. run_m. rewrite E1.
    rewrite swapin_to_disk by done. cbn [d_cur d_offset d_total].
    rewrite wrap_small by (pose proof (items_ok_nonneg _ _ Hi'); lia).
    destruct (lasts_turn (k tt) 1) as (k' & -> & _); [by eapply lasts_le; [|exact Hk]|done|].
    cbn [next_header d_header with_count dh_count].
    pose proof (items_ok_nonneg _ _ Hi') as Hpos.
    destruct (Z.eqb_spec (dh_count hd + 1) 0); [lia|].
    eexists _, cur'. split; [reflexivity|]. cbn [d_total d_offset d_header with_count dh_start_block
      dh_inode_number dh_count d_cur it_entry it_name].
    split; [done|]. rewrite length_app, Nat2Z.inj_add. split; [lia|]. split; [done|]. split; [done|].
    rewrite Hcount, Z.add_simpl_r. split; [done|]. split; [done|].
    rewrite <- app_assoc. done.
Qed.

Lemma item_entry_header h h' off it :
  h.(dh_start_block) = h'.(dh_start_block) -> h.(dh_inode_number) = h'.(dh_inode_number) ->
  item_entry h off it = item_entry h' off it.
Proof. intros H1 H2. unfold item_entry. by rewrite H1, H2. Qed.

Lemma listing_header h h' off its :
  h.(dh_start_block) = h'.(dh_start_block) -> h.(dh_inode_number) = h'.(dh_inode_number) ->
  listing h off its = listing h' off its.
Proof.
  revert h h' off. induction its as [|it its IH]; intros h h' off H1 H2; [done|]. cbn [listing].
  destruct (it_header it); cbn [default].
  - f_equal; auto using item_entry_header.
  - f_equal; auto using item_entry_header.
Qed.

(** [sqfs_dir_next] yields the first item and is then in front of the others. *)
Lemma dir_next_item d it its :
  positioned d (it :: its) ->
  let h := default d.(d_header) it.(it_header) in
  exists d', (forall named, sqfs_dir_next (m := O) fs d named =
      Ret (Success (d', Some (with_name named (item_entry h d.(d_offset) it))))) /\
    positioned d' its /\ d'.(d_offset) = d.(d_offset) + len (item_bytes it) /\
    d'.(d_header).(dh_start_block) = h.(dh_start_block) /\
    d'.(d_header).(dh_inode_number) = h.(dh_inode_number).
Proof.
  intros Hpos h. pose proof Hpos as [_ _ Ht Ho Hc].
  destruct (next_header_at d it its Hpos) as
    (d1 & cur' & En & Ht1 & Ho1 & Hs & Hn & Hi & (Hfe & Hnm & Hmax) & E & Hc1 & Hr1).
  fold h in Hs, Hn. rewrite items_bytes_cons, length_app in Ht, Hc.
  assert (len (to_disk (it_entry it) ++ it_name it) <= len (item_bytes it)) as Hle
    by (unfold item_bytes; destruct (it_header it); rewrite !length_app; cbn [length]; lia).
  apply (next_entry_at d1 (it_entry it) (it_name it) its cur' (d_offset d)) in E
    as (cur & En2 & E & Hc2 & Hr2); try done; [|lia].
  eexists. split.
  { intros named. unfold sqfs_dir_next. run_m. rewrite En, En2. unfold item_entry, with_name.
    cbn [e_inode e_inode_number e_type e_name e_name_size e_offset e_next_offset]. rewrite <- Hs, <- Hn.
    by replace (d_offset d + len (item_bytes it))
      with (d_offset d1 + len (to_disk (it_entry it) ++ it_name it)) by lia. }
  cbn [d_offset d_header with_count dh_start_block dh_inode_number].
  split; [|split; [lia|by rewrite Hs, Hn]].
  split; cbn [d_cur d_offset d_total d_header with_count dh_count].
  - by exists cur'.
  - done.
  - rewrite Ht1, Ht. lia.
  - lia.
  - done.
Qed.
End reading.

(** ** The order of names *)
Fixpoint name_lt (a b : list byte) : bool :=
  match a, b with
  | _, [] => false
  | [], _ :: _ => true
  | x :: a, y :: b =>
      (byte_val x <? byte_val y) || ((byte_val x =? byte_val y) && name_lt a b)
  end.

Lemma name_lt_irrefl a : name_lt a a = false.
Proof. induction a; cbn; [done|]. by rewrite Z.ltb_irrefl, Z.eqb_refl. Qed.

Lemma name_lt_trans a b c : name_lt a b = true -> name_lt b c = true -> name_lt a c = true.
Proof.
  revert b c. induction a as [|x a IH]; intros [|y b] [|z c]; cbn; try done.
  rewrite !orb_true_iff, !andb_true_iff, !Z.ltb_lt, !Z.eqb_eq.
  intros [?|[? ?]] [?|[? ?]]; try (left; lia). right. split; [lia|eauto].
Qed.

Lemma name_lt_app a c : c <> [] -> name_lt a (a ++ c) = true.
Proof.
  intros Hc. induction a; cbn; [by destruct c|]. by rewrite Z.ltb_irrefl, Z.eqb_refl.
Qed.

(** Names have no NUL. *)
Definition name_ok (a : list byte) : Prop := Forall (fun b => byte_val b <> 0) a.

Lemma c_str_ok name : name_ok name -> c_str name = name.
Proof.
  induction 1 as [|b bs Hb _ IH]; [done|]. cbn [c_str]. rewrite IH.
  rewrite bool_decide_eq_false_2; [done|]. by intros ->.
Qed.

(** [strncmp] bounded by the length of the second name: negative before it, zero on
    the names it begins, positive after it.  What follows that length in memory
    does not matter. *)
Lemma strncmp_spec a b rest :
  name_ok a -> name_ok b ->
  let o := strncmp a (b ++ rest) (length b) in
  (o < 0 -> name_lt a b = true) /\ (o = 0 -> exists c, a = b ++ c) /\ (0 < o -> name_lt b a = true).
Proof.
  revert a. induction b as [|y b IH]; intros a Ha Hb; cbn [length strncmp app]; [split_and!; eauto; lia|].
  apply Forall_cons in Hb as [Hy Hb].
  destruct a as [|x a]; cbn [tail].
  { destruct (Z.eqb_spec 0 (byte_val y)) as [E|_]; [by symmetry in E|]. cbn [negb].
    pose proof (byte_val_range y). split_and!; intros; try lia. done. }
  apply Forall_cons in Ha as [Hx Ha]. cbn [name_lt].
  destruct (Z.eqb_spec (byte_val x) (byte_val y)) as [E|E]; cbn [negb].
  - destruct (Z.eqb_spec (byte_val x) 0); [done|]. destruct (IH a Ha Hb) as (H1 & H2 & H3).
    rewrite <- E, Z.ltb_irrefl, Z.eqb_refl. cbn [orb andb]. split_and!; [done| |done].
    intros Ho. destruct (H2 Ho) as [c ->]. exists c. apply byte_val_inj in E. by subst.
  - split_and!; intros Ho; [|lia|]; apply orb_true_iff; left; apply Z.ltb_lt; lia.
Qed.

Definition sorted_items (its : list dir_item) : Prop :=
  StronglySorted (fun a b => name_lt a.(it_name) b.(it_name) = true) its.

(** The entry called [name]. *)
Definition find_entry (name : list byte) (es : list sqfs_dir_entry) : option sqfs_dir_entry :=
  List.find (fun e => bool_decide (e.(e_name) = Some name)) es.

Lemma find_entry_skip name h off its :
  Forall (fun it => it.(it_name) <> name) its -> find_entry name (listing h off its) = None.
Proof.
  revert h off. induction its as [|it its IH]; intros h off Hn; [done|].
  apply Forall_cons in Hn as [Hit Hn]. cbn [listing find_entry List.find item_entry e_name].
  rewrite bool_decide_false by congruence. by apply IH.
Qed.

Lemma find_entry_app name h off its1 its2 :
  Forall (fun it => it.(it_name) <> name) its1 ->
  (forall it, head its2 = Some it -> is_Some it.(it_header)) ->
  find_entry name (listing h off (its1 ++ its2)) =
  find_entry name (listing h (off + len (items_bytes its1)) its2).
Proof.
  revert h off. induction its1 as [|it its1 IH]; intros h off Hn Hh.
  - cbn. by rewrite Z.add_0_r.
  - apply Forall_cons in Hn as [Hit Hn]. cbn [app listing find_entry List.find item_entry e_name].
    rewrite bool_decide_false by congruence. fold (find_entry name).
    rewrite items_bytes_cons, length_app, Nat2Z.inj_add, Z.add_assoc.
    etrans; [apply IH; done|]. destruct its2 as [|it2 its2]; [done|].
    destruct (Hh it2 eq_refl) as [h2 Hh2]. cbn [listing]. by rewrite Hh2.
Qed.

Section lookup.
Context (fs : sqfs) (Hfs : fs_ok fs).

Definition names_ok (its : list dir_item) : Prop := Forall (fun it => name_ok it.(it_name)) its.

Lemma sorted_above it its name :
  sorted_items (it :: its) -> name_lt name it.(it_name) = true ->
  Forall (fun it => it.(it_name) <> name) (it :: its).
Proof.
  intros Hs Hlt. apply StronglySorted_inv in Hs as [_ Hs].
  assert (forall x, name_lt name x = true -> x <> name) as Hne
    by (intros x Hx ->; by rewrite name_lt_irrefl in Hx).
  constructor; [by apply Hne|]. eapply Forall_impl; [exact Hs|].
  intros it' Hlt'. apply Hne. by eapply name_lt_trans.
Qed.

Lemma items_count n its : items_ok n its -> len its <= len (items_bytes its).
Proof.
  assert (forall it, item_fits it -> 1 <= len (item_bytes it)) as H1.
  { intros it (He & Hn & _). unfold item_bytes. rewrite !length_app.
    pose proof (fits_entry_size _ He). lia. }
  induction 1; [done|..]; rewrite items_bytes_cons, length_app; cbn [length];
    match goal with H : item_fits _ |- _ => apply H1 in H end; lia.
Qed.

(** The loop of [sqfs_dir_lookup] on what remains of a sorted directory. *)
Lemma lookup_loop_spec f d its name rest :
  positioned fs d its -> sorted_items its -> names_ok its -> name_ok name ->
  lasts f (len its + 1) ->
  lookup_loop (m := O) f fs d (name ++ rest) (len name) =
  Ret (Success (find_entry name (listing d.(d_header) d.(d_offset) its))).
Proof.
  revert f d. induction its as [|it its IH]; intros f d Hp Hs Hn Hname Hf;
    (apply lasts_turn in Hf as (k & -> & Hf); [|cbn [length]; lia]); cbn [lookup_loop].
  { by rewrite dir_next_end. }
  destruct (dir_next_item fs Hfs d it its Hp) as (d' & Enext & Hp' & Ho & Hb & Hi).
  set (h := default (d_header d) (it_header it)) in *.
  assert (sqfs_dir_next (m := O) fs d true =
          Ret (Success (d', Some (item_entry h (d_offset d) it)))) as -> by apply (Enext true).
  run_m.
  assert (find_entry name (listing (d_header d) (d_offset d) (it :: its)) =
          if bool_decide (it_name it = name) then Some (item_entry h (d_offset d) it)
          else find_entry name (listing (d_header d') (d_offset d') its)) as ->.
  { cbn [listing find_entry List.find item_entry e_name]. fold h.
    rewrite (bool_decide_ext (Some (it_name it) = Some name) (it_name it = name)) by (split; congruence).
    destruct (bool_decide _); [done|]. rewrite Ho. by erewrite listing_header. }
  apply Forall_cons in Hn as [Hit Hn]. cbn [sqfs_dentry_name sqfs_dentry_name_size item_entry
    e_name e_name_size default]. rewrite Nat2Z.id.
  destruct (strncmp_spec (it_name it) name rest Hit Hname) as (H1 & H2 & H3).
  set (order := strncmp _ _ _) in *.
  destruct (Z.leb_spec 0 order) as [Hpos|Hneg].
  - do 2 f_equal. destruct (Z.eqb_spec order 0) as [E|E]; cbn [andb].
    + destruct (H2 E) as [c Hc]. rewrite Hc, length_app.
      destruct (Z.eqb_spec (Z.of_nat (length name + length c)) (len name)) as [El|El].
      * destruct c; [|cbn in El; lia]. rewrite app_nil_r. by rewrite bool_decide_true.
      * assert (c <> []) as Hcn by (intros ->; cbn in El; lia).
        assert (name_lt name (it_name it) = true) as Hlt by (rewrite Hc; by apply name_lt_app).
        pose proof (sorted_above _ _ _ Hs Hlt) as Hall. apply Forall_cons in Hall as [Hne Hall].
        rewrite <- Hc. rewrite bool_decide_false by done. symmetry. by apply find_entry_skip.
    + pose proof (sorted_above _ _ _ Hs (H3 ltac:(lia))) as Hall.
      apply Forall_cons in Hall as [Hne Hall].
      rewrite bool_decide_false by done. symmetry. by apply find_entry_skip.
  - apply StronglySorted_inv in Hs as [Hs _].
    rewrite IH; try done; [|cbn [length] in Hf; eapply lasts_le; [|exact Hf]; lia].
    rewrite bool_decide_false; [done|]. intros E. specialize (H1 Hneg).
    by rewrite E, name_lt_irrefl in H1.
Qed.

(** ** The index of a directory *)
Definition no_header : squashfs_dir_header := Build_squashfs_dir_header 0 0 0.
Definition index_bytes (index : list (squashfs_dir_index * list byte)) : list byte :=
  concat (map (fun p => to_disk p.1 ++ p.2) index).

(** Where the code goes on reading from an entry of the index. *)
Definition index_dir (x : xtra_dir) (total : Z) (idx : squashfs_dir_index) : sqfs_dir :=
  mk_dir
    (mk_cursor (s64 (idx.(di_start_block) + fs.(sb).(sb_directory_table_start)))
       ((x.(xd_offset) + idx.(di_index)) mod SQUASHFS_METADATA_SIZE))
    idx.(di_index) total no_header.

(** An entry of the index names the first entry of a header and leads to it. *)
Definition index_entry_ok (x : xtra_dir) (its : list dir_item)
    (p : squashfs_dir_index * list byte) : Prop :=
  fits p.1 /\ len p.2 = p.1.(di_size) + 1 /\ len p.2 <= SQUASHFS_NAME_LEN /\
  exists its1 it its2, its = its1 ++ it :: its2 /\ is_Some it.(it_header) /\ it.(it_name) = p.2 /\
    positioned fs (index_dir x (len (items_bytes its)) p.1) (it :: its2).

(** The directory of an inode: the items [its] from its start, and its index. *)
Record dir_on_disk (inode : sqfs_inode) (x : xtra_dir) (its : list dir_item)
    (index : list (squashfs_dir_index * list byte)) : Prop := {
  dd_mode : S_ISDIR (mode inode) = true;
  dd_xtra : inode.(xtra) = XtraDir x;
  dd_offset : 0 <= x.(xd_offset) < SQUASHFS_METADATA_SIZE;
  dd_size : x.(xd_dir_size) = len (items_bytes its) + 3;
  dd_items : positioned fs
    (mk_dir (mk_cursor (s64 (x.(xd_start_block) + fs.(sb).(sb_directory_table_start)))
               x.(xd_offset)) 0 (len (items_bytes its)) no_header) its;
  dd_count : x.(xd_idx_count) = len index;
  dd_read : exists cur', sqfs_md_read (m := O) fs inode.(next) true (len (index_bytes index))
                         = Ret (Success (cur', index_bytes index));
  dd_next : 0 <= inode.(next).(cur_offset) /\
            inode.(next).(cur_offset) + len (index_bytes index) < 2 ^ 60;
  dd_index : Forall (index_entry_ok x its) index
}.

Lemma open_start inode x its index :
  dir_on_disk inode x its index ->
  sqfs_dir_open (m := O) fs inode 0 =
  Ret (Success (mk_dir (mk_cursor (s64 (x.(xd_start_block) + fs.(sb).(sb_directory_table_start)))
                          x.(xd_offset)) 0 (len (items_bytes its)) no_header)).
Proof.
  intros [Hm Hx _ Hs _ _ _ _ _]. unfold sqfs_dir_open, get_dir. rewrite Hm, Hx. run_m.
  cbn [negb spec_lift Z.eqb]. rewrite Hs. destruct (Z.leb_spec (len (items_bytes its) + 3) 3).
  - by replace (len (items_bytes its)) with 0 by lia.
  - by replace (len (items_bytes its) + 3 - 3) with (len (items_bytes its)) by lia.
Qed.

(** [d], whose cursor still has the offset of the start, stands for the items
    [its2] at the end of [its], and [P] holds of those before. *)
Definition ff_at (x : xtra_dir) (its : list dir_item) (P : list dir_item -> Prop) (d : sqfs_dir) : Prop :=
  d.(d_cur).(cur_offset) = x.(xd_offset) /\ 0 <= d.(d_offset) /\
  exists its1 its2, its = its1 ++ its2 /\ P its1 /\
    (forall it, head its2 = Some it -> is_Some it.(it_header)) /\
    positioned fs
      (mk_dir (mk_cursor d.(d_cur).(cur_block)
                 ((x.(xd_offset) + d.(d_offset)) mod SQUASHFS_METADATA_SIZE))
         d.(d_offset) d.(d_total) d.(d_header)) its2.

Lemma index_bytes_cons p index : index_bytes (p :: index) = (to_disk p.1 ++ p.2) ++ index_bytes index.
Proof. done. Qed.

Lemma index_struct_at cur cur' (idx : squashfs_dir_index) nm rest :
  fits idx -> 0 <= cur.(cur_offset) ->
  cur.(cur_offset) + len ((to_disk idx ++ nm) ++ rest) < 2 ^ 60 ->
  sqfs_md_read (m := O) fs cur true (len ((to_disk idx ++ nm) ++ rest))
    = Ret (Success (cur', (to_disk idx ++ nm) ++ rest)) ->
  exists cur1 cur2, md_struct (m := O) squashfs_dir_index fs cur = Ret (Success (cur1, idx)) /\
    (forall buf, sqfs_md_read (m := O) fs cur1 buf (len nm) =
      Ret (Success (cur2, if buf then nm else []))) /\
    0 <= cur2.(cur_offset) /\ cur2.(cur_offset) + len rest < 2 ^ 60 /\
    sqfs_md_read (m := O) fs cur2 true (len rest) = Ret (Success (cur', rest)).
Proof.
  intros Hf Hc Hr E. rewrite <- app_assoc in *.
  apply md_struct_read in E as (cur1 & E1 & Hc1 & _ & E); unfold in_size; try lia; try done.
  pose proof (to_disk_length idx Hf) as H12. rewrite !length_app in *. rewrite Nat2Z.inj_add in E.
  apply md_read_prefix in E as (cur2 & E2 & Hc2 & E); unfold in_size; try lia; [|done].
  exists cur1, cur2. split; [done|]. split; [|split; [lia|split; [lia|done]]].
  intros []; [done|]. apply md_read_end in E2 as (_ & E2 & _); unfold in_size; try lia; done.
Qed.

(** A function that is handed the entries of the index, up to where it stops. *)
Definition func_spec (P : list dir_item -> Prop) (x : xtra_dir) (its : list dir_item)
    (func : sqfs_dir_header_f (m := O)) : Prop :=
  forall cur1 cur2 idx nm, index_entry_ok x its (idx, nm) ->
    (forall buf, sqfs_md_read (m := O) fs cur1 buf (len nm) =
      Ret (Success (cur2, if buf then nm else []))) ->
    exists cur stop, func cur1 idx = Ret (Success (cur, stop)) /\
      (stop = false -> cur = cur2 /\
        forall its1 it its2, its = its1 ++ it :: its2 -> it.(it_name) = nm ->
          len (items_bytes its1) = idx.(di_index) -> P its1).

Lemma ff_header_loop_at P x its func index n cur cur' d :
  func_spec P x its func -> Forall (index_entry_ok x its) index -> n = length index ->
  0 <= cur.(cur_offset) -> cur.(cur_offset) + len (index_bytes index) < 2 ^ 60 ->
  sqfs_md_read (m := O) fs cur true (len (index_bytes index))
    = Ret (Success (cur', index_bytes index)) ->
  ff_at x its P d -> d.(d_header) = no_header -> d.(d_total) = len (items_bytes its) ->
  exists d', ff_header_loop (m := O) n fs cur d func = Ret (Success d') /\
    ff_at x its P d' /\ d'.(d_header) = no_header /\ d'.(d_total) = len (items_bytes its).
Proof.
  intros Hfunc. revert n cur d. induction index as [|[idx nm] index IH];
    intros n cur d Hidx -> Hc Hr E Hd Hh Ht; cbn [length ff_header_loop]; [by exists d|].
  apply Forall_cons in Hidx as [Hi Hidx]. rewrite index_bytes_cons in *. cbn [fst snd] in *.
  apply index_struct_at in E as (cur1 & cur2 & Es & Er & Hc2 & Hr2 & E); [|apply Hi|done|done].
  run_m. rewrite Es.
  destruct (Hfunc cur1 cur2 idx nm Hi Er) as (cur3 & stop & -> & Hstop).
  destruct stop; [by exists d|]. destruct (Hstop eq_refl) as [-> HP].
  apply IH; try done.
  destruct Hi as (_ & _ & _ & its1 & it & its2 & Hits & Hith & Hnm & Hpos).
  destruct Hd as (Hoff & Ho & _). pose proof Hpos as [_ _ Htot [Hidx0 _] _].
  cbn [index_dir d_total d_offset fst snd] in *.
  split; [done|]. split; [done|]. exists its1, (it :: its2). split; [done|]. split.
  { eapply HP; [done|done|]. rewrite Hits in Htot. unfold items_bytes in *.
    rewrite map_app, concat_app, length_app in Htot. lia. }
  split; [by intros ? [= <-]|]. cbn [d_cur cur_block d_offset d_total d_header].
  rewrite Ht, Hh. exact Hpos.
Qed.

(** After the headers are skipped the directory is in front of a suffix of the
    items, and [P] holds of those before it. *)
Lemma ff_header_at P inode x its index func :
  dir_on_disk inode x its index -> func_spec P x its func -> P [] ->
  exists d its1 its2,
    (d ← sqfs_dir_open (m := O) fs inode 0; sqfs_dir_ff_header fs inode d func)
      = Ret (Success d) /\
    its = its1 ++ its2 /\ P its1 /\
    (forall it, head its2 = Some it -> is_Some it.(it_header)) /\
    positioned fs d its2 /\ d.(d_header) = no_header /\
    d.(d_offset) = len (items_bytes its1).
Proof.
  intros Hd Hfunc HP0. rewrite (open_start inode x its index Hd).
  pose proof Hd as [Hm Hx Hxo Hsize Hpos Hcount [cur' E] [Hc Hr] Hidx].
  set (d0 := mk_dir _ _ _ _) in *. run_m. unfold sqfs_dir_ff_header, get_dir. rewrite Hx. run_m.
  cbn [spec_lift]. rewrite Hcount. destruct (Z.eqb_spec (len index) 0) as [Hz|Hz].
  { exists d0, [], its. split; [done|]. split; [done|]. split; [done|].
    split; [|done]. destruct Hpos as [_ Hi _ _ _]. cbn in Hi.
    intros it Hit. inversion Hi as [|n e nm its' Hf Hi' Hn|]; subst; [done| |].
    - apply items_ok_nonneg in Hi'. lia.
    - injection Hit as <-. by eexists. }
  rewrite Nat2Z.id.
  destruct (ff_header_loop_at P x its func index (length index) (next inode) cur' d0)
    as (d & -> & (Hoff & Ho & its1 & its2 & Hits & HP & Hhd & Hp) & Hh & Ht); try done.
  { split; [done|]. split; [done|]. exists [], its. split; [done|]. split; [done|].
    split; [|unfold d0 in *; cbn [d_cur cur_block d_offset d_total d_header cur_offset] in *;
             by rewrite Z.add_0_r, Z.mod_small].
    destruct Hpos as [_ Hi _ _ _]. cbn in Hi.
    intros it Hit. inversion Hi as [|n e nm its' Hf Hi' Hn|]; subst; [done| |].
    - apply items_ok_nonneg in Hi'. lia.
    - injection Hit as <-. by eexists. }
  eexists _, its1, its2. split; [reflexivity|]. split; [done|]. split; [done|]. split; [done|].
  pose proof Hp as [_ _ Htot [Ho1 Ho2] _]. cbn [d_total d_offset d_cur] in *.
  rewrite Hoff. unfold SQUASHFS_METADATA_SIZE in Hxo. rewrite wrap_small by lia.
  split; [exact Hp|]. split; [done|]. cbn [d_offset].
  rewrite Ht, Hits in Htot. unfold items_bytes in *. rewrite map_app, concat_app, length_app in Htot.
  lia.
Qed.

Lemma sorted_before its1 it its2 :
  sorted_items (its1 ++ it :: its2) ->
  Forall (fun a => name_lt a.(it_name) it.(it_name) = true) its1.
Proof.
  unfold sorted_items. induction its1 as [|a its1 IH]; cbn; intros Hs; [constructor|].
  apply StronglySorted_inv in Hs as [Hs Ha]. constructor; [|auto].
  apply Forall_app in Ha as [_ Ha]. by apply Forall_cons in Ha as [Ha _].
Qed.

Lemma u32_name_size (idx : squashfs_dir_index) (nm : list byte) :
  len nm = idx.(di_size) + 1 -> len nm <= SQUASHFS_NAME_LEN -> u32 (idx.(di_size) + 1) = len nm.
Proof. unfold SQUASHFS_NAME_LEN. intros <- ?. apply wrap_small. lia. Qed.

Lemma ff_name_spec x its name rest :
  sorted_items its -> names_ok its -> name_ok name ->
  func_spec (Forall (fun it => it.(it_name) <> name)) x its
    (sqfs_dir_ff_name_f fs (name ++ rest) (len name)).
Proof.
  intros Hs Hn Hname cur1 cur2 idx nm (_ & Hlen & Hmax & its1 & it & its2 & Hits & _ & Hnm & _) Er.
  cbn [fst snd] in *. unfold sqfs_dir_ff_name_f. rewrite (u32_name_size idx nm) by done.
  destruct (Z.ltb_spec SQUASHFS_NAME_LEN (len nm)); [lia|]. rewrite (Er true). run_m.
  eexists _, _. split; [reflexivity|]. intros Hstop. split; [done|].
  apply orb_false_iff in Hstop as [Ho1 Ho2]. apply Z.ltb_ge in Ho1.
  assert (name_ok nm) as Hok.
  { rewrite <- Hnm. unfold names_ok in Hn. rewrite Hits in Hn. apply Forall_app in Hn as [_ Hn].
    by apply Forall_cons in Hn as [Hn _]. }
  rewrite Nat2Z.id in *. destruct (strncmp_spec nm name rest Hok Hname) as (H1 & H2 & _).
  set (order := strncmp _ _ _) in *.
  assert (nm = name \/ name_lt nm name = true) as Hle.
  { destruct (Z.eqb_spec order 0) as [E|]; [|right; apply H1; lia]. left.
    destruct (H2 E) as [c ->]. cbn [andb] in Ho2. apply Z.ltb_ge in Ho2.
    rewrite length_app in Ho2. destruct c; [by rewrite app_nil_r|cbn in Ho2; lia]. }
  intros its1' it' its2' Hits' Hnm' _. rewrite Hits' in Hs. apply sorted_before in Hs.
  eapply Forall_impl; [exact Hs|]. intros a Ha E. rewrite Hnm', E in Ha.
  destruct Hle as [->|Hlt]; [by rewrite name_lt_irrefl in Ha|].
  pose proof (name_lt_trans _ _ _ Ha Hlt) as Hc. by rewrite name_lt_irrefl in Hc.
Qed.

Lemma dir_lookup_ref inode x its index name rest :
  dir_on_disk inode x its index -> sorted_items its -> names_ok its -> name_ok name ->
  sqfs_dir_lookup (m := O) fs inode (name ++ rest) (len name) =
  Ret (Success (find_entry name (listing no_header 0 its))).
Proof.
  intros Hd Hs Hn Hname.
  destruct (ff_header_at _ inode x its index _ Hd (ff_name_spec x its name rest Hs Hn Hname))
    as (d & its1 & its2 & E & Hits & Hne & Hhd & Hpos & Hh & Ho); [constructor|].
  unfold sqfs_dir_lookup. revert E. run_m. destruct (sqfs_dir_open _ _ _) as [[d0|]|]; try done.
  intros E. rewrite E. rewrite (lookup_loop_spec full_tank d its2); try done.
  - rewrite Hh, Ho, Hits. rewrite find_entry_app by done. by rewrite Z.add_0_l.
  - unfold sorted_items in *. rewrite Hits in Hs. clear -Hs. induction its1; [done|].
    apply StronglySorted_inv in Hs as [Hs _]. auto.
  - unfold names_ok in *. rewrite Hits in Hn. by apply Forall_app in Hn as [_ Hn].
  - apply full_tank_lasts. pose proof (items_count _ _ (pos_items _ _ _ Hpos)).
    destruct Hpos as [_ _ Ht [? ?] _]. lia.
Qed.

(** ** Going on at an offset *)
Lemma ff_offset_spec x its offset :
  func_spec (fun its1 => len (items_bytes its1) <= offset) x its (sqfs_dir_ff_offset_f fs offset).
Proof.
  intros cur1 cur2 idx nm (_ & Hlen & Hmax & _) Er. cbn [fst snd] in *.
  unfold sqfs_dir_ff_offset_f. destruct (Z.leb_spec offset (di_index idx)).
  { eexists _, _. split; [reflexivity|done]. }
  rewrite (u32_name_size idx nm) by done. rewrite (Er false). run_m.
  eexists _, _. split; [reflexivity|]. intros _. split; [done|]. intros. lia.
Qed.

Definition last_header (h : squashfs_dir_header) (its : list dir_item) : squashfs_dir_header :=
  fold_left (fun h it => default h it.(it_header)) its h.

Lemma last_header_eq h h' its :
  h.(dh_start_block) = h'.(dh_start_block) -> h.(dh_inode_number) = h'.(dh_inode_number) ->
  (last_header h its).(dh_start_block) = (last_header h' its).(dh_start_block) /\
  (last_header h its).(dh_inode_number) = (last_header h' its).(dh_inode_number).
Proof.
  revert h h'. induction its as [|it its IH]; intros h h' H1 H2; [done|]. cbn.
  apply IH; by destruct (it_header it).
Qed.

Lemma listing_app h off a b :
  listing h off (a ++ b) = listing h off a ++ listing (last_header h a) (off + len (items_bytes a)) b.
Proof.
  revert h off. induction a as [|it a IH]; intros h off; cbn [app listing].
  - cbn. by rewrite Z.add_0_r.
  - rewrite IH, items_bytes_cons, length_app, Nat2Z.inj_add, Z.add_assoc. done.
Qed.

Lemma ff_offset_loop_at f d its1 its2 :
  positioned fs d (its1 ++ its2) -> lasts f (len its1 + 1) ->
  exists d', ff_offset_loop (m := O) f fs d (d.(d_offset) + len (items_bytes its1)) = Ret (Success d') /\
    positioned fs d' its2 /\ d'.(d_offset) = d.(d_offset) + len (items_bytes its1) /\
    d'.(d_header).(dh_start_block) = (last_header d.(d_header) its1).(dh_start_block) /\
    d'.(d_header).(dh_inode_number) = (last_header d.(d_header) its1).(dh_inode_number).
Proof.
  revert f d. induction its1 as [|it its1 IH]; intros f d Hp Hf;
    (apply lasts_turn in Hf as (k & -> & Hf); [|cbn [length]; lia]); cbn [ff_offset_loop].
  { exists d. cbn [items_bytes map concat length]. rewrite Z.add_0_r.
    by destruct (Z.ltb_spec (d_offset d) (d_offset d)); [lia|]. }
  destruct (dir_next_item fs Hfs d it (its1 ++ its2) Hp) as (d' & Enext & Hp' & Ho & Hb & Hi).
  assert (1 <= len (item_bytes it)) as H1.
  { pose proof (items_count _ _ (pos_items _ _ _ Hp')) as H1.
    pose proof (pos_items _ _ _ Hp) as Hit. apply items_count in Hit.
    unfold item_bytes. rewrite !length_app.
    pose proof (pos_items _ _ _ Hp) as Hok. cbn [app] in Hok.
    inversion Hok as [|n e nm its' (Hf1 & _) _|n h e nm its' (Hf1 & _) _]; subst; cbn [it_entry] in *;
      pose proof (fits_entry_size _ Hf1); cbn [it_name it_header]; lia. }
  rewrite items_bytes_cons, length_app, Nat2Z.inj_add.
  destruct (Z.ltb_spec (d_offset d) (d_offset d + (len (item_bytes it) + len (items_bytes its1))));
    [|lia].
  run_m. rewrite (Enext false).
  destruct (IH (k tt) d' Hp') as (d2 & E & Hp2 & Ho2 & Hb2 & Hi2);
    [cbn [length] in Hf; eapply lasts_le; [|exact Hf]; lia|].
  exists d2. rewrite Z.add_assoc, <- Ho. split; [done|]. split; [done|].
  split; [lia|]. cbn [last_header fold_left].
  destruct (last_header_eq (d_header d') (default (d_header d) (it_header it)) its1 Hb Hi) as [E1 E2].
  unfold last_header in *. by rewrite <- E1, <- E2.
Qed.

Lemma items_bytes_app a b : items_bytes (a ++ b) = items_bytes a ++ items_bytes b.
Proof. unfold items_bytes. by rewrite map_app, concat_app. Qed.

Lemma items_ok_bytes n its it : items_ok n its -> it ∈ its -> 1 <= len (item_bytes it).
Proof.
  assert (forall it, item_fits it -> 1 <= len (item_bytes it)) as H1.
  { intros i (He & _). unfold item_bytes. rewrite !length_app.
    pose proof (fits_entry_size _ He). lia. }
  induction 1; intros Hin; [by apply not_elem_of_nil in Hin|..];
    apply elem_of_cons in Hin as [->|Hin]; auto.
Qed.

Lemma listing_after h h' c its off :
  (forall it, head (c ++ its) = Some it -> is_Some it.(it_header)) ->
  listing (last_header h c) off its = listing (last_header h' c) off its.
Proof.
  intros Hh. destruct c as [|it c].
  - destruct its as [|it its]; [done|]. destruct (Hh it eq_refl) as [hd E].
    cbn [last_header fold_left listing]. by rewrite E.
  - destruct (Hh it eq_refl) as [hd E]. cbn [last_header fold_left]. by rewrite E.
Qed.

Lemma dir_open_at inode x its1 its2 index :
  dir_on_disk inode x (its1 ++ its2) index ->
  exists d, sqfs_dir_open (m := O) fs inode (len (items_bytes its1)) = Ret (Success d) /\
    positioned fs d its2 /\ d.(d_offset) = len (items_bytes its1) /\
    listing no_header 0 (its1 ++ its2) =
      listing no_header 0 its1 ++ listing d.(d_header) d.(d_offset) its2.
Proof.
  intros Hd. pose proof (open_start inode x _ index Hd) as Eopen.
  assert (forall it, it ∈ its1 ++ its2 -> 1 <= len (item_bytes it)) as Hbytes
    by (intros it; eapply items_ok_bytes, pos_items, dd_items, Hd).
  destruct (Z.eqb_spec (len (items_bytes its1)) 0) as [Hz|Hz].
  - assert (its1 = []) as ->.
    { destruct its1 as [|it its1]; [done|]. exfalso. rewrite items_bytes_cons, length_app in Hz.
      specialize (Hbytes it ltac:(by left)). lia. }
    cbn [items_bytes map concat length app] in *. eexists. split; [exact Eopen|].
    split; [apply Hd|]. split; [done|]. done.
  - destruct (ff_header_at _ inode x _ index _ Hd
      (ff_offset_spec x (its1 ++ its2) (len (items_bytes its1))))
      as (d & a & b & E & Hits & Ha & Hhd & Hpos & Hh & Ho); [cbn; lia|].
    assert (exists c, its1 = a ++ c /\ b = c ++ its2) as (c & -> & ->).
    { symmetry in Hits. apply app_eq_app in Hits as [c [[-> ->]|[-> ->]]]; [|by exists c].
      rewrite items_bytes_app, length_app in Ha. destruct c as [|it c].
      - exists []. by rewrite !app_nil_r.
      - rewrite items_bytes_cons, length_app in Ha.
        specialize (Hbytes it ltac:(set_solver)). lia. }
    destruct (ff_offset_loop_at full_tank d c its2 Hpos) as (d' & El & Hp' & Ho' & Hb' & Hi').
    { apply full_tank_lasts. pose proof (items_count _ _ (pos_items _ _ _ Hpos)) as Hc.
      destruct Hpos as [_ _ Ht [? ?] _]. rewrite length_app in Hc. lia. }
    assert (len (items_bytes (a ++ c)) = d_offset d + len (items_bytes c)) as Hoff
      by (rewrite items_bytes_app, length_app; lia).
    rewrite Hoff in *. exists d'. split; [|split; [done|split; [done|]]].
    + revert E. rewrite Eopen. unfold sqfs_dir_open, get_dir in *.
      rewrite (dd_mode _ _ _ _ Hd), (dd_xtra _ _ _ _ Hd) in *. run_m. cbn [negb spec_lift] in *.
      cbn [Z.eqb] in Eopen. intros E. injection Eopen as Ed. rewrite Ed.
      fold no_header.
      destruct (Z.eqb_spec (d_offset d + len (items_bytes c)) 0) as [E0|_]; [done|].
      unfold sqfs_dir_ff_offset. run_m. rewrite E, El, Ho'. by rewrite Z.eqb_refl.
    + rewrite listing_app, Hoff, Z.add_0_l, <- Ho'. f_equal.
      assert (last_header no_header (a ++ c) = last_header (last_header no_header a) c) as ->
        by apply fold_left_app.
      rewrite (listing_after _ no_header c its2) by done.
      symmetry. apply listing_header; by rewrite ?Hb', ?Hi', Hh.
Qed.
End lookup.

(** ** Paths and their components *)
Fixpoint split_path (path : list byte) : list (list byte) :=
  match path with
  | [] => [[]]
  | c :: rest =>
      if bool_decide (c = slash) then [] :: split_path rest
      else match split_path rest with
           | name :: names => (c :: name) :: names
           | [] => [[c]]
           end
  end.

(** The names of a path: what lies between its slashes, without the empty pieces. *)
Definition components (path : list byte) : list (list byte) :=
  List.filter (fun name => negb (bool_decide (name = []))) (split_path path).

Fixpoint walk (fs : sqfs) (inode : sqfs_inode) (names : list (list byte)) (id : option Z)
    : O (bool * sqfs_inode * option Z) :=
  match names with
  | [] => mret (true, inode, id)
  | name :: names =>
      e ← sqfs_dir_lookup fs inode name (len name);
      match e with
      | None => mret (false, inode, id)
      | Some e =>
          inode ← sqfs_inode_get fs (sqfs_dentry_inode e);
          walk fs inode names (Some (sqfs_dentry_inode e))
      end
  end.

Lemma strncmp_rest a b rest n :
  (n <= length b)%nat -> strncmp a (b ++ rest) n = strncmp a b n.
Proof.
  revert a b. induction n as [|n IH]; intros a b Hn; [done|].
  destruct b as [|y b]; cbn in Hn; [lia|]. cbn [strncmp app tail].
  rewrite IH by lia. done.
Qed.

Lemma ff_header_loop_ext n fs cur dir f g :
  (forall cur idx, f cur idx = g cur idx) ->
  ff_header_loop (m := O) n fs cur dir f = ff_header_loop n fs cur dir g.
Proof.
  intros Hfg. revert cur dir. induction n as [|n IH]; intros cur dir; [done|].
  cbn [ff_header_loop]. run_m. destruct (md_struct _ _ _) as [[[c idx]|]|]; try done.
  rewrite Hfg. destruct (g c idx) as [[[c' []]|]|]; done.
Qed.

Lemma dir_lookup_rest fs inode name rest :
  sqfs_dir_lookup (m := O) fs inode (name ++ rest) (len name) =
  sqfs_dir_lookup fs inode name (len name).
Proof.
  unfold sqfs_dir_lookup. run_m. destruct (sqfs_dir_open _ _ _) as [[d|]|]; [|done|done].
  assert (sqfs_dir_ff_header (m := O) fs inode d (sqfs_dir_ff_name_f fs (name ++ rest) (len name)) =
          sqfs_dir_ff_header fs inode d (sqfs_dir_ff_name_f fs name (len name))) as ->.
  { unfold sqfs_dir_ff_header. run_m. destruct (spec_lift _) as [[x|]|]; try done.
    destruct (_ =? _); [done|]. erewrite ff_header_loop_ext; [done|].
    intros cur idx. unfold sqfs_dir_ff_name_f. destruct (_ <? _); [done|]. run_m.
    destruct (sqfs_md_read _ _ _ _) as [[[]|]|]; try done.
    by rewrite Nat2Z.id, strncmp_rest. }
  destruct (sqfs_dir_ff_header _ _ _ _) as [[d'|]|]; [|done|done].
  revert d'. induction full_tank as [|k IH]; intros d'; [done|]. cbn [lookup_loop]. run_m.
  destruct (sqfs_dir_next _ _ _) as [[[d2 [e|]]|]|]; try done.
  rewrite Nat2Z.id, strncmp_rest by done. destruct (0 <=? _); [done|]. apply IH.
Qed.

Lemma components_skip path : components (skip_slashes path) = components path.
Proof.
  induction path as [|c path IH]; [done|]. cbn [skip_slashes].
  case_bool_decide as E; [|done]. rewrite IH. unfold components. cbn [split_path].
  by rewrite bool_decide_true.
Qed.

Lemma span_name_app path : path = fst (span_name path) ++ snd (span_name path).
Proof.
  induction path as [|c path IH]; [done|]. cbn. case_bool_decide; [done|].
  destruct (span_name path). cbn in *. by rewrite IH at 1.
Qed.

Lemma span_split path :
  split_path path = fst (span_name path) ::
    match snd (span_name path) with [] => [] | _ :: rest => split_path rest end.
Proof.
  induction path as [|c path IH]; [done|]. cbn [split_path span_name]. case_bool_decide; [done|].
  rewrite IH. destruct (span_name path) as [name rest]. done.
Qed.

Lemma span_rest path : 
  components (snd (span_name path)) =
  match snd (span_name path) with [] => [] | _ :: rest => components rest end.
Proof.
  assert (match snd (span_name path) with [] => True | c :: _ => c = slash end) as H.
  { induction path as [|c path IH]; [done|]. cbn [span_name].
    case_bool_decide; [done|]. by destruct (span_name path). }
  destruct (snd (span_name path)) as [|c rest]; [done|]. subst c. done.
Qed.

Lemma span_components path :
  components path =
  match fst (span_name path) with
  | [] => components (snd (span_name path))
  | name => name :: components (snd (span_name path))
  end.
Proof.
  rewrite span_rest. unfold components at 1. rewrite span_split. cbn [List.filter].
  destruct (fst (span_name path)) eqn:E; cbn [negb].
  - rewrite bool_decide_true by done. cbn [negb]. by destruct (snd _).
  - rewrite bool_decide_false by done. cbn [negb]. by destruct (snd _).
Qed.

Lemma skip_span_nil path :
  fst (span_name (skip_slashes path)) = [] -> skip_slashes path = [].
Proof.
  induction path as [|c path IH]; [done|]. cbn [skip_slashes]. case_bool_decide as E; [done|].
  cbn [span_name]. rewrite bool_decide_false by done. by destruct (span_name path).
Qed.

Lemma skip_length path : (length (skip_slashes path) <= length path)%nat.
Proof. induction path as [|c path IH]; [done|]. cbn [skip_slashes]. case_bool_decide; cbn; lia. Qed.

Lemma lookup_path_walk n fs inode path id :
  (length path <= n)%nat ->
  lookup_path_loop (m := O) n fs inode path id = walk fs inode (components path) id.
Proof.
  revert inode path id. induction n as [|n IH]; intros inode path id Hn.
  { destruct path; [done|cbn in Hn; lia]. }
  destruct path as [|c path]; [done|]. cbn [lookup_path_loop].
  rewrite <- components_skip. set (p := skip_slashes (c :: path)).
  pose proof (skip_length (c :: path)) as Hlen. fold p in Hlen.
  pose proof (span_name_app p) as Happ. pose proof (span_components p) as Hc.
  destruct (span_name p) as [name rest] eqn:Ep. cbn [fst snd] in *.
  destruct (Z.eqb_spec (len name) 0) as [Hz|Hz].
  - assert (p = []) as -> by (apply skip_span_nil; fold p; rewrite Ep; by destruct name).
    done.
  - destruct name as [|b name]; [done|]. rewrite Hc, Happ. cbn [walk].
    rewrite dir_lookup_rest. run_m.
    destruct (sqfs_dir_lookup _ _ _ _) as [[[e|]|]|]; try done.
    destruct (sqfs_inode_get _ _) as [[i|]|]; try done. apply IH.
    rewrite Happ, length_app in Hlen. cbn in Hlen, Hn. lia.
Qed.

(** ** The properties *)
Section dir_theorems.
Context (fs : sqfs) (Hfs : fs_ok fs).
Context {CI : CacheImpl} {CL : CacheLaws CI} (X : expectations).

(** C2: on a directory whose names are sorted, [sqfs_dir_lookup] gives the entry
    with exactly the name asked for when there is one, and none otherwise, whether
    or not the directory has an index to jump by, and whatever follows the name in
    the caller's string. *)
Theorem sqfs_dir_lookup_correct (s : sqfs_state) (inode : sqfs_inode) (x : xtra_dir)
    (its : list dir_item) (index : list (squashfs_dir_index * list byte)) (name rest : list byte) :
  inv fs X s [] None -> s.(mem) = [] -> dir_on_disk fs inode x its index ->
  sorted_items its -> names_ok its -> name_ok name ->
  exists s', inv fs X s' [] None /\
    sqfs_dir_lookup (m := M) fs inode (name ++ rest) (len name) s =
    Ret (s', Success (find_entry name (listing no_header 0 its))).
Proof.
  intros Hi Hm Hd Hs Hn Hname.
  pose proof (dir_lookup_ref fs Hfs inode x its index name rest Hd Hs Hn Hname) as E.
  destruct (sim_exact fs X false _ _ s _ (sim_dir_lookup fs X false _ _ _) Hi Hm E)
    as (s' & ? & ? & _). by exists s'.
Qed.

(** [sqfs_dir_next] reads a directory entry by entry: it gives the entry the
    archive holds at the position (its inode id, inode number, type, name and
    offsets, under the header it belongs to) and moves to the next one, across
    group headers; at the end it gives none. *)
Theorem sqfs_dir_next_lists (s : sqfs_state) (d : sqfs_dir) (its : list dir_item) :
  inv fs X s [] None -> s.(mem) = [] -> positioned fs d its ->
  exists s' d', inv fs X s' [] None /\
    sqfs_dir_next (m := M) fs d true s =
    Ret (s', Success (d', head (listing d.(d_header) d.(d_offset) its))) /\
    positioned fs d' (tail its) /\
    listing d'.(d_header) d'.(d_offset) (tail its)
      = tail (listing d.(d_header) d.(d_offset) its).
Proof.
  intros Hi Hm Hp. destruct its as [|it its].
  - pose proof (dir_next_end fs d true Hp) as E.
    destruct (sim_exact fs X false _ _ s _ (sim_dir_next fs X false _ _) Hi Hm E)
      as (s' & ? & ? & _). by exists s', d.
  - destruct (dir_next_item fs Hfs d it its Hp) as (d' & E & Hp' & Ho & Hb & Hn).
    destruct (sim_exact fs X false _ _ s _ (sim_dir_next fs X false d true) Hi Hm (E true))
      as (s' & ? & Hi' & _). exists s', d'. split; [done|]. split; [done|]. split; [done|].
    cbn [tail listing]. rewrite Ho. by apply listing_header.
Qed.

(** opening a directory at the offset of one of its entries (the cookie of a
    directory stream, with or without an index) continues the listing at that
    entry. *)
Theorem sqfs_dir_open_resumes (s : sqfs_state) (inode : sqfs_inode) (x : xtra_dir)
    (its1 its2 : list dir_item) (index : list (squashfs_dir_index * list byte)) :
  inv fs X s [] None -> s.(mem) = [] -> dir_on_disk fs inode x (its1 ++ its2) index ->
  exists s' d, inv fs X s' [] None /\
    sqfs_dir_open (m := M) fs inode (len (items_bytes its1)) s = Ret (s', Success d) /\
    positioned fs d its2 /\
    listing no_header 0 (its1 ++ its2) =
      listing no_header 0 its1 ++ listing d.(d_header) d.(d_offset) its2.
Proof.
  intros Hi Hm Hd. destruct (dir_open_at fs Hfs inode x its1 its2 index Hd) as (d & E & Hp & _ & Hl).
  destruct (sim_exact fs X false _ _ s _ (sim_dir_open fs X false _ _) Hi Hm E)
    as (s' & ? & ? & _). by exists s', d.
Qed.

(** C33: on any directory of any archive [sqfs_dir_next] returns, or the process dies of the
    read outside a block that the code does not check (fs.c:308): it does not loop.  When it
    returns an entry the offsets of the entries strictly grow and chain up, its name has 1
    to 256 bytes, and a measure that is below [2^65] has gone down, so that every loop over a
    directory ends. *)
Theorem sqfs_dir_next_progress (s : sqfs_state) (d : sqfs_dir) :
  inv fs X s [] None -> dir_ok d ->
  0 <= dir_measure d < 2 ^ 65 /\
  match sqfs_dir_next (m := M) fs d true s with
  | Crash c => c = MemFault
  | Ret (s', r) => inv fs X s' [] None /\
      match r with
      | Success (d', Some e) =>
          dir_ok d' /\ 0 <= dir_measure d' < dir_measure d /\
          e.(e_offset) = d.(d_offset) /\ d.(d_offset) < e.(e_next_offset) /\
          e.(e_next_offset) = d'.(d_offset) /\
          exists nm, e.(e_name) = Some nm /\ 1 <= len nm <= SQUASHFS_NAME_LEN
      | _ => True
      end
  end.
Proof.
  intros Hi Hd. split; [destruct Hd; unfold dir_measure; nia|].
  pose proof (dir_next_total fs Hfs d true Hd) as Hr.
  pose proof (sim_run fs X false _ _ s (sim_dir_next fs X false d true) Hi) as Hsim.
  destruct (sqfs_dir_next (m := M) fs d true s) as [[s' r]|c]; [|by rewrite Hsim in Hr].
  destruct Hsim as [Hi' Hsim]. split; [done|].
  destruct r as [[d' [e|]]|]; [|done..]. destruct Hsim as [E|(_ & ? & ?)]; [|done].
  rewrite E in Hr. destruct Hr as (Hok & ? & ? & ? & ? & Hsize & nm & Hnm & Hlen).
  split; [done|]. split; [destruct Hok; unfold dir_measure in *; lia|].
  repeat (split; [done|]). exists nm. by rewrite Hlen.
Qed.

(** a lookup in the directory of an inode, whatever the archive holds, always
    returns: the loops over the index and the entries end. *)
Theorem sqfs_dir_lookup_total (s : sqfs_state) (inode : sqfs_inode) (x : xtra_dir)
    (name : list byte) (namelen : Z) :
  inv fs X s [] None -> inode.(xtra) = XtraDir x -> inode_ranges inode ->
  match sqfs_dir_lookup (m := M) fs inode name namelen s with
  | Crash c => c = MemFault
  | Ret (s', _) => inv fs X s' [] None
  end.
Proof.
  intros Hi Hx Hr. pose proof (dir_lookup_total fs Hfs inode name namelen x Hx Hr) as Ht.
  pose proof (sim_run fs X false _ _ s (sim_dir_lookup fs X false inode name namelen) Hi) as Hsim.
  destruct (sqfs_dir_lookup (m := M) fs inode name namelen s) as [[s' r]|c]; [apply Hsim|].
  by rewrite Hsim in Ht.
Qed.

(** C14: the lookup of a path is the walk over its components: repeated, leading and
    trailing slashes change nothing, each name is looked up in the inode found
    for the names before it, and the first name missing ends the walk. *)
Theorem sqfs_lookup_path_walks (s : sqfs_state) (inode : sqfs_inode) (path : list byte) :
  inv fs X s [] None -> s.(mem) = [] ->
  match walk fs inode (components path) None with
  | Crash c => sqfs_lookup_path_with_id (m := M) fs inode path s = Crash c
  | Ret r => exists s', inv fs X s' [] None /\
      sqfs_lookup_path_with_id (m := M) fs inode path s = Ret (s', r)
  end.
Proof.
  intros Hi Hm. pose proof (sim_lookup_path fs X false inode path) as Hsim.
  assert (sqfs_lookup_path_with_id (m := O) fs inode path = walk fs inode (components path) None)
    as E by (by apply lookup_path_walk).
  destruct (walk _ _ _ _) as [r|c].
  - destruct (sim_exact fs X false _ _ s _ Hsim Hi Hm E) as (s' & ? & ? & _). by exists s'.
  - specialize (Hsim s [] None ltac:(done) Hi). rewrite E in Hsim.
    destruct (sqfs_lookup_path_with_id (m := M) fs inode path s) as [[s' r]|c']; [|congruence].
    destruct Hsim as (_ & [?|[? _]] & _); congruence.
Qed.
End dir_theorems.

(** ** An indexed directory of three entries in two groups *)
Definition sample_item (h : option squashfs_dir_header) (off num type : Z) (name : list byte)
    : dir_item :=
  {| it_header := h;
     it_entry := Build_squashfs_dir_entry off num type (len name - 1);
     it_name := name |}.
Definition sample_items1 : list dir_item :=
  [sample_item (Some (Build_squashfs_dir_header 1 0 5)) 0 0 SQUASHFS_REG_TYPE [x61; x2e; x63];
   sample_item None 32 65535 SQUASHFS_DIR_TYPE [x64; x6f; x63]].
Definition sample_items2 : list dir_item :=
  [sample_item (Some (Build_squashfs_dir_header 0 96 9)) 64 1 SQUASHFS_SYMLINK_TYPE [x7a]].
Definition sample_items : list dir_item := sample_items1 ++ sample_items2.
Definition sample_index : list (squashfs_dir_index * list byte) :=
  [(Build_squashfs_dir_index (len (items_bytes sample_items1)) 0 0, [x7a])].
Definition sample_dir_image : list byte :=
  stored_md (items_bytes sample_items) ++ stored_md (index_bytes sample_index).
Definition sample_dir_fs : sqfs := sample_fs sample_dir_image sample_sb.
Definition sample_xdir : xtra_dir := mk_xdir 0 0 (len (items_bytes sample_items) + 3) 1 0.
Definition sample_dir_inode : sqfs_inode :=
  mk_inode (sample_base SQUASHFS_LDIR_TYPE 0x41ed 1) 2 SQUASHFS_INVALID_XATTR
    (mk_cursor (2 + len (items_bytes sample_items)) 0) (XtraDir sample_xdir).
Definition sample_dir : sqfs_dir :=
  mk_dir (mk_cursor 0 0) 0 (len (items_bytes sample_items)) no_header.

Lemma sample_dir_fs_ok : fs_ok sample_dir_fs.
Proof. apply sample_fs_ok. vm_compute. congruence. Qed.

Lemma sample_item_fits it : it ∈ sample_items -> item_fits it.
Proof.
  intros H. repeat (apply elem_of_cons in H as [->|H]); [..|by apply not_elem_of_nil in H];
    (split; [|split; vm_compute; congruence]); repeat constructor; vm_compute; congruence.
Qed.

Lemma sample_items2_ok : items_ok 0 sample_items2.
Proof.
  apply items_group with (n := 0); [|repeat constructor; vm_compute; congruence|done|done|constructor].
  apply (sample_item_fits (sample_item (Some (Build_squashfs_dir_header 0 96 9)) 64 1
    SQUASHFS_SYMLINK_TYPE [x7a])). do 2 right. by left.
Qed.

Lemma sample_items_ok : items_ok 0 sample_items.
Proof.
  unfold sample_items, sample_items1. cbn [app].
  apply items_group with (n := 1); [|repeat constructor; vm_compute; congruence|done|done|].
  - apply (sample_item_fits (sample_item (Some (Build_squashfs_dir_header 1 0 5)) 0 0
      SQUASHFS_REG_TYPE [x61; x2e; x63])). by left.
  - apply (items_more 0); [|apply sample_items2_ok].
    apply (sample_item_fits (sample_item None 32 65535 SQUASHFS_DIR_TYPE [x64; x6f; x63])).
    right. by left.
Qed.

Lemma sample_positioned : positioned sample_dir_fs sample_dir sample_items.
Proof.
  split; [eexists; vm_compute; reflexivity|apply sample_items_ok|reflexivity| |];
    vm_compute; intuition congruence.
Qed.

Lemma sample_dir_on_disk : dir_on_disk sample_dir_fs sample_dir_inode sample_xdir sample_items sample_index.
Proof.
  split.
  - reflexivity.
  - reflexivity.
  - vm_compute; intuition congruence.
  - reflexivity.
  - apply sample_positioned.
  - reflexivity.
  - eexists. vm_compute. reflexivity.
  - vm_compute; intuition congruence.
  - constructor; [|constructor]. split; [repeat constructor; vm_compute; congruence|].
    split; [reflexivity|]. split; [vm_compute; congruence|].
    exists sample_items1. eexists _, []. split; [reflexivity|]. split; [by eexists|].
    split; [reflexivity|].
    split; [eexists; vm_compute; reflexivity|apply sample_items2_ok|reflexivity|..];
      vm_compute; intuition congruence.
Qed.

Lemma sample_sorted : sorted_items sample_items.
Proof. repeat constructor. Qed.
Lemma sample_names_ok : names_ok sample_items.
Proof. repeat constructor; vm_compute; congruence. Qed.

(** "doc" is found in "doc/x", behind the first group; "do" is not there. *)
Lemma sqfs_dir_lookup_correct_witness :
  answer (sqfs_dir_lookup (m := M) sample_dir_fs sample_dir_inode [x64; x6f; x63; x2f; x78] 3
            (sample_state [])) =
    Ret (Success (Some (mk_dentry 32 4 SQUASHFS_DIR_TYPE (Some [x64; x6f; x63]) 3 23 34))) /\
  answer (sqfs_dir_lookup (m := M) sample_dir_fs sample_dir_inode [x64; x6f] 2 (sample_state [])) =
    Ret (Success None).
Proof.
  split.
  - destruct (sqfs_dir_lookup_correct sample_dir_fs sample_dir_fs_ok (CL := sample_laws)
      no_expectations (sample_state []) sample_dir_inode sample_xdir sample_items sample_index
      [x64; x6f; x63] [x2f; x78] (sample_inv _ _ _) eq_refl sample_dir_on_disk sample_sorted
      sample_names_ok ltac:(repeat constructor; vm_compute; congruence)) as (s' & _ & E).
    change (len [x64; x6f; x63]) with 3 in E. cbn [app] in E. rewrite E. vm_compute. reflexivity.
  - destruct (sqfs_dir_lookup_correct sample_dir_fs sample_dir_fs_ok (CL := sample_laws)
      no_expectations (sample_state []) sample_dir_inode sample_xdir sample_items sample_index
      [x64; x6f] [] (sample_inv _ _ _) eq_refl sample_dir_on_disk sample_sorted
      sample_names_ok ltac:(repeat constructor; vm_compute; congruence)) as (s' & _ & E).
    change (len [x64; x6f]) with 2 in E. cbn [app] in E. rewrite E. vm_compute. reflexivity.
Defined.

Lemma sqfs_dir_next_lists_witness :
  exists s' d', sqfs_dir_next (m := M) sample_dir_fs sample_dir true (sample_state []) =
      Ret (s', Success (d', Some (mk_dentry 0 5 SQUASHFS_REG_TYPE (Some [x61; x2e; x63]) 3 0 23))) /\
    positioned sample_dir_fs d' (tail sample_items).
Proof.
  destruct (sqfs_dir_next_lists sample_dir_fs sample_dir_fs_ok (CL := sample_laws)
    no_expectations (sample_state []) sample_dir sample_items (sample_inv _ _ _) eq_refl
    sample_positioned) as (s' & d' & _ & E & Hp & _).
  exists s', d'. split; [exact E|exact Hp].
Defined.

(** The offset of "z", to which the index leads. *)
Lemma sqfs_dir_open_resumes_witness :
  exists s' d, sqfs_dir_open (m := M) sample_dir_fs sample_dir_inode 34 (sample_state []) =
      Ret (s', Success d) /\ positioned sample_dir_fs d sample_items2.
Proof.
  destruct (sqfs_dir_open_resumes sample_dir_fs sample_dir_fs_ok (CL := sample_laws)
    no_expectations (sample_state []) sample_dir_inode sample_xdir sample_items1 sample_items2
    sample_index (sample_inv _ _ _) eq_refl sample_dir_on_disk) as (s' & d & _ & E & Hp & _).
  exists s', d. split; [exact E|exact Hp].
Defined.

Lemma sqfs_dir_next_progress_witness :
  dir_ok sample_dir /\
  inv sample_dir_fs no_expectations
    (final (sample_state []) (sqfs_dir_next (m := M) sample_dir_fs sample_dir true
       (sample_state [false]))) [] None.
Proof.
  assert (dir_ok sample_dir) as Hd by (split; vm_compute; intuition congruence).
  split; [exact Hd|].
  pose proof (sqfs_dir_next_progress sample_dir_fs sample_dir_fs_ok (CL := sample_laws)
    no_expectations (sample_state [false]) sample_dir (sample_inv _ _ _) Hd) as H.
  destruct H as [_ H]. destruct (sqfs_dir_next (m := M) _ _ _ _) as [[s' r]|]; [exact (proj1 H)|apply sample_inv].
Defined.

Lemma sqfs_dir_lookup_total_witness :
  inode_ranges sample_dir_inode /\
  inv sample_dir_fs no_expectations
    (final (sample_state []) (sqfs_dir_lookup (m := M) sample_dir_fs sample_dir_inode [x7a] 1
       (sample_state [true; true; false]))) [] None.
Proof.
  assert (inode_ranges sample_dir_inode) as Hr by (vm_compute; intuition congruence).
  split; [exact Hr|].
  pose proof (sqfs_dir_lookup_total sample_dir_fs sample_dir_fs_ok (CL := sample_laws)
    no_expectations (sample_state [true; true; false]) sample_dir_inode sample_xdir [x7a] 1
    (sample_inv _ _ _) eq_refl Hr) as H.
  destruct (sqfs_dir_lookup (m := M) _ _ _ _ _) as [[s' r]|]; [exact H|apply sample_inv].
Defined.

(** "//nope/": not found, the inode is left alone. *)
Lemma sqfs_lookup_path_walks_witness :
  exists s', sqfs_lookup_path_with_id (m := M) sample_dir_fs sample_dir_inode
      [x2f; x2f; x6e; x6f; x2f] (sample_state []) =
    Ret (s', Success (false, sample_dir_inode, None)).
Proof.
  pose proof (sqfs_lookup_path_walks sample_dir_fs (CL := sample_laws) no_expectations
    (sample_state []) sample_dir_inode [x2f; x2f; x6e; x6f; x2f] (sample_inv _ _ _) eq_refl) as H.
  assert (walk sample_dir_fs sample_dir_inode (components [x2f; x2f; x6e; x6f; x2f]) None =
          Ret (Success (false, sample_dir_inode, None))) as E by (vm_compute; reflexivity).
  rewrite E in H. destruct H as (s' & _ & H). exists s'. exact H.
Defined.
