(* ===== verification/Ends.v ===== *)
(** * Ends: runs on archives that may hold anything

    For the theorems that say "on any archive": a loop ends, a result has its bounds,
    and what stops the program is never a lack of fuel.  [ends] says it of the
    reference, [safe] of a run over the caches; their rules follow the constructs of the
    code, as those of [sim] do. *)
From S2P Require Import Prelude Swap Cache Decompress FsState Block BlockOk Sample MdRead Table Inode Dir.

(** [o] is an error, a result in [P], or a crash, but not a lack of fuel. *)
Definition ends {A} (o : O A) (P : A -> Prop) : Prop :=
  match o with
  | Ret (Success a) => P a
  | Ret (Failure _) => True
  | Crash c => c <> OutOfFuel
  end.

Lemma ends_bind {A B} (o : O A) (k : A -> O B) P Q :
  ends o P -> (forall a, P a -> ends (k a) Q) -> ends (a ← o; k a) Q.
Proof. intros Ho Hk. run_m. destruct o as [[a|]|]; [by apply Hk|done..]. Qed.

Lemma ends_or_err {A} (o : O A) P : ends o P -> ends (fm_or_err o) P.
Proof. by destruct o as [[]|]. Qed.

Lemma ends_lift {A} (o : outcome A) (P : A -> Prop) :
  match o with Ret a => P a | Crash c => c <> OutOfFuel end -> ends (fm_lift o) P.
Proof. by destruct o. Qed.

Lemma ends_weaken {A} (o : O A) (P Q : A -> Prop) : ends o P -> (forall a, P a -> Q a) -> ends o Q.
Proof. intros Ho H. destruct o as [[a|]|]; [by apply H|done..]. Qed.

(** The totality lemmas of the operations, in this form. *)
Lemma ends_total {A} (o : O A) (P : A -> Prop) :
  match o with Crash c => c = MemFault | Ret (Failure _) => True | Ret (Success a) => P a end ->
  ends o P.
Proof. destruct o as [[]|]; [done..|by intros ->]. Qed.

Section blocks.
Context (fs : sqfs) (Hfs : fs_ok fs).

Lemma block_spec_crash pos compressed size outsize c :
  0 <= outsize < 2 ^ 32 -> block_spec fs pos compressed size outsize = Crash c -> c = MemFault.
Proof.
  intros Ho. unfold block_spec. destruct (pread_exact _ size _) as [d|] eqn:E2; [|done].
  destruct compressed; [|done]. destruct (decompressor fs) as [dec|] eqn:Hd; [|congruence].
  pose proof (fs_decomp _ Hfs _ Hd d outsize (pread_small fs Hfs _ _ _ E2) Ho) as Hout. destruct (dec d _) as [[]|]; [done..|congruence].
Qed.

Lemma ends_data_block {A} w pos hdr (use : Z -> list byte -> outcome A) (P : A -> Prop) :
  0 <= fs.(sb).(sb_block_size) < 2 ^ 32 -> (forall n d, match use n d with Ret a => P a | Crash c => c <> OutOfFuel end) ->
  ends (with_data_block fs w pos hdr use) P.
Proof.
  intros Hbs Hu. cbn [with_data_block fs_spec]. apply (ends_bind _ _ (fun _ => True)).
  - unfold data_block_spec. destruct (sqfs_data_header hdr) as [c n].
    destruct (block_spec _ _ _ _ _) as [[]|] eqn:E; [done..|].
    apply block_spec_crash in E as ->; done.
  - intros d _. specialize (Hu (len d) d). by destruct (use _ _).
Qed.

Lemma ends_md_block {A} pos (use : Z -> Z -> list byte -> outcome A) (P : A -> Prop) :
  (forall p n d, match use p n d with Ret a => P a | Crash c => c <> OutOfFuel end) ->
  ends (with_md_block fs pos use) P.
Proof.
  intros Hu. cbn [with_md_block fs_spec]. run_m.
  destruct (md_block_spec fs pos) as [[[n d]|]|] eqn:E; [|done|].
  - specialize (Hu (s64 (pos + n)) (len d) d). by destruct (use _ _ _).
  - by apply md_block_crash in E as ->.
Qed.

Lemma mem_read_total {A} (l : list A) o n :
  match mem_read l o n with Ret bs => len bs = n | Crash c => c <> OutOfFuel end.
Proof.
  destruct (mem_read l o n) eqn:E; [by apply mem_read_inv in E as (_ & _ & _ & _ & ?)|].
  unfold mem_read in E. destruct (_ && _); congruence.
Qed.

(** Of metadata, with the bounds of what comes out. *)
Lemma ends_md_read cur buf size :
  in_size size -> in_size cur.(cur_offset) ->
  ends (sqfs_md_read (m := O) fs cur buf size)
    (fun p => 0 <= (fst p).(cur_offset) <= cur.(cur_offset) + size /\
              len (snd p) = if buf then size else 0).
Proof.
  intros Hs Hc. pose proof (md_read_spec_result fs Hfs cur buf size Hs Hc) as Hm.
  destruct (sqfs_md_read _ _ _ _) as [[[c bs]|]|] eqn:E; [|done|by subst].
  apply md_read_end in E as (? & _); [|done..]. done.
Qed.

Lemma ends_md_struct (A : Type) `{OnDisk A} cur :
  0 < disk_size A <= 65536 -> in_size cur.(cur_offset) ->
  ends (md_struct (m := O) A fs cur) (fun p => 0 <= (fst p).(cur_offset) <= 32768 /\ fits (snd p)).
Proof.
  intros Hs Hc. apply ends_total. pose proof (md_struct_total fs Hfs A cur Hs Hc) as Hm.
  by destruct (md_struct A fs cur) as [[[]|]|].
Qed.

Lemma ends_table_get t idx :
  ends (sqfs_table_get (m := O) t fs idx) (fun bs => len bs = t.(tbl_each)).
Proof.
  unfold sqfs_table_get. destruct (_ <=? _); [done|]. apply (ends_bind _ _ (fun _ => True)).
  - apply ends_lift. unfold table_block. destruct (tbl_blocks _); [by destruct (zlookup _ _)|done].
  - intros b _. apply ends_or_err, ends_md_block. intros p k d.
    pose proof (mem_read_total d (u64 (idx * tbl_each t) mod SQUASHFS_METADATA_SIZE)
      (tbl_each t)) as H. by destruct (mem_read _ _ _).
Qed.
End blocks.

(** ** Over the caches

    [safe m P]: over caches that may have been filled from anything, [m] ends with an
    error or a result in [P], or crashes, and leaves the state in order.  Memory may
    run out. *)
Section caches.
Context (fs : sqfs) (Hfs : fs_ok fs) {CI : CacheImpl} {CL : CacheLaws CI}.

Definition safe (b : bool) {A} (m : M A) (P : A -> Prop) : Prop :=
  meets fs any_expectations b m (fun o => ends o P).

Lemma safe_ends b {A} (m : M A) o (P : A -> Prop) :
  sim fs any_expectations b m o -> ends o P -> safe b m P.
Proof. intros Hm Ho. by eapply sim_meets. Qed.

Lemma safe_ret b {A} (a : A) (P : A -> Prop) : P a -> safe b (@mret _ (@fm_ret _ fs_impl) _ a) P.
Proof. intros Ha. by eapply safe_ends; [apply sim_ret|]. Qed.

Lemma safe_fail b {A} e (P : A -> Prop) : safe b (fm_fail e) P.
Proof. by eapply safe_ends; [apply sim_fail|]. Qed.

Lemma safe_lift b {A} (o : outcome A) (P : A -> Prop) :
  match o with Ret a => P a | Crash c => c <> OutOfFuel end -> safe b (fm_lift o) P.
Proof. intros Ho. eapply safe_ends; [apply sim_lift|by apply ends_lift]. Qed.

Lemma safe_bind b {A B} (m : M A) (k : A -> M B) P Q :
  safe b m P -> (forall a, P a -> safe b (k a) Q) ->
  safe b (@mbind _ (@fm_bind _ fs_impl) _ _ k m) Q.
Proof.
  intros Hm Hk s held bst Hb Hi. specialize (Hm s held bst Hb Hi).
  run_m. destruct (m s) as [[s1 [a|e]]|c]; [|by destruct Hm as (? & _ & ?); split; [done|]; split; [by left|]|done].
  destruct Hm as (Hi1 & [Ha|(? & ? & ?)] & Hmem); [|done].
  specialize (Hk a Ha s1 held bst Hb Hi1). destruct (k a s1) as [[s2 r]|c]; [|done].
  destruct Hk as (Hi2 & Hr & Hmem2). split; [done|]. split; [|auto].
  destruct Hr as [?|[Hne ?]]; [auto|]. right. split; [|done]. intros E. by apply Hne, Hmem.
Qed.

Lemma safe_or_err b {A} (m : M A) P : safe b m P -> safe b (fm_or_err m) P.
Proof.
  intros Hm s held bst Hb Hi. specialize (Hm s held bst Hb Hi).
  run_m. unfold impl_or_err, try; run_m.
  destruct (m s) as [[s1 [a|e]]|c]; cbn; [done| |done].
  destruct Hm as (Hi1 & _ & Hmem). split; [done|]. split; [by left|done].
Qed.

Lemma safe_data_block b {A} w pos hdr (use : Z -> list byte -> outcome A) (P : A -> Prop) :
  0 <= fs.(sb).(sb_block_size) < 2 ^ 32 -> w <> MdCache ->
  (forall n d, match use n d with Ret a => P a | Crash c => c <> OutOfFuel end) ->
  safe b (with_data_block fs w pos hdr use) P.
Proof.
  intros Hbs Hw Hu. apply meets_data_block; [done|destruct w; exact I|].
  intros h _. exact (ends_data_block fs Hfs w pos h use P Hbs Hu).
Qed.

Lemma safe_blockidx {A} key create (use : list sqfs_blockidx_entry -> outcome A) (P : A -> Prop) :
  safe false create (fun _ => True) ->
  (forall index, match use index with Ret a => P a | Crash c => c <> OutOfFuel end) ->
  safe true (with_blockidx key create use) P.
Proof.
  intros Hc Hu. eapply meets_blockidx; [exact Hc|done| |done|done].
  intros v _. specialize (Hu v). by destruct (use v).
Qed.

(** What [safe] says of a run. *)
Lemma safe_run b {A} (m : M A) (P : A -> Prop) s :
  safe b m P -> inv fs any_expectations s [] None ->
  match m s with
  | Crash c => c <> OutOfFuel
  | Ret (s', r) =>
      inv fs any_expectations s' [] None /\ match r with Success a => P a | Failure _ => True end
  end.
Proof.
  intros Hs Hi. specialize (Hs s [] None ltac:(done) Hi). destruct (m s) as [[s' r]|]; [|done].
  destruct Hs as (? & [Hr|(_ & e & ->)] & _); [|done]. by split.
Qed.
End caches.
