(* ===== verification/Stat.v ===== *)
(** * Stat: the attributes of an inode (stat.c, and its variant in ll_inode.c)

    [makedev] is the function of the C library that packs a device number. *)
From S2P Require Import Prelude Swap Cache Decompress FsState Block BlockOk Sample MdRead Table Inode.

(** struct stat, as far as it is filled. *)
Record stat := mk_stat {
  st_ino : Z;
  st_mode : Z;
  st_nlink : Z;
  st_mtime : Z;     (* and st_ctime, st_atime *)
  st_size : Z;
  st_blocks : Z;
  st_rdev : Z;
  st_blksize : Z;
  st_uid : Z;
  st_gid : Z
}.

Section stat.
Context (makedev : Z -> Z -> Z).
Context {m : Type -> Type} {FM : FsMonad m}.

Definition sqfs_makedev (maj min : Z) : Z := makedev maj min.

(** The size, blocks and device number: the mode tells which member of the union is
    read.  The [int] link count becomes an unsigned [nlink_t]. *)
Definition stat_xtra (links : bool) (inode : sqfs_inode) : m (Z * Z * Z) :=
  let st_mode := mode inode in
  if S_ISREG st_mode then
    r ← fm_lift (get_reg inode);
    let size := s64 r.(xr_file_size) in
    mret (size, Z.quot size 512, 0)
  else if S_ISBLK st_mode || S_ISCHR st_mode then
    '(major, minor) ← fm_lift (get_dev inode);
    mret (0, 0, sqfs_makedev major minor)
  else if links && S_ISLNK st_mode then
    size ← fm_lift (get_symlink_size inode);
    mret (s64 size, 0, 0)
  else mret (0, 0, 0).

Definition sqfs_stat (fs : sqfs) (inode : sqfs_inode) : m stat :=
  '(size, blocks, rdev) ← stat_xtra true inode;
  uid ← (if 0 <? fs.(fs_uid) then mret fs.(fs_uid) else sqfs_id_get fs inode.(base).(bi_uid));
  gid ← (if 0 <? fs.(fs_gid) then mret fs.(fs_gid) else sqfs_id_get fs inode.(base).(bi_guid));
  mret (mk_stat 0 (mode inode) (u64 inode.(nlink)) inode.(base).(bi_mtime) size blocks rdev
          fs.(sb).(sb_block_size) uid gid).

(** The copy in ll_inode.c: no size for a symbolic link, no choice of the owner. *)
Definition sqfs_ll_stat (fs : sqfs) (inode : sqfs_inode) : m stat :=
  '(size, blocks, rdev) ← stat_xtra false inode;
  uid ← sqfs_id_get fs inode.(base).(bi_uid);
  gid ← sqfs_id_get fs inode.(base).(bi_guid);
  mret (mk_stat 0 (mode inode) (u64 inode.(nlink)) inode.(base).(bi_mtime) size blocks rdev
          fs.(sb).(sb_block_size) uid gid).
End stat.

(** ** What the archive holds *)
Section disk.
Context (makedev : Z -> Z -> Z).

Definition disk_size_of (d : disk_inode) : Z :=
  match d with
  | DReg x => x.(reg_file_size) | DLreg x => s64 x.(lreg_file_size)
  | DSymlink x | DLsymlink x _ _ => x.(sym_symlink_size)
  | _ => 0
  end.
Definition disk_blocks_of (d : disk_inode) : Z :=
  match d with
  | DReg x => x.(reg_file_size) / 512 | DLreg x => Z.quot (s64 x.(lreg_file_size)) 512
  | _ => 0
  end.
Definition disk_rdev_of (d : disk_inode) : Z :=
  let dev rdev := makedev (dev_major rdev) (dev_minor rdev) in
  match d with
  | DDev x => dev x.(dev_rdev) | DLdev x => dev x.(ldev_rdev)
  | _ => 0
  end.

(** The owner: the one chosen when the archive was opened, or an entry of the table
    of ids [D]. *)
Definition owner (chosen : Z) (count : Z) (D : list (list byte)) (idx : Z) : result Z :=
  if 0 <? chosen then Success chosen
  else if idx <? count then Success (sqfs_swapin32 (slice (concat D) (idx * 4) 4))
  else Failure SQFS_ERR.

Definition disk_stat (fs : sqfs) (D : list (list byte)) (d : disk_inode) : result stat :=
  let b := disk_base d in
  let count := fs.(id_table).(tbl_count) in
  match owner fs.(fs_uid) count D b.(bi_uid), owner fs.(fs_gid) count D b.(bi_guid) with
  | Success uid, Success gid =>
      Success (mk_stat 0 (b.(bi_mode) ||| disk_mode_bits d)
                 (u64 (nlink (decode_inode d (mk_cursor 0 0)))) b.(bi_mtime) (disk_size_of d)
                 (disk_blocks_of d) (disk_rdev_of d) fs.(sb).(sb_block_size) uid gid)
  | _, _ => Failure SQFS_ERR
  end.
End disk.

Section correctness.
Context (makedev : Z -> Z -> Z) (fs : sqfs) (Hfs : fs_ok fs).
Context {CI : CacheImpl} {CL : CacheLaws CI} (X : expectations).

Lemma sim_stat_xtra b links i :
  sim fs X b (stat_xtra makedev links i) (stat_xtra makedev links i).
Proof. unfold stat_xtra. sim_tac. Qed.
Hint Resolve sim_stat_xtra : sim.

Lemma sim_stat b i : sim fs X b (sqfs_stat makedev fs i) (sqfs_stat makedev fs i).
Proof. unfold sqfs_stat. sim_tac. Qed.

Lemma fits_mode (b : squashfs_base_inode) : fits b -> 0 <= b.(bi_mode) < 2 ^ 16.
Proof.
  intros Hf. unfold fits, fields_fit in Hf. cbn in Hf. unfold base_layout, base_fields in Hf.
  rewrite ?Forall2_cons in Hf. apply Hf.
Qed.

Lemma decode_mode d next :
  (disk_base d).(bi_inode_type) ∈ disk_types d -> ((disk_base d).(bi_mode) &&& S_IFMT) = 0 ->
  (mode (decode_inode d next) &&& S_IFMT) = disk_mode_bits d.
Proof.
  intros Ht H. rewrite (disk_mode_spec d Ht), <- (mode_type _ _ H), <- (disk_mode_spec d Ht).
  by destruct d.
Qed.

Lemma stat_xtra_ref d next :
  disk_fits d -> (disk_base d).(bi_inode_type) ∈ disk_types d ->
  ((disk_base d).(bi_mode) &&& S_IFMT) = 0 ->
  stat_xtra makedev (m := O) true (decode_inode d next) =
  Ret (Success (disk_size_of d, disk_blocks_of d, disk_rdev_of makedev d)).
Proof.
  intros Hf Ht Hm. pose proof (decode_mode d next Ht Hm) as Hmode. unfold stat_xtra.
  unfold S_ISREG, S_ISBLK, S_ISCHR, S_ISLNK. rewrite Hmode. clear Hmode. unfold disk_mode_bits.
  destruct d; cbn [disk_base disk_types] in *;
    repeat (apply elem_of_cons in Ht as [Ht|Ht]); try (by apply not_elem_of_nil in Ht); rewrite ?Ht;
    try (destruct Hf as [Hf _]); cbn [disk_fits] in Hf; unfold fits, fields_fit in Hf; cbn in Hf;
    rewrite ?Forall2_cons in Hf; decompose [and] Hf;
    unfold sqfs_mode; cbn; try reflexivity.
  - rewrite (swrap_small 64), Z.quot_div_nonneg by lia. reflexivity.
  - rewrite (swrap_small 64) by lia. reflexivity.
  - rewrite (swrap_small 64) by lia. reflexivity.
Qed.

Lemma id_get_ref bl D idx :
  table_on_disk fs fs.(id_table) bl D -> fs.(id_table).(tbl_each) = 4 -> 0 <= idx ->
  sqfs_id_get (m := O) fs idx =
  Ret (if idx <? fs.(id_table).(tbl_count)
       then Success (sqfs_swapin32 (slice (concat D) (idx * 4) 4)) else Failure SQFS_ERR).
Proof.
  intros Ht He Hidx. unfold sqfs_id_get. run_m. destruct (Z.ltb_spec idx (tbl_count (id_table fs))).
  - rewrite (sqfs_table_get_ref fs _ bl D) by (done || lia). by rewrite He.
  - unfold sqfs_table_get. by rewrite (proj2 (Z.leb_le _ _)).
Qed.

Lemma owner_ref bl D chosen idx :
  table_on_disk fs fs.(id_table) bl D -> fs.(id_table).(tbl_each) = 4 -> 0 <= idx ->
  (if 0 <? chosen return O Z then Ret (Success chosen) else sqfs_id_get (m := O) fs idx) =
  Ret (owner chosen fs.(id_table).(tbl_count) D idx).
Proof.
  intros Ht He Hidx. unfold owner. destruct (0 <? chosen); [done|]. by apply (id_get_ref bl).
Qed.

Lemma owner_fail chosen count D idx e : owner chosen count D idx = Failure e -> e = SQFS_ERR.
Proof. unfold owner. repeat case_match; congruence. Qed.

Lemma type_mode m t : 0 <= m < 2 ^ 16 -> u16 (m ||| sqfs_mode t) = m ||| sqfs_mode t.
Proof.
  intros Hm. assert (0 <= sqfs_mode t < 2 ^ 16) by (unfold sqfs_mode; repeat case_match; done).
  unfold wrap. rewrite <- Z.land_ones by done. rewrite Z.land_lor_distr_l, !Z.land_ones by done.
  by rewrite !Z.mod_small.
Qed.

Lemma stat_ref bl D d next :
  disk_fits d -> (disk_base d).(bi_inode_type) ∈ disk_types d ->
  ((disk_base d).(bi_mode) &&& S_IFMT) = 0 ->
  table_on_disk fs fs.(id_table) bl D -> fs.(id_table).(tbl_each) = 4 ->
  sqfs_stat makedev (m := O) fs (decode_inode d next) = Ret (disk_stat makedev fs D d).
Proof.
  intros Hf Ht Hm Htab He. unfold sqfs_stat. run_m. rewrite stat_xtra_ref by done.
  destruct (disk_base_spec d Hf) as [Hb _].
  assert (0 <= (disk_base d).(bi_uid) /\ 0 <= (disk_base d).(bi_guid)) as [Hu Hg].
  { unfold fits, fields_fit in Hb. cbn in Hb. unfold base_layout, base_fields in Hb.
    rewrite ?Forall2_cons in Hb. decompose [and] Hb. lia. }
  pose proof (owner_ref bl D fs.(fs_uid) _ Htab He Hu) as E1.
  pose proof (owner_ref bl D fs.(fs_gid) _ Htab He Hg) as E2.
  unfold disk_stat. rewrite (disk_mode_spec d Ht), <- (type_mode _ _ (fits_mode _ Hb)).
  replace (bi_uid (base (decode_inode d next))) with (bi_uid (disk_base d)) by (by destruct d).
  replace (bi_guid (base (decode_inode d next))) with (bi_guid (disk_base d)) by (by destruct d).
  rewrite E1. destruct (owner (fs_uid fs) _ _ _) eqn:O1; [|by apply owner_fail in O1 as ->].
  rewrite E2. destruct (owner (fs_gid fs) _ _ _) eqn:O2; [|by apply owner_fail in O2 as ->].
  rewrite <- (disk_mode_spec d Ht). by destruct d.
Qed.

(** C29: the attributes of an inode, from its place in the archive: its type and mode,
    its links and time, the size of a file or of the target of a link, the number of a
    device, and its owners, which are entries of the table of ids unless the archive
    was opened with others; an id outside the table is an error. *)
Theorem sqfs_stat_correct (s : sqfs_state) (id : Z) (d : disk_inode) (bl : list Z)
    (D : list (list byte)) :
  inv fs X s [] None -> s.(mem) = [] ->
  inode_at fs id d -> disk_fits d -> in_size (65536 + len (disk_bytes d)) ->
  (disk_base d).(bi_inode_type) ∈ disk_types d -> ((disk_base d).(bi_mode) &&& S_IFMT) = 0 ->
  table_on_disk fs fs.(id_table) bl D -> fs.(id_table).(tbl_each) = 4 ->
  exists s', inv fs X s' [] None /\
    (i ← sqfs_inode_get (m := M) fs id; sqfs_stat makedev fs i) s =
      Ret (s', disk_stat makedev fs D d).
Proof.
  intros Hi Hm Hat Hf Hs Ht Hmode Htab He.
  destruct (decode_ref fs Hfs id d Hat Hf Hs Ht) as (next & E & _).
  destruct (sim_exact fs X false (i ← sqfs_inode_get (m := M) fs id; sqfs_stat makedev fs i)
    (i ← sqfs_inode_get (m := O) fs id; sqfs_stat makedev fs i) s (disk_stat makedev fs D d))
    as (s' & ? & ? & _); [|done|done| |by exists s'].
  - apply sim_bind; [apply sim_inode_get|]. intros i. apply sim_stat.
  - run_m. rewrite E. by apply (stat_ref bl).
Qed.

(** the copy of [sqfs_stat] in ll_inode.c gives the same attributes for an archive
    opened without chosen owners, but for symbolic links, whose size it leaves 0. *)
Theorem sqfs_ll_stat_agrees (inode : sqfs_inode) :
  fs.(fs_uid) = 0 -> fs.(fs_gid) = 0 -> union_ok inode ->
  sqfs_ll_stat makedev (m := O) fs inode =
  match sqfs_stat makedev (m := O) fs inode with
  | Ret (Success st) =>
      Ret (Success (mk_stat st.(st_ino) st.(st_mode) st.(st_nlink) st.(st_mtime)
        (if S_ISLNK (mode inode) then 0 else st.(st_size)) st.(st_blocks) st.(st_rdev)
        st.(st_blksize) st.(st_uid) st.(st_gid)))
  | r => r
  end.
Proof.
  intros Hu Hg (_ & _ & Hlink & _). unfold sqfs_ll_stat, sqfs_stat. rewrite Hu, Hg.
  cbn [Z.ltb Z.compare]. run_m.
  assert (forall links links' r, stat_xtra makedev (m := O) links inode = r ->
    S_ISLNK (mode inode) = false -> stat_xtra makedev (m := O) links' inode = r) as Hsame.
  { intros links links' r <- Hl. unfold stat_xtra. by rewrite Hl, !andb_false_r. }
  destruct (S_ISLNK (mode inode)) eqn:Hl.
  - destruct (Hlink eq_refl) as [n Hx].
    assert (S_ISREG (mode inode) = false /\ S_ISBLK (mode inode) = false /\
            S_ISCHR (mode inode) = false) as (H1 & H2 & H3).
    { unfold S_ISREG, S_ISLNK, S_ISBLK, S_ISCHR in *.
      apply Z.eqb_eq in Hl. by rewrite Hl. }
    unfold stat_xtra. rewrite Hl, H1, H2, H3. cbn [orb andb]. run_m.
    unfold get_symlink_size. rewrite Hx. cbn [spec_lift].
    destruct (sqfs_id_get fs _) as [[|]|]; try done. by destruct (sqfs_id_get fs _) as [[|]|].
  - rewrite (Hsame true false _ eq_refl eq_refl).
    destruct (stat_xtra makedev true inode) as [[[[? ?] ?]|]|]; try done.
    destruct (sqfs_id_get fs _) as [[|]|]; try done. by destruct (sqfs_id_get fs _) as [[|]|].
Qed.
End correctness.

(** ** A long link, owned by the last id of the sample table *)
Definition sample_stat_link : squashfs_symlink_inode :=
  Build_squashfs_symlink_inode
    (Build_squashfs_base_inode SQUASHFS_LSYMLINK_TYPE 0x1ff 2 0 1700000000 7) 1 5.
Definition sample_stat_disk : disk_inode := DLsymlink sample_stat_link sample_target 3.
Definition sample_stat_fs : sqfs :=
  mk_sqfs (stored_md (disk_bytes sample_stat_disk) ++ stored_md sample_ids) 0 0 0 sample_sb
    (mk_table 4 3 (Some [2 + len (disk_bytes sample_stat_disk)])) table_zero table_zero None
    (Build_squashfs_xattr_id_table 0 0 0) table_zero.
(** The packing of glibc, for small numbers. *)
Definition sample_makedev (maj min : Z) : Z := Z.lor (Z.shiftl maj 8) min.

Lemma sqfs_stat_correct_witness :
  answer ((i ← sqfs_inode_get (m := M) sample_stat_fs 0; sqfs_stat sample_makedev sample_stat_fs i)
            (sample_state [])) =
    Ret (Success (mk_stat 0 0xa1ff 1 1700000000 5 0 0 0 65534 1000)).
Proof.
  assert (fs_ok sample_stat_fs) as Hfs by (split; [vm_compute; congruence|done]).
  destruct (sqfs_stat_correct sample_makedev sample_stat_fs Hfs (CL := sample_laws) no_expectations
    (sample_state []) 0 sample_stat_disk [2 + len (disk_bytes sample_stat_disk)] [sample_ids]
    (sample_inv _ _ _) eq_refl) as (s' & _ & E).
  - eexists. vm_compute. reflexivity.
  - split; [|by split]. repeat constructor; vm_compute; congruence.
  - vm_compute; intuition congruence.
  - by left.
  - reflexivity.
  - split; [reflexivity|by exists 2048|vm_compute; intuition congruence| | | |vm_compute; congruence].
    + constructor; [|constructor]. eexists. vm_compute. reflexivity.
    + intros [|j] d Hd Hj; [cbn in Hj; lia|done].
    + intros [|j] d Hd; [|done]. injection Hd as <-. vm_compute. congruence.
  - reflexivity.
  - rewrite E. vm_compute. reflexivity.
Defined.

Lemma sqfs_ll_stat_agrees_witness :
  sqfs_ll_stat sample_makedev (m := O) sample_stat_fs (decode_inode sample_stat_disk (mk_cursor 0 0)) =
    Ret (Success (mk_stat 0 0xa1ff 1 1700000000 0 0 0 0 65534 1000)).
Proof.
  assert (union_ok (decode_inode sample_stat_disk (mk_cursor 0 0))) as Hu
    by (repeat split; intros H; first [discriminate H | by eexists]).
  rewrite (sqfs_ll_stat_agrees sample_makedev sample_stat_fs _ eq_refl eq_refl Hu).
  vm_compute. reflexivity.
Defined.
