(* ===== verification/SampleTree.v ===== *)
(** * SampleTree: a whole archive

    A superblock, an inode table with two directories and a file, and a directory
    table: "/a" is a file, "/d" a directory with the file "x". *)
From S2P Require Import Prelude Swap Cache CacheST Decompress FsState Block BlockOk Sample MdRead Table Inode Dir.

Definition tree_root_items : list dir_item :=
  [sample_item (Some (Build_squashfs_dir_header 1 0 1)) 64 2 SQUASHFS_REG_TYPE [x61];
   sample_item None 32 1 SQUASHFS_DIR_TYPE [x64]].
Definition tree_sub_items : list dir_item :=
  [sample_item (Some (Build_squashfs_dir_header 0 0 1)) 64 2 SQUASHFS_REG_TYPE [x78]].

Definition tree_dir_inode (num offset : Z) (its : list dir_item) : squashfs_dir_inode :=
  Build_squashfs_dir_inode (sample_base SQUASHFS_DIR_TYPE 0x1ed num) 0 2
    (len (items_bytes its) + 3) offset 1.
Definition tree_root_inode : squashfs_dir_inode := tree_dir_inode 1 0 tree_root_items.
Definition tree_sub_inode : squashfs_dir_inode :=
  tree_dir_inode 2 (len (items_bytes tree_root_items)) tree_sub_items.
Definition tree_file_inode : squashfs_reg_inode :=
  Build_squashfs_reg_inode (sample_base SQUASHFS_REG_TYPE 0x1a4 3) 96 SQUASHFS_INVALID_FRAG 0 0.

Definition tree_inodes : list byte :=
  stored_md (to_disk tree_root_inode ++ to_disk tree_sub_inode ++ to_disk tree_file_inode).
Definition tree_dirs : list byte :=
  stored_md (items_bytes tree_root_items ++ items_bytes tree_sub_items).

Definition tree_sb : squashfs_super_block :=
  Build_squashfs_super_block SQUASHFS_MAGIC 3 0 131072 0 ZLIB_COMPRESSION 17 0 0 4 0 0
    (96 + len tree_inodes + len tree_dirs) 96 (2 ^ 64 - 1) 96 (96 + len tree_inodes) 96 (2 ^ 64 - 1).
Definition tree_image : list byte := to_disk tree_sb ++ tree_inodes ++ tree_dirs.
(** Mounted with the option that gives every file to one user. *)
Definition tree_fs : sqfs :=
  mk_sqfs tree_image 0 1000 1000 tree_sb table_zero table_zero table_zero None
    (Build_squashfs_xattr_id_table 0 0 0) table_zero.

Lemma tree_fs_ok : fs_ok tree_fs.
Proof. split; [vm_compute; congruence|done]. Qed.

Lemma tree_item_fits it : it ∈ tree_root_items ++ tree_sub_items -> item_fits it.
Proof.
  intros H. repeat (apply elem_of_cons in H as [->|H]); [..|by apply not_elem_of_nil in H];
    (split; [|split; vm_compute; congruence]); repeat constructor; vm_compute; congruence.
Qed.

Lemma tree_sub_items_ok : items_ok 0 tree_sub_items.
Proof.
  apply items_group with (n := 0); [|repeat constructor; vm_compute; congruence|done|done|constructor].
  apply (tree_item_fits (sample_item (Some (Build_squashfs_dir_header 0 0 1)) 64 2 SQUASHFS_REG_TYPE [x78])).
  do 2 right. by left.
Qed.

Lemma tree_root_items_ok : items_ok 0 tree_root_items.
Proof.
  apply items_group with (n := 1); [|repeat constructor; vm_compute; congruence|done|done|].
  - apply (tree_item_fits (sample_item (Some (Build_squashfs_dir_header 1 0 1)) 64 2 SQUASHFS_REG_TYPE [x61])).
    by left.
  - apply (items_more 0); [|constructor].
    apply (tree_item_fits (sample_item None 32 1 SQUASHFS_DIR_TYPE [x64])). right. by left.
Qed.

(** The inodes as the code has them. *)
Definition tree_inode (x : squashfs_dir_inode) (next : sqfs_md_cursor) : sqfs_inode :=
  decode_inode (DDir x) next.
Definition tree_root : sqfs_inode := tree_inode tree_root_inode (mk_cursor 96 32).
Definition tree_sub : sqfs_inode := tree_inode tree_sub_inode (mk_cursor 96 64).

Lemma tree_root_get : sqfs_inode_get (m := O) tree_fs 0 = Ret (Success tree_root).
Proof. vm_compute. reflexivity. Qed.
Lemma tree_sub_get : sqfs_inode_get (m := O) tree_fs 32 = Ret (Success tree_sub).
Proof. vm_compute. reflexivity. Qed.

Definition tree_xdir (x : squashfs_dir_inode) : xtra_dir :=
  mk_xdir x.(dir_start_block) x.(dir_offset) x.(dir_file_size) 0 x.(dir_parent_inode).

Lemma tree_dir_on_disk fs x next its :
  S_ISDIR (mode (tree_inode x next)) = true -> 0 <= x.(dir_offset) < SQUASHFS_METADATA_SIZE ->
  x.(dir_file_size) = len (items_bytes its) + 3 ->
  positioned fs
    (mk_dir (mk_cursor (s64 (x.(dir_start_block) + fs.(sb).(sb_directory_table_start)))
               x.(dir_offset)) 0 (len (items_bytes its)) no_header) its ->
  0 <= next.(cur_offset) < 2 ^ 50 ->
  dir_on_disk fs (tree_inode x next) (tree_xdir x) its [].
Proof.
  intros Hm Ho Hs Hp Hn. split; try done.
  - exists next. done.
  - cbn. lia.
Qed.

Lemma tree_root_on_disk : dir_on_disk tree_fs tree_root (tree_xdir tree_root_inode) tree_root_items [].
Proof.
  apply tree_dir_on_disk; [reflexivity|vm_compute; intuition congruence|reflexivity| |
    vm_compute; intuition congruence].
  split; [eexists; vm_compute; reflexivity|apply tree_root_items_ok|reflexivity| |];
    vm_compute; intuition congruence.
Qed.

Lemma tree_sub_on_disk : dir_on_disk tree_fs tree_sub (tree_xdir tree_sub_inode) tree_sub_items [].
Proof.
  apply tree_dir_on_disk; [reflexivity|vm_compute; intuition congruence|reflexivity| |
    vm_compute; intuition congruence].
  split; [eexists; vm_compute; reflexivity|apply tree_sub_items_ok|reflexivity| |];
    vm_compute; intuition congruence.
Qed.
