(* ===== verification/Traverse.v ===== *)
(** * Traverse: depth-first traversal of a tree (traverse.c)

    The traversal keeps a stack of open directories and the path of the current
    item; [sqfs_traverse_next] is a state machine.  The functions work on the state
    of the archive (the monad [M]) and give back the structure also when they fail,
    as [sqfs_traverse_close] and [sqfs_traverse_prune] may follow. *)
From S2P Require Import Prelude Swap Stack Cache CacheST Decompress FsState Block BlockOk Sample MdRead Table Inode Dir SampleTree.

Definition TRAVERSE_PATH_SEPARATOR : list byte := [slash].
Definition TRAVERSE_DEFAULT_PATH_CAP : Z := 32.

Inductive sqfs_traverse_state :=
  | TRAVERSE_DESCEND | TRAVERSE_NAME_REMOVE
  | TRAVERSE_ERROR | TRAVERSE_FINISHED
  | TRAVERSE_ASCEND | TRAVERSE_NAME_ADD | TRAVERSE_GET_ENTRY.

Record sqfs_traverse_level := mk_level { l_dir : sqfs_dir; l_name_size : Z }.
(** On a 64-bit machine. *)
Definition sizeof_traverse_level : Z := 56.

(** What a function returns and what it stores in [*err]: [SQFS_OK] or an error. *)
Abbreviation status := (result unit).

(** [t_path] is the allocated object, with the bytes never written as [None].  The
    archive [fs] is an argument of the functions. *)
Record sqfs_traverse := mk_trv {
  dir_end : bool;
  t_entry : sqfs_dir_entry;
  t_path : option (list (option byte));
  t_state : sqfs_traverse_state;
  t_stack : sqfs_stack sqfs_traverse_level;
  path_size : Z;
  path_cap : Z;
  path_last_size : Z
}.

Definition with_dir_end (t : sqfs_traverse) (b : bool) : sqfs_traverse :=
  mk_trv b t.(t_entry) t.(t_path) t.(t_state) t.(t_stack) t.(path_size) t.(path_cap)
    t.(path_last_size).
Definition with_entry (t : sqfs_traverse) (e : sqfs_dir_entry) : sqfs_traverse :=
  mk_trv t.(dir_end) e t.(t_path) t.(t_state) t.(t_stack) t.(path_size) t.(path_cap)
    t.(path_last_size).
Definition with_path (t : sqfs_traverse) (p : option (list (option byte))) (size cap : Z)
    : sqfs_traverse :=
  mk_trv t.(dir_end) t.(t_entry) p t.(t_state) t.(t_stack) size cap t.(path_last_size).
Definition with_state (t : sqfs_traverse) (st : sqfs_traverse_state) : sqfs_traverse :=
  mk_trv t.(dir_end) t.(t_entry) t.(t_path) st t.(t_stack) t.(path_size) t.(path_cap)
    t.(path_last_size).
Definition with_stack (t : sqfs_traverse) (s : sqfs_stack sqfs_traverse_level) : sqfs_traverse :=
  mk_trv t.(dir_end) t.(t_entry) t.(t_path) t.(t_state) s t.(path_size) t.(path_cap)
    t.(path_last_size).

(** ** The path *)

(** Writing [bs] at position [i]. *)
Definition path_write (t : sqfs_traverse) (i : Z) (bs : list byte) : outcome sqfs_traverse :=
  match t.(t_path) with
  | None => Crash MemFault
  | Some buf =>
      if (0 <=? i) && (i + len bs <=? len buf) then
        Ret (with_path t (Some (take (Z.to_nat i) buf ++ (Some <$> bs) ++
                                drop (Z.to_nat (i + len bs)) buf))
               t.(path_size) t.(path_cap))
      else Crash MemFault
  end.

Definition sqfs_traverse_path_terminate (t : sqfs_traverse) : outcome sqfs_traverse :=
  path_write t (u64 (t.(path_size) - 1)) [x00].

(** [while (need > next_cap) next_cap *= 2;] in [size_t]: at most 64 turns, unless
    [next_cap] becomes 0 and the loop never ends. *)
Fixpoint double_cap (n : nat) (need next_cap : Z) : outcome Z :=
  if next_cap <? need then
    match n with
    | 0%nat => Crash OutOfFuel
    | S n => double_cap n need (u64 (next_cap * 2))
    end
  else Ret next_cap.

Definition sqfs_traverse_path_remove (t : sqfs_traverse) (size : Z) : outcome sqfs_traverse :=
  let n := if size <? t.(path_size) then t.(path_size) - size else 1 in
  sqfs_traverse_path_terminate (with_path t t.(t_path) n t.(path_cap)).

Definition sqfs_traverse_path_remove_name (t : sqfs_traverse) : outcome sqfs_traverse :=
  sqfs_traverse_path_remove t t.(path_last_size).
Definition sqfs_traverse_path_remove_sep (t : sqfs_traverse) : outcome sqfs_traverse :=
  sqfs_traverse_path_remove t (len TRAVERSE_PATH_SEPARATOR).
Definition sqfs_traverse_path_set_name_size (t : sqfs_traverse) (size : Z) : sqfs_traverse :=
  mk_trv t.(dir_end) t.(t_entry) t.(t_path) t.(t_state) t.(t_stack) t.(path_size) t.(path_cap)
    size.

Section traverse.
Context {CI : CacheImpl}.

Definition sqfs_traverse_path_init (t : sqfs_traverse) : M (status * sqfs_traverse) :=
  ok ← malloc_ok;
  mret (if (ok : bool) then
          (Success tt, with_path t (Some (Some x00 :: replicate 31 None)) 1 TRAVERSE_DEFAULT_PATH_CAP)
        else (Failure SQFS_ERR, with_path t None t.(path_size) TRAVERSE_DEFAULT_PATH_CAP)).

Definition sqfs_traverse_path_add (t : sqfs_traverse) (str : list byte)
    : M (status * sqfs_traverse) :=
  let need := u64 (t.(path_size) + len str) in
  '(ok, t) ←
    (if t.(path_cap) <? need then
       next_cap ← lift (double_cap 64 need t.(path_cap));
       ok ← malloc_ok;
       mret (ok, if (ok : bool) then
               with_path t (resize (Z.to_nat next_cap) None <$> t.(t_path)) t.(path_size) next_cap
             else t)
     else mret (true, t));
  if (ok : bool) then
    t ← lift (path_write t (u64 (t.(path_size) - 1)) str);
    t ← lift (sqfs_traverse_path_terminate (with_path t t.(t_path) need t.(path_cap)));
    mret (Success tt, t)
  else mret (Failure SQFS_ERR, t).

(** The name is read from the buffer of the entry, as many bytes as its size. *)
Definition sqfs_traverse_path_add_name (t : sqfs_traverse) : M (status * sqfs_traverse) :=
  let t := sqfs_traverse_path_set_name_size t (sqfs_dentry_name_size t.(t_entry)) in
  str ← lift (mem_read (default [] (sqfs_dentry_name t.(t_entry))) 0 t.(path_last_size));
  sqfs_traverse_path_add t str.

Definition sqfs_traverse_path_add_sep (t : sqfs_traverse) : M (status * sqfs_traverse) :=
  sqfs_traverse_path_add t TRAVERSE_PATH_SEPARATOR.

(** ** Directories *)

(** A slot with contents that are not to be read: the call that fills it failed. *)
Definition slot_clear (s : sqfs_stack sqfs_traverse_level) (p : Z) : sqfs_stack sqfs_traverse_level :=
  {| value_size := s.(value_size); size := s.(size); capacity := s.(capacity);
     items := zinsert p None s.(items); freer := s.(freer) |}.

Definition stack_push (s : sqfs_stack sqfs_traverse_level)
    : M (result (sqfs_stack sqfs_traverse_level * Z)) := fun st =>
  let (r, ms) := sqfs_stack_push s st.(mem) in Ret (set_mem st ms, Success r).

Definition sqfs_traverse_descend_inode (fs : sqfs) (t : sqfs_traverse) (inode : sqfs_inode)
    : M (status * sqfs_traverse) :=
  let initial := sqfs_stack_size t.(t_stack) =? 0 in
  r ← stack_push t.(t_stack);
  match r with
  | Failure e => mret (Failure e, t)
  | Success (stack, level) =>
      r ← try (sqfs_dir_open fs inode 0);
      match r with
      | Failure e => mret (Failure e, with_stack t (slot_clear stack level))
      | Success dir =>
          let name_size := if initial then 0 else sqfs_dentry_name_size t.(t_entry) in
          stack ← lift (slot_write stack level (mk_level dir name_size));
          if initial then mret (Success tt, with_stack t stack)
          else sqfs_traverse_path_add_sep (with_stack t stack)
      end
  end.

Definition sqfs_traverse_descend (fs : sqfs) (t : sqfs_traverse) (iid : Z)
    : M (status * sqfs_traverse) :=
  r ← try (sqfs_inode_get fs iid);
  match r with
  | Failure e => mret (Failure e, t)
  | Success inode => sqfs_traverse_descend_inode fs t inode
  end.

Definition sqfs_traverse_ascend (t : sqfs_traverse) : outcome (status * sqfs_traverse) :=
  match sqfs_stack_top t.(t_stack) with
  | Failure e => Ret (Failure e, t)
  | Success level =>
      t ← sqfs_traverse_path_remove_sep t;
      l ← slot_read t.(t_stack) level;
      let t := sqfs_traverse_path_set_name_size t l.(l_name_size) in
      let '(_, stack, _) := sqfs_stack_pop t.(t_stack) in
      Ret (Success tt, with_stack t stack)
  end.

(** ** Opening and closing *)
Definition sqfs_dentry_init (e : sqfs_dir_entry) (namebuf : option (list byte)) : sqfs_dir_entry :=
  mk_dentry e.(e_inode) e.(e_inode_number) e.(e_type) namebuf e.(e_name_size) e.(e_offset)
    e.(e_next_offset).

(** [namebuf] is not cleared. *)
Definition sqfs_traverse_init (t : sqfs_traverse) : sqfs_traverse :=
  with_state
    (with_path
       (with_stack
          (with_entry t (sqfs_dentry_init t.(t_entry)
                           (Some (default [] t.(t_entry).(e_name)))))
          (sqfs_stack_init t.(t_stack)))
       None t.(path_size) t.(path_cap))
    TRAVERSE_ERROR.

(** The traversal gives its stack no free function: one that is called all the same
    is an address that was never set. *)
Definition sqfs_traverse_close (t : sqfs_traverse) : outcome sqfs_traverse :=
  let (stack, freed) := sqfs_stack_destroy t.(t_stack) in
  match freed with
  | [] => Ret (sqfs_traverse_init (with_stack t stack))
  | _ => Crash MemFault
  end.

(** [t] is what the caller's structure holds before the call. *)
Definition sqfs_traverse_open_inode (t : sqfs_traverse) (fs : sqfs) (inode : sqfs_inode)
    : M (status * sqfs_traverse) :=
  let error e t := t ← lift (sqfs_traverse_close t); mret (Failure e, t) in
  '(err, t) ← sqfs_traverse_path_init (sqfs_traverse_init t);
  match err with
  | Success _ =>
      (* an initial capacity of 0: nothing is allocated *)
      match fst (sqfs_stack_create sizeof_traverse_level 0 false []) with
      | Failure e => error e t
      | Success stack =>
          '(err, t) ← sqfs_traverse_descend_inode fs (with_stack t stack) inode;
          match err with
          | Success _ =>
              mret (Success tt,
                    with_state (sqfs_traverse_path_set_name_size t 0) TRAVERSE_NAME_REMOVE)
          | Failure e => error e t
          end
      end
  | Failure e => error e t
  end.

Definition sqfs_traverse_open (t : sqfs_traverse) (fs : sqfs) (iid : Z)
    : M (status * sqfs_traverse) :=
  r ← try (sqfs_inode_get fs iid);
  match r with
  | Failure e => mret (Failure e, t)
  | Success inode => sqfs_traverse_open_inode t fs inode
  end.

Definition sqfs_traverse_prune (t : sqfs_traverse) : sqfs_traverse :=
  with_state t TRAVERSE_NAME_REMOVE.

(** ** The state machine *)
Definition trv_error {A} (t : sqfs_traverse) (e : sqfs_err) (r : A) : M (A * status * sqfs_traverse) :=
  mret (r, Failure e, with_state t TRAVERSE_ERROR).

(** An entry of which [sqfs_dir_next] wrote only the offset. *)
Definition entry_at_end (e : sqfs_dir_entry) (d : sqfs_dir) : sqfs_dir_entry :=
  mk_dentry e.(e_inode) e.(e_inode_number) e.(e_type) e.(e_name) e.(e_name_size) d.(d_offset)
    e.(e_next_offset).

(** [n] bounds the number of state changes. *)
Fixpoint traverse_loop (n : nat) (fs : sqfs) (t : sqfs_traverse)
    : M (bool * status * sqfs_traverse) :=
  match n with
  | 0%nat => lift (Crash OutOfFuel)
  | S n =>
      match t.(t_state) with
      | TRAVERSE_GET_ENTRY =>
          match sqfs_stack_top t.(t_stack) with
          | Failure e => trv_error t e false
          | Success level =>
              l ← lift (slot_read t.(t_stack) level);
              r ← try (sqfs_dir_next fs l.(l_dir) true);
              match r with
              | Failure e => trv_error (with_stack t (slot_clear t.(t_stack) level)) e false
              | Success (dir, found) =>
                  stack ← lift (slot_write t.(t_stack) level (mk_level dir l.(l_name_size)));
                  let t := with_stack t stack in
                  match found with
                  | Some e => traverse_loop n fs (with_state (with_entry t e) TRAVERSE_NAME_ADD)
                  | None =>
                      traverse_loop n fs
                        (with_state (with_entry t (entry_at_end t.(t_entry) l.(l_dir)))
                           TRAVERSE_ASCEND)
                  end
              end
          end
      | TRAVERSE_NAME_ADD =>
          '(err, t) ← sqfs_traverse_path_add_name t;
          match err with
          | Success _ =>
              let st := if sqfs_dentry_is_dir t.(t_entry) then TRAVERSE_DESCEND
                        else TRAVERSE_NAME_REMOVE in
              mret (true, Success tt, with_dir_end (with_state t st) false)
          | Failure e => trv_error t e false
          end
      | TRAVERSE_NAME_REMOVE =>
          t ← lift (sqfs_traverse_path_remove_name t);
          traverse_loop n fs (with_state t TRAVERSE_GET_ENTRY)
      | TRAVERSE_DESCEND =>
          '(err, t) ← sqfs_traverse_descend fs t (sqfs_dentry_inode t.(t_entry));
          match err with
          | Success _ => traverse_loop n fs (with_state t TRAVERSE_GET_ENTRY)
          | Failure e => trv_error t e false
          end
      | TRAVERSE_ASCEND =>
          '(err, t) ← lift (sqfs_traverse_ascend t);
          match err with
          | Success _ =>
              if 0 <? sqfs_stack_size t.(t_stack) then
                mret (true, Success tt, with_state (with_dir_end t true) TRAVERSE_NAME_REMOVE)
              else traverse_loop n fs (with_state t TRAVERSE_FINISHED)
          | Failure e => trv_error t e false
          end
      | TRAVERSE_FINISHED => mret (false, Success tt, t)
      | TRAVERSE_ERROR => trv_error t SQFS_ERR false
      end
  end.

(** No call goes through more than four states. *)
Definition sqfs_traverse_next (fs : sqfs) (t : sqfs_traverse) : M (bool * status * sqfs_traverse) :=
  traverse_loop 4 fs t.
End traverse.

(** ** A client: what a whole traversal gives *)
Definition is_ret {A} (o : outcome A) : Prop :=
  match o with Ret _ => True | Crash _ => False end.


(** The path as the client finds it. *)
Definition path_bytes (t : sqfs_traverse) : outcome (list byte) :=
  match t.(t_path) with
  | None => Crash MemFault
  | Some buf =>
      match mapM id (take (Z.to_nat (t.(path_size) - 1)) buf) with
      | Some bs => Ret bs
      | None => Crash MemFault
      end
  end.

Inductive event :=
  | Item (path : list byte) (e : sqfs_dir_entry)
  | Dir_end (path : list byte).

(** What a client finds when [sqfs_traverse_next] has returned true. *)
Definition event_of (t : sqfs_traverse) : outcome event :=
  p ← path_bytes t;
  Ret (if t.(dir_end) then Dir_end p else Item p t.(t_entry)).

(** The client prunes the directories that [cut] tells. *)
Definition after_item (cut : list byte -> sqfs_dir_entry -> bool) (t : sqfs_traverse) (ev : event)
    : sqfs_traverse :=
  match ev with
  | Item p e => if cut p e then sqfs_traverse_prune t else t
  | Dir_end _ => t
  end.

(** [while (sqfs_traverse_next(&trv, &err))], at most [n] times. *)
Fixpoint traverse_run {CI : CacheImpl} (n : nat) (fs : sqfs)
    (cut : list byte -> sqfs_dir_entry -> bool) (t : sqfs_traverse)
    : M (list event * status * sqfs_traverse) :=
  match n with
  | 0%nat => lift (Crash OutOfFuel)
  | S n =>
      '(more, err, t) ← sqfs_traverse_next fs t;
      if (more : bool) then
        ev ← lift (event_of t);
        '(evs, err, t) ← traverse_run n fs cut (after_item cut t ev);
        mret (ev :: evs, err, t)
      else mret ([], err, t)
  end.

(** A forest: the first entry of a directory, what is below it, and the entries
    after it. *)
Inductive forest :=
  | FNil
  | FCons (e : sqfs_dir_entry) (children rest : forest).

Fixpoint roots (f : forest) : list sqfs_dir_entry :=
  match f with FNil => [] | FCons e _ rest => e :: roots rest end.
Fixpoint height (f : forest) : Z :=
  match f with
  | FNil => 0
  | FCons _ children rest => Z.max (1 + height children) (height rest)
  end.

(** [f] is what the archive holds below a directory with the entries [roots f]. *)
Fixpoint forest_on_disk (fs : sqfs) (f : forest) : Prop :=
  match f with
  | FNil => True
  | FCons e children rest =>
      (if sqfs_dentry_is_dir e then
         exists i x its index,
           sqfs_inode_get (m := O) fs e.(e_inode) = Ret (Success i) /\
           dir_on_disk fs i x its index /\ listing no_header 0 its = roots children
       else children = FNil) /\
      forest_on_disk fs children /\ forest_on_disk fs rest
  end.

(** The names of the directories on the way, joined. *)
Definition prefix (names : list (list byte)) : list byte :=
  concat (map (fun n => n ++ TRAVERSE_PATH_SEPARATOR) names).

(** Depth first; every directory that is gone into has an end. *)
Fixpoint events (cut : list byte -> sqfs_dir_entry -> bool) (names : list (list byte)) (f : forest)
    : list event :=
  match f with
  | FNil => []
  | FCons e children rest =>
      let name := default [] e.(e_name) in
      let p := prefix names ++ name in
      Item p e ::
      (if sqfs_dentry_is_dir e && negb (cut p e)
       then events cut (names ++ [name]) children ++ [Dir_end p] else []) ++
      events cut names rest
  end.

(** ** The path as a string *)

(** The object [buf], of size [n] as used and [c] as allocated, holds the string [p]
    and its NUL. *)
Definition held (buf : list (option byte)) (n c : Z) (p : list byte) : Prop :=
  len buf = c /\ n = len p + 1 /\ n <= c /\ 32 <= c < 2 ^ 50 /\
  take (length p + 1) buf = Some <$> (p ++ [x00]).
Definition path_is (t : sqfs_traverse) (p : list byte) : Prop :=
  exists buf, t.(t_path) = Some buf /\ held buf t.(path_size) t.(path_cap) p.

Lemma held_prefix buf n c p k :
  held buf n c p -> (k <= length p)%nat -> take k buf = Some <$> take k p.
Proof.
  intros (_ & _ & _ & _ & Ht) Hk. apply (f_equal (take k)) in Ht.
  rewrite take_take, Nat.min_l in Ht by lia. rewrite Ht, <- fmap_take. f_equal.
  by rewrite take_app_le by lia.
Qed.

Lemma path_write_ok t buf i bs :
  t.(t_path) = Some buf -> 0 <= i -> i + len bs <= len buf ->
  exists buf', path_write t i bs = Ret (with_path t (Some buf') t.(path_size) t.(path_cap)) /\
    len buf' = len buf /\
    take (Z.to_nat i + length bs) buf' = take (Z.to_nat i) buf ++ (Some <$> bs).
Proof.
  intros Hp Hi Hle. unfold path_write. rewrite Hp. zbool; try lia. eexists. split; [done|].
  rewrite !length_app, length_take, length_drop, length_fmap. split; [lia|].
  rewrite app_assoc, take_app_le by (rewrite length_app, length_take, length_fmap; lia).
  rewrite take_ge; [done|]. rewrite length_app, length_take, length_fmap. lia.
Qed.

Lemma path_terminate_ok t buf p :
  t.(t_path) = Some buf -> len buf = t.(path_cap) -> t.(path_size) = len p + 1 ->
  t.(path_size) <= t.(path_cap) -> 32 <= t.(path_cap) < 2 ^ 50 ->
  take (length p) buf = Some <$> p ->
  exists buf', sqfs_traverse_path_terminate t =
      Ret (with_path t (Some buf') t.(path_size) t.(path_cap)) /\
    held buf' t.(path_size) t.(path_cap) p.
Proof.
  intros Hp Hc Hn Hle Hcap Ht. unfold sqfs_traverse_path_terminate.
  rewrite wrap_small by lia. replace (path_size t - 1) with (len p) by lia.
  destruct (path_write_ok t buf (len p) [x00] Hp) as (buf' & E & Hl & Ht'); [lia|cbn; lia|].
  exists buf'. split; [exact E|]. rewrite Nat2Z.id in Ht'.
  split; [lia|]. split; [done|]. split; [done|]. split; [done|].
  cbn [length] in Ht'. by rewrite Ht', Ht, fmap_app.
Qed.

(** Removing [size] bytes, or all there are. *)
Lemma path_remove_ok t p size :
  path_is t p -> 0 <= size ->
  let p' := take (length p - Z.to_nat size) p in
  exists buf, sqfs_traverse_path_remove t size =
      Ret (with_path t (Some buf) (len p' + 1) t.(path_cap)) /\
    held buf (len p' + 1) t.(path_cap) p'.
Proof.
  intros (buf & Hp & Hh) Hs p'. pose proof Hh as (Hl & Hn & Hle & Hc & _).
  assert (len p' = Z.max 0 (len p - size)) as Hlen by (unfold p'; rewrite length_take; lia).
  unfold sqfs_traverse_path_remove.
  replace (if size <? path_size t then path_size t - size else 1) with (len p' + 1)
    by (destruct (Z.ltb_spec size (path_size t)); lia).
  destruct (path_terminate_ok (with_path t t.(t_path) (len p' + 1) t.(path_cap)) buf p')
    as (buf' & E & Hh'); cbn; try done; try lia.
  { unfold p'. rewrite length_take. replace (_ `min` _)%nat with (length p - Z.to_nat size)%nat by lia.
    apply (held_prefix _ _ _ _ _ Hh). lia. }
  exists buf'. split; [exact E|exact Hh'].
Qed.

Lemma path_remove_suffix t p q :
  path_is t (p ++ q) ->
  exists buf, sqfs_traverse_path_remove t (len q) =
      Ret (with_path t (Some buf) (len p + 1) t.(path_cap)) /\
    held buf (len p + 1) t.(path_cap) p.
Proof.
  intros H. destruct (path_remove_ok t _ (len q) H) as (buf & E & Hh); [lia|].
  rewrite length_app, Nat2Z.id, Nat.add_sub, take_app_length in E, Hh. by exists buf.
Qed.

Lemma double_cap_ok (n : nat) need c :
  0 < c -> c < 2 ^ 50 -> need <= c * 2 ^ Z.of_nat n -> need < 2 ^ 49 -> 
  exists c', double_cap n need c = Ret c' /\ need <= c' /\ c <= c' < 2 ^ 50.
Proof.
  revert c. induction n as [|n IH]; intros c H0 Hc Hn Hneed; cbn [double_cap].
  - destruct (Z.ltb_spec c need); [lia|]. exists c. split; [done|lia].
  - destruct (Z.ltb_spec c need); [|exists c; split; [done|lia]].
    rewrite wrap_small by lia.
    destruct (IH (c * 2)) as (c' & -> & ? & ?); [lia|lia| |done|exists c'; split; [done|lia]].
    rewrite Nat2Z.inj_succ, Z.pow_succ_r in Hn by lia. lia.
Qed.

Section steps.
Context {CI : CacheImpl}.

Lemma set_mem_id (s : sqfs_state) : set_mem s s.(mem) = s.
Proof. by destruct s. Qed.

(** The growth of the path: only the allocator's answers change. *)
Lemma path_add_ok t p str s :
  path_is t p -> len p + len str + 1 < 2 ^ 49 ->
  exists ms, (s.(mem) = [] -> ms = []) /\
    ((s.(mem) <> [] /\
      sqfs_traverse_path_add t str s = Ret (set_mem s ms, Success (Failure SQFS_ERR, t))) \/
     (exists buf c,
      sqfs_traverse_path_add t str s =
        Ret (set_mem s ms, Success (Success tt, with_path t (Some buf) (len (p ++ str) + 1) c)) /\
      held buf (len (p ++ str) + 1) c (p ++ str))).
Proof.
  intros (buf & Hp & Hh) Hlen. pose proof Hh as (Hl & Hn & Hle & Hc & Ht).
  assert (forall t2 buf2 s2, t2 = with_path t (Some buf2) (len p + 1) t2.(path_cap) ->
    len buf2 = t2.(path_cap) -> 32 <= t2.(path_cap) < 2 ^ 50 ->
    len p + len str + 1 <= t2.(path_cap) -> take (length p) buf2 = Some <$> p ->
    exists buf', (t2 ← lift (path_write t2 (u64 (t2.(path_size) - 1)) str);
       t2 ← lift (sqfs_traverse_path_terminate
                    (with_path t2 t2.(t_path) (len p + 1 + len str) t2.(path_cap)));
       mret (Success tt, t2)) s2 =
      Ret (s2, Success (Success tt, with_path t (Some buf') (len (p ++ str) + 1) t2.(path_cap))) /\
      held buf' (len (p ++ str) + 1) t2.(path_cap) (p ++ str)) as Hrest.
  { intros t2 buf2 s2 E Hl2 Hc2 Hroom Ht2.
    assert (t2.(t_path) = Some buf2) as Hp2 by (by rewrite E).
    assert (t2.(path_size) = len p + 1) as Hn2 by (by rewrite E).
    rewrite Hn2, wrap_small by lia. replace (len p + 1 - 1) with (len p) by lia.
    destruct (path_write_ok t2 buf2 (len p) str Hp2) as (buf3 & E3 & Hl3 & Ht3); [lia|lia|].
    rewrite Nat2Z.id, Ht2 in Ht3.
    destruct (path_terminate_ok (with_path t2 (Some buf3) (len p + 1 + len str) t2.(path_cap)) buf3
      (p ++ str)) as (buf4 & E4 & Hh4); cbn;
      try done; try lia; try (rewrite ?length_app, ?fmap_app; (done || lia)).
    exists buf4. run_m. rewrite E3. cbn [lift].
    match goal with |- context [sqfs_traverse_path_terminate ?x] =>
      change x with (with_path t2 (Some buf3) (len p + 1 + len str) t2.(path_cap)) end.
    rewrite E4. cbn. rewrite length_app, Nat2Z.inj_add.
    replace (len p + len str + 1) with (len p + 1 + len str) by lia.
    split; [|exact Hh4]. do 4 f_equal. by rewrite E. }
  unfold sqfs_traverse_path_add. rewrite Hn, wrap_small by lia.
  destruct (Z.ltb_spec t.(path_cap) (len p + 1 + len str)) as [Hgrow|Hroom].
  - destruct (double_cap_ok 64 (len p + 1 + len str) t.(path_cap)) as (c & E & Hc1 & Hc2); [lia..|].
    exists (snd (malloc s.(mem))). split; [intros ->; done|].
    run_m. rewrite E. cbn. rewrite malloc_ok_run. cbn.
    destruct (malloc s.(mem)) as [[] ms] eqn:Em; cbn.
    + right. rewrite Hp. cbn.
      destruct (Hrest (with_path t (Some (resize (Z.to_nat c) None buf)) (path_size t) c)
        (resize (Z.to_nat c) None buf) (set_mem s ms)) as (buf' & E' & Hh'); cbn; try done; try lia.
      * by rewrite Hn.
      * rewrite length_resize. lia.
      * rewrite resize_ge by lia. rewrite take_app_le by lia.
        etransitivity; [apply (held_prefix _ _ _ _ _ Hh); lia|]. by rewrite take_ge by lia.
      * eexists _, _. split; [|exact Hh']. revert E'. run_m. cbn. rewrite Hn. intros E'. exact E'.
    + left. split; [|done]. intros H. by rewrite H in Em.
  - exists s.(mem). rewrite set_mem_id. split; [done|]. right.
    destruct (Hrest t buf s) as (buf' & E' & Hh'); try done; try lia.
    + destruct t. cbn in *. by subst.
    + etransitivity; [apply (held_prefix _ _ _ _ _ Hh); lia|]. by rewrite take_ge by lia.
    + eexists _, _. split; [|exact Hh']. revert E'. run_m. cbn. rewrite Hn. intros E'. exact E'.
Qed.
End steps.

Lemma held_bytes t p : path_is t p -> path_bytes t = Ret p.
Proof.
  intros (buf & Hp & Hh). pose proof Hh as (_ & Hn & _). unfold path_bytes. rewrite Hp, Hn.
  replace (Z.to_nat (len p + 1 - 1)) with (length p) by lia.
  rewrite (held_prefix _ _ _ _ _ Hh) by lia. rewrite take_ge by lia.
  replace (mapM id (Some <$> p)) with (Some p); [done|].
  clear. induction p as [|b p IH]; [done|]. cbn. by rewrite <- IH.
Qed.

Lemma prefix_snoc names nm :
  prefix (names ++ [nm]) = (prefix names ++ nm) ++ TRAVERSE_PATH_SEPARATOR.
Proof. unfold prefix. rewrite map_app, concat_app. cbn. by rewrite app_nil_r, app_assoc. Qed.

Lemma prefix_length names :
  Forall (fun nm : list byte => len nm <= SQUASHFS_NAME_LEN) names ->
  len (prefix names) <= 257 * len names.
Proof.
  unfold SQUASHFS_NAME_LEN. induction 1 as [|nm names Hn _ IH]; [done|].
  unfold prefix in *. cbn [map concat]. rewrite !length_app. cbn [length TRAVERSE_PATH_SEPARATOR]. lia.
Qed.

Section listing.
Context (fs : sqfs) (Hfs : fs_ok fs).

(** The roots of [f] are still to be read from [d]. *)
Definition remaining (d : sqfs_dir) (f : forest) : Prop :=
  exists its, positioned fs d its /\ listing d.(d_header) d.(d_offset) its = roots f.

Lemma remaining_nil d :
  remaining d FNil -> sqfs_dir_next (m := O) fs d true = Ret (Success (d, None)).
Proof. intros ([|it its] & Hp & Hl); [|done]. by apply dir_next_end. Qed.

Lemma remaining_cons d e children rest :
  remaining d (FCons e children rest) ->
  exists d' nm, sqfs_dir_next (m := O) fs d true = Ret (Success (d', Some e)) /\
    remaining d' rest /\ e.(e_name) = Some nm /\ e.(e_name_size) = len nm /\
    len nm <= SQUASHFS_NAME_LEN.
Proof.
  intros ([|it its] & Hp & Hl); [done|].
  destruct (dir_next_item fs Hfs d it its Hp) as (d' & E & Hp' & Ho & Hb & Hn).
  cbn [listing roots] in Hl. injection Hl as He Hl.
  exists d', it.(it_name). rewrite (E true). rewrite <- He. split; [done|]. split.
  - exists its. split; [done|]. rewrite Ho, <- Hl. by apply listing_header.
  - split; [done|]. split; [done|]. destruct Hp as [_ Hi _ _ _]. inversion Hi; subst;
      match goal with H : item_fits _ |- _ => apply H end.
Qed.

Lemma dir_remaining i x its index f :
  dir_on_disk fs i x its index -> listing no_header 0 its = roots f ->
  exists d, sqfs_dir_open (m := O) fs i 0 = Ret (Success d) /\ remaining d f.
Proof.
  intros Hd Hl. rewrite (open_start fs i x its index Hd). eexists. split; [done|].
  exists its. split; [|done]. apply Hd.
Qed.
End listing.

(** ** The state machine on a well-formed archive *)
Section machine.
Context (fs : sqfs) (Hfs : fs_ok fs).
Context {CI : CacheImpl} {CL : CacheLaws CI} (X : expectations).

#[local] Abbreviation good := (BlockOk.good fs X).

(** The stack, with the open directories below in [ls] and [d] on top. *)
Definition last_size (names : list (list byte)) : Z :=
  match last names with Some nm => len nm | None => 0 end.
Definition stack_at (st : sqfs_stack sqfs_traverse_level) (names : list (list byte))
    (ls : list sqfs_traverse_level) (d : sqfs_dir) : Prop :=
  stack_holds st (ls ++ [mk_level d (last_size names)]) /\ len ls = len names /\
  st.(value_size) = sizeof_traverse_level /\ st.(freer) = false /\ st.(capacity) < 2 ^ 40 /\
  Forall (fun nm : list byte => len nm <= SQUASHFS_NAME_LEN) names.

(** Whatever the state, the next turn leads in front of the entries of [d]. *)
Definition ready (s : sqfs_state) (t : sqfs_traverse) (names : list (list byte))
    (ls : list sqfs_traverse_level) (d : sqfs_dir) : Prop :=
  exists sG tG, (forall n, traverse_loop (S n) fs t s = traverse_loop n fs tG sG) /\ good sG /\
    tG.(t_state) = TRAVERSE_GET_ENTRY /\ stack_at tG.(t_stack) names ls d /\
    path_is tG (prefix names).

Lemma ready_remove s t names ls d q :
  good s -> t.(t_state) = TRAVERSE_NAME_REMOVE -> stack_at t.(t_stack) names ls d ->
  path_is t (prefix names ++ q) -> t.(path_last_size) = len q -> ready s t names ls d.
Proof.
  intros Hs Ht Hst Hp Hq. destruct (path_remove_suffix t _ _ Hp) as (buf & E & Hh).
  exists s. eexists. split.
  { intros n. cbn [traverse_loop]. rewrite Ht. unfold sqfs_traverse_path_remove_name.
    rewrite Hq, E. reflexivity. }
  split; [done|]. split; [done|]. split; [exact Hst|]. by exists buf.
Qed.

(** The capacity after a push. *)
Lemma config_capacity (st st' : sqfs_stack sqfs_traverse_level) :
  same_config st st' -> 0 <= st.(size) < 2 ^ 32 -> st.(capacity) < 2 ^ 40 ->
  st'.(capacity) < 2 ^ 40.
Proof.
  intros (_ & _ & [->|[-> E]]) Hs Hc; [done|]. rewrite <- E. unfold sqfs_stack_next_capacity, CAPACITY_DEFAULT.
  destruct (Z.eqb_spec st.(size) 0); [lia|]. rewrite wrap_small by lia.
  destruct (Z.leb_spec (st.(size) * 3 / 2) st.(size)); [rewrite wrap_small; lia|]. dlia.
Qed.

Lemma next_capacity_le c : 0 <= c < 2 ^ 40 -> sqfs_stack_next_capacity c < 2 ^ 42.
Proof.
  intros Hc. unfold sqfs_stack_next_capacity, CAPACITY_DEFAULT.
  destruct (Z.eqb_spec c 0); [lia|]. rewrite wrap_small by lia.
  destruct (Z.leb_spec (c * 3 / 2) c); [rewrite wrap_small; lia|]. dlia.
Qed.

(** A push on the stack of the traversal. *)
Lemma trv_push (st : sqfs_stack sqfs_traverse_level) l (s : sqfs_state) :
  stack_holds st l -> st.(value_size) = sizeof_traverse_level -> st.(capacity) < 2 ^ 40 ->
  len l < 2 ^ 32 ->
  exists ms, (s.(mem) = [] -> ms = []) /\
    ((s.(mem) <> [] /\ stack_push st s = Ret (set_mem s ms, Success (Failure SQFS_ERR))) \/
     exists st1, stack_push st s = Ret (set_mem s ms, Success (Success (st1, len l))) /\
       st1.(freer) = st.(freer) /\
       forall v, exists st2, slot_write st1 (len l) v = Ret st2 /\ stack_holds st2 (l ++ [v]) /\
         st2.(value_size) = sizeof_traverse_level /\ st2.(freer) = st.(freer) /\
         st2.(capacity) < 2 ^ 40).
Proof.
  intros Hh Hv Hc Hl. pose proof Hh as (_ & Hsz & Hc0 & _ & _ & Hle & _).
  pose proof (next_capacity_le st.(capacity)) as Hn. unfold stack_push.
  destruct (stack_push_holds st l s.(mem) Hh) as [(E & Em & _)|(st1 & ms1 & E & Hms & Hf & Hw)].
  - unfold push_fits. rewrite Hv. unfold sizeof_traverse_level. lia.
  - lia.
  - exists (snd (malloc s.(mem))). rewrite E. split; [intros ->; done|]. left.
    split; [|done]. intros H. by rewrite H in Em.
  - exists ms1. rewrite E. split; [intros Hm; rewrite Hm in Hms; by destruct Hms|]. right. exists st1.
    split; [done|]. split; [done|]. intros v. destruct (Hw v) as (st2 & Ew & Hh2 & Hcfg).
    exists st2. split; [done|]. split; [done|]. pose proof Hcfg as (? & ? & _).
    split; [congruence|]. split; [congruence|]. eapply config_capacity; [exact Hcfg|lia|done].
Qed.

Lemma prefix_bound names nm :
  Forall (fun nm : list byte => len nm <= SQUASHFS_NAME_LEN) names -> len names < 2 ^ 32 ->
  len nm <= SQUASHFS_NAME_LEN -> len (prefix names ++ nm) < 2 ^ 41.
Proof.
  intros H%prefix_length Hn Hm. unfold SQUASHFS_NAME_LEN in *. rewrite length_app. lia.
Qed.

Lemma ready_descend s t names ls d e nm i d0 :
  good s -> t.(t_state) = TRAVERSE_DESCEND -> stack_at t.(t_stack) names ls d ->
  path_is t (prefix names ++ nm) -> t.(t_entry) = e -> e.(e_name_size) = len nm ->
  len nm <= SQUASHFS_NAME_LEN -> len names + 1 < 2 ^ 32 ->
  sqfs_inode_get (m := O) fs e.(e_inode) = Ret (Success i) ->
  sqfs_dir_open (m := O) fs i 0 = Ret (Success d0) ->
  ready s t (names ++ [nm]) (ls ++ [mk_level d (last_size names)]) d0.
Proof.
  intros Hs Ht (Hh & Hlen & Hv & Hf & Hc & Hn) Hp He Hsz Hnm Hb Ei Ed.
  destruct (try_exact fs X false _ _ s _ (sim_inode_get fs X false _) Hs Ei) as (s1 & E1 & Hs1).
  set (l := ls ++ [mk_level d (last_size names)]) in *.
  assert (len l = len names + 1) as Hl by (unfold l; rewrite length_app; cbn; lia).
  destruct (trv_push t.(t_stack) l s1 Hh Hv Hc) as (ms & Hms & [[? _]|(st1 & E2 & _ & Hw)]);
    [lia|by destruct Hs1|].
  specialize (Hms (proj2 Hs1)).
  destruct (try_exact fs X false _ _ (set_mem s1 ms) _ (sim_dir_open fs X false _ _)
    (good_set_mem fs X _ _ Hs1 Hms) Ed) as (s3 & E3 & Hs3).
  destruct (Hw (mk_level d0 (len nm))) as (st2 & E4 & Hh2 & Hv2 & Hf2 & Hc2).
  pose proof (prefix_bound names nm Hn ltac:(lia) Hnm) as Hlp.
  destruct (path_add_ok (with_stack t st2) (prefix names ++ nm) TRAVERSE_PATH_SEPARATOR s3 Hp)
    as (ms4 & Hms4 & [[? _]|(buf & c & E5 & Hh5)]); [cbn; lia|by destruct Hs3|].
  specialize (Hms4 (proj2 Hs3)).
  exists (set_mem s3 ms4). eexists. split; [|split; [by apply good_set_mem|split; [|split]]].
  - intros n. cbn [traverse_loop]. rewrite Ht. unfold sqfs_traverse_descend, sqfs_dentry_inode. rewrite He.
    run_m. rewrite E1. unfold sqfs_traverse_descend_inode, sqfs_stack_size. run_m.
    rewrite E2, E3. rewrite He. unfold sqfs_dentry_name_size. rewrite Hsz.
    assert ((size (t_stack t) =? 0) = false) as -> by (destruct Hh as (_ & -> & _); apply Z.eqb_neq; lia).
    rewrite E4. cbn [lift]. unfold sqfs_traverse_path_add_sep. rewrite E5. reflexivity.
  - reflexivity.
  - unfold stack_at. cbn. unfold last_size. rewrite last_snoc. split; [exact Hh2|].
    rewrite length_app. cbn. split; [lia|]. split; [done|]. split; [congruence|]. split; [done|].
    apply Forall_app. by split; [|constructor].
  - exists buf. split; [done|]. by rewrite prefix_snoc.
Qed.

(** An entry is left: it is shown, with its path. *)
Lemma next_item s t names ls d d' e nm :
  ready s t names ls d -> len names < 2 ^ 32 ->
  sqfs_dir_next (m := O) fs d true = Ret (Success (d', Some e)) ->
  e.(e_name) = Some nm -> e.(e_name_size) = len nm -> len nm <= SQUASHFS_NAME_LEN ->
  exists s' t', sqfs_traverse_next fs t s = Ret (s', Success (true, Success tt, t')) /\ good s' /\
    t'.(dir_end) = false /\ t'.(t_entry) = e /\ path_is t' (prefix names ++ nm) /\
    t'.(path_last_size) = len nm /\ stack_at t'.(t_stack) names ls d' /\
    t'.(t_state) = if sqfs_dentry_is_dir e then TRAVERSE_DESCEND else TRAVERSE_NAME_REMOVE.
Proof.
  intros (sG & tG & Hready & Hs & Ht & (Hh & Hlen & Hv & Hf & Hc & Hn) & Hp) Hb Ed He Hsz Hnm.
  destruct (sqfs_stack_top_spec _ _ _ Hh) as [Etop Erd].
  destruct (try_exact fs X false _ _ sG _ (sim_dir_next fs X false _ _) Hs Ed) as (s1 & E1 & Hs1).
  destruct (stack_top_write _ _ _ (mk_level d' (last_size names)) Hh) as (st & E2 & Hh2 & Hv2 & Hf2 & Hc2).
  pose proof (prefix_bound names nm Hn Hb Hnm) as Hlp. rewrite length_app in Hlp.
  set (t2 := sqfs_traverse_path_set_name_size
    (with_state (with_entry (with_stack tG st) e) TRAVERSE_NAME_ADD) (len nm)).
  destruct (path_add_ok t2 (prefix names) nm s1 Hp)
    as (ms & Hms & [[? _]|(buf & c & E3 & Hh3)]); [lia|by destruct Hs1|].
  specialize (Hms (proj2 Hs1)). exists (set_mem s1 ms). eexists. split.
  { unfold sqfs_traverse_next. rewrite Hready. cbn [traverse_loop]. rewrite Ht, Etop. run_m.
    rewrite Erd. cbn [lift l_dir l_name_size]. rewrite E1, E2. cbn [lift t_state with_state].
    unfold sqfs_traverse_path_add_name, sqfs_dentry_name_size, sqfs_dentry_name. run_m.
    cbn [t_entry with_state with_entry path_last_size sqfs_traverse_path_set_name_size].
    rewrite He, Hsz. change (default [] (Some nm)) with nm.
    rewrite mem_read_ok, slice_full by lia. cbn [lift].
    match goal with |- context [sqfs_traverse_path_add ?x] => change x with t2 end.
    rewrite E3. reflexivity. }
  split; [by apply good_set_mem|]. split; [done|]. split; [done|]. split; [by exists buf|].
  split; [done|]. split; [|done]. unfold stack_at. cbn. split; [done|]. split; [done|].
  split; [congruence|]. split; [congruence|]. split; [lia|done].
Qed.

(** The end of a directory. *)
Lemma ascend_ok t names nm ls d d' :
  t.(t_state) = TRAVERSE_ASCEND ->
  stack_at t.(t_stack) (names ++ [nm]) (ls ++ [mk_level d (last_size names)]) d' ->
  path_is t (prefix (names ++ [nm])) ->
  exists t', sqfs_traverse_ascend t = Ret (Success tt, t') /\ t'.(path_last_size) = len nm /\
    path_is t' (prefix names ++ nm) /\ stack_at t'.(t_stack) names ls d.
Proof.
  intros Ht (Hh & Hlen & Hv & Hf & Hc & Hn) Hp. rewrite prefix_snoc in Hp.
  destruct (path_remove_suffix t _ _ Hp) as (buf & E & Hb).
  destruct (sqfs_stack_top_spec _ _ _ Hh) as [Etop Erd].
  pose proof (stack_pop_holds _ _ Hh) as Hpop.
  set (l := ls ++ [mk_level d (last_size names)]) in *.
  assert (exists st f, sqfs_stack_pop t.(t_stack) = (true, st, f) /\ stack_holds st l /\
    st.(value_size) = t.(t_stack).(value_size) /\ st.(freer) = t.(t_stack).(freer) /\
    st.(capacity) = t.(t_stack).(capacity)) as (st & f & Epop & Hh' & Hcfg).
  { destruct (l ++ _) as [|x l'] eqn:El; [by destruct l|]. rewrite <- El in Hpop.
    destruct Hpop as (st & f & Epop & _ & Hh'). exists st, f. split; [done|].
    rewrite length_app, Nat.add_sub, take_app_length in Hh'. split; [done|].
    unfold sqfs_stack_pop in Epop. destruct (_ =? 0); [done|]. by injection Epop as <- _. }
  eexists. split; [|split; [|split]].
  - unfold sqfs_traverse_ascend, sqfs_traverse_path_remove_sep. rewrite Etop, E.
    cbn [mbind outcome_bind t_stack with_path]. rewrite Erd.
    cbn [mbind outcome_bind t_stack with_path sqfs_traverse_path_set_name_size l_name_size].
    rewrite Epop. reflexivity.
  - cbn. unfold last_size. by rewrite last_snoc.
  - by exists buf.
  - unfold stack_at. cbn. destruct Hcfg as (-> & -> & ->). split; [done|].
    unfold l in Hlen. rewrite !length_app in Hlen. cbn in Hlen. split; [lia|]. split; [done|]. split; [done|].
    split; [done|]. by apply Forall_app in Hn as [Hn _].
Qed.

(** The end of the root. *)
Lemma ascend_root t d :
  t.(t_state) = TRAVERSE_ASCEND -> stack_at t.(t_stack) [] [] d -> path_is t (prefix []) ->
  exists t', sqfs_traverse_ascend t = Ret (Success tt, t') /\ t'.(t_stack).(size) = 0 /\
    stack_holds t'.(t_stack) [] /\ t'.(t_stack).(freer) = false.
Proof.
  intros Ht (Hh & _ & Hv & Hf & Hc & _) Hp.
  destruct (path_remove_ok t [] 1 Hp) as (buf & E & Hb); [lia|].
  destruct (sqfs_stack_top_spec _ [] _ Hh) as [Etop Erd].
  destruct (stack_pop_holds _ _ Hh) as (st & f & Epop & _ & Hh').
  eexists. split.
  - unfold sqfs_traverse_ascend, sqfs_traverse_path_remove_sep. rewrite Etop.
    change (len TRAVERSE_PATH_SEPARATOR) with 1. rewrite E.
    cbn [mbind outcome_bind t_stack with_path]. rewrite Erd.
    cbn [mbind outcome_bind t_stack with_path sqfs_traverse_path_set_name_size l_name_size].
    rewrite Epop. reflexivity.
  - cbn. split; [by destruct Hh' as (_ & -> & _)|]. split; [exact Hh'|].
    unfold sqfs_stack_pop in Epop. destruct (_ =? 0); [done|]. by injection Epop as <- _.
Qed.

(** The turn in front of a directory with no entry left. *)
Lemma last_turn s t names ls d :
  ready s t names ls d -> sqfs_dir_next (m := O) fs d true = Ret (Success (d, None)) ->
  exists s' t', (forall n, traverse_loop (S (S n)) fs t s = traverse_loop n fs t' s') /\ good s' /\
    t'.(t_state) = TRAVERSE_ASCEND /\ stack_at t'.(t_stack) names ls d /\ path_is t' (prefix names).
Proof.
  intros (sG & tG & Hready & Hs & Ht & (Hh & Hlen & Hv & Hf & Hc & Hn) & Hp) Ed.
  destruct (sqfs_stack_top_spec _ _ _ Hh) as [Etop Erd].
  destruct (try_exact fs X false _ _ sG _ (sim_dir_next fs X false _ _) Hs Ed) as (s1 & E1 & Hs1).
  destruct (stack_top_write _ _ _ (mk_level d (last_size names)) Hh) as (st & E2 & Hh2 & Hv2 & Hf2 & Hc2).
  exists s1. eexists. split.
  { intros n. rewrite Hready. cbn [traverse_loop]. rewrite Ht, Etop. run_m.
    rewrite Erd. cbn [lift l_dir l_name_size]. rewrite E1, E2. reflexivity. }
  split; [done|]. split; [done|]. split; [|exact Hp]. unfold stack_at. cbn.
  split; [done|]. split; [done|]. split; [congruence|]. split; [congruence|]. split; [lia|done].
Qed.

(** ** Whole traversals *)
Lemma height_nonneg f : 0 <= height f.
Proof. induction f; cbn [height]; lia. Qed.

(** From [t] the traversal gives [evs], one per call, whatever the client does to the
    caches in between as long as they stay in order; then [K] holds. *)
Fixpoint gives (cut : list byte -> sqfs_dir_entry -> bool) (evs : list event)
    (K : sqfs_state -> sqfs_traverse -> Prop) (s : sqfs_state) (t : sqfs_traverse) : Prop :=
  match evs with
  | [] => K s t
  | ev :: evs =>
      exists s1 t1, sqfs_traverse_next fs t s = Ret (s1, Success (true, Success tt, t1)) /\
        good s1 /\ event_of t1 = Ret ev /\
        forall s2, good s2 -> gives cut evs K s2 (after_item cut t1 ev)
  end.

Lemma gives_app cut a b K s t : gives cut a (gives cut b K) s t -> gives cut (a ++ b) K s t.
Proof.
  revert s t. induction a as [|ev a IH]; intros s t; [done|]. cbn [gives app].
  intros (s1 & t1 & E & Hs & Hev & H). exists s1, t1. split; [done|]. split; [done|]. split; [done|].
  intros s2 Hs2. by apply IH, H.
Qed.

Lemma gives_mono cut evs (K K' : sqfs_state -> sqfs_traverse -> Prop) s t :
  (forall s t, K s t -> K' s t) -> gives cut evs K s t -> gives cut evs K' s t.
Proof.
  intros HK. revert s t. induction evs as [|ev evs IH]; intros s t; [apply HK|]. cbn [gives].
  intros (s1 & t1 & E & Hs & Hev & H). exists s1, t1. split; [done|]. split; [done|]. split; [done|].
  intros s2 Hs2. by apply IH, H.
Qed.

Lemma event_item t p : path_is t p -> t.(dir_end) = false -> event_of t = Ret (Item p t.(t_entry)).
Proof. intros Hp He. unfold event_of. by rewrite (held_bytes t p Hp), He. Qed.
Lemma event_end t p : path_is t p -> t.(dir_end) = true -> event_of t = Ret (Dir_end p).
Proof. intros Hp He. unfold event_of. by rewrite (held_bytes t p Hp), He. Qed.

(** One directory end, back in the parent. *)
Lemma next_dir_end s t names nm ls d dc :
  ready s t (names ++ [nm]) (ls ++ [mk_level d (last_size names)]) dc -> remaining fs dc FNil ->
  exists s' t', sqfs_traverse_next fs t s = Ret (s', Success (true, Success tt, t')) /\ good s' /\
    event_of t' = Ret (Dir_end (prefix names ++ nm)) /\
    forall s2, good s2 -> ready s2 t' names ls d.
Proof.
  intros Hr Hd%remaining_nil. destruct (last_turn _ _ _ _ _ Hr Hd) as (s1 & t1 & E & Hs & Ht & Hst & Hp).
  destruct (ascend_ok t1 names nm ls d dc Ht Hst Hp) as (t2 & Ea & Hl & Hp2 & Hst2).
  exists s1. eexists. split; [|split; [done|split]].
  - unfold sqfs_traverse_next. rewrite E. cbn [traverse_loop]. rewrite Ht. run_m. rewrite Ea.
    cbn [lift]. unfold sqfs_stack_size.
    replace (0 <? size (t_stack t2)) with true; [reflexivity|].
    destruct Hst2 as ((_ & -> & _) & _). rewrite length_app. cbn. symmetry. apply Z.ltb_lt. lia.
  - by apply event_end.
  - intros s2 Hs2. by apply (ready_remove _ _ _ _ _ nm).
Qed.

(** Everything below the directory [d], then the traversal is back in front of its end. *)
Lemma forest_gives cut f names ls d s t :
  ready s t names ls d -> remaining fs d f -> forest_on_disk fs f -> len names + height f < 2 ^ 32 ->
  gives cut (events cut names f)
    (fun s t => exists d', ready s t names ls d' /\ remaining fs d' FNil) s t.
Proof.
  revert names ls d s t. induction f as [|e fc IHc fr IHr]; intros names ls d s t Hr Hd Hf Hh.
  { by exists d. }
  pose proof (height_nonneg fc) as Hhc.
  cbn [forest_on_disk height] in Hf, Hh. destruct Hf as (He & Hfc & Hfr).
  destruct (remaining_cons fs Hfs d e fc fr Hd) as (d1 & nm & Ed & Hd1 & Hnm & Hsz & Hmax).
  destruct (next_item s t names ls d d1 e nm Hr ltac:(lia) Ed Hnm Hsz Hmax)
    as (s1 & t1 & E1 & Hs1 & Hde & Hent & Hp1 & Hlast & Hst1 & Ht1).
  cbn [events gives]. rewrite Hnm. change (default [] (Some nm)) with nm. exists s1, t1.
  split; [done|]. split; [done|]. split; [by rewrite (event_item _ _ Hp1 Hde), Hent|]. cbn [after_item].
  intros s2 Hs2. apply gives_app.
  assert (forall s t, ready s t names ls d1 ->
    gives cut (events cut names fr)
      (fun s t => exists d', ready s t names ls d' /\ remaining fs d' FNil) s t) as Hrest
    by (intros s3 t3 Hr3; apply (IHr names ls d1); [done..|lia]).
  destruct (cut (prefix names ++ nm) e) eqn:Hcut.
  { rewrite andb_false_r. apply Hrest, (ready_remove _ _ _ _ _ nm); done. }
  rewrite andb_true_r. destruct (sqfs_dentry_is_dir e) eqn:Hdir.
  2: { apply Hrest, (ready_remove _ _ _ _ _ nm); done. }
  destruct He as (i & x & its & index & Ei & Hdisk & Hl).
  destruct (dir_remaining fs i x its index fc Hdisk Hl) as (d0 & Eo & Hd0).
  apply gives_app. eapply gives_mono; [|apply (IHc (names ++ [nm]) (ls ++ [mk_level d1 (last_size names)]) d0);
    [|done|done|rewrite length_app; cbn; lia]].
  2: { apply (ready_descend s2 t1 names ls d1 e nm i); try done. lia. }
  intros s3 t3 (dc & Hr3 & Hdc). destruct (next_dir_end _ _ _ _ _ _ _ Hr3 Hdc) as (s4 & t4 & E4 & Hs4 & Hev & Hr4).
  exists s4, t4. split; [done|]. split; [done|]. split; [done|]. intros s5 Hs5. by apply Hrest, Hr4.
Qed.

Lemma next_finished s t d :
  ready s t [] [] d -> remaining fs d FNil ->
  exists s' t', sqfs_traverse_next fs t s = Ret (s', Success (false, Success tt, t')) /\ good s' /\
    t'.(t_state) = TRAVERSE_FINISHED /\ stack_holds t'.(t_stack) [] /\ t'.(t_stack).(freer) = false.
Proof.
  intros Hr Hd%remaining_nil. destruct (last_turn _ _ _ _ _ Hr Hd) as (s1 & t1 & E & Hs & Ht & Hst & Hp).
  destruct (ascend_root t1 d Ht Hst Hp) as (t2 & Ea & Hz & Hh & Hf).
  exists s1, (with_state t2 TRAVERSE_FINISHED). split; [|by split; [|split; [|split]]].
  unfold sqfs_traverse_next. rewrite E. cbn [traverse_loop]. rewrite Ht. run_m. rewrite Ea.
  cbn [lift]. unfold sqfs_stack_size. rewrite Hz. reflexivity.
Qed.

Lemma close_ok t l :
  stack_holds t.(t_stack) l -> t.(t_stack).(freer) = false ->
  exists t', sqfs_traverse_close t = Ret t' /\ t'.(t_path) = None /\ t'.(t_state) = TRAVERSE_ERROR /\
    t'.(t_stack).(size) = 0 /\ t'.(t_stack).(items) = [].
Proof.
  intros Hh Hf. pose proof Hh as (_ & Hs & _). unfold sqfs_traverse_close, sqfs_stack_destroy.
  destruct (pop_all_holds t.(t_stack) l [] (S (Z.to_nat t.(t_stack).(size))) Hh) as (st & Hh' & E);
    [rewrite Hs; lia|]. rewrite E, Hf. destruct Hh' as (_ & Hsz & _).
  eexists. split; [reflexivity|]. by split; [|split; [|split]].
Qed.

Lemma stack_created :
  exists st, fst (sqfs_stack_create sizeof_traverse_level 0 false []) = Success st /\
    @stack_holds sqfs_traverse_level st [] /\ st.(value_size) = sizeof_traverse_level /\
    st.(freer) = false /\ st.(capacity) < 2 ^ 40.
Proof. eexists. split; [done|]. by repeat split. Qed.

Lemma open_ready s t0 id i d :
  good s -> sqfs_inode_get (m := O) fs id = Ret (Success i) ->
  sqfs_dir_open (m := O) fs i 0 = Ret (Success d) ->
  exists s' t, sqfs_traverse_open t0 fs id s = Ret (s', Success (Success tt, t)) /\ good s' /\
    forall s2, good s2 -> ready s2 t [] [] d.
Proof.
  intros Hs Ei Ed. destruct (try_exact fs X false _ _ s _ (sim_inode_get fs X false _) Hs Ei) as (s1 & E1 & Hs1).
  destruct stack_created as (st0 & Est & Hh0 & Hv0 & Hf0 & Hc0).
  pose proof (good_set_mem fs X s1 [] Hs1 eq_refl) as Hs2.
  destruct (trv_push st0 [] (set_mem s1 []) Hh0 Hv0 Hc0) as (ms & Hms & [[? _]|(st1 & E2 & _ & Hw)]);
    [done|by destruct Hs2|]. specialize (Hms (proj2 Hs2)).
  destruct (try_exact fs X false _ _ (set_mem (set_mem s1 []) ms) _ (sim_dir_open fs X false _ _)
    (good_set_mem fs X _ _ Hs2 Hms) Ed) as (s3 & E3 & Hs3).
  destruct (Hw (mk_level d 0)) as (st2 & E4 & Hh2 & Hv2 & Hf2 & Hc2).
  exists s3. eexists. split.
  { unfold sqfs_traverse_open. run_m. rewrite E1. unfold sqfs_traverse_open_inode, sqfs_traverse_path_init.
    run_m. rewrite malloc_ok_run, (proj2 Hs1), Est. cbn [fst snd malloc].
    unfold sqfs_traverse_descend_inode, sqfs_stack_size. cbn [t_stack with_stack]. run_m.
    destruct Hh0 as (_ & -> & _). cbn [Z.eqb length Z.of_nat]. change (len []) with 0 in E2.
    rewrite E2, E3. change (len []) with 0 in E4. change (Z.of_nat 0 =? 0) with true. cbv iota.
    rewrite E4. reflexivity. }
  split; [done|]. intros s4 Hs4.
  apply (ready_remove _ _ _ _ _ []); [done|done| |exists (Some x00 :: replicate 31 None); done|done].
  unfold stack_at. cbn. split; [exact Hh2|]. split; [done|]. split; [done|]. split; [congruence|].
  by split; [|constructor].
Qed.

(** What is left to do at the end of a traversal. *)
Definition all_given (s : sqfs_state) (t : sqfs_traverse) : Prop :=
  exists s' t', sqfs_traverse_next fs t s = Ret (s', Success (false, Success tt, t')) /\ good s' /\
    t'.(t_state) = TRAVERSE_FINISHED /\ is_ret (sqfs_traverse_close t').

(** A whole traversal, for any client. *)
Lemma traversal_gives s t0 id inode x its index f cut :
  good s -> sqfs_inode_get (m := O) fs id = Ret (Success inode) ->
  dir_on_disk fs inode x its index -> listing no_header 0 its = roots f ->
  forest_on_disk fs f -> height f < 2 ^ 32 ->
  exists s' t, sqfs_traverse_open t0 fs id s = Ret (s', Success (Success tt, t)) /\ good s' /\
    forall s2, good s2 -> gives cut (events cut [] f) all_given s2 t.
Proof.
  intros Hs Ei Hd Hl Hf Hh. destruct (dir_remaining fs inode x its index f Hd Hl) as (d & Ed & Hrem).
  destruct (open_ready s t0 id inode d Hs Ei Ed) as (s1 & t1 & E1 & Hs1 & Hr1).
  exists s1, t1. split; [done|]. split; [done|]. intros s2 Hs2.
  eapply gives_mono; [|apply (forest_gives cut f [] [] d); [by apply Hr1|done|done|cbn; lia]].
  intros s3 t3 (d3 & Hr3 & Hd3). destruct (next_finished s3 t3 d3 Hr3 Hd3) as (s4 & t4 & E4 & Hs4 & Ht4 & Hst4 & Hf4).
  destruct (close_ok t4 [] Hst4 Hf4) as (t5 & E5 & _). exists s4, t4. by rewrite E5.
Qed.

(** The client that only collects. *)
Lemma gives_run cut evs s t :
  good s -> gives cut evs all_given s t ->
  exists s' t', good s' /\
    traverse_run (S (length evs)) fs cut t s = Ret (s', Success (evs, Success tt, t')) /\
    t'.(t_state) = TRAVERSE_FINISHED /\ is_ret (sqfs_traverse_close t').
Proof.
  revert s t. induction evs as [|ev evs IH]; intros s t Hs; cbn [gives length traverse_run]; run_m.
  - intros (s' & t' & E & Hs' & H). exists s', t'. by rewrite E.
  - intros (s1 & t1 & E & Hs1 & Hev & H).
    destruct (IH s1 _ Hs1 (H s1 Hs1)) as (s' & t' & Hs' & E' & H'). exists s', t'.
    rewrite E, Hev. cbn [lift]. cbn [traverse_run] in E'. revert E'. run_m. intros ->. done.
Qed.

(** C3: a traversal gives every item below the directory it starts from exactly once,
    depth first in the order of the directories, each with its entry and with the path
    made of the names on the way; it marks the end of every directory it goes into, and
    a directory the client prunes is neither gone into nor ended.  Then it is finished,
    and closing it is safe. *)
Theorem sqfs_traverse_lists (s : sqfs_state) (t0 : sqfs_traverse) (id : Z) (inode : sqfs_inode)
    (x : xtra_dir) (its : list dir_item) (index : list (squashfs_dir_index * list byte))
    (f : forest) (cut : list byte -> sqfs_dir_entry -> bool) :
  inv fs X s [] None -> s.(mem) = [] ->
  sqfs_inode_get (m := O) fs id = Ret (Success inode) ->
  dir_on_disk fs inode x its index -> listing no_header 0 its = roots f ->
  forest_on_disk fs f -> height f < 2 ^ 32 ->
  exists s' t', inv fs X s' [] None /\
    ('(_, t) ← sqfs_traverse_open t0 fs id;
     traverse_run (S (length (events cut [] f))) fs cut t) s =
      Ret (s', Success (events cut [] f, Success tt, t')) /\
    t'.(t_state) = TRAVERSE_FINISHED /\ is_ret (sqfs_traverse_close t').
Proof.
  intros Hi Hm Ei Hd Hl Hf Hh.
  destruct (traversal_gives s t0 id inode x its index f cut (conj Hi Hm) Ei Hd Hl Hf Hh)
    as (s1 & t1 & E1 & Hs1 & Hg).
  destruct (gives_run cut _ s1 t1 Hs1 (Hg s1 Hs1)) as (s2 & t2 & [Hi2 _] & E2 & H2).
  exists s2, t2. split; [done|]. split; [|done]. run_m. by rewrite E1, E2.
Qed.
End machine.

(** ** The state machine on any archive *)
Section any_archive.
Context (fs : sqfs) (Hfs : fs_ok fs).
Context {CI : CacheImpl} {CL : CacheLaws CI} (X : expectations).

Definition level_ok (l : sqfs_traverse_level) : Prop :=
  dir_ok l.(l_dir) /\ 0 <= l.(l_name_size) <= SQUASHFS_NAME_LEN.

(** A traversal that can go on, with at most [n] open directories and a path of at
    most [m] bytes. *)
Record live (n m : Z) (t : sqfs_traverse) : Prop := {
  live_freer : t.(t_stack).(freer) = false;
  live_stack : exists l, stack_holds t.(t_stack) l /\ Forall level_ok l /\ len l <= n;
  live_size : t.(t_stack).(value_size) = sizeof_traverse_level;
  live_capacity : t.(t_stack).(capacity) < 2 ^ 40;
  live_path : exists p, path_is t p /\ len p <= m;
  live_last : 0 <= t.(path_last_size)
}.

Definition entry_named (e : sqfs_dir_entry) : Prop :=
  0 <= e.(e_name_size) <= SQUASHFS_NAME_LEN.

(** What a call leaves. *)
Definition next_ok (n m : Z) (out : outcome (sqfs_state * result (bool * status * sqfs_traverse)))
    : Prop :=
  match out with
  | Crash c => c = MemFault
  | Ret (_, Failure _) => False
  | Ret (s', Success (more, err, t')) =>
      inv fs X s' [] None /\ t'.(t_stack).(freer) = false /\
      if (more : bool) then
        err = Success tt /\ live n m t' /\
        (t'.(t_state) = TRAVERSE_NAME_REMOVE \/
         t'.(t_state) = TRAVERSE_DESCEND /\ entry_named t'.(t_entry))
      else (t'.(t_state) = TRAVERSE_FINISHED /\ err = Success tt) \/ t'.(t_state) = TRAVERSE_ERROR
  end.

Lemma live_split n m t :
  live n m t ->
  (t.(t_stack).(size) = 0 /\ sqfs_stack_top t.(t_stack) = Failure SQFS_ERR) \/
  exists l v, stack_holds t.(t_stack) (l ++ [v]) /\ Forall level_ok l /\ level_ok v /\ len l + 1 <= n /\
    sqfs_stack_top t.(t_stack) = Success (len l) /\ slot_read t.(t_stack) (len l) = Ret v.
Proof.
  intros [_ (l & Hh & Hl & Hn) _ _ _ _]. destruct l as [|v l] using rev_ind.
  - left. destruct Hh as (_ & Hs & _). split; [exact Hs|]. unfold sqfs_stack_top. by rewrite Hs.
  - right. exists l, v. clear IHl. rewrite length_app in Hn. cbn in Hn.
    apply Forall_app in Hl as [Hl Hv]. apply Forall_cons_1 in Hv as [Hv _].
    split; [done|]. split; [done|]. split; [done|]. split; [lia|]. by apply sqfs_stack_top_spec.
Qed.

Lemma ascend_total n m t :
  live n m t -> exists err t', sqfs_traverse_ascend t = Ret (err, t') /\
    t'.(t_stack).(freer) = false /\ (err = Success tt -> live n m t').
Proof.
  intros Hlive. pose proof Hlive as [Hf _ Hv Hc (p & Hp & Hm) Hlast]. unfold sqfs_traverse_ascend.
  destruct (live_split n m t Hlive) as [[_ ->]|(l & v & Hh & Hl & Hlv & Hn & -> & Erd)];
    [by exists (Failure SQFS_ERR), t|].
  unfold sqfs_traverse_path_remove_sep.
  destruct (path_remove_ok t p (len TRAVERSE_PATH_SEPARATOR) Hp) as (buf & -> & Hb); [cbn; lia|].
  cbn [mbind outcome_bind t_stack with_path]. rewrite Erd.
  cbn [mbind outcome_bind t_stack with_path sqfs_traverse_path_set_name_size].
  pose proof (stack_pop_holds _ _ Hh) as Hpop.
  destruct (l ++ [v]) as [|x l'] eqn:El; [by destruct l|]. rewrite <- El in Hpop.
  destruct Hpop as (st & f & Epop & _ & Hh'). rewrite Epop.
  rewrite length_app, Nat.add_sub, take_app_length in Hh'.
  assert (st.(value_size) = t.(t_stack).(value_size) /\ st.(freer) = t.(t_stack).(freer) /\
    st.(capacity) = t.(t_stack).(capacity)) as (Hv' & Hf' & Hc').
  { unfold sqfs_stack_pop in Epop. destruct (_ =? 0); [done|]. by injection Epop as <- _. }
  eexists _, _. split; [reflexivity|]. cbn. split; [congruence|]. intros _.
  split; cbn; [congruence| |congruence|by rewrite Hc'| |apply Hlv].
  - exists l. split; [done|]. split; [done|lia].
  - eexists. split; [exists buf; split; [reflexivity|exact Hb]|]. rewrite length_take. lia.
Qed.

Lemma with_state_live n m t st : live n m t -> live n m (with_state t st).
Proof. by intros []. Qed.

Lemma loop_ascend n m t s k :
  live n m t -> t.(t_state) = TRAVERSE_ASCEND -> inv fs X s [] None ->
  next_ok n m (traverse_loop (S (S k)) fs t s).
Proof.
  intros Hl Ht Hi. destruct (ascend_total n m t Hl) as (err & t' & E & Hf & Hl').
  cbn [traverse_loop]. rewrite Ht. run_m. rewrite E. cbn [lift].
  destruct err as [[]|]; [|cbn; by auto].
  destruct (0 <? _).
  - cbn. split; [done|]. split; [done|]. split; [done|]. split; [|by left]. by destruct (Hl' eq_refl).
  - cbn. by auto.
Qed.

Lemma loop_add n m t s k nm :
  live n m t -> m < 2 ^ 45 -> t.(t_state) = TRAVERSE_NAME_ADD -> inv fs X s [] None ->
  t.(t_entry).(e_name) = Some nm -> len nm = t.(t_entry).(e_name_size) -> entry_named t.(t_entry) ->
  next_ok n (m + SQUASHFS_NAME_LEN) (traverse_loop (S k) fs t s).
Proof.
  intros [Hf Hst Hv Hc (p & Hp & Hm) Hlast] Hmax Ht Hi Hnm Hlen He. unfold entry_named, SQUASHFS_NAME_LEN in *.
  set (t2 := sqfs_traverse_path_set_name_size t (len nm)).
  destruct (path_add_ok t2 p nm s Hp ltac:(lia)) as (ms & _ & Hadd).
  cbn [traverse_loop]. rewrite Ht. run_m.
  unfold sqfs_traverse_path_add_name, sqfs_dentry_name_size, sqfs_dentry_name. run_m.
  cbn [t_entry path_last_size sqfs_traverse_path_set_name_size]. rewrite Hnm, <- Hlen.
  change (default [] (Some nm)) with nm. rewrite mem_read_ok, slice_full by lia. cbn [lift].
  match goal with |- context [sqfs_traverse_path_add ?x] => change x with t2 end.
  destruct Hadd as [[_ ->]|(buf & c & -> & Hb)].
  - cbn. split; [by apply inv_set_mem|]. auto.
  - cbn. split; [by apply inv_set_mem|]. split; [done|]. split; [done|]. split.
    + split; cbn; try done; [|lia]. exists (p ++ nm). split; [by exists buf|]. rewrite length_app. lia.
    + destruct (sqfs_dentry_is_dir _); [right|by left]. split; [done|]. unfold entry_named, SQUASHFS_NAME_LEN. lia.
Qed.

Lemma dir_next_total' d :
  dir_ok d ->
  match sqfs_dir_next (m := O) fs d true with
  | Crash c => c = MemFault
  | Ret (Failure _) => True
  | Ret (Success (d', found)) => dir_ok d' /\
      match found with
      | Some e => entry_named e /\ exists nm, e.(e_name) = Some nm /\ len nm = e.(e_name_size)
      | None => True
      end
  end.
Proof.
  intros Hd. pose proof (dir_next_total fs Hfs d true Hd) as Hr. unfold entry_named.
  destruct (sqfs_dir_next _ _ _) as [[[d' [e|]]|]|]; try done.
  destruct Hr as (? & _ & _ & _ & _ & ? & ?). split; [done|]. split; [lia|done].
Qed.

Lemma live_mono n m n' m' t : n <= n' -> m <= m' -> live n m t -> live n' m' t.
Proof.
  intros Hn Hm [Hf (l & Hh & Hl & Hle) Hv Hc (p & Hp & Hpm) Hlast]. split; try done.
  - exists l. split; [done|]. split; [done|lia].
  - exists p. split; [done|lia].
Qed.

Lemma next_ok_mono n m n' m' out : n <= n' -> m <= m' -> next_ok n m out -> next_ok n' m' out.
Proof.
  intros Hn Hm. destruct out as [[s2 [[[more err] t2]|e]]|c]; [|done..].
  destruct more; [|done]. cbn. intros (Hi & Hf & He & Hl & Hs).
  split; [done|]. split; [done|]. split; [done|]. split; [|done]. by eapply live_mono.
Qed.

Lemma next_ok_error n m t s e :
  inv fs X s [] None -> t.(t_stack).(freer) = false -> next_ok n m (trv_error t e false s).
Proof. intros. cbn. auto. Qed.

Lemma loop_get n m t s k :
  live n m t -> m < 2 ^ 45 -> t.(t_state) = TRAVERSE_GET_ENTRY -> inv fs X s [] None ->
  next_ok n (m + SQUASHFS_NAME_LEN) (traverse_loop (S (S (S k))) fs t s).
Proof.
  intros Hlive Hmax Ht Hi. pose proof Hlive as [Hf _ Hv Hc Hp Hlast].
  remember (S (S k)) as k2 eqn:Hk2. cbn [traverse_loop]. rewrite Ht.
  destruct (live_split n m t Hlive) as [[_ ->]|(l & v & Hh & Hl & [Hd Hsz] & Hn & -> & Erd)];
    [by apply next_ok_error|].
  pose proof (try_run fs X false _ _ s _ (sim_dir_next fs X false v.(l_dir) true) Hi (dir_next_total' _ Hd)) as Hr.
  run_m. rewrite Erd. cbn [lift]. revert Hr.
  destruct (try _ s) as [[s1 [[[d' found]|e]|e]]|c]; cbn [next_ok]; [..|done|done]; intros [Hi1 Hr].
  2: { by apply next_ok_error. }
  destruct (stack_top_write _ _ _ (mk_level d' v.(l_name_size)) Hh) as (st & E & Hh2 & Hv2 & Hf2 & Hc2).
  rewrite E. cbn [lift].
  assert (forall e, dir_ok d' -> live n m (with_entry (with_stack t st) e)) as Hlive2.
  { intros e Hd'. split; cbn; try congruence; try done.
    exists (l ++ [mk_level d' v.(l_name_size)]). split; [done|]. rewrite length_app. cbn. split; [|lia].
    apply Forall_app. by split; [|constructor]. }
  destruct found as [e|].
  - destruct Hr as (Hd' & Hs' & nm & Hnm & Hlen). rewrite Hk2.
    apply (loop_add _ _ _ _ _ nm); cbn; try done. by apply with_state_live, Hlive2.
  - rewrite Hk2. apply (next_ok_mono n m); [lia|unfold SQUASHFS_NAME_LEN; lia|].
    apply loop_ascend; [|done..]. by apply with_state_live, Hlive2, Hr.
Qed.

(** What going into a directory leaves. *)
Definition descend_ok (n m : Z) (out : outcome (sqfs_state * result (status * sqfs_traverse)))
    : Prop :=
  match out with
  | Crash c => c = MemFault
  | Ret (_, Failure _) => False
  | Ret (s', Success (err, t')) =>
      inv fs X s' [] None /\ t'.(t_stack).(freer) = false /\
      (err = Success tt -> live (n + 1) (m + 1) t')
  end.

Lemma descend_inode_total n m t s i :
  live n m t -> n < 2 ^ 32 -> m < 2 ^ 45 -> entry_named t.(t_entry) -> inv fs X s [] None ->
  inode_ranges i -> (S_ISDIR (mode i) = true -> exists x, i.(xtra) = XtraDir x) ->
  descend_ok n m (sqfs_traverse_descend_inode fs t i s).
Proof.
  intros [Hf (l & Hh & Hl & Hn) Hv Hc (p & Hp & Hm) Hlast] Hn32 Hm45 He Hi Hr Hdir.
  assert (match sqfs_dir_open (m := O) fs i 0 with
          | Crash c => c = MemFault | Ret (Failure _) => True | Ret (Success d) => dir_ok d end) as Ho.
  { destruct (S_ISDIR (mode i)) eqn:Em.
    - destruct (Hdir eq_refl) as [x Hx]. pose proof (dir_open_total fs Hfs i 0 x Hx Hr) as H.
      destruct (sqfs_dir_open _ _ _) as [[d|]|]; [apply H|done..].
    - unfold sqfs_dir_open. by rewrite Em. }
  unfold sqfs_traverse_descend_inode. run_m.
  destruct (trv_push t.(t_stack) l s Hh Hv Hc ltac:(lia)) as (ms & _ & [[_ ->]|(st1 & -> & Hf1 & Hw)]).
  { cbn. split; [by apply inv_set_mem|]. by split. }
  assert (inv fs X (set_mem s ms) [] None) as Hi2 by (by apply inv_set_mem).
  pose proof (try_run fs X false _ _ _ _ (sim_dir_open fs X false i 0) Hi2 Ho) as H. revert H.
  destruct (try _ _) as [[s1 [[d|e]|e]]|c]; cbn [descend_ok]; [..|done|done]; intros [Hi1 Hd].
  2: { cbn. split; [done|]. split; [congruence|done]. }
  set (sz := if _ =? 0 then 0 else _). 
  assert (0 <= sz <= SQUASHFS_NAME_LEN) as Hsz.
  { unfold sz, entry_named, SQUASHFS_NAME_LEN, sqfs_dentry_name_size in *. destruct (_ =? 0); lia. }
  destruct (Hw (mk_level d sz)) as (st2 & E & Hh2 & Hv2 & Hf2 & Hc2). rewrite E. cbn [lift].
  assert (forall t' m', t'.(t_stack) = st2 -> 0 <= t'.(path_last_size) ->
    (exists p, path_is t' p /\ len p <= m') -> live (n + 1) m' t') as Hlive.
  { intros t' m' Hst Hls Hpa. split; rewrite ?Hst; try done; [congruence|].
    exists (l ++ [mk_level d sz]). split; [done|]. split; [|rewrite length_app; cbn; lia].
    apply Forall_app. by split; [|constructor]. }
  destruct (_ =? 0).
  - cbn. split; [done|]. split; [congruence|]. intros _. apply Hlive; try done. exists p. split; [done|lia].
  - unfold sqfs_traverse_path_add_sep.
    destruct (path_add_ok (with_stack t st2) p TRAVERSE_PATH_SEPARATOR s1 Hp ltac:(cbn; lia))
      as (ms2 & _ & [[_ ->]|(buf & c & -> & Hb)]); cbn.
    + split; [by apply inv_set_mem|]. split; [congruence|done].
    + split; [by apply inv_set_mem|]. split; [congruence|]. intros _. apply Hlive; try done.
      exists (p ++ TRAVERSE_PATH_SEPARATOR). split; [by exists buf|]. rewrite length_app. cbn [length TRAVERSE_PATH_SEPARATOR]. lia.
Qed.

Lemma descend_total n m t s id :
  live n m t -> n < 2 ^ 32 -> m < 2 ^ 45 -> entry_named t.(t_entry) -> inv fs X s [] None ->
  descend_ok n m (sqfs_traverse_descend fs t id s).
Proof.
  intros Hl Hn Hm He Hi. unfold sqfs_traverse_descend. run_m.
  pose proof (try_run fs X false _ _ s _ (sim_inode_get fs X false id) Hi (inode_get_total fs Hfs id)) as H. revert H.
  destruct (try _ s) as [[s1 [[i|e]|e]]|c]; cbn [descend_ok]; [..|done|done]; intros [Hi1 H].
  - by apply descend_inode_total; try apply H.
  - cbn. split; [done|]. split; [apply Hl|done].
Qed.

(** A traversal after an item, in front of the next call. *)
Definition resumable (n m : Z) (t : sqfs_traverse) : Prop :=
  live n m t /\
  (t.(t_state) = TRAVERSE_NAME_REMOVE \/ t.(t_state) = TRAVERSE_DESCEND /\ entry_named t.(t_entry)).

Lemma next_total n m t s :
  inv fs X s [] None -> resumable n m t -> n < 2 ^ 32 -> m < 2 ^ 44 ->
  next_ok (n + 1) (m + 1 + SQUASHFS_NAME_LEN) (sqfs_traverse_next fs t s).
Proof.
  intros Hi [Hl Hst] Hn Hm. unfold sqfs_traverse_next.
  remember 3%nat as k eqn:Hk. cbn [traverse_loop]. destruct Hst as [Ht|[Ht He]]; rewrite Ht.
  - pose proof Hl as [Hf Hs Hv Hc (p & Hp & Hpm) Hlast]. run_m.
    destruct (path_remove_ok t p (path_last_size t) Hp Hlast) as (buf & E & Hb).
    unfold sqfs_traverse_path_remove_name. rewrite E. cbn [lift]. rewrite Hk.
    apply (next_ok_mono n (m + SQUASHFS_NAME_LEN)); [lia..|].
    apply loop_get; [|lia|done|done]. apply with_state_live. split; try done.
    eexists. split; [exists buf; split; [reflexivity|exact Hb]|]. rewrite length_take. lia.
  - run_m. pose proof (descend_total n m t s (sqfs_dentry_inode (t_entry t)) Hl Hn ltac:(lia) He Hi) as H.
    revert H. destruct (sqfs_traverse_descend _ _ _ _) as [[s1 [[err t1]|e]]|c]; cbn [descend_ok];
      [|done|done]. intros (Hi1 & Hf1 & Hl1).
    destruct err as [[]|]; [|by apply next_ok_error]. rewrite Hk. apply loop_get; [|lia|done|done].
    by apply with_state_live, Hl1.
Qed.

Lemma pop_all_freer {V} fuel (st : sqfs_stack V) f :
  st.(freer) = false -> snd (pop_all fuel st f) = f.
Proof.
  revert st f. induction fuel as [|fuel IH]; intros st f Hf; [done|]. cbn [pop_all].
  unfold sqfs_stack_pop. rewrite Hf. destruct (_ =? 0); [done|]. rewrite IH by done. by rewrite app_nil_r.
Qed.

Lemma close_total t : t.(t_stack).(freer) = false -> is_ret (sqfs_traverse_close t).
Proof.
  intros Hf. unfold sqfs_traverse_close, sqfs_stack_destroy.
  pose proof (pop_all_freer (S (Z.to_nat t.(t_stack).(size))) _ [] Hf) as H.
  destruct (pop_all _ _ _) as [st f]. cbn in H. by subst.
Qed.

(** C18: on any archive and with any allocation failure, a call of
    [sqfs_traverse_next] ends within the four state changes of its model, in one of four
    ways.  It gives an item and leaves the traversal where it can go on (also pruned), with
    at most one more open directory and 257 more bytes of path; or it is finished; or it
    stays in its error state; or the process dies of a read outside its memory, since
    [sqfs_md_read] does not check that its cursor is inside the block (fs.c:308).  Unless it
    dies the traversal can be closed, and no block leaks.  The traversal is to have fewer than
    2^32 open directories and 2^44 bytes of path. *)
Theorem sqfs_traverse_next_safe (n m : Z) (t : sqfs_traverse) (s : sqfs_state) :
  inv fs X s [] None -> resumable n m t -> n < 2 ^ 32 -> m < 2 ^ 44 ->
  match sqfs_traverse_next fs t s with
  | Crash c => c = MemFault
  | Ret (_, Failure _) => False
  | Ret (s', Success (more, err, t')) =>
      inv fs X s' [] None /\ is_ret (sqfs_traverse_close t') /\
      if (more : bool) then
        err = Success tt /\ resumable (n + 1) (m + 257) t' /\
        resumable (n + 1) (m + 257) (sqfs_traverse_prune t')
      else
        (t'.(t_state) = TRAVERSE_FINISHED /\ err = Success tt) \/
        (t'.(t_state) = TRAVERSE_ERROR /\
         sqfs_traverse_next fs t' s' = Ret (s', Success (false, Failure SQFS_ERR, t')))
  end.
Proof.
  intros Hi Ht Hn Hm. pose proof (next_total n m t s Hi Ht Hn Hm) as H. revert H.
  replace (m + 1 + SQUASHFS_NAME_LEN) with (m + 257) by (unfold SQUASHFS_NAME_LEN; lia).
  destruct (sqfs_traverse_next fs t s) as [[s' [[[more err] t']|e]]|c]; cbn [next_ok]; [|done|done].
  intros (Hi' & Hf & Hr). split; [done|]. split; [by apply close_total|]. destruct more.
  - destruct Hr as (? & Hl & Hst). split; [done|]. split; [by split|].
    split; [by apply with_state_live|by left].
  - destruct Hr as [?|He]; [by left|right]. split; [done|].
    unfold sqfs_traverse_next. cbn [traverse_loop]. rewrite He. unfold trv_error.
    replace (with_state t' TRAVERSE_ERROR) with t'; [done|]. destruct t'. cbn in *. by subst.
Qed.

(** when the first allocation of [sqfs_traverse_open] fails, the cleanup
    destroys a stack that was never created: with what an uninitialised structure may
    hold, it calls a function pointer that nobody set. *)
Theorem sqfs_traverse_open_alloc_failure (s : sqfs_state) (t0 : sqfs_traverse) (inode : sqfs_inode) :
  fst (malloc s.(mem)) = false ->
  0 < t0.(t_stack).(size) -> t0.(t_stack).(freer) = true ->
  sqfs_traverse_open_inode t0 fs inode s = Crash MemFault.
Proof.
  intros Hm Hsz Hf. unfold sqfs_traverse_open_inode, sqfs_traverse_path_init. run_m.
  rewrite malloc_ok_run, Hm. cbn [snd]. unfold sqfs_traverse_close, sqfs_stack_destroy.
  set (st := t_stack _). assert (st = sqfs_stack_init (t_stack t0)) as -> by done.
  destruct (init_destroy_frees (t_stack t0) Hsz Hf) as (p & rest & E & _).
  unfold sqfs_stack_destroy in E.
  destruct (pop_all _ _ _) as [st' freed]. cbn in E. by rewrite E.
Qed.
End any_archive.

(** ** A traversal of the sample tree *)
Definition tree_entry_a : sqfs_dir_entry := mk_dentry 64 3 SQUASHFS_REG_TYPE (Some [x61]) 1 0 21.
Definition tree_entry_d : sqfs_dir_entry := mk_dentry 32 2 SQUASHFS_DIR_TYPE (Some [x64]) 1 21 30.
Definition tree_entry_x : sqfs_dir_entry := mk_dentry 64 3 SQUASHFS_REG_TYPE (Some [x78]) 1 0 21.
Definition tree_forest : forest :=
  FCons tree_entry_a FNil (FCons tree_entry_d (FCons tree_entry_x FNil FNil) FNil).

(** A structure that was never initialised. *)
Definition stale_trv : sqfs_traverse :=
  mk_trv false (mk_dentry 0 0 0 None 7 0 0) None TRAVERSE_DESCEND
    {| value_size := 8; size := 2; capacity := 4; items := []; freer := true |} 5 6 7.

Lemma tree_forest_on_disk : forest_on_disk tree_fs tree_forest.
Proof.
  cbn [forest_on_disk tree_forest]. split; [done|]. split; [done|]. split; [|done].
  change (sqfs_dentry_is_dir tree_entry_d) with true. cbv iota.
  exists tree_sub, (tree_xdir tree_sub_inode), tree_sub_items, [].
  split; [exact tree_sub_get|]. split; [exact tree_sub_on_disk|vm_compute; reflexivity].
Qed.

(** All of the tree: "a", "d", "d/x", the end of "d". *)
Lemma sqfs_traverse_lists_witness :
  exists s' t',
    ('(_, t) ← sqfs_traverse_open stale_trv tree_fs 0;
     traverse_run 5 tree_fs (fun _ _ => false) t) (sample_state []) =
      Ret (s', Success ([Item [x61] tree_entry_a; Item [x64] tree_entry_d;
                         Item [x64; x2f; x78] tree_entry_x; Dir_end [x64]], Success tt, t')).
Proof.
  destruct (sqfs_traverse_lists tree_fs tree_fs_ok (CL := sample_laws) no_expectations
    (sample_state []) stale_trv 0 tree_root (tree_xdir tree_root_inode) tree_root_items []
    tree_forest (fun _ _ => false) (sample_inv _ _ _) eq_refl tree_root_get tree_root_on_disk
    ltac:(vm_compute; reflexivity) tree_forest_on_disk ltac:(vm_compute; reflexivity))
    as (s' & t' & _ & E & _).
  exists s', t'. exact E.
Defined.

(** A traversal just opened on the root. *)
Definition sample_trv : sqfs_traverse :=
  mk_trv false (mk_dentry 0 0 0 (Some []) 0 0 0) (Some (Some x00 :: replicate 31 None))
    TRAVERSE_NAME_REMOVE
    {| value_size := sizeof_traverse_level; size := 1; capacity := 8;
       items := Some (mk_level (mk_dir (mk_cursor (96 + len tree_inodes) 0) 0 30 no_header) 0) ::
                replicate 7 None; freer := false |} 1 32 0.

Lemma sample_trv_resumable : resumable 1 0 sample_trv.
Proof.
  split; [|by left]. split; [done| |done|done| |done].
  - exists [mk_level (mk_dir (mk_cursor (96 + len tree_inodes) 0) 0 30 no_header) 0].
    split; [by repeat split|]. split; [|done]. constructor; [|constructor].
    split; [split|]; vm_compute; intuition congruence.
  - exists []. split; [|done]. eexists. split; [reflexivity|]. by repeat split.
Qed.

Lemma sqfs_traverse_next_safe_witness :
  resumable 1 0 sample_trv /\
  inv tree_fs no_expectations
    (final (sample_state []) (sqfs_traverse_next tree_fs sample_trv (sample_state [true; false]))) [] None.
Proof.
  split; [exact sample_trv_resumable|].
  pose proof (sqfs_traverse_next_safe tree_fs tree_fs_ok (CL := sample_laws) no_expectations 1 0
    sample_trv (sample_state [true; false]) (sample_inv _ _ _) sample_trv_resumable
    ltac:(lia) ltac:(lia)) as H.
  destruct (sqfs_traverse_next _ _ _) as [[s' [[[more err] t']|e]]|c];
    [exact (proj1 H)|destruct H|apply sample_inv].
Defined.

Lemma sqfs_traverse_open_alloc_failure_witness :
  sqfs_traverse_open_inode stale_trv tree_fs tree_root (sample_state [false]) = Crash MemFault.
Proof.
  apply (sqfs_traverse_open_alloc_failure tree_fs); reflexivity.
Defined.
