(* ===== verification/LlInode.v ===== *)
(** * LlInode: the inode numbers of the low-level FUSE driver (ll_inode.c)

    The kernel knows an inode by a [fuse_ino_t], the archive by the place of its data
    (a [sqfs_inode_id]) or its number.  Three ways to go from one to the other: the
    place itself when [fuse_ino_t] is large enough; else the number, with the export
    table, or with a table of the numbers handed out ([Ino32]) in which every entry
    counts the references of the kernel.  The function pointers of [sqfs_ll] all
    follow from the way chosen, so they are functions that look at it. *)
From S2P Require Import Prelude Swap Hash Cache CacheST Decompress FsState Block BlockOk Sample MdRead Table Inode Dir SampleTree.

Definition FUSE_ROOT_ID : Z := 1.
Definition SQFS_INODE_ID_BYTES : Z := 6.
Definition SQFS_ICACHE_INITIAL : Z := 32.
Definition FUSE_INODE_NONE : Z := 0.
Definition SQFS_INODE_NONE : Z := 1.

Record sqfs_ll_inode_entry := mk_ientry { ie_refcount : Z; ino_hi : Z; ino_lo : Z }.
(** With the padding. *)
Definition sizeof_ientry : Z := 12.

Definition IE_INODE (ie : sqfs_ll_inode_entry) : Z := Z.shiftl ie.(ino_hi) 16 ||| ie.(ino_lo).
Definition INODE_HI (i : Z) : Z := u32 (Z.shiftr i 16).
Definition INODE_LO (i : Z) : Z := u16 (i &&& 0xffff).

(** [ino_data] and the functions that go with it; [root] is the number of the root. *)
Inductive ino_map :=
  | Ino64
  | Ino32 (root : Z) (icache : sqfs_hash sqfs_ll_inode_entry)
  | Ino32exp (root : Z).

Record sqfs_ll := mk_ll { ll_fs : sqfs; ll_ino : ino_map }.

(** ** The numbers *)
Definition sqfs_ll_ino64_fuse (fs : sqfs) (i : Z) : Z :=
  if i =? sqfs_inode_root fs then FUSE_ROOT_ID else if i =? 0 then 2 else i.
Definition sqfs_ll_ino64_sqfs (fs : sqfs) (i : Z) : Z :=
  if i =? FUSE_ROOT_ID then sqfs_inode_root fs else if i =? 2 then 0 else i.

(** [uint32_t] arithmetic. *)
Definition sqfs_ll_ino32_num2fuse (root n : Z) : Z :=
  if n =? root then FUSE_ROOT_ID else if n =? 0 then u32 (root + 1) else u32 (n + 1).
Definition sqfs_ll_ino32_fuse2num (root i : Z) : Z :=
  if i =? FUSE_ROOT_ID then root else if i =? u32 (root + 1) then 0 else u32 (i - 1).

(** [ll->ino_fuse_num]. *)
Definition ino_fuse_num (ll : sqfs_ll) (e : sqfs_dir_entry) : Z :=
  match ll.(ll_ino) with
  | Ino64 => sqfs_ll_ino64_fuse ll.(ll_fs) (sqfs_dentry_inode e)
  | Ino32 root _ | Ino32exp root => sqfs_ll_ino32_num2fuse root (sqfs_dentry_inode_num e)
  end.

Section ll_inode.
Context {CI : CacheImpl}.

Definition sqfs_ll_ino32_fuse (fs : sqfs) (root i : Z) : M Z :=
  r ← try (sqfs_inode_get fs i);
  match r with
  | Failure _ => mret FUSE_INODE_NONE
  | Success inode => mret (sqfs_ll_ino32_num2fuse root (inode_number inode))
  end.

(** [ll->ino_fuse]. *)
Definition ino_fuse (ll : sqfs_ll) (i : Z) : M Z :=
  match ll.(ll_ino) with
  | Ino64 => mret (sqfs_ll_ino64_fuse ll.(ll_fs) i)
  | Ino32 root _ | Ino32exp root => sqfs_ll_ino32_fuse ll.(ll_fs) root i
  end.

Definition sqfs_ll_ino32_sqfs (fs : sqfs) (root : Z) (icache : sqfs_hash sqfs_ll_inode_entry) (i : Z)
    : outcome Z :=
  if i =? FUSE_ROOT_ID then Ret (sqfs_inode_root fs)
  else
    ie ← sqfs_hash_get icache (sqfs_ll_ino32_fuse2num root i);
    Ret (match ie with Some ie => IE_INODE ie | None => SQFS_INODE_NONE end).

Definition sqfs_ll_ino32exp_sqfs (fs : sqfs) (root i : Z) : M Z :=
  if i =? FUSE_ROOT_ID then mret (sqfs_inode_root fs)
  else
    r ← try (sqfs_export_inode fs (sqfs_ll_ino32_fuse2num root i));
    mret (match r with Success ret => ret | Failure _ => SQFS_INODE_NONE end).

(** [ll->ino_sqfs]. *)
Definition ino_sqfs (ll : sqfs_ll) (i : Z) : M Z :=
  match ll.(ll_ino) with
  | Ino64 => mret (sqfs_ll_ino64_sqfs ll.(ll_fs) i)
  | Ino32 root icache => lift (sqfs_ll_ino32_sqfs ll.(ll_fs) root icache i)
  | Ino32exp root => sqfs_ll_ino32exp_sqfs ll.(ll_fs) root i
  end.

(** ** The table of the numbers handed out *)
Definition hash_add_m (h : sqfs_hash sqfs_ll_inode_entry) (k : Z) (v : sqfs_ll_inode_entry)
    : M (sqfs_err * sqfs_hash sqfs_ll_inode_entry) := fun s =>
  match sqfs_hash_add h k v s.(mem) with
  | Ret (err, h, ms) => Ret (set_mem s ms, Success (err, h))
  | Crash c => Crash c
  end.

Definition sqfs_ll_ino32_register (root : Z) (icache : sqfs_hash sqfs_ll_inode_entry)
    (e : sqfs_dir_entry) : M (sqfs_hash sqfs_ll_inode_entry * Z) :=
  let num := sqfs_dentry_inode_num e in
  ie ← lift (sqfs_hash_get icache num);
  match ie with
  | Some ie =>
      icache ← lift (sqfs_hash_update icache num
                       (mk_ientry (u32 (ie.(ie_refcount) + 1)) ie.(ino_hi) ie.(ino_lo)));
      mret (icache, sqfs_ll_ino32_num2fuse root num)
  | None =>
      let i := sqfs_dentry_inode e in
      '(err, icache) ← hash_add_m icache num (mk_ientry 1 (INODE_HI i) (INODE_LO i));
      mret (icache, match err with
                    | SQFS_OK => sqfs_ll_ino32_num2fuse root num
                    | _ => FUSE_INODE_NONE
                    end)
  end.

(** [ll->ino_register]; the modes without one use [ino_fuse_num]. *)
Definition ino_register (ll : sqfs_ll) (e : sqfs_dir_entry) : M (sqfs_ll * Z) :=
  match ll.(ll_ino) with
  | Ino32 root icache =>
      '(icache, i) ← sqfs_ll_ino32_register root icache e;
      mret (mk_ll ll.(ll_fs) (Ino32 root icache), i)
  | _ => mret (ll, ino_fuse_num ll e)
  end.

Definition sqfs_ll_ino32_forget (root : Z) (icache : sqfs_hash sqfs_ll_inode_entry) (i refs : Z)
    : outcome (sqfs_hash sqfs_ll_inode_entry) :=
  let n := sqfs_ll_ino32_fuse2num root i in
  ie ← sqfs_hash_get icache n;
  match ie with
  | None => Ret icache
  | Some ie =>
      if refs <? ie.(ie_refcount) then
        sqfs_hash_update icache n (mk_ientry (u32 (ie.(ie_refcount) - refs)) ie.(ino_hi) ie.(ino_lo))
      else
        '(_, icache) ← sqfs_hash_remove icache n;
        Ret icache
  end.

(** [ll->ino_forget]. *)
Definition ino_forget (ll : sqfs_ll) (i refs : Z) : outcome sqfs_ll :=
  match ll.(ll_ino) with
  | Ino32 root icache =>
      icache ← sqfs_ll_ino32_forget root icache i refs;
      Ret (mk_ll ll.(ll_fs) (Ino32 root icache))
  | _ => Ret ll
  end.

(** ** Start and end *)

Definition icache_init : M (sqfs_hash sqfs_ll_inode_entry) := fun s =>
  let '(_, icache, ms) := sqfs_hash_init sizeof_ientry SQFS_ICACHE_INITIAL s.(mem) in
  Ret (set_mem s ms, Success icache).

(** The map is used without a look at what [malloc] gave; the error of
    [sqfs_hash_init] is dropped. *)
Definition sqfs_ll_ino32_init (fs : sqfs) : M ino_map :=
  inode ← sqfs_inode_get fs (sqfs_inode_root fs);
  ok ← malloc_ok;
  if (ok : bool) then
    icache ← icache_init;
    mret (Ino32 (inode_number inode) icache)
  else lift (Crash MemFault).

Definition sqfs_ll_ino32exp_init (fs : sqfs) : M ino_map :=
  inode ← sqfs_inode_get fs (sqfs_inode_root fs);
  ok ← malloc_ok;
  if (ok : bool) then mret (Ino32exp (inode_number inode)) else lift (Crash MemFault).

(** [ino_size] is [sizeof(fuse_ino_t)], the same as that of [long]. *)
Definition sqfs_ll_init (ino_size : Z) (fs : sqfs) : M sqfs_ll :=
  map ← (if SQFS_INODE_ID_BYTES <=? ino_size then mret Ino64
         else if sqfs_export_ok fs then sqfs_ll_ino32exp_init fs
         else sqfs_ll_ino32_init fs);
  mret (mk_ll fs map).

(** The nodes freed with the private data. *)
Definition ino_destroy (map : ino_map) : Z :=
  match map with Ino32 _ icache => sqfs_hash_destroy icache | _ => 0 end.

Definition sqfs_ll_inode (ll : sqfs_ll) (i : Z) : M sqfs_inode :=
  id ← ino_sqfs ll i;
  sqfs_inode_get ll.(ll_fs) id.
End ll_inode.

(** ** The numbers go back and forth *)

(** with 64-bit numbers every place an inode can have (1 and 2 are not among them)
    gets a number that is not the reserved 0, the root and only the root gets
    [FUSE_ROOT_ID], and the way back finds the place. *)
Theorem sqfs_ll_ino64_roundtrip (fs : sqfs) (i : Z) :
  i <> 1 -> i <> 2 ->
  sqfs_ll_ino64_sqfs fs (sqfs_ll_ino64_fuse fs i) = i /\
  sqfs_ll_ino64_fuse fs i <> FUSE_INODE_NONE /\
  (sqfs_ll_ino64_fuse fs i = FUSE_ROOT_ID <-> i = sqfs_inode_root fs).
Proof.
  intros H1 H2. unfold sqfs_ll_ino64_sqfs, sqfs_ll_ino64_fuse, FUSE_ROOT_ID, FUSE_INODE_NONE.
  destruct (Z.eqb_spec i (sqfs_inode_root fs)) as [->|Hr]; [done|].
  destruct (Z.eqb_spec i 0) as [->|H0]; [done|].
  rewrite (proj2 (Z.eqb_neq _ _) H1), (proj2 (Z.eqb_neq _ _) H2). done.
Qed.

Lemma num2fuse_spec root n :
  0 <= root < 2 ^ 32 - 1 -> 0 <= n < 2 ^ 32 - 1 ->
  sqfs_ll_ino32_fuse2num root (sqfs_ll_ino32_num2fuse root n) = n /\
  1 <= sqfs_ll_ino32_num2fuse root n < 2 ^ 32 /\
  (sqfs_ll_ino32_num2fuse root n = FUSE_ROOT_ID <-> n = root).
Proof.
  intros Hr Hn. unfold sqfs_ll_ino32_fuse2num, sqfs_ll_ino32_num2fuse, FUSE_ROOT_ID.
  rewrite !(wrap_small 32) by lia.
  destruct (Z.eqb_spec n root) as [->|Hnr]; [split; [done|lia]|].
  destruct (Z.eqb_spec n 0) as [->|Hn0].
  - rewrite Z.eqb_refl. destruct (Z.eqb_spec (root + 1) 1); [lia|]. split; [done|lia].
  - destruct (Z.eqb_spec (n + 1) 1); [lia|]. destruct (Z.eqb_spec (n + 1) (root + 1)); [lia|].
    rewrite wrap_small by lia. lia.
Qed.

(** with 32-bit numbers the inode numbers of an archive go to the numbers of FUSE and
    back, and the root to [FUSE_ROOT_ID]; only the inode number [2 ^ 32 - 1] is lost, to
    the reserved 0. *)
Theorem sqfs_ll_ino32_roundtrip (root n : Z) :
  0 <= root < 2 ^ 32 - 1 -> 0 <= n < 2 ^ 32 ->
  if n =? 2 ^ 32 - 1 then sqfs_ll_ino32_num2fuse root n = FUSE_INODE_NONE
  else
    sqfs_ll_ino32_fuse2num root (sqfs_ll_ino32_num2fuse root n) = n /\
    1 <= sqfs_ll_ino32_num2fuse root n < 2 ^ 32 /\
    (sqfs_ll_ino32_num2fuse root n = FUSE_ROOT_ID <-> n = root).
Proof.
  intros Hr Hn. destruct (Z.eqb_spec n (2 ^ 32 - 1)) as [->|Hne].
  - unfold sqfs_ll_ino32_num2fuse. by rewrite (proj2 (Z.eqb_neq _ _)) by lia.
  - apply num2fuse_spec; lia.
Qed.

(** ** References *)
Lemma ie_inode_split i r : 0 <= i < 2 ^ 48 -> IE_INODE (mk_ientry r (INODE_HI i) (INODE_LO i)) = i.
Proof.
  intros Hi. unfold IE_INODE, INODE_HI, INODE_LO. cbn [ino_hi ino_lo].
  assert (0 <= Z.shiftr i 16 < 2 ^ 32) as Hhi by (rewrite Z.shiftr_div_pow2 by lia; dlia).
  assert ((i &&& 0xffff) = i mod 2 ^ 16) as El by (by rewrite <- Z.land_ones).
  rewrite (wrap_small 32), (wrap_small 16) by (done || (rewrite El; dlia)).
  apply Z.bits_inj'. intros b Hb. rewrite Z.lor_spec, El.
  destruct (Z.ltb_spec b 16).
  - rewrite Z.shiftl_spec_low, Z.mod_pow2_bits_low by lia. done.
  - rewrite Z.shiftl_spec_high, Z.shiftr_spec, Z.mod_pow2_bits_high, orb_false_r by lia.
    f_equal. lia.
Qed.

(** What the kernel does: it looks a name up (and gets a number with a reference), and
    forgets references. *)
Inductive kernel_op := Lookup (e : sqfs_dir_entry) | Forget (i refs : Z).

Fixpoint kernel_run {CI : CacheImpl} (ll : sqfs_ll) (ops : list kernel_op) : M sqfs_ll :=
  match ops with
  | [] => mret ll
  | Lookup e :: ops => '(ll, _) ← ino_register ll e; kernel_run ll ops
  | Forget i refs :: ops => ll ← lift (ino_forget ll i refs); kernel_run ll ops
  end.

(** The references the kernel holds, by inode number. *)
Definition count_add (cnt : Z -> Z) (n d : Z) : Z -> Z :=
  fun n' => if n' =? n then cnt n' + d else cnt n'.
Fixpoint counts (root : Z) (cnt : Z -> Z) (ops : list kernel_op) : Z -> Z :=
  match ops with
  | [] => cnt
  | Lookup e :: ops => counts root (count_add cnt e.(e_inode_number) 1) ops
  | Forget i refs :: ops =>
      counts root (count_add cnt (sqfs_ll_ino32_fuse2num root i) (- refs)) ops
  end.

(** It never forgets more than it holds, and the entries lead to the inodes [ids]. *)
Fixpoint kernel_ok (root : Z) (ids : Z -> Z) (cnt : Z -> Z) (ops : list kernel_op) : Prop :=
  match ops with
  | [] => True
  | Lookup e :: ops =>
      e.(e_inode) = ids e.(e_inode_number) /\
      kernel_ok root ids (count_add cnt e.(e_inode_number) 1) ops
  | Forget i refs :: ops =>
      0 <= refs <= cnt (sqfs_ll_ino32_fuse2num root i) /\
      kernel_ok root ids (count_add cnt (sqfs_ll_ino32_fuse2num root i) (- refs)) ops
  end.

(** The table has an entry for every inode that is held, with the count. *)
Definition tracks (icache : sqfs_hash sqfs_ll_inode_entry) (ids cnt : Z -> Z) : Prop :=
  hash_ok icache /\
  forall n, 0 <= cnt n /\
    hash_map icache !! n =
      if 0 <? cnt n then Some (mk_ientry (cnt n) (INODE_HI (ids n)) (INODE_LO (ids n))) else None.

Lemma tracks_ext icache icache' ids cnt cnt' k :
  tracks icache ids cnt -> hash_ok icache' -> (forall n, n <> k -> cnt' n = cnt n) ->
  (forall n, n <> k -> hash_map icache' !! n = hash_map icache !! n) ->
  0 <= cnt' k ->
  hash_map icache' !! k =
    (if 0 <? cnt' k then Some (mk_ientry (cnt' k) (INODE_HI (ids k)) (INODE_LO (ids k))) else None) ->
  tracks icache' ids cnt'.
Proof.
  intros [_ Ht] Hok Hc Hm Hk Hkm. split; [done|]. intros n.
  destruct (decide (n = k)) as [->|Hn]; [done|]. by rewrite Hc, Hm.
Qed.

Section references.
Context {CI : CacheImpl}.

Lemma register_tracks fs root ids cnt icache e s :
  tracks icache ids cnt -> s.(mem) = [] -> e.(e_inode) = ids e.(e_inode_number) ->
  cnt e.(e_inode_number) + 1 < 2 ^ 32 -> icache.(capacity) < 2 ^ 62 ->
  exists icache' i,
    ino_register (mk_ll fs (Ino32 root icache)) e s = Ret (s, Success (mk_ll fs (Ino32 root icache'), i)) /\
    i = sqfs_ll_ino32_num2fuse root e.(e_inode_number) /\
    tracks icache' ids (count_add cnt e.(e_inode_number) 1) /\
    icache'.(capacity) <= Z.max icache.(capacity) (2 * icache.(size)) /\
    icache'.(size) <= icache.(size) + 1.
Proof.
  intros Ht Hm He Hmax Hcap. pose proof Ht as [Hok Hmap]. destruct (Hmap (e_inode_number e)) as [H0 Hn].
  set (n := e_inode_number e) in *. unfold ino_register, sqfs_ll_ino32_register. cbn [ll_ino ll_fs].
  unfold sqfs_dentry_inode_num, sqfs_dentry_inode. fold n. run_m.
  rewrite (hash_get_map icache n Hok). cbn [lift]. rewrite Hn. unfold count_add.
  destruct (Z.ltb_spec 0 (cnt n)).
  - cbn [ie_refcount ino_hi ino_lo]. rewrite wrap_small by lia.
    destruct (hash_update_map icache n (mk_ientry (cnt n + 1) (INODE_HI (ids n)) (INODE_LO (ids n))) Hok)
      as (h' & -> & Hok' & Hm' & Hc' & Hs'); [by rewrite Hn|].
    eexists _, _. split; [reflexivity|]. split; [done|]. split; [|lia].
    apply (tracks_ext icache h' ids cnt _ n); try done.
    + intros n' Hne. by rewrite (proj2 (Z.eqb_neq _ _) Hne).
    + intros n' Hne. by rewrite Hm', lookup_insert_ne.
    + rewrite Z.eqb_refl. lia.
    + rewrite Z.eqb_refl, Hm', lookup_insert_eq. by destruct (Z.ltb_spec 0 (cnt n + 1)); [|lia].
  - assert (cnt n = 0) as Hz by lia. unfold hash_add_m. rewrite Hm, He.
    destruct (hash_add_map icache n (mk_ientry 1 (INODE_HI (ids n)) (INODE_LO (ids n))) Hok)
      as (h' & E & Hok' & Hm' & Hc' & Hs'); [done|done|].
    rewrite E. replace (set_mem s []) with s by (rewrite <- Hm; by destruct s).
    eexists _, _. split; [reflexivity|]. split; [done|]. split; [|lia].
    apply (tracks_ext icache h' ids cnt _ n); try done.
    + intros n' Hne. by rewrite (proj2 (Z.eqb_neq _ _) Hne).
    + intros n' Hne. by rewrite Hm', lookup_insert_ne.
    + rewrite Z.eqb_refl. lia.
    + by rewrite Z.eqb_refl, Hm', lookup_insert_eq, Hz.
Qed.

Lemma forget_tracks fs root ids cnt icache i refs :
  tracks icache ids cnt -> (forall n, cnt n < 2 ^ 32) ->
  0 <= refs <= cnt (sqfs_ll_ino32_fuse2num root i) ->
  exists icache', ino_forget (mk_ll fs (Ino32 root icache)) i refs = Ret (mk_ll fs (Ino32 root icache')) /\
    tracks icache' ids (count_add cnt (sqfs_ll_ino32_fuse2num root i) (- refs)) /\
    icache'.(capacity) = icache.(capacity) /\ icache'.(size) <= icache.(size).
Proof.
  intros Ht Hmax Hrefs. pose proof Ht as [Hok Hmap]. set (n := sqfs_ll_ino32_fuse2num root i) in *.
  destruct (Hmap n) as [H0 Hn]. specialize (Hmax n). unfold ino_forget, sqfs_ll_ino32_forget. cbn [ll_ino ll_fs]. fold n.
  rewrite (hash_get_map icache n Hok). cbn [mbind outcome_bind]. rewrite Hn. unfold count_add.
  destruct (Z.ltb_spec 0 (cnt n)).
  - cbn [ie_refcount ino_hi ino_lo]. destruct (Z.ltb_spec refs (cnt n)).
    + rewrite wrap_small by lia.
      destruct (hash_update_map icache n (mk_ientry (cnt n - refs) (INODE_HI (ids n)) (INODE_LO (ids n))) Hok)
        as (h' & -> & Hok' & Hm' & Hc' & Hs'); [by rewrite Hn|].
      cbn [mbind outcome_bind]. eexists. split; [reflexivity|]. split; [|lia].
      apply (tracks_ext icache h' ids cnt _ n); try done.
      * intros n' Hne. by rewrite (proj2 (Z.eqb_neq _ _) Hne).
      * intros n' Hne. by rewrite Hm', lookup_insert_ne.
      * rewrite Z.eqb_refl. lia.
      * rewrite Z.eqb_refl, Hm', lookup_insert_eq.
        destruct (Z.ltb_spec 0 (cnt n + - refs)); [|lia].
        by replace (cnt n - refs) with (cnt n + - refs) by lia.
    + destruct (hash_remove_map icache n Hok) as (h' & -> & Hok' & Hm' & Hc' & Hs').
      cbn [mbind outcome_bind]. eexists. split; [reflexivity|]. split; [|lia].
      apply (tracks_ext icache h' ids cnt _ n); try done.
      * intros n' Hne. by rewrite (proj2 (Z.eqb_neq _ _) Hne).
      * intros n' Hne. by rewrite Hm', lookup_delete_ne.
      * rewrite Z.eqb_refl. lia.
      * rewrite Z.eqb_refl, Hm', lookup_delete_eq. by destruct (Z.ltb_spec 0 (cnt n + - refs)); [lia|].
  - cbn [mbind outcome_bind]. eexists. split; [reflexivity|]. split; [|lia].
    apply (tracks_ext icache icache ids cnt _ n); try done.
    + intros n' Hne. by rewrite (proj2 (Z.eqb_neq _ _) Hne).
    + rewrite Z.eqb_refl. lia.
    + rewrite Z.eqb_refl, Hn. by destruct (Z.ltb_spec 0 (cnt n + - refs)); [lia|].
Qed.

(** [K] bounds the counts and the size of the table as the run goes on. *)
Lemma run_tracks fs root ids ops cnt icache s K :
  tracks icache ids cnt -> s.(mem) = [] -> kernel_ok root ids cnt ops ->
  (forall n, cnt n <= K) -> K + len ops < 2 ^ 32 ->
  icache.(size) <= K -> icache.(capacity) <= 2 ^ 40 ->
  exists icache', kernel_run (mk_ll fs (Ino32 root icache)) ops s =
      Ret (s, Success (mk_ll fs (Ino32 root icache'))) /\
    tracks icache' ids (counts root cnt ops).
Proof.
  revert cnt icache K. induction ops as [|[e|i refs] ops IH]; intros cnt icache K Ht Hm Hok Hc HK Hs Hcap;
    cbn [kernel_run kernel_ok counts length] in *.
  - by exists icache.
  - destruct Hok as [He Hok]. specialize (Hc (e_inode_number e)) as Hce.
    destruct (register_tracks fs root ids cnt icache e s Ht Hm He) as (h & j & E & _ & Ht' & Hcap' & Hs');
      [lia|lia|].
    destruct (IH _ h (K + 1) Ht' Hm Hok) as (h2 & E2 & Ht2); [..|lia|lia|lia|].
    { intros n. unfold count_add. specialize (Hc n). destruct (n =? e_inode_number e); lia. }
    exists h2. split; [|done]. run_m. rewrite E. exact E2.
  - destruct Hok as [Hr Hok].
    destruct (forget_tracks fs root ids cnt icache i refs Ht) as (h & E & Ht' & Hcap' & Hs');
      [intros n; specialize (Hc n); lia|done|].
    destruct (IH _ h K Ht' Hm Hok) as (h2 & E2 & Ht2); [..|lia|lia|lia|].
    { intros n. unfold count_add. specialize (Hc n). destruct (n =? _); lia. }
    exists h2. split; [|done]. run_m. rewrite E. exact E2.
Qed.

Lemma tracked_sqfs fs root icache ids cnt n :
  tracks icache ids cnt -> 0 <= root < 2 ^ 32 - 1 -> 0 <= n < 2 ^ 32 - 1 -> n <> root ->
  0 <= ids n < 2 ^ 48 ->
  sqfs_ll_ino32_sqfs fs root icache (sqfs_ll_ino32_num2fuse root n) =
  Ret (if 0 <? cnt n then ids n else SQFS_INODE_NONE).
Proof.
  intros [Hok Hmap] Hr Hn Hne Hid. destruct (num2fuse_spec root n Hr Hn) as (Hback & _ & Hroot).
  unfold sqfs_ll_ino32_sqfs. rewrite Hback, (hash_get_map icache n Hok).
  rewrite (proj2 (Z.eqb_neq _ _)) by (intros E%Hroot; done). cbn [mbind outcome_bind].
  destruct (Hmap n) as [_ ->]. destruct (0 <? cnt n); [|done]. by rewrite ie_inode_split.
Qed.

Context {CL : CacheLaws CI} (fs : sqfs) (Hfs : fs_ok fs) (X : expectations).

Lemma init_tracks s root :
  inv fs X s [] None -> s.(mem) = [] -> sqfs_export_ok fs = false ->
  sqfs_inode_get (m := O) fs (sqfs_inode_root fs) = Ret (Success root) ->
  exists s' icache, inv fs X s' [] None /\ s'.(mem) = [] /\
    sqfs_ll_init 4 fs s = Ret (s', Success (mk_ll fs (Ino32 (inode_number root) icache))) /\
    (forall ids, tracks icache ids (fun _ => 0)) /\ icache.(size) = 0 /\ icache.(capacity) = 32.
Proof.
  intros Hi Hm Hx Er.
  destruct (sim_exact fs X false _ _ s _ (sim_inode_get fs X false _) Hi Hm Er) as (s1 & E1 & Hi1 & Hm1).
  destruct (hash_init_ok (V := sqfs_ll_inode_entry) sizeof_ientry 5 [] ltac:(lia) eq_refl)
    as (h & Eh & Hok & Hmap & Hc & Hs).
  change (2 ^ 5) with SQFS_ICACHE_INITIAL in *.
  assert (set_mem s1 [] = s1) as Hs1 by (rewrite <- Hm1; by destruct s1).
  exists s1, h. split; [done|]. split; [done|]. split; [|split; [|by rewrite Hs, Hc]].
  - unfold sqfs_ll_init, sqfs_ll_ino32_init, icache_init. rewrite Hx.
    change (SQFS_INODE_ID_BYTES <=? 4) with false. cbv iota. run_m. rewrite E1.
    rewrite malloc_ok_run, Hm1. cbn [malloc fst snd]. rewrite Hs1, Hm1, Eh. cbn [malloc snd].
    by rewrite Hs1.
  - intros ids. split; [done|]. intros n. split; [done|]. by rewrite Hmap, lookup_empty.
Qed.

(** C16: with 32-bit numbers and no export table: after any run of look-ups and forgets
    of a kernel that forgets only what it holds, the number of an inode leads to its
    place exactly while the kernel holds a reference to it. *)
Theorem sqfs_ll_ino32_references (s : sqfs_state) (root : sqfs_inode) (ids : Z -> Z)
    (ops : list kernel_op) :
  inv fs X s [] None -> s.(mem) = [] -> sqfs_export_ok fs = false ->
  sqfs_inode_get (m := O) fs (sqfs_inode_root fs) = Ret (Success root) ->
  0 <= inode_number root < 2 ^ 32 - 1 ->
  kernel_ok (inode_number root) ids (fun _ => 0) ops -> len ops < 2 ^ 31 ->
  exists s' ll, inv fs X s' [] None /\
    (ll ← sqfs_ll_init 4 fs; kernel_run ll ops) s = Ret (s', Success ll) /\
    forall n, 0 <= n < 2 ^ 32 - 1 -> 0 <= ids n < 2 ^ 48 ->
      ino_sqfs ll (sqfs_ll_ino32_num2fuse (inode_number root) n) s' =
      Ret (s', Success (
        if n =? inode_number root then sqfs_inode_root fs
        else if 0 <? counts (inode_number root) (fun _ => 0) ops n then ids n
        else SQFS_INODE_NONE)).
Proof.
  intros Hi Hm Hx Er Hr Hops Hlen.
  destruct (init_tracks s root Hi Hm Hx Er) as (s1 & h & Hi1 & Hm1 & E1 & Ht & Hs & Hc).
  destruct (run_tracks fs (inode_number root) ids ops _ h s1 0 (Ht ids) Hm1 Hops)
    as (h2 & E2 & Ht2); [done|lia|lia|lia|].
  exists s1. eexists. split; [done|]. split; [run_m; rewrite E1; exact E2|].
  intros n Hn Hid. unfold ino_sqfs. cbn [ll_ino ll_fs].
  destruct (Z.eqb_spec n (inode_number root)) as [->|Hne].
  - destruct (num2fuse_spec (inode_number root) _ Hr Hn) as (_ & _ & Hroot).
    unfold sqfs_ll_ino32_sqfs. by rewrite (proj2 Hroot eq_refl).
  - by rewrite (tracked_sqfs fs _ h2 ids _ n Ht2 Hr Hn Hne Hid).
Qed.

(** the failure of the allocation of the table is not noticed: the driver starts,
    and the first number it is asked for is looked up through a null pointer. *)
Theorem sqfs_ll_ino32_init_unchecked (s s1 : sqfs_state) (root : sqfs_inode) (ms : mallocs) :
  sqfs_export_ok fs = false ->
  sqfs_inode_get (m := M) fs (sqfs_inode_root fs) s = Ret (s1, Success root) ->
  s1.(mem) = true :: false :: ms ->
  exists s' ll, sqfs_ll_init 4 fs s = Ret (s', Success ll) /\
    forall i s2, i <> FUSE_ROOT_ID -> sqfs_ll_inode ll i s2 = Crash MemFault.
Proof.
  intros Hx E Hm. unfold sqfs_ll_init, sqfs_ll_ino32_init, icache_init. rewrite Hx.
  change (SQFS_INODE_ID_BYTES <=? 4) with false. cbv iota. run_m. rewrite E.
  rewrite malloc_ok_run, Hm. cbn [set_mem mem malloc fst snd].
  unfold sqfs_hash_init. change (negb ((SQFS_ICACHE_INITIAL &&& u64 (SQFS_ICACHE_INITIAL - 1)) =? 0))
    with false. cbn [malloc]. eexists _, _. split; [reflexivity|].
  intros i s2 Hi. unfold sqfs_ll_inode, ino_sqfs. cbn [ll_ino ll_fs]. unfold sqfs_ll_ino32_sqfs.
  rewrite (proj2 (Z.eqb_neq _ _) Hi), hash_zero_get. done.
Qed.

Lemma base_type bs (b : squashfs_base_inode) :
  len (take 2 bs) = 2 -> swapin_struct bs = Some b -> b.(bi_inode_type) = le_decode (take 2 bs).
Proof.
  intros Hl E. pose proof (to_fields_read bs b E) as H. cbn [to_fields base_inode_disk] in H.
  apply (f_equal head) in H. injection H as ->. apply sqfs_swapin_le. lia.
Qed.

(** [SQFS_INODE_NONE], which stands for a number that was not handed out, is never
    an inode: its place is the second byte of the first inode, and what is read there has
    no known type. *)
Theorem sqfs_inode_none_fails (n : Z) (data : list byte) :
  md_block_spec fs (s64 fs.(sb).(sb_inode_table_start)) = Ret (Success (n, data)) ->
  17 <= len data -> le_decode (take 2 data) < 256 ->
  sqfs_inode_get (m := O) fs SQFS_INODE_NONE = Ret (Failure SQFS_ERR).
Proof.
  intros Eb Hlen Ht. destruct data as [|x0 [|x1 [|x2 data]]]; try (cbn in Hlen; lia).
  set (d := x0 :: x1 :: x2 :: data) in *.
  assert (sqfs_md_read (m := O) fs (mk_cursor (s64 fs.(sb).(sb_inode_table_start)) 1) true 16 =
    Ret (Success (advance (s64 (s64 fs.(sb).(sb_inode_table_start) + n))
      (mk_cursor (s64 fs.(sb).(sb_inode_table_start)) 1) (len d) 16, slice d 1 16))) as Er.
  { unfold sqfs_md_read. rewrite (md_read_step fs Hfs) by (unfold in_size; cbn [cur_offset]; lia).
    cbn [cur_block cur_offset]. rewrite Eb. run_m.
    destruct (Z.ltb_spec (len d) 1); [lia|]. cbn [andb]. cbv zeta.
    destruct (Z.leb_spec 1 (len d)); [|lia]. rewrite Z.min_r by lia.
    change (16 - 16) with 0. rewrite md_read_zero by lia. run_m.
    by rewrite app_nil_r. }
  unfold sqfs_inode_get, sqfs_md_cursor_inode, SQFS_INODE_NONE.
  change (1 &&& 0xffff) with 1. change (Z.shiftr 1 16 + sb_inode_table_start (sb fs))
    with (sb_inode_table_start (sb fs)).
  destruct (swapin_struct_total (A := squashfs_base_inode) (slice d 1 16)) as [b Hb].
  match type of Er with _ = Ret (Success (?c, _)) =>
    assert (md_struct (m := O) squashfs_base_inode fs
              (mk_cursor (s64 fs.(sb).(sb_inode_table_start)) 1) = Ret (Success (c, b))) as ->
  end.
  { unfold md_struct. change (disk_size squashfs_base_inode) with 16. rewrite Er. run_m. by rewrite Hb. }
  run_m.
  assert (take 2 (slice d 1 16) = [x1; x2]) as Etype.
  { unfold slice. rewrite Z.min_l by lia. rewrite take_take. unfold d. cbn [length] in Hlen.
    replace (Z.to_nat (Z.min 1 (len (x0 :: x1 :: x2 :: data)))) with 1%nat by (cbn [length]; lia).
    done. }
  apply base_type in Hb; [|by rewrite Etype]. rewrite Etype in Hb. rewrite Hb.
  unfold d in Ht. cbn in Ht. cbn [le_decode].
  pose proof (byte_val_range x0). pose proof (byte_val_range x1). pose proof (byte_val_range x2).
  unfold SQUASHFS_REG_TYPE, SQUASHFS_LREG_TYPE, SQUASHFS_DIR_TYPE, SQUASHFS_LDIR_TYPE,
    SQUASHFS_SYMLINK_TYPE, SQUASHFS_LSYMLINK_TYPE, SQUASHFS_BLKDEV_TYPE, SQUASHFS_CHRDEV_TYPE,
    SQUASHFS_LBLKDEV_TYPE, SQUASHFS_LCHRDEV_TYPE, SQUASHFS_SOCKET_TYPE, SQUASHFS_FIFO_TYPE,
    SQUASHFS_LSOCKET_TYPE, SQUASHFS_LFIFO_TYPE.
  repeat (rewrite (proj2 (Z.eqb_neq _ _)) by lia). done.
Qed.
End references.

(** ** The sample tree *)
Lemma sqfs_ll_ino64_roundtrip_witness :
  sqfs_ll_ino64_fuse tree_fs 32 = 32 /\ sqfs_ll_ino64_sqfs tree_fs (sqfs_ll_ino64_fuse tree_fs 32) = 32.
Proof.
  split; [reflexivity|].
  exact (proj1 (sqfs_ll_ino64_roundtrip tree_fs 32 ltac:(lia) ltac:(lia))).
Defined.

Lemma sqfs_ll_ino32_roundtrip_witness :
  sqfs_ll_ino32_num2fuse 1 0 = 2 /\ sqfs_ll_ino32_fuse2num 1 (sqfs_ll_ino32_num2fuse 1 0) = 0.
Proof.
  split; [reflexivity|].
  exact (proj1 (sqfs_ll_ino32_roundtrip 1 0 ltac:(lia) ltac:(lia))).
Defined.

Definition tree_ids (n : Z) : Z := if n =? 3 then 64 else if n =? 2 then 32 else 0.
Definition tree_dentry (num id : Z) : sqfs_dir_entry := mk_dentry id num SQUASHFS_REG_TYPE None 1 0 0.

(** Inode 3 is looked up twice and forgotten once, inode 2 is forgotten altogether. *)
Definition tree_ops : list kernel_op :=
  [Lookup (tree_dentry 3 64); Lookup (tree_dentry 2 32); Lookup (tree_dentry 3 64);
   Forget (sqfs_ll_ino32_num2fuse 1 2) 1; Forget (sqfs_ll_ino32_num2fuse 1 3) 1].

Lemma sqfs_ll_ino32_references_witness :
  exists s' ll,
    (ll ← sqfs_ll_init 4 tree_fs; kernel_run ll tree_ops) (sample_state []) = Ret (s', Success ll) /\
    ino_sqfs ll 4 s' = Ret (s', Success 64) /\ ino_sqfs ll 3 s' = Ret (s', Success SQFS_INODE_NONE).
Proof.
  assert (kernel_ok 1 tree_ids (fun _ => 0) tree_ops) as Hk by (vm_compute; intuition congruence).
  destruct (sqfs_ll_ino32_references (CL := sample_laws) tree_fs no_expectations (sample_state [])
    tree_root tree_ids tree_ops (sample_inv _ _ _) eq_refl eq_refl tree_root_get
    ltac:(vm_compute; intuition congruence) Hk ltac:(vm_compute; reflexivity)) as (s' & ll & _ & E & H).
  exists s', ll. split; [exact E|]. split.
  - exact (H 3 ltac:(lia) ltac:(vm_compute; intuition congruence)).
  - exact (H 2 ltac:(lia) ltac:(vm_compute; intuition congruence)).
Defined.

Lemma sqfs_ll_ino32_init_unchecked_witness :
  exists s' ll, sqfs_ll_init 4 tree_fs (sample_state [true; true; true; false]) = Ret (s', Success ll) /\
    sqfs_ll_inode ll 4 s' = Crash MemFault.
Proof.
  destruct (sqfs_inode_get (m := M) tree_fs (sqfs_inode_root tree_fs)
    (sample_state [true; true; true; false])) as [[s1 [root|e]]|c] eqn:E;
    [|apply (f_equal answer) in E; vm_compute in E; congruence..].
  assert (s1.(mem) = [true; false]) as Hm.
  { apply (f_equal (fun out => (final (sample_state []) out).(mem))) in E. cbn [final] in E.
    rewrite <- E. vm_compute. reflexivity. }
  destruct (sqfs_ll_ino32_init_unchecked tree_fs _ s1 root [] eq_refl E Hm)
    as (s' & ll & Ei & H).
  exists s', ll. split; [exact Ei|]. apply H. vm_compute. congruence.
Defined.

Lemma sqfs_inode_none_fails_witness :
  sqfs_inode_get (m := O) tree_fs SQFS_INODE_NONE = Ret (Failure SQFS_ERR).
Proof.
  destruct (md_block_spec tree_fs (s64 tree_fs.(sb).(sb_inode_table_start))) as [[[n data]|e]|c] eqn:E;
    [|vm_compute in E; congruence..].
  assert (17 <= len data /\ le_decode (take 2 data) < 256) as [H1 H2].
  { vm_compute in E. injection E as _ <-. vm_compute. intuition congruence. }
  exact (sqfs_inode_none_fails tree_fs tree_fs_ok n data E H1 H2).
Defined.
