(* ===== verification/File.v ===== *)
(** * File: reading regular files (file.c)

    The list of a file's block sizes follows its inode in the metadata; the data
    blocks lie one after the other.  The tail of the file may be in a fragment
    block shared with other files.  To read far into a large file the code builds
    an index of the metadata blocks that hold the list. *)
From S2P Require Import Prelude Swap Cache Decompress FsState Block BlockOk Sample MdRead Table Inode.

(** [a / b] and [a % b] in C: the process dies when [b] is zero. *)
Definition c_div (a b : Z) : outcome Z := if b =? 0 then Crash DivByZero else Ret (Z.quot a b).
Definition c_mod (a b : Z) : outcome Z := if b =? 0 then Crash DivByZero else Ret (Z.rem a b).

(** [bl->fs] is the [fs] of the operations. *)
Record sqfs_blocklist := mk_bl {
  bl_remain : Z;
  bl_cur : sqfs_md_cursor;
  bl_started : bool;
  bl_pos : Z;
  bl_block : Z;
  bl_header : Z;
  bl_input_size : Z
}.

Definition SQUASHFS_META_SLOTS : Z := 8.
Definition blocklist_entry_size : Z := 4.

Definition block_size (fs : sqfs) : Z := fs.(sb).(sb_block_size).

Section file.
Context {m : Type -> Type} {FM : FsMonad m}.

Definition sqfs_frag_entry (fs : sqfs) (idx : Z) : m squashfs_fragment_entry :=
  if idx =? SQUASHFS_INVALID_FRAG then fm_fail SQFS_ERR
  else
    bs ← sqfs_table_get fs.(frag_table) fs idx;
    match swapin_struct bs with
    | Some frag => mret frag
    | None => fm_lift (Crash MemFault)
    end.

(** [use] gets [*offset], [*size] and the data of the block. *)
Definition sqfs_frag_block {A} (fs : sqfs) (inode : sqfs_inode)
    (use : Z -> Z -> list byte -> outcome A) : m A :=
  if negb (S_ISREG (mode inode)) then fm_fail SQFS_ERR
  else
    x ← fm_lift (get_reg inode);
    frag ← sqfs_frag_entry fs x.(xr_frag_idx);
    fm_or_err (with_data_block fs FragCache (s64 frag.(fe_start_block)) frag.(fe_size)
      (fun _ data =>
         size ← c_mod x.(xr_file_size) (block_size fs);
         use x.(xr_frag_off) size data)).

Definition sqfs_blocklist_count (fs : sqfs) (inode : sqfs_inode) : outcome Z :=
  x ← get_reg inode;
  let size := x.(xr_file_size) in
  let block := block_size fs in
  if block =? 0 then Crash DivByZero
  else if x.(xr_frag_idx) =? SQUASHFS_INVALID_FRAG then Ret (sqfs_divceil size block)
  else Ret (size / block).

Definition sqfs_blocklist_init (fs : sqfs) (inode : sqfs_inode) : outcome sqfs_blocklist :=
  remain ← sqfs_blocklist_count fs inode;
  x ← get_reg inode;
  mret (mk_bl remain inode.(next) false 0 x.(xr_start_block) 0 0).

Definition sqfs_blocklist_next (fs : sqfs) (bl : sqfs_blocklist) : m sqfs_blocklist :=
  if bl.(bl_remain) =? 0 then fm_fail SQFS_ERR
  else
    let remain := bl.(bl_remain) - 1 in
    '(cur, bs) ← sqfs_md_read fs bl.(bl_cur) true blocklist_entry_size;
    let header := sqfs_swapin32 bs in
    let block := u64 (bl.(bl_block) + bl.(bl_input_size)) in
    let (_, input_size) := sqfs_data_header header in
    let pos := if bl.(bl_started) then u64 (bl.(bl_pos) + block_size fs) else bl.(bl_pos) in
    mret (mk_bl remain cur true pos block header input_size).

(** ** The index *)

(** Is a file worth indexing? *)
Definition sqfs_blockidx_indexable (fs : sqfs) (inode : sqfs_inode) : outcome bool :=
  blocks ← sqfs_blocklist_count fs inode;
  let md_size := u64 (blocks * blocklist_entry_size) in
  Ret (SQUASHFS_METADATA_SIZE <=? md_size).

(** [index] holds the entries written so far, [i] of them. *)
Fixpoint blockidx_loop (f : fuel) (fs : sqfs) (count : Z) (bl : sqfs_blocklist) (first : bool)
    (index : list sqfs_blockidx_entry) : m (list sqfs_blockidx_entry) :=
  if negb (bl.(bl_remain) =? 0) && (len index <? count) then
    match f with
    | NoFuel => fm_lift (Crash OutOfFuel)
    | More k =>
        let index :=
          if (bl.(bl_cur).(cur_offset) <? blocklist_entry_size) && negb first then
            index ++ [mk_blockidx (u64 (bl.(bl_block) + bl.(bl_input_size)))
                        (u32 (bl.(bl_cur).(cur_block) - fs.(sb).(sb_inode_table_start)))]
          else index in
        bl ← fm_or_err (sqfs_blocklist_next fs bl);
        blockidx_loop (k tt) fs count bl false index
    end
  else mret index.

(** The array has room for [count] entries; the list is the ones written. *)
Definition sqfs_blockidx_add (fs : sqfs) (inode : sqfs_inode) : m (list sqfs_blockidx_entry) :=
  blocks ← fm_lift (sqfs_blocklist_count fs inode);
  let md_size := u64 (blocks * blocklist_entry_size) in
  let count := u64 (inode.(next).(cur_offset) + md_size - 1) / SQUASHFS_METADATA_SIZE in
  fm_alloc;;
  bl ← fm_lift (sqfs_blocklist_init fs inode);
  blockidx_loop full_tank fs count bl true [].

(** The block list moved to metadata block [metablock] of the list, by the index. *)
Definition blocklist_skip (fs : sqfs) (bl : sqfs_blocklist) (metablock : Z)
    (index : list sqfs_blockidx_entry) : outcome sqfs_blocklist :=
  let offset := bl.(bl_cur).(cur_offset) in
  let skipped := u64 (u64 (metablock * SQUASHFS_METADATA_SIZE) / blocklist_entry_size
                      - offset / blocklist_entry_size) in
  match zlookup index (metablock - 1) with
  | None => Crash MemFault
  | Some e =>
      Ret (mk_bl (u64 (bl.(bl_remain) - skipped))
        (mk_cursor (s64 (e.(bi_md_block) + fs.(sb).(sb_inode_table_start)))
           (offset mod blocklist_entry_size))
        bl.(bl_started) (u64 (skipped * block_size fs)) e.(bi_data_block) bl.(bl_header)
        bl.(bl_input_size))
  end.

Definition sqfs_blockidx_blocklist (fs : sqfs) (inode : sqfs_inode) (start : Z)
    : m sqfs_blocklist :=
  bl ← fm_lift (sqfs_blocklist_init fs inode);
  block ← fm_lift (c_div start (block_size fs));
  let block := u64 block in
  if bl.(bl_remain) <? block then  (* fragment *)
    mret (mk_bl 0 bl.(bl_cur) bl.(bl_started) bl.(bl_pos) bl.(bl_block) bl.(bl_header)
            bl.(bl_input_size))
  else
    (* How many MD-blocks do we want to skip? *)
    let metablock := u64 (bl.(bl_cur).(cur_offset) + u64 (block * blocklist_entry_size))
                     / SQUASHFS_METADATA_SIZE in
    indexable ← fm_lift (sqfs_blockidx_indexable fs inode);
    if (metablock =? 0) || negb indexable then mret bl
    else
      let idx := u32 (inode_number inode + 1) in  (* zero means invalid index *)
      with_blockidx idx (sqfs_blockidx_add fs inode) (blocklist_skip fs bl metablock).

(** ** Reading *)

(** The bytes of one block from [read_off]: [data] stands from [data_off] for
    [data_size] bytes of the file. *)
Definition copy_out (data : list byte) (data_off data_size read_off size : Z)
    : outcome (list byte) :=
  let take := u64 (data_size - read_off) in
  let take := if size <? take then size else take in
  mem_read data (data_off + read_off) take.

Fixpoint read_loop (f : fuel) (fs : sqfs) (inode : sqfs_inode) (x : xtra_reg)
    (start : Z) (bl : sqfs_blocklist) (read_off size : Z) : m (list byte) :=
  let file_size := s64 x.(xr_file_size) in
  if 0 <? size then
    if bl.(bl_remain) =? 0 then  (* fragment *)
      if x.(xr_frag_idx) =? SQUASHFS_INVALID_FRAG then mret []
      else sqfs_frag_block fs inode (fun data_off data_size data =>
             copy_out data data_off data_size read_off size)
    else
      match f with
      | NoFuel => fm_lift (Crash OutOfFuel)
      | More k =>
          bl ← sqfs_blocklist_next fs bl;
          if u64 (bl.(bl_pos) + block_size fs) <=? u64 start
          then read_loop (k tt) fs inode x start bl read_off size
          else
            bytes ← (if bl.(bl_input_size) =? 0 then  (* Hole! *)
                       let data_size := u64 (file_size - bl.(bl_pos)) in
                       let data_size :=
                         if block_size fs <? data_size then block_size fs else data_size in
                       let take := u64 (data_size - read_off) in
                       let take := if size <? take then size else take in
                       mret (replicate (Z.to_nat take) x00)
                     else
                       with_data_block fs DataCache (s64 bl.(bl_block)) bl.(bl_header)
                         (fun blk_size data => copy_out data 0 blk_size read_off size));
            rest ← read_loop (k tt) fs inode x start bl 0 (size - len bytes);
            mret (bytes ++ rest)
      end
  else mret [].

(** The bytes put in the buffer; their number is the new [*size]. *)
Definition sqfs_read_range (fs : sqfs) (inode : sqfs_inode) (start size : Z) : m (list byte) :=
  if negb (S_ISREG (mode inode)) then fm_fail SQFS_ERR
  else
    x ← fm_lift (get_reg inode);
    let file_size := s64 x.(xr_file_size) in
    if (size <? 0) || (file_size <? start) then fm_fail SQFS_ERR
    else if start =? file_size then mret []
    else
      bl ← sqfs_blockidx_blocklist fs inode start;
      read_off ← fm_lift (c_mod (u64 start) (block_size fs));
      bytes ← read_loop full_tank fs inode x start bl read_off size;
      if len bytes =? 0 then fm_fail SQFS_ERR else mret bytes.
End file.

(** fs.c and file.c: the index cache. *)
Definition sqfs_blockidx_init {CI : CacheImpl} (ms : mallocs)
    : result (cache (list sqfs_blockidx_entry)) * mallocs :=
  cache_init [] SQUASHFS_META_SLOTS ms.
