(* ===== verification/FileOk.v ===== *)
(** * FileOk: reading files is right

    [file_on_disk] says what the archive holds of a regular file: the block sizes in
    the metadata stream, the data blocks, the fragment.  The operations of File are
    proved against the contents it gives, [file_contents].  [bl_at k] is the state
    of a block list from which block [k] is the next. *)
From S2P Require Import Prelude Swap Cache CacheST Decompress FsState Block BlockOk Sample MdRead Stream Table Inode Ends File.

Definition zsum : list Z -> Z := foldr Z.add 0.

Lemma zsum_snoc l a : zsum (l ++ [a]) = zsum l + a.
Proof. induction l as [|b l IH]; cbn; lia. Qed.

Definition input_size (h : Z) : Z := snd (sqfs_data_header h).

Lemma input_size_range h : 0 <= input_size h < 2 ^ 32.
Proof. unfold input_size, sqfs_data_header. cbn [snd]. by apply wrap_range. Qed.

Lemma concat_length_full {A} (D : list (list A)) size :
  (forall k d, D !! k = Some d -> len d = size) -> len (concat D) = len D * size.
Proof.
  induction D as [|d D IH]; intros Hl; [done|]. cbn [concat length]. rewrite length_app.
  rewrite Nat2Z.inj_add, (Hl 0%nat d eq_refl), IH by (intros k; apply (Hl (S k))). lia.
Qed.

Section layout.
Context (fs : sqfs) (inode : sqfs_inode) (x : xtra_reg).

(** Where block [k] lies: after the [k] blocks before it. *)
Definition data_pos (hs : list Z) (k : nat) : Z :=
  u64 (x.(xr_start_block) + zsum (input_size <$> take k hs)).

(** How many bytes of the file block [k] stands for. *)
Definition block_want (k : nat) : Z :=
  Z.min (block_size fs) (x.(xr_file_size) - Z.of_nat k * block_size fs).

(** The block with header [h] at [pos] holds [data]; a block of size zero is a hole. *)
Definition block_holds (pos h want : Z) (data : list byte) : Prop :=
  len data = want /\
  if input_size h =? 0 then data = replicate (Z.to_nat want) x00
  else data_block_spec fs (s64 pos) h = Ret (Success data).

(** The end of the file that is in a fragment. *)
Definition frag_holds (tail : list byte) : Prop :=
  if x.(xr_frag_idx) =? SQUASHFS_INVALID_FRAG then tail = []
  else
    let rest := x.(xr_file_size) mod block_size fs in
    exists fe data,
      sqfs_frag_entry (m := O) fs x.(xr_frag_idx) = Ret (Success fe) /\
      data_block_spec fs (s64 fe.(fe_start_block)) fe.(fe_size) = Ret (Success data) /\
      0 <= x.(xr_frag_off) /\ x.(xr_frag_off) + rest <= len data /\
      tail = slice data x.(xr_frag_off) rest.

(** A regular file in the archive: the chain [mds] of metadata blocks holds its
    list of headers [hs]; [bs] are the blocks of the file. *)
Record file_on_disk (mds : list (Z * list byte)) (hs : list Z) (bs : list (list byte))
    (tail : list byte) : Prop := {
  fo_mode : S_ISREG (mode inode) = true;
  fo_reg : get_reg inode = Ret x;
  fo_bsize : 1 < block_size fs < 2 ^ 32;
  fo_size : 0 <= x.(xr_file_size) < 2 ^ 62;
  fo_start : 0 <= x.(xr_start_block) < 2 ^ 64;
  fo_count : sqfs_blocklist_count fs inode = Ret (len hs);
  fo_headers : Forall (fun h => 0 <= h < 2 ^ 32) hs;
  fo_chain : md_chain fs inode.(next).(cur_block) mds;
  fo_cursor : 0 <= inode.(next).(cur_offset) < SQUASHFS_METADATA_SIZE;
  fo_room : inode.(next).(cur_offset) + 4 * len hs <= len (stream mds);
  fo_list : slice (stream mds) inode.(next).(cur_offset) (4 * len hs) =
              concat (le_encode 4 <$> hs);
  fo_table i : (0 < i < length mds)%nat ->
    0 <= md_pos inode.(next).(cur_block) mds i - fs.(sb).(sb_inode_table_start) < 2 ^ 32;
  fo_blocks : length bs = length hs;
  fo_data k h data : hs !! k = Some h -> bs !! k = Some data ->
    block_holds (data_pos hs k) h (block_want k) data;
  fo_tail : frag_holds tail
}.

Definition file_contents (bs : list (list byte)) (tail : list byte) : list byte :=
  concat bs ++ tail.

(** The caches see each data position with one header, and the index of this
    inode under its key. *)
Record coherent (X : expectations) (hs : list Z) : Prop := {
  co_data k h : hs !! k = Some h -> input_size h <> 0 ->
    forall h', X.(data_hdr) (u64 (s64 (data_pos hs k))) h' <-> h' = h;
  co_frag fe : sqfs_frag_entry (m := O) fs x.(xr_frag_idx) = Ret (Success fe) ->
    forall h, X.(frag_hdr) (u64 (s64 fe.(fe_start_block))) h <-> h = fe.(fe_size);
  co_index index : X.(index_of) (u32 (inode_number inode + 1)) index <->
    sqfs_blockidx_add (m := O) fs inode = Ret (Success index)
}.
End layout.

Arguments fo_mode {_ _ _ _ _ _ _} _.
Arguments fo_reg {_ _ _ _ _ _ _} _.
Arguments fo_bsize {_ _ _ _ _ _ _} _.
Arguments fo_size {_ _ _ _ _ _ _} _.
Arguments fo_start {_ _ _ _ _ _ _} _.
Arguments fo_count {_ _ _ _ _ _ _} _.
Arguments fo_headers {_ _ _ _ _ _ _} _.
Arguments fo_chain {_ _ _ _ _ _ _} _.
Arguments fo_cursor {_ _ _ _ _ _ _} _.
Arguments fo_room {_ _ _ _ _ _ _} _.
Arguments fo_list {_ _ _ _ _ _ _} _.
Arguments fo_table {_ _ _ _ _ _ _} _.
Arguments fo_blocks {_ _ _ _ _ _ _} _.
Arguments fo_data {_ _ _ _ _ _ _} _.
Arguments fo_tail {_ _ _ _ _ _ _} _.

Section file.
Context (fs : sqfs) (Hfs : fs_ok fs) (inode : sqfs_inode) (x : xtra_reg).
Context (mds : list (Z * list byte)) (hs : list Z) (bs : list (list byte)) (tail : list byte).
Context (Hfile : file_on_disk fs inode x mds hs bs tail).

Abbreviation B := (block_size fs).
Abbreviation F := x.(xr_file_size).
Abbreviation off := inode.(next).(cur_offset).
Abbreviation pos0 := inode.(next).(cur_block).
Abbreviation nb := (len hs).
Abbreviation contents := (file_contents bs tail).

(** ** The numbers *)
Lemma file_count :
  nb = if x.(xr_frag_idx) =? SQUASHFS_INVALID_FRAG then (F + B - 1) / B else F / B.
Proof.
  pose proof (fo_count Hfile) as Hc. unfold sqfs_blocklist_count in Hc.
  rewrite (fo_reg Hfile) in Hc. cbn in Hc.
  pose proof (fo_bsize Hfile). pose proof (fo_size Hfile).
  destruct (Z.eqb_spec B 0); [lia|]. destruct (_ =? _); injection Hc as <-; [|done].
  rewrite sqfs_divceil_spec; lia.
Qed.

(** [nb] blocks, and what they leave. *)
Lemma file_bounds :
  0 <= nb /\ nb * B < F + B /\
  (x.(xr_frag_idx) = SQUASHFS_INVALID_FRAG -> F <= nb * B) /\
  (x.(xr_frag_idx) <> SQUASHFS_INVALID_FRAG -> nb * B <= F /\ F - nb * B = F mod B).
Proof.
  pose proof file_count as Hc. pose proof (fo_bsize Hfile).
  pose proof (fo_size Hfile).
  destruct (Z.eqb_spec (xr_frag_idx x) SQUASHFS_INVALID_FRAG); rewrite Hc.
  - pose proof (Z.div_mod (F + B - 1) B ltac:(lia)). pose proof (Z.mod_pos_bound (F + B - 1) B).
    assert (0 <= (F + B - 1) / B) by (apply Z.div_pos; lia).
    split; [lia|]. split; [lia|]. split; [lia|done].
  - pose proof (Z.div_mod F B ltac:(lia)). pose proof (Z.mod_pos_bound F B).
    assert (0 <= F / B) by (apply Z.div_pos; lia).
    split; [lia|]. split; [lia|]. split; [done|lia].
Qed.

Lemma block_length k data :
  bs !! k = Some data -> len data = block_want fs x k.
Proof.
  intros Hd. destruct (lookup_lt_is_Some_2 hs k) as [h Hh].
  { rewrite <- (fo_blocks Hfile). by eapply lookup_lt_Some. }
  by apply (fo_data Hfile k h data Hh Hd).
Qed.

Lemma block_full k data :
  bs !! k = Some data -> (Z.of_nat k < nb - 1 \/ x.(xr_frag_idx) <> SQUASHFS_INVALID_FRAG) ->
  len data = B.
Proof.
  intros Hd Hk. rewrite (block_length k data Hd). unfold block_want.
  apply lookup_lt_Some in Hd. rewrite (fo_blocks Hfile) in Hd.
  pose proof file_bounds as (_ & Hn & _ & Hf). pose proof (fo_bsize Hfile).
  destruct Hk as [Hk|Hk]; [nia|]. specialize (Hf Hk). nia.
Qed.

Lemma blocks_length : x.(xr_frag_idx) <> SQUASHFS_INVALID_FRAG \/ nb = 0 -> len (concat bs) = nb * B.
Proof.
  intros Hc. pose proof (fo_blocks Hfile) as Hlen. rewrite <- Hlen.
  assert (forall k data, bs !! k = Some data -> len data = B) as Hl.
  { intros k data Hd. apply (block_full k); [done|]. apply lookup_lt_Some in Hd.
    destruct Hc; [by right|]. lia. }
  by apply concat_length_full.
Qed.

Lemma contents_length : len contents = F.
Proof.
  pose proof file_bounds as (Hn0 & Hn & Hi & Hf). unfold file_contents.
  pose proof (fo_tail Hfile) as Ht. unfold frag_holds in Ht.
  pose proof (fo_bsize Hfile). pose proof (fo_blocks Hfile) as Hlen.
  rewrite length_app, Nat2Z.inj_add. destruct (Z.eqb_spec (xr_frag_idx x) SQUASHFS_INVALID_FRAG) as [E|E].
  - specialize (Hi E). rewrite Ht. cbn [length]. destruct (decide (nb = 0)) as [H0|H0].
    + rewrite blocks_length by auto. pose proof (fo_size Hfile). lia.
    + destruct (lookup_lt_is_Some_2 bs (pred (length bs))) as [b Hb];
        [lia|].
      pose proof (block_length _ _ Hb) as Hl. unfold block_want in Hl.
      rewrite (concat_length_last bs B b); [|intros j d Hd Hj|done].
      * rewrite Hl, Hlen in *. nia.
      * apply (block_full j); [done|]. left. lia.
  - specialize (Hf E). destruct Ht as (fe & data & _ & _ & Ho & Hfit & Htail).
    rewrite Htail, blocks_length, slice_length by auto. pose proof (Z.mod_pos_bound F B). lia.
Qed.

(** ** Pieces of the contents *)
Lemma contents_concat : contents = concat (bs ++ [tail]).
Proof. unfold file_contents. rewrite concat_app. cbn. by rewrite app_nil_r. Qed.

Lemma contents_block k data q m :
  bs !! k = Some data -> 0 <= q -> 0 <= m -> q + m <= len data ->
  slice contents (Z.of_nat k * B + q) m = slice data q m.
Proof.
  intros Hd Hq Hm Hle. pose proof (fo_bsize Hfile). pose proof (fo_blocks Hfile) as Hlen.
  pose proof (lookup_lt_Some _ _ _ Hd). rewrite contents_concat.
  apply slice_concat; try lia; [|by rewrite lookup_app_l].
  intros j c Hj Hc. rewrite lookup_app_l in Hc by lia. apply (block_full j); [done|]. lia.
Qed.

Lemma contents_tail q m :
  x.(xr_frag_idx) <> SQUASHFS_INVALID_FRAG -> 0 <= q -> 0 <= m -> q + m <= len tail ->
  slice contents (nb * B + q) m = slice tail q m.
Proof.
  intros Hi Hq Hm Hle. pose proof (fo_bsize Hfile). rewrite <- (fo_blocks Hfile).
  rewrite contents_concat. apply slice_concat; try lia.
  - intros j c Hj Hc. rewrite lookup_app_l in Hc by lia. apply (block_full j); auto.
  - rewrite lookup_app_r, Nat.sub_diag by lia. done.
Qed.

(** ** Stepping through the block list *)
Record bl_at (k : Z) (bl : sqfs_blocklist) : Prop := {
  ba_range : 0 <= k <= nb;
  ba_remain : bl.(bl_remain) = nb - k;
  ba_cur : k < nb -> bl.(bl_cur) = cursor_at pos0 mds (off + 4 * k);
  ba_block : u64 (bl.(bl_block) + bl.(bl_input_size)) = data_pos x hs (Z.to_nat k);
  ba_pos : bl.(bl_pos) = if bl.(bl_started) then (k - 1) * B else k * B;
  ba_started : bl.(bl_started) = true -> 1 <= k
}.

Lemma bl_at_init : exists bl, sqfs_blocklist_init fs inode = Ret bl /\ bl_at 0 bl.
Proof.
  unfold sqfs_blocklist_init. rewrite (fo_count Hfile). cbn. rewrite (fo_reg Hfile). cbn.
  eexists; split; [done|]. pose proof (fo_cursor Hfile). pose proof (fo_start Hfile).
  split; cbn [bl_remain bl_cur bl_block bl_input_size bl_pos bl_started]; try lia; try done.
  intros _. rewrite Z.add_0_r, cursor_at_start by done. by destruct (next inode).
Qed.

(** The header at place [k] of the list. *)
Lemma header_bytes k h :
  hs !! k = Some h -> slice (stream mds) (off + 4 * Z.of_nat k) 4 = le_encode 4 h.
Proof.
  intros Hh. pose proof (lookup_lt_Some _ _ _ Hh). pose proof (fo_cursor Hfile).
  pose proof (fo_room Hfile).
  rewrite <- (slice_slice _ off (4 * nb)), (fo_list Hfile) by lia.
  replace (4 * Z.of_nat k) with (Z.of_nat k * 4 + 0) by lia.
  rewrite slice_concat with (b := le_encode 4 h); try lia.
  - apply slice_full.
  - intros j c _ Hc. rewrite list_lookup_fmap in Hc.
    destruct (hs !! j) as [z|]; [|done].
    assert (c = le_encode 4 z) as -> by (cbn [fmap option_fmap option_map] in Hc; congruence).
    by rewrite le_encode_length.
  - by rewrite list_lookup_fmap, Hh.
  - done.
Qed.

Lemma header_swapin h : 0 <= h < 2 ^ 32 -> sqfs_swapin32 (le_encode 4 h) = h.
Proof.
  intros. unfold sqfs_swapin32. rewrite sqfs_swapin_le, le_decode_encode by
    (rewrite le_encode_length; lia). by apply Z.mod_small.
Qed.

Lemma data_pos_next k h :
  hs !! k = Some h -> data_pos x hs (S k) = u64 (data_pos x hs k + input_size h).
Proof.
  intros Hh. unfold data_pos. rewrite (take_S_r _ _ _ Hh), fmap_app. cbn.
  rewrite zsum_snoc, wrap_add_l. f_equal. lia.
Qed.

(** One header is read: the list is at the next place, and describes block [k]. *)
Lemma blocklist_next_at k bl :
  bl_at k bl -> k < nb ->
  exists h bl', hs !! Z.to_nat k = Some h /\
    sqfs_blocklist_next (m := O) fs bl = Ret (Success bl') /\ bl_at (k + 1) bl' /\
    bl'.(bl_pos) = k * B /\ bl'.(bl_block) = data_pos x hs (Z.to_nat k) /\
    bl'.(bl_header) = h /\ bl'.(bl_input_size) = input_size h.
Proof.
  intros [Hr Hrem Hcur Hblk Hpos Hst] Hk.
  destruct (lookup_lt_is_Some_2 hs (Z.to_nat k)) as [h Hh]; [lia|]. exists h.
  pose proof (Forall_lookup_1 _ _ _ _ (fo_headers Hfile) Hh) as Hh32.
  pose proof (fo_cursor Hfile). pose proof (fo_room Hfile). pose proof (fo_bsize Hfile).
  pose proof file_bounds as (_ & HnB & _). pose proof (fo_size Hfile).
  unfold sqfs_blocklist_next. zbool; [lia|].
  rewrite Hcur by done. unfold blocklist_entry_size.
  destruct (md_read_at fs Hfs mds pos0 (off + 4 * k) 4) as (cur & -> & Hc);
    [apply (fo_chain Hfile)|lia|lia|done|lia|].
  run_m. rewrite <- (Z2Nat.id k), header_bytes with (h := h), header_swapin, Z2Nat.id by first [done|lia].
  unfold sqfs_data_header. fold (input_size h).
  assert (snd (sqfs_data_header h) = input_size h) as Hin by done.
  unfold sqfs_data_header in Hin. cbn [snd] in Hin. rewrite Hin, Hblk. cbv zeta.
  eexists; split; [done|]. split; [done|].
  cbn [bl_pos bl_block bl_header bl_input_size bl_remain bl_cur bl_started].
  assert ((if bl_started bl then u64 (bl_pos bl + B) else bl_pos bl) = k * B) as ->.
  { rewrite Hpos. destruct (bl_started bl); [|done]. specialize (Hst eq_refl).
    rewrite wrap_small by nia. lia. }
  split; [|done]. split; cbn [bl_pos bl_block bl_header bl_input_size bl_remain bl_cur bl_started]; try lia.
  - intros Hk1. rewrite Hc by lia. f_equal. lia.
  - rewrite <- data_pos_next by done. f_equal. lia.
Qed.

(** ** The index *)

(** The first block whose header is in metadata block [j] of the list. *)
Definition first_block (j : Z) : Z := 2048 * j - off / 4.

Definition index_entry (j : nat) : sqfs_blockidx_entry :=
  mk_blockidx (data_pos x hs (Z.to_nat (first_block (Z.of_nat j))))
    (u32 (md_pos pos0 mds j - fs.(sb).(sb_inode_table_start))).

(** How many entries precede block [k] and what they are. *)
Definition index_count (k : Z) : Z :=
  if k =? 0 then 0 else (off + 4 * (k - 1)) / SQUASHFS_METADATA_SIZE.
Definition index_upto (k : Z) : list sqfs_blockidx_entry :=
  index_entry <$> seq 1 (Z.to_nat (index_count k)).

Lemma index_count_nonneg k : 0 <= k -> 0 <= index_count k.
Proof.
  intros. unfold index_count, SQUASHFS_METADATA_SIZE. pose proof (fo_cursor Hfile).
  zbool; [done|]. apply Z.div_pos; lia.
Qed.

Lemma index_upto_length k : 0 <= k -> len (index_upto k) = index_count k.
Proof.
  intros. unfold index_upto. rewrite length_fmap, length_seq.
  pose proof (index_count_nonneg k). lia.
Qed.

(** A new entry is due when the list has just entered a metadata block. *)
Lemma index_step k bl :
  bl_at k bl -> k < nb ->
  (if (bl.(bl_cur).(cur_offset) <? blocklist_entry_size) && negb (k =? 0) then
     index_upto k ++ [mk_blockidx (u64 (bl.(bl_block) + bl.(bl_input_size)))
                        (u32 (bl.(bl_cur).(cur_block) - fs.(sb).(sb_inode_table_start)))]
   else index_upto k) = index_upto (k + 1).
Proof.
  intros [Hr _ Hcur Hblk _ _] Hk. rewrite Hcur, Hblk by done.
  unfold index_upto, index_count, cursor_at, blocklist_entry_size. cbn [cur_offset cur_block].
  pose proof (fo_cursor Hfile) as Ho. unfold SQUASHFS_METADATA_SIZE in *.
  destruct (Z.eqb_spec (k + 1) 0); [lia|]. replace (k + 1 - 1) with k by lia.
  destruct (Z.eqb_spec k 0) as [->|Hk0].
  { rewrite andb_false_r. f_equal. f_equal. dlia. }
  rewrite andb_true_r. destruct (Z.ltb_spec ((off + 4 * k) mod 8192) 4) as [Hlt|Hge].
  - set (j := (off + 4 * k) / 8192).
    assert ((off + 4 * (k - 1)) / 8192 = j - 1 /\ 1 <= j /\ k = first_block j) as (-> & Hj & Hkj)
      by (unfold j, first_block; dlia).
    replace (Z.to_nat j) with (Z.to_nat (j - 1) + 1)%nat at 2 by lia.
    rewrite seq_app, fmap_app. f_equal. cbn [seq fmap list_fmap]. f_equal. unfold index_entry.
    replace (1 + Z.to_nat (j - 1))%nat with (Z.to_nat j) by lia.
    rewrite Z2Nat.id by lia. by rewrite <- Hkj.
  - f_equal. f_equal. f_equal. dlia.
Qed.

Abbreviation index_total := (u64 (off + u64 (nb * blocklist_entry_size) - 1) / SQUASHFS_METADATA_SIZE).

Lemma blocks_few : nb <= 2 ^ 61.
Proof.
  pose proof file_bounds as (? & ? & _). pose proof (fo_size Hfile).
  pose proof (fo_bsize Hfile). nia.
Qed.

Lemma index_total_spec : 0 < nb -> index_total = (off + 4 * nb - 1) / SQUASHFS_METADATA_SIZE.
Proof.
  intros. pose proof blocks_few. pose proof (fo_cursor Hfile).
  unfold blocklist_entry_size, SQUASHFS_METADATA_SIZE in *.
  rewrite (wrap_small 64 (nb * 4)), wrap_small by lia. f_equal. lia.
Qed.

Lemma index_count_le k : 0 < nb -> 0 <= k <= nb -> index_count k <= index_count nb <= index_total.
Proof.
  intros Hn Hk. rewrite index_total_spec by done. unfold index_count, SQUASHFS_METADATA_SIZE.
  pose proof (fo_cursor Hfile). zbool; dlia.
Qed.

Lemma blockidx_loop_at f k bl :
  0 < nb -> bl_at k bl -> lasts f (nb - k) ->
  blockidx_loop (m := O) f fs index_total bl (k =? 0) (index_upto k) = Ret (Success (index_upto nb)).
Proof.
  intros Hn. remember (Z.to_nat (nb - k)) as d eqn:Hd. revert f k bl Hd.
  induction d as [|d IH]; intros f k bl Hd Hat Hf; pose proof (ba_range _ _ Hat);
    pose proof (ba_remain _ _ Hat) as Hrem.
  - assert (k = nb) as -> by lia. destruct f; cbn [blockidx_loop]; rewrite Hrem, Z.sub_diag; done.
  - destruct (lasts_turn f (nb - k)) as (f' & -> & Hf'); [done|lia|].
    cbn [blockidx_loop]. rewrite Hrem, index_upto_length by lia.
    pose proof (index_count_le k Hn ltac:(lia)) as Hle.
    destruct (Z.eqb_spec (nb - k) 0); [lia|]. cbn [negb andb].
    destruct (Z.ltb_spec (index_count k) index_total).
    + rewrite (index_step k bl Hat) by lia.
      destruct (blocklist_next_at k bl Hat) as (h & bl' & _ & -> & Hat' & _); [lia|].
      cbn [fm_or_err fs_spec]. run_m. replace false with (k + 1 =? 0) by (zbool; lia || done).
      apply IH; [lia|done|]. by replace (nb - (k + 1)) with (nb - k - 1) by lia.
    + run_m. do 2 f_equal. unfold index_upto. do 3 f_equal. lia.
Qed.

(** The index of the file holds every metadata block of the list but the first. *)
Lemma blockidx_add_ref :
  0 < nb -> sqfs_blockidx_add (m := O) fs inode = Ret (Success (index_upto nb)).
Proof.
  intros Hn. unfold sqfs_blockidx_add. rewrite (fo_count Hfile). run_m. cbn [spec_lift].
  destruct bl_at_init as (bl & Hi & Hat). rewrite Hi. cbn [spec_lift].
  apply (blockidx_loop_at full_tank 0 bl Hn Hat). apply full_tank_lasts. pose proof blocks_few. lia.
Qed.

Lemma index_lookup m :
  1 <= m <= index_count nb -> zlookup (index_upto nb) (m - 1) = Some (index_entry (Z.to_nat m)).
Proof.
  intros Hm. rewrite zlookup_lookup by lia. unfold index_upto. rewrite list_lookup_fmap.
  rewrite lookup_seq_lt by lia. cbn. do 2 f_equal. lia.
Qed.

(** Metadata block [m] holds the header of [first_block m], which is in the file. *)
Lemma first_block_place m :
  1 <= m <= index_count nb ->
  0 < first_block m < nb /\
  cursor_at pos0 mds (off + 4 * first_block m) = mk_cursor (md_pos pos0 mds (Z.to_nat m)) (off mod 4) /\
  (0 < Z.to_nat m < length mds)%nat.
Proof.
  unfold index_count, SQUASHFS_METADATA_SIZE. intros Hm. pose proof (fo_cursor Hfile) as Ho.
  pose proof (fo_room Hfile) as Hroom. pose proof (md_chain_length _ _ _ (fo_chain Hfile)) as Hl.
  unfold SQUASHFS_METADATA_SIZE in *. destruct (Z.eqb_spec nb 0); [lia|].
  assert (off + 4 * first_block m = 8192 * m + off mod 4) as E by (unfold first_block; dlia).
  split; [unfold first_block; dlia|]. split; [|dlia].
  rewrite E. unfold cursor_at, SQUASHFS_METADATA_SIZE. f_equal; [f_equal|]; dlia.
Qed.

Lemma skip_at bl m :
  bl_at 0 bl -> bl.(bl_input_size) = 0 -> bl.(bl_started) = false -> 1 <= m <= index_count nb ->
  exists bl', blocklist_skip fs bl m (index_upto nb) = Ret bl' /\ bl_at (first_block m) bl'.
Proof.
  intros [_ Hrem Hcur _ _ _] Hin Hst Hm. destruct (first_block_place m Hm) as (Hk & Hc & Hi).
  pose proof (fo_cursor Hfile) as Ho. pose proof blocks_few as Hfew.
  pose proof (fo_bsize Hfile). pose proof file_bounds as (_ & HnB & _). pose proof (fo_size Hfile).
  assert (bl_cur bl = mk_cursor pos0 off) as Hcur0.
  { rewrite Hcur, Z.add_0_r by lia. by apply cursor_at_start. }
  unfold blocklist_skip. rewrite index_lookup, Hcur0, Hrem, Hin, Hst by done.
  unfold blocklist_entry_size, SQUASHFS_METADATA_SIZE in *. cbn [cur_offset cur_block].
  assert (u64 (u64 (m * 8192) / 4 - off / 4) = first_block m) as ->.
  { unfold first_block in *. rewrite (wrap_small 64 (m * 8192)), wrap_small; dlia. }
  assert (0 <= first_block m * B < 2 ^ 64) by nia.
  rewrite (wrap_small 64 (nb - 0 - first_block m)), (wrap_small 64 (first_block m * B)) by lia.
  eexists; split; [done|]. unfold index_entry. cbn [bi_md_block bi_data_block].
  split; cbn [bl_remain bl_cur bl_block bl_input_size bl_pos bl_started]; try lia; try done.
  - intros _. rewrite Hc. f_equal. rewrite wrap_small by (apply (fo_table Hfile); lia).
    rewrite Z.sub_add. apply swrap_small; [lia|]. by apply md_pos_range.
  - rewrite Z.add_0_r, Z2Nat.id by lia. unfold data_pos. apply wrap_wrap.
Qed.

(** The places for which the code looks for an entry of the index that was not made:
    in the fragment of a file with an index, when the block list ends with a metadata
    block, or less than one header further. *)
Definition index_short (start : Z) : bool :=
  (start / B =? nb) && ((off + 4 * nb) mod SQUASHFS_METADATA_SIZE <? 4) &&
  (SQUASHFS_METADATA_SIZE <=? 4 * nb).

Lemma block_of_start start : 0 <= start < F -> 0 <= start / B <= nb.
Proof.
  intros Hs. pose proof (fo_bsize Hfile). rewrite file_count.
  split; [by apply Z.div_pos; lia|]. destruct (_ =? _); apply Z.div_le_mono; lia.
Qed.

(** What the code does once it has found that the index is wanted. *)
Lemma blockidx_blocklist_indexed start :
  0 <= start < F -> SQUASHFS_METADATA_SIZE <= 4 * nb ->
  let m := (off + 4 * (start / B)) / SQUASHFS_METADATA_SIZE in
  exists bl, bl_at 0 bl /\ bl.(bl_input_size) = 0 /\ bl.(bl_started) = false /\
    sqfs_blockidx_blocklist (m := O) fs inode start =
    if m =? 0 then Ret (Success bl) else spec_lift (blocklist_skip fs bl m (index_upto nb)).
Proof.
  intros Hs Hbig m. pose proof (fo_bsize Hfile). pose proof (fo_size Hfile).
  pose proof (fo_cursor Hfile) as Ho.
  pose proof blocks_few as Hfew. pose proof (block_of_start start Hs) as Hb.
  destruct bl_at_init as (bl & Hi & Hat). exists bl. split; [done|].
  assert (bl_input_size bl = 0 /\ bl_started bl = false /\ bl_cur bl = next inode) as (Hin & Hst & Hcur).
  { unfold sqfs_blocklist_init in Hi. rewrite (fo_count Hfile) in Hi. cbn in Hi.
    rewrite (fo_reg Hfile) in Hi. injection Hi as <-. done. }
  split; [done|]. split; [done|]. unfold sqfs_blockidx_blocklist.
  rewrite Hi. run_m. cbn [spec_lift]. unfold c_div. destruct (Z.eqb_spec B 0); [lia|].
  cbn [spec_lift]. rewrite Z.quot_div_nonneg by lia. unfold m. set (b := start / B) in *.
  rewrite (wrap_small 64 b), (ba_remain _ _ Hat) by lia. destruct (Z.ltb_spec (nb - 0) b); [lia|].
  rewrite Hcur. unfold sqfs_blockidx_indexable. rewrite (fo_count Hfile).
  unfold blocklist_entry_size, SQUASHFS_METADATA_SIZE in *. cbn [mbind outcome_bind spec_lift].
  rewrite (wrap_small 64 (b * 4)), (wrap_small 64 (off + b * 4)), (wrap_small 64 (nb * 4)) by lia.
  unfold SQUASHFS_METADATA_SIZE. destruct (Z.leb_spec 8192 (nb * 4)); [|lia].
  rewrite orb_false_r, (Z.mul_comm b). destruct (_ =? 0); [done|].
  cbn [with_blockidx fs_spec]. run_m. by rewrite blockidx_add_ref by lia.
Qed.

Lemma blockidx_overrun_ref start :
  0 <= start < F -> index_short start = true ->
  sqfs_blockidx_blocklist (m := O) fs inode start = Crash MemFault.
Proof.
  unfold index_short. rewrite !andb_true_iff, Z.eqb_eq, Z.ltb_lt, Z.leb_le.
  intros Hs [[Hb Hmod] Hbig]. pose proof (fo_cursor Hfile).
  destruct (blockidx_blocklist_indexed start Hs Hbig) as (bl & _ & _ & _ & ->).
  rewrite Hb. unfold SQUASHFS_METADATA_SIZE in *. set (m := (off + 4 * nb) / 8192).
  destruct (Z.eqb_spec m 0); [unfold m in *; dlia|]. unfold blocklist_skip.
  assert (zlookup (index_upto nb) (m - 1) = None) as ->; [|done].
  apply eq_None_not_Some. rewrite zlookup_is_Some, index_upto_length by lia.
  unfold index_count, SQUASHFS_METADATA_SIZE. zbool; [lia|]. unfold m. dlia.
Qed.

(** A file that is not worth an index. *)
Lemma blockidx_blocklist_plain start :
  0 <= start < F -> 4 * nb < SQUASHFS_METADATA_SIZE ->
  exists bl, bl_at 0 bl /\ sqfs_blockidx_blocklist (m := O) fs inode start = Ret (Success bl).
Proof.
  intros Hs Hsmall. pose proof (fo_bsize Hfile). pose proof (fo_size Hfile).
  pose proof (block_of_start start Hs) as Hb.
  destruct bl_at_init as (bl & Hi & Hat). exists bl. split; [done|].
  unfold sqfs_blockidx_blocklist. rewrite Hi. run_m. cbn [spec_lift]. unfold c_div.
  destruct (Z.eqb_spec B 0); [lia|].
  cbn [spec_lift]. rewrite Z.quot_div_nonneg by lia. set (b := start / B) in *.
  unfold SQUASHFS_METADATA_SIZE in *.
  rewrite (wrap_small 64 b), (ba_remain _ _ Hat) by lia. destruct (Z.ltb_spec (nb - 0) b); [lia|].
  unfold sqfs_blockidx_indexable. rewrite (fo_count Hfile). cbn [mbind outcome_bind spec_lift].
  unfold blocklist_entry_size, SQUASHFS_METADATA_SIZE. rewrite (wrap_small 64 (nb * 4)) by lia.
  destruct (Z.leb_spec 8192 (nb * 4)); [lia|]. by rewrite orb_true_r.
Qed.

Lemma blockidx_blocklist_ref start :
  0 <= start < F -> index_short start = false ->
  exists k bl, sqfs_blockidx_blocklist (m := O) fs inode start = Ret (Success bl) /\
    bl_at k bl /\ k <= start / B /\
    (SQUASHFS_METADATA_SIZE <= 4 * nb -> start / B - k < 2048).
Proof.
  intros Hs Ht. pose proof (block_of_start start Hs) as Hb. pose proof (fo_cursor Hfile) as Ho.
  destruct (Z.lt_ge_cases (4 * nb) SQUASHFS_METADATA_SIZE) as [Hsmall|Hbig].
  { destruct (blockidx_blocklist_plain start Hs Hsmall) as (bl & Hat & E).
    exists 0, bl. split; [done|]. split; [done|]. lia. }
  destruct (blockidx_blocklist_indexed start Hs Hbig) as (bl & Hat & Hin & Hst & ->).
  unfold index_short in Ht. rewrite !andb_false_iff, Z.eqb_neq, Z.ltb_ge, Z.leb_gt in Ht.
  unfold SQUASHFS_METADATA_SIZE in *. set (b := start / B) in *. clearbody b.
  set (m := (off + 4 * b) / 8192). destruct (Z.eqb_spec m 0) as [Hm|Hm].
  { exists 0, bl. split; [done|]. split; [done|]. unfold m in Hm. split; [lia|dlia]. }
  assert (1 <= m <= index_count nb) as Hmr.
  { unfold index_count, SQUASHFS_METADATA_SIZE. zbool; [lia|]. unfold m.
    destruct Ht as [[?|?]|?]; dlia. }
  destruct (skip_at bl m Hat Hin Hst Hmr) as (bl' & -> & Hat').
  exists (first_block m), bl'. split; [done|]. split; [done|].
  unfold first_block, m. split; [dlia|]. intros _. dlia.
Qed.

(** ** Reading *)
Lemma copy_out_ok data data_off data_size read_off size :
  0 <= data_off -> 0 <= read_off <= data_size -> data_size < 2 ^ 64 -> 0 <= size ->
  data_off + data_size <= len data ->
  copy_out data data_off data_size read_off size =
  Ret (slice (slice data data_off data_size) read_off size).
Proof.
  intros. unfold copy_out. rewrite wrap_small by lia.
  assert ((if size <? data_size - read_off then size else data_size - read_off) =
          Z.min size (data_size - read_off)) as -> by (zbool; lia).
  rewrite mem_read_ok by lia. f_equal. rewrite <- (slice_slice data data_off data_size) by lia.
  apply slice_cut; [lia|]. rewrite slice_length by lia. lia.
Qed.

Lemma tail_length : x.(xr_frag_idx) <> SQUASHFS_INVALID_FRAG -> len tail = F mod B.
Proof.
  intros E. pose proof (fo_tail Hfile) as Ht. unfold frag_holds in Ht.
  destruct (Z.eqb_spec (xr_frag_idx x) SQUASHFS_INVALID_FRAG); [done|].
  destruct Ht as (fe & data & _ & _ & Ho & Hfit & ->). pose proof (fo_bsize Hfile).
  pose proof (Z.mod_pos_bound F B). rewrite slice_length; lia.
Qed.

(** The part of the file in its fragment, from [read_off]. *)
Lemma frag_block_ref read_off size :
  x.(xr_frag_idx) <> SQUASHFS_INVALID_FRAG -> 0 <= read_off <= F mod B -> 0 <= size ->
  sqfs_frag_block (m := O) fs inode
    (fun data_off data_size data => copy_out data data_off data_size read_off size)
  = Ret (Success (slice tail read_off size)).
Proof.
  intros E Hr Hs. pose proof (fo_tail Hfile) as Ht. unfold frag_holds in Ht.
  destruct (Z.eqb_spec (xr_frag_idx x) SQUASHFS_INVALID_FRAG); [done|].
  destruct Ht as (fe & data & Hfe & Hd & Ho & Hfit & Htail).
  pose proof (fo_bsize Hfile). pose proof (fo_size Hfile).
  pose proof (Z.mod_pos_bound F B) as Hmod.
  unfold sqfs_frag_block. rewrite (fo_mode Hfile), (fo_reg Hfile). run_m. cbn [spec_lift negb].
  rewrite Hfe. cbn [with_data_block fs_spec]. run_m. rewrite Hd. unfold c_mod.
  destruct (Z.eqb_spec B 0); [lia|]. cbn [mbind outcome_bind].
  rewrite Z.rem_mod_nonneg by lia. rewrite copy_out_ok by lia. cbn [spec_lift]. by rewrite Htail.
Qed.

(** The place in the file from which the loop copies, with block [k] the next. *)
Definition place (start k : Z) : Z := if k <=? start / B then start else k * B.

Lemma place_rem start k : 0 <= start < F -> 0 <= k -> 
  (if k <=? start / B then start mod B else 0) = place start k mod B /\
  (start / B <= k -> place start k mod B = place start k - k * B /\ k * B <= place start k < (k + 1) * B).
Proof.
  intros Hs Hk. pose proof (fo_bsize Hfile). unfold place.
  pose proof (Z.div_mod start B ltac:(lia)). pose proof (Z.mod_pos_bound start B ltac:(lia)).
  destruct (Z.leb_spec k (start / B)).
  - split; [done|]. intros. assert (k = start / B) as -> by lia. split; lia.
  - rewrite Z.mod_mul by lia. split; [done|]. intros. split; lia.
Qed.

(** One block of the file, from [p] on. *)
Definition block_bytes (bl : sqfs_blocklist) (read_off size : Z) : O (list byte) :=
  if bl.(bl_input_size) =? 0 then
    let data_size := u64 (s64 F - bl.(bl_pos)) in
    let data_size := if B <? data_size then B else data_size in
    let take := u64 (data_size - read_off) in
    let take := if size <? take then size else take in
    mret (replicate (Z.to_nat take) x00)
  else
    with_data_block fs DataCache (s64 bl.(bl_block)) bl.(bl_header)
      (fun blk_size data => copy_out data 0 blk_size read_off size).

Lemma block_bytes_ref k h data bl read_off size :
  hs !! k = Some h -> bs !! k = Some data ->
  bl.(bl_pos) = Z.of_nat k * B -> bl.(bl_block) = data_pos x hs k -> bl.(bl_header) = h ->
  bl.(bl_input_size) = input_size h -> 0 <= read_off <= len data -> 0 <= size ->
  block_bytes bl read_off size = Ret (Success (slice data read_off size)).
Proof.
  intros Hh Hd Hpos Hblk Hhdr Hin Hr Hs. unfold block_bytes. rewrite Hin, Hpos, Hblk, Hhdr.
  destruct (fo_data Hfile k h data Hh Hd) as [Hl Hdata]. revert Hl Hdata.
  unfold block_want. intros Hl Hdata.
  pose proof (fo_bsize Hfile). pose proof (fo_size Hfile).
  destruct (Z.eqb_spec (input_size h) 0).
  - rewrite (swrap_small 64 F), (wrap_small 64 (F - _)) by lia.
    assert ((if B <? F - Z.of_nat k * B then B else F - Z.of_nat k * B) = len data) as -> by (zbool; lia).
    rewrite wrap_small by lia. cbv zeta. run_m. do 2 f_equal.
    assert (replicate (length data) x00 = data) as Hrep by (rewrite Hdata at 2; f_equal; lia).
    rewrite (slice_cut _ _ size (Z.min size (len data - read_off))) by lia.
    set (t := Z.min _ _). rewrite <- Hrep. unfold t.
    rewrite length_replicate, slice_replicate by lia. f_equal. zbool; lia.
  - cbn [with_data_block fs_spec]. run_m. rewrite Hdata, copy_out_ok by lia.
    cbn [spec_lift]. by rewrite slice_full.
Qed.

(** What the copy of one block adds to the result. *)
Lemma contents_step k data p size :
  bs !! Z.to_nat k = Some data -> 0 <= k -> k * B <= p < (k + 1) * B -> p < F -> 0 <= size ->
  p - k * B <= len data /\
  slice data (p - k * B) size ++
    slice contents ((k + 1) * B) (size - len (slice data (p - k * B) size)) = slice contents p size.
Proof.
  intros Hd Hk Hp HpF Hs. pose proof (block_length _ _ Hd) as Hl. unfold block_want in Hl.
  pose proof contents_length as Hc. pose proof (fo_bsize Hfile).
  rewrite Z2Nat.id in Hl by lia. split; [lia|].
  rewrite slice_length by lia. set (q := p - k * B) in *.
  set (t := Z.max 0 (Z.min size (len data - q))).
  assert (slice data q size = slice contents p t) as ->.
  { rewrite (slice_cut data q size t) by lia. rewrite <- (contents_block (Z.to_nat k) data q t) by first [done|lia].
    f_equal. lia. }
  destruct (Z.le_gt_cases B (F - k * B)).
  - destruct (Z.le_gt_cases size t).
    + rewrite (slice_zero _ _ (size - t)), app_nil_r by lia. f_equal. lia.
    + replace ((k + 1) * B) with (p + t) by lia.
      destruct (Z.le_gt_cases (p + size) F).
      * rewrite <- slice_split by lia. f_equal. lia.
      * rewrite (slice_cut _ (p + t) _ (F - (p + t))), <- slice_split by lia.
        apply slice_cut; lia.
  - rewrite (slice_past _ ((k + 1) * B)), app_nil_r by lia. apply slice_cut; lia.
Qed.

Lemma read_loop_done {m} {FM : FsMonad m} f start bl read_off size :
  size <= 0 -> read_loop (m := m) f fs inode x start bl read_off size = mret [].
Proof. intros. destruct f; cbn [read_loop]; zbool; done || lia. Qed.

Lemma read_loop_tail {m} {FM : FsMonad m} f start bl read_off size :
  0 < size -> bl.(bl_remain) = 0 ->
  read_loop (m := m) f fs inode x start bl read_off size =
  if x.(xr_frag_idx) =? SQUASHFS_INVALID_FRAG then mret []
  else sqfs_frag_block fs inode (fun data_off data_size data =>
         copy_out data data_off data_size read_off size).
Proof. intros Hs Hr. destruct f; cbn [read_loop]; rewrite Hr; zbool; done || lia. Qed.

Lemma read_loop_turn f start bl bl' read_off size :
  0 < size -> bl.(bl_remain) <> 0 -> sqfs_blocklist_next (m := O) fs bl = Ret (Success bl') ->
  read_loop (m := O) (More f) fs inode x start bl read_off size =
  if u64 (bl'.(bl_pos) + B) <=? u64 start
  then read_loop (f tt) fs inode x start bl' read_off size
  else
    bytes ← block_bytes bl' read_off size;
    rest ← read_loop (f tt) fs inode x start bl' 0 (size - len bytes);
    mret (bytes ++ rest).
Proof.
  intros Hs Hr E. cbn [read_loop]. rewrite (proj2 (Z.ltb_lt 0 size)) by done.
  rewrite (proj2 (Z.eqb_neq _ 0)) by done. run_m. by rewrite E.
Qed.

(** The end of the loop: nothing more, or the fragment. *)
Lemma read_loop_end f start bl size :
  0 <= start < F -> bl_at nb bl -> 0 < size ->
  read_loop (m := O) f fs inode x start bl (place start nb mod B) size =
  Ret (Success (slice contents (place start nb) size)).
Proof.
  intros Hs Hat Hsz. rewrite read_loop_tail by (done || rewrite (ba_remain _ _ Hat); lia).
  pose proof (block_of_start start Hs) as Hb. pose proof contents_length as Hc.
  pose proof file_bounds as (Hn0 & HnB & Hinv & Hfrag). pose proof (fo_bsize Hfile).
  destruct (place_rem start nb Hs ltac:(lia)) as [_ Hp].
  destruct (Hp ltac:(lia)) as [-> Hpr].
  destruct (Z.eqb_spec (xr_frag_idx x) SQUASHFS_INVALID_FRAG) as [E|E].
  - rewrite slice_past; [done|]. rewrite Hc. specialize (Hinv E). lia.
  - destruct (Hfrag E) as [Hle Hrest]. pose proof (Z.mod_pos_bound F B ltac:(lia)).
    assert (place start nb <= F) by (unfold place in *; zbool; lia).
    rewrite frag_block_ref by (done || lia).
    do 2 f_equal. pose proof (tail_length E) as Ht.
    rewrite (slice_cut tail _ size (Z.min size (len tail - (place start nb - nb * B)))) by lia.
    rewrite <- contents_tail by (done || lia).
    replace (nb * B + (place start nb - nb * B)) with (place start nb) by lia.
    apply slice_cut; lia.
Qed.

Lemma read_loop_ref f start bl k size :
  0 <= start < F -> bl_at k bl -> lasts f (nb - k) ->
  read_loop (m := O) f fs inode x start bl (place start k mod B) size =
  Ret (Success (slice contents (place start k) size)).
Proof.
  intros Hs. remember (Z.to_nat (nb - k)) as d eqn:Hd. revert f k bl size Hd.
  induction d as [|d IH]; intros f k bl size Hd Hat Hf;
    pose proof (ba_range _ _ Hat) as Hk;
    (destruct (Z.le_gt_cases size 0); [by rewrite read_loop_done, slice_zero by done|]).
  { assert (k = nb) as -> by lia. by apply read_loop_end. }
  destruct (lasts_turn f (nb - k)) as (f' & -> & Hf'); [done|lia|].
  destruct (blocklist_next_at k bl Hat) as (h & bl' & Hh & En & Hat' & Hpos & Hblk & Hhdr & Hin); [lia|].
  rewrite (read_loop_turn f' start bl bl') by (first [done | rewrite (ba_remain _ _ Hat); lia]).
  assert (Z.to_nat (nb - (k + 1)) = d) as Hd' by lia.
  assert (lasts (f' tt) (nb - (k + 1))) as Hf1 by (by replace (nb - (k + 1)) with (nb - k - 1) by lia).
  pose proof (fo_bsize Hfile) as HB. pose proof (fo_size Hfile) as HF.
  pose proof file_bounds as (_ & HnB & Hinv & Hfrag).
  pose proof (Z.div_mod start B ltac:(lia)). pose proof (Z.mod_pos_bound start B ltac:(lia)).
  rewrite Hpos, !wrap_small by nia.
  destruct (Z.leb_spec (k * B + B) start) as [Hskip|Hcopy].
  - assert (k + 1 <= start / B) as Hk1 by nia.
    assert (place start k = place start (k + 1)) as -> by (unfold place; zbool; lia).
    by apply IH.
  - assert (start / B <= k) as Hk1 by nia.
    destruct (place_rem start k Hs ltac:(lia)) as [_ Hp]. destruct (Hp Hk1) as [-> Hpr].
    destruct (lookup_lt_is_Some_2 bs (Z.to_nat k)) as [data Hdata];
      [rewrite (fo_blocks Hfile); lia|].
    assert (place start k < F) as HpF.
    { unfold place. destruct (k <=? start / B); [lia|].
      destruct (decide (x.(xr_frag_idx) = SQUASHFS_INVALID_FRAG)) as [E|E]; [nia|].
      specialize (Hfrag E). nia. }
    destruct (contents_step k data (place start k) size Hdata ltac:(lia) Hpr HpF ltac:(lia))
      as [Hle Hcat].
    rewrite (block_bytes_ref (Z.to_nat k) h data) by (first [done | rewrite ?Z2Nat.id; lia]).
    run_m. set (bytes := slice data _ size) in *.
    assert (place start (k + 1) = (k + 1) * B) as Hpl by (unfold place; zbool; lia).
    specialize (IH (f' tt) (k + 1) bl' (size - len bytes) (eq_sym Hd') Hat' Hf1).
    rewrite Hpl, Z.mod_mul in IH by lia. rewrite IH. run_m. by rewrite Hcat.
Qed.

(** The bytes of the file from [start] on. *)
Lemma read_range_ref start size :
  0 <= start < F -> 0 < size -> index_short start = false ->
  sqfs_read_range (m := O) fs inode start size = Ret (Success (slice contents start size)).
Proof.
  intros Hs Hsz Ht. pose proof (fo_bsize Hfile) as HB. pose proof (fo_size Hfile) as HF.
  unfold sqfs_read_range. rewrite (fo_mode Hfile), (fo_reg Hfile). run_m. cbn [negb spec_lift].
  rewrite (swrap_small 64 F) by lia. zbool; try lia.
  destruct (blockidx_blocklist_ref start Hs Ht) as (k & bl & -> & Hat & Hk & _).
  unfold c_mod. destruct (Z.eqb_spec B 0); [lia|]. cbn [spec_lift].
  rewrite (wrap_small 64 start), Z.rem_mod_nonneg by lia.
  pose proof (read_loop_ref full_tank start bl k size Hs Hat) as Hl.
  unfold place in Hl. rewrite (proj2 (Z.leb_le _ _)) in Hl by lia. rewrite Hl.
  - pose proof contents_length. destruct (Z.eqb_spec (len (slice contents start size)) 0) as [E|]; [|done].
    rewrite slice_length in E by lia. lia.
  - apply full_tank_lasts. pose proof blocks_few. pose proof (ba_range _ _ Hat). lia.
Qed.

Lemma read_range_overrun_ref start size :
  0 <= start < F -> 0 < size -> index_short start = true ->
  sqfs_read_range (m := O) fs inode start size = Crash MemFault.
Proof.
  intros Hs Hsz Ht. pose proof (fo_size Hfile) as HF.
  unfold sqfs_read_range. rewrite (fo_mode Hfile), (fo_reg Hfile). run_m. cbn [negb spec_lift].
  rewrite (swrap_small 64 F) by lia. zbool; try lia. by rewrite blockidx_overrun_ref.
Qed.

(** ** Over the caches *)
Context {CI : CacheImpl} {CL : CacheLaws CI} (X : expectations).
Context (Hco : coherent fs inode x X hs).

Lemma sim_blocklist_next b bl :
  sim fs X b (sqfs_blocklist_next fs bl) (sqfs_blocklist_next fs bl).
Proof. unfold sqfs_blocklist_next. sim_tac. Qed.

Lemma sim_frag_entry b idx : sim fs X b (sqfs_frag_entry fs idx) (sqfs_frag_entry fs idx).
Proof. unfold sqfs_frag_entry. sim_tac. Qed.

Lemma sim_frag_block b {A} (use : Z -> Z -> list byte -> outcome A) :
  sim fs X b (sqfs_frag_block fs inode use) (sqfs_frag_block fs inode use).
Proof.
  unfold sqfs_frag_block. destruct (negb _); [apply sim_fail|].
  rewrite (fo_reg Hfile). apply sim_bind_eq; [apply sim_lift|]. intros x' [= <-].
  apply sim_bind_eq; [apply sim_frag_entry|]. intros fe Hfe.
  apply sim_or_err, sim_data_block; [done|]. by apply (co_frag _ _ _ _ _ Hco).
Qed.

Lemma sim_blockidx_loop b f count bl first index :
  sim fs X b (blockidx_loop f fs count bl first index) (blockidx_loop f fs count bl first index).
Proof.
  revert bl first index. induction f as [|f IH]; intros bl first index; cbn [blockidx_loop];
    (destruct (_ && _); [|apply sim_ret]); [apply sim_lift|].
  cbv zeta. apply sim_bind; [apply sim_or_err, sim_blocklist_next|]. intros bl'. apply IH.
Qed.

Lemma sim_blockidx_add b : sim fs X b (sqfs_blockidx_add fs inode) (sqfs_blockidx_add fs inode).
Proof.
  unfold sqfs_blockidx_add. apply sim_bind; [apply sim_lift|]. intros blocks. cbv zeta.
  apply sim_bind; [apply sim_alloc|]. intros _. apply sim_bind; [apply sim_lift|]. intros bl.
  apply sim_blockidx_loop.
Qed.

Lemma sim_blockidx_blocklist start :
  sim fs X true (sqfs_blockidx_blocklist fs inode start) (sqfs_blockidx_blocklist fs inode start).
Proof.
  unfold sqfs_blockidx_blocklist. apply sim_bind; [apply sim_lift|]. intros bl.
  apply sim_bind; [apply sim_lift|]. intros b. cbv zeta. destruct (_ <? _); [apply sim_ret|].
  apply sim_bind; [apply sim_lift|]. intros i. destruct (_ || _); [apply sim_ret|].
  apply sim_blockidx; [apply sim_blockidx_add|]. apply (co_index _ _ _ _ _ Hco).
Qed.

Lemma sim_read_loop b f start bl k read_off size :
  bl_at k bl ->
  sim fs X b (read_loop f fs inode x start bl read_off size)
             (read_loop f fs inode x start bl read_off size).
Proof.
  revert k bl read_off size. induction f as [|f IH]; intros k bl read_off size Hat;
    cbn [read_loop]; cbv zeta; (destruct (0 <? size); [|apply sim_ret]).
  { destruct (_ =? 0); [|apply sim_lift]. destruct (_ =? _); [apply sim_ret|apply sim_frag_block]. }
  destruct (Z.eqb_spec (bl_remain bl) 0) as [Hr|Hr].
  { destruct (_ =? _); [apply sim_ret|apply sim_frag_block]. }
  rewrite (ba_remain _ _ Hat) in Hr. pose proof (ba_range _ _ Hat).
  destruct (blocklist_next_at k bl Hat) as (h & bl' & Hh & En & Hat' & _ & Hblk & Hhdr & Hin); [lia|].
  apply sim_bind_eq; [apply sim_blocklist_next|]. rewrite En. intros bl'' [= <-].
  destruct (_ <=? _); [by eapply IH|]. apply sim_bind.
  - destruct (Z.eqb_spec (bl_input_size bl') 0) as [|Hne]; [apply sim_ret|].
    apply sim_data_block; [done|]. rewrite Hblk, Hhdr. rewrite Hin in Hne.
    by apply (co_data _ _ _ _ _ Hco).
  - intros bytes. apply sim_bind; [by eapply IH|]. intros rest. apply sim_ret.
Qed.

Lemma sim_read_range start size :
  0 <= start < F ->
  sim fs X true (sqfs_read_range fs inode start size) (sqfs_read_range fs inode start size).
Proof.
  intros Hs. unfold sqfs_read_range. destruct (negb _); [apply sim_fail|].
  rewrite (fo_reg Hfile). apply sim_bind_eq; [apply sim_lift|]. intros x' [= <-]. cbv zeta.
  destruct (_ || _); [apply sim_fail|]. destruct (_ =? _); [apply sim_ret|].
  apply sim_bind_eq; [apply sim_blockidx_blocklist|].
  destruct (index_short start) eqn:Ht; [by rewrite blockidx_overrun_ref|].
  destruct (blockidx_blocklist_ref start Hs Ht) as (k & bl & E & Hat & _). rewrite E. intros bl' [= <-].
  apply sim_bind; [apply sim_lift|]. intros off. apply sim_bind; [by eapply sim_read_loop|].
  intros bytes. destruct (_ =? _); [apply sim_fail|apply sim_ret].
Qed.

(** C1: from every state of the caches, and when no allocation fails, a read of [size] bytes
    from [start] puts in the buffer the bytes [start .. start + size) of the file, cut at its
    end: through whole blocks, short last blocks, holes and the fragment, with the index of the
    block list or without; the loops are finite, no block leaks and no reference dangles. The
    exception is a file of 2048 blocks or more and a fragment, whose block list ends with a
    metadata block of the archive or less than four bytes after it: from a place in its
    fragment the code looks for an entry that the index has not (file.c:311), and the outcome
    is a read outside the array, or of an entry never written. *)
Theorem sqfs_read_range_correct (s : sqfs_state) (start size : Z) :
  inv fs X s [] None -> s.(mem) = [] -> 0 <= start < F -> 0 < size ->
  let run := sqfs_read_range (m := M) fs inode start size s in
  if index_short start then run = Crash MemFault
  else exists s', run = Ret (s', Success (slice contents start size)) /\ inv fs X s' [] None.
Proof.
  intros Hi Hm Hs Hsz run. pose proof (sim_read_range start size Hs) as Hsim.
  destruct (index_short start) eqn:Ht.
  - by apply (sim_crash fs X true _ _ s _ Hsim Hi Hm), read_range_overrun_ref.
  - destruct (sim_exact fs X true _ _ s _ Hsim Hi Hm (read_range_ref start size Hs Hsz Ht))
      as (s' & E & Hi' & _). by exists s'.
Qed.

(** the read when allocations may fail: an error code or the right bytes, never a
    crash where the index has its entry, and in every case the caches stay right and no
    block leaks. *)
Theorem sqfs_read_range_alloc_failure (s : sqfs_state) (start size : Z) :
  inv fs X s [] None -> 0 <= start < F -> 0 < size -> index_short start = false ->
  exists s' r, sqfs_read_range (m := M) fs inode start size s = Ret (s', r) /\
    inv fs X s' [] None /\
    (r = Success (slice contents start size) \/ exists e, r = Failure e).
Proof.
  intros Hi Hs Hsz Ht.
  pose proof (sim_run fs X true _ _ s (sim_read_range start size Hs) Hi) as Hsim.
  rewrite (read_range_ref start size Hs Hsz Ht) in Hsim.
  destruct (sqfs_read_range (m := M) fs inode start size s) as [[s' r]|c]; [|done].
  destruct Hsim as [Hi' Hr]. exists s', r. split; [done|]. split; [done|].
  destruct Hr as [[= <-]|[_ ?]]; auto.
Qed.

(** C28: when no allocation fails, the index puts the block list on a block at or before the
    one that holds [start]: the list is in the same state as after reading the headers before
    that block one by one. For a file long enough to be indexed at most 2047 headers are left
    to read before it. The exception is a place in the fragment of a file with an index whose
    block list ends with a metadata block, or less than four bytes after it: the code looks for
    an entry that was not made, for the array has one entry less, and the outcome is a read
    outside it (or of an entry never written). *)
Theorem sqfs_blockidx_blocklist_correct (s : sqfs_state) (start : Z) :
  inv fs X s [] None -> s.(mem) = [] -> 0 <= start < F ->
  let run := sqfs_blockidx_blocklist (m := M) fs inode start s in
  if index_short start then run = Crash MemFault
  else exists s' bl k, run = Ret (s', Success bl) /\
    inv fs X s' [] None /\ bl_at k bl /\ k <= start / B /\
    (SQUASHFS_METADATA_SIZE <= 4 * nb -> start / B - k < 2048).
Proof.
  intros Hi Hm Hs run. pose proof (sim_blockidx_blocklist start) as Hsim.
  destruct (index_short start) eqn:Ht.
  - by apply (sim_crash fs X true _ _ s _ Hsim Hi Hm), blockidx_overrun_ref.
  - destruct (blockidx_blocklist_ref start Hs Ht) as (k & bl & E & Hat & Hk & Hfew).
    destruct (sim_exact fs X true _ _ s _ Hsim Hi Hm E) as (s' & E' & Hi' & _).
    by exists s', bl, k.
Qed.
End file.

(** ** Any archive *)
Section any.
Context (fs : sqfs) (Hfs : fs_ok fs) (Hbs : 0 <= block_size fs < 2 ^ 32).

Lemma ends_frag_entry idx : ends (sqfs_frag_entry (m := O) fs idx) (fun _ => True).
Proof.
  unfold sqfs_frag_entry. destruct (_ =? _); [done|].
  eapply ends_bind; [by apply ends_table_get|].
  intros bs _. by destruct (swapin_struct bs).
Qed.

(** No more than [size] bytes are copied, whatever the sizes in the archive. *)
Lemma copy_out_bound data data_off data_size read_off size :
  match copy_out data data_off data_size read_off size with
  | Ret bs => len bs <= size
  | Crash c => c <> OutOfFuel
  end.
Proof.
  unfold copy_out. cbv zeta. set (take := if _ <? _ then _ else _).
  assert (take <= size) as Ht by (unfold take; zbool; lia).
  pose proof (mem_read_total data (data_off + read_off) take) as H.
  destruct (mem_read _ _ _); [lia|done].
Qed.

(** The list has at most [r] more headers and its cursor is an offset. *)
Definition bl_within (r : Z) (bl : sqfs_blocklist) : Prop :=
  0 <= bl.(bl_remain) <= r /\ in_size bl.(bl_cur).(cur_offset).

Lemma ends_blocklist_next r bl :
  bl_within r bl -> bl.(bl_remain) <> 0 ->
  ends (sqfs_blocklist_next (m := O) fs bl) (bl_within (r - 1)).
Proof.
  intros [Hr Hc] Hne. unfold sqfs_blocklist_next. destruct (Z.eqb_spec (bl_remain bl) 0); [done|].
  assert (in_size blocklist_entry_size) as H4 by (vm_compute; intuition congruence).
  apply (ends_bind _ _ (fun p => in_size (cur_offset (fst p)))).
  - pose proof (md_read_spec_result fs Hfs _ true _ H4 Hc) as Hm.
    destruct (sqfs_md_read _ _ _ _) as [[[c bs]|]|] eqn:E; [|done|by subst].
    apply md_read_inside in E; [|done..]. unfold in_size. cbn. lia.
  - intros [c bs] Hc'. cbv zeta. destruct (sqfs_data_header (sqfs_swapin32 bs)). split; cbn; [lia|done].
Qed.

Lemma ends_blockidx_loop f r count bl first index :
  bl_within r bl -> lasts f r ->
  ends (blockidx_loop (m := O) f fs count bl first index) (fun _ => True).
Proof.
  revert r bl first index. induction f as [|f IH]; intros r bl first index Hb Hf;
    cbn [blockidx_loop]; destruct (Z.eqb_spec (bl_remain bl) 0); try done; cbn [negb andb];
    destruct (_ <? _); try done; destruct Hf as [Hf|Hf];
    try (destruct Hb as [? _]; lia); try done.
  cbv zeta. apply (ends_bind _ _ (bl_within (r - 1))); [by apply ends_or_err, ends_blocklist_next|].
  intros bl' Hb'. by apply (IH tt (r - 1)).
Qed.

Context (inode : sqfs_inode) (Hcur : in_size inode.(next).(cur_offset)).
Context (Hreg : forall x, get_reg inode = Ret x -> 0 <= x.(xr_file_size) < 2 ^ 64).

Lemma ends_blocklist_init :
  ends (fm_lift (sqfs_blocklist_init fs inode)) (bl_within (2 ^ 64)).
Proof.
  apply ends_lift. unfold sqfs_blocklist_init, sqfs_blocklist_count.
  destruct (get_reg inode) as [x|c] eqn:E; cbn.
  2: { unfold get_reg in E. destruct (xtra inode); congruence. }
  specialize (Hreg x eq_refl). destruct (Z.eqb_spec (block_size fs) 0); [done|].
  assert (0 <= xr_file_size x / block_size fs <= xr_file_size x) as Hd.
  { split; [apply Z.div_pos; lia|]. apply Z.div_le_upper_bound; nia. }
  assert (0 <= u64 (xr_file_size x / block_size fs + 1) < 2 ^ 64) as Hw by (by apply (wrap_range 64)).
  unfold sqfs_divceil. destruct (_ =? SQUASHFS_INVALID_FRAG); (split; [cbn|done]); [|lia].
  destruct (_ =? 0); lia.
Qed.

Lemma ends_blocklist_count : match sqfs_blocklist_count fs inode with Ret _ => True | Crash c => c <> OutOfFuel end.
Proof.
  unfold sqfs_blocklist_count, get_reg. destruct (xtra inode); cbn; try done;
    destruct (_ =? 0); try done; by destruct (_ =? SQUASHFS_INVALID_FRAG).
Qed.

Lemma ends_blockidx_add : ends (sqfs_blockidx_add (m := O) fs inode) (fun _ => True).
Proof.
  unfold sqfs_blockidx_add. apply (ends_bind _ _ _ _ (ends_lift _ (fun _ => True) ends_blocklist_count)).
  intros k _. cbv zeta. apply (ends_bind _ _ (fun _ => True)); [done|]. intros _ _.
  apply (ends_bind _ _ _ _ ends_blocklist_init). intros bl' Hb'.
  apply (ends_blockidx_loop full_tank (2 ^ 64)); [done|]. by apply full_tank_lasts.
Qed.

Lemma skip_within bl b index :
  bl_within (2 ^ 64) bl ->
  match blocklist_skip fs bl b index with Ret bl => bl_within (2 ^ 64) bl | Crash c => c <> OutOfFuel end.
Proof.
  intros Hb. unfold blocklist_skip. cbv zeta. destruct (zlookup _ _); [|done]. split; cbn.
  - match goal with |- context [wrap 64 ?z] => pose proof (wrap_range 64 z) end. lia.
  - unfold in_size, blocklist_entry_size. pose proof (Z.mod_pos_bound (cur_offset (bl_cur bl)) 4). lia.
Qed.

(** ** Any archive, over the caches *)
Context {CI : CacheImpl} {CL : CacheLaws CI}.

Lemma safe_blockidx_blocklist start :
  safe fs true (sqfs_blockidx_blocklist fs inode start) (bl_within (2 ^ 64)).
Proof.
  unfold sqfs_blockidx_blocklist. eapply safe_bind.
  { eapply safe_ends; [apply sim_lift|apply ends_blocklist_init]. }
  intros bl Hb. apply (safe_bind _ _ _ _ (fun _ => True)).
  { apply safe_lift. unfold c_div. by destruct (_ =? 0). }
  intros b _. cbv zeta. destruct (_ <? _); [apply safe_ret; by split; [|apply Hb]|].
  apply (safe_bind _ _ _ _ (fun _ => True)).
  { apply safe_lift. unfold sqfs_blockidx_indexable. pose proof ends_blocklist_count.
    by destruct (sqfs_blocklist_count _ _). }
  intros i _. destruct (_ || _); [by apply safe_ret|]. apply safe_blockidx.
  - eapply safe_ends; [apply sim_blockidx_add|apply ends_blockidx_add].
  - intros index. by apply skip_within.
Qed.

Lemma safe_frag_block b inode' read_off size :
  safe fs b (sqfs_frag_block fs inode' (fun data_off data_size data =>
          copy_out data data_off data_size read_off size)) (fun bs => len bs <= size).
Proof.
  unfold sqfs_frag_block. destruct (negb _); [apply safe_fail|].
  apply (safe_bind _ _ _ _ (fun _ => True)); [apply safe_lift; unfold get_reg; by destruct (xtra inode')|].
  intros x _. apply (safe_bind _ _ _ _ (fun _ => True)).
  { eapply safe_ends; [apply sim_frag_entry|apply ends_frag_entry]. }
  intros fe _. apply safe_or_err, safe_data_block; [done..|]. intros k d. unfold c_mod.
  destruct (_ =? 0); [done|]. apply copy_out_bound.
Qed.

Lemma safe_read_loop b f r x start bl read_off size :
  bl_within r bl -> lasts f r ->
  safe fs b (read_loop f fs inode x start bl read_off size) (fun bs => len bs <= Z.max 0 size).
Proof.
  revert r bl read_off size. induction f as [|f IH]; intros r bl read_off size Hb Hf;
    cbn [read_loop]; cbv zeta; (destruct (Z.ltb_spec 0 size); [|apply safe_ret; cbn; lia]);
    (destruct (Z.eqb_spec (bl_remain bl) 0);
      [destruct (_ =? SQUASHFS_INVALID_FRAG); [apply safe_ret; cbn; lia|];
       rewrite Z.max_r by lia; apply safe_frag_block|]);
    destruct Hf as [Hf|Hf]; try (destruct Hb as [? _]; lia); try done.
  apply (safe_bind _ _ _ _ (bl_within (r - 1))).
  { eapply safe_ends; [apply sim_blocklist_next|by apply ends_blocklist_next]. }
  intros bl' Hb'. destruct (_ <=? _); [by apply (IH tt (r - 1))|].
  apply (safe_bind _ _ _ _ (fun bs => len bs <= size)).
  - destruct (_ =? 0); [|apply safe_data_block; [done..|]; intros; apply copy_out_bound].
    apply safe_ret. rewrite length_replicate.
    set (take := if size <? _ then _ else _). assert (take <= size) by (unfold take; zbool; lia). lia.
  - intros bs Hl. apply (safe_bind _ _ _ _ _ _ (IH tt (r - 1) bl' 0 (size - len bs) Hb' Hf)).
    intros rest Hrest. apply safe_ret. rewrite length_app. lia.
Qed.

Lemma safe_read_range start size :
  safe fs true (sqfs_read_range fs inode start size) (fun bs => len bs <= size).
Proof.
  unfold sqfs_read_range. destruct (negb _); [apply safe_fail|].
  apply (safe_bind _ _ _ _ (fun _ => True)); [apply safe_lift; unfold get_reg; by destruct (xtra inode)|].
  intros x _. cbv zeta. destruct (Z.ltb_spec size 0); [apply safe_fail|]. cbn [orb].
  destruct (_ <? start); [apply safe_fail|]. destruct (_ =? _); [apply safe_ret; cbn; lia|].
  apply (safe_bind _ _ _ _ _ _ (safe_blockidx_blocklist start)). intros bl Hb.
  apply (safe_bind _ _ _ _ (fun _ => True)); [apply safe_lift; unfold c_mod; by destruct (_ =? 0)|].
  intros o _. apply (safe_bind _ _ _ _ (fun bs => len bs <= Z.max 0 size)).
  - apply (safe_read_loop true full_tank (2 ^ 64)); [done|]. by apply full_tank_lasts.
  - intros bs Hl. destruct (_ =? 0); [apply safe_fail|]. apply safe_ret. lia.
Qed.

End any.

Section zero.
Context {CI : CacheImpl}.

(** [sqfs_init] does not look at the block size of the superblock: when it is
    zero, reading any file divides by zero. *)
Theorem sqfs_read_range_zero_block_size (fs : sqfs) (inode : sqfs_inode) (x : xtra_reg)
    (s : sqfs_state) (start size : Z) :
  block_size fs = 0 -> S_ISREG (mode inode) = true -> get_reg inode = Ret x ->
  0 <= size -> start < s64 x.(xr_file_size) ->
  sqfs_read_range (m := M) fs inode start size s = Crash DivByZero.
Proof.
  intros Hb Hm Hr Hs Hlt. unfold sqfs_read_range. rewrite Hm, Hr. run_m. cbn [negb lift].
  zbool; try lia. unfold sqfs_blockidx_blocklist, sqfs_blocklist_init, sqfs_blocklist_count.
  rewrite Hr. run_m. cbn [mbind outcome_bind]. by rewrite Hb.
Qed.
End zero.

(** ** Samples *)
Definition sample_file_sb (size : Z) : squashfs_super_block :=
  Build_squashfs_super_block 0 0 0 size 0 0 0 0 0 0 0 0 0 0 0 0 0 0 0.

Definition sample_reg (x : xtra_reg) (next : sqfs_md_cursor) : sqfs_inode :=
  mk_inode (Build_squashfs_base_inode SQUASHFS_REG_TYPE S_IFREG 0 0 0 7) 1 SQUASHFS_INVALID_XATTR
    next (XtraReg x).

(** A data block stored without compression. *)
Definition stored_data : Z := 2 ^ 24.

(** A file of ten bytes in blocks of four: one block, one hole, and two bytes in a
    fragment.  The list of headers is at offset 2 of the metadata block. *)
Definition sample_file_headers : list Z := [stored_data + 4; 0].
Definition sample_file_md : list byte := [x00; x00] ++ concat (le_encode 4 <$> sample_file_headers).
Definition sample_file_image : list byte :=
  stored_md sample_file_md ++ [x61; x62; x63; x64] ++ [x70; x71; x72; x73; x74] ++
  stored_md (to_disk (Build_squashfs_fragment_entry 16 (stored_data + 5) 0)).
Definition sample_file_fs : sqfs :=
  mk_sqfs sample_file_image 0 0 0 (sample_file_sb 4) table_zero (mk_table 16 1 (Some [21]))
    table_zero None (Build_squashfs_xattr_id_table 0 0 0) table_zero.
Definition sample_file_xtra : xtra_reg := mk_xreg 12 10 0 1.
Definition sample_file : sqfs_inode := sample_reg sample_file_xtra (mk_cursor 0 2).

Lemma sample_file_on_disk :
  file_on_disk sample_file_fs sample_file sample_file_xtra [(12, sample_file_md)]
    sample_file_headers [[x61; x62; x63; x64]; replicate 4 x00] [x71; x72].
Proof.
  split.
  - reflexivity.
  - reflexivity.
  - vm_compute. done.
  - vm_compute. intuition congruence.
  - vm_compute. intuition congruence.
  - vm_compute. reflexivity.
  - repeat constructor; vm_compute; intuition congruence.
  - split; [vm_compute; reflexivity|]. split; [done|]. split; [done|]. split; [|done].
    vm_compute. congruence.
  - vm_compute. intuition congruence.
  - vm_compute. congruence.
  - vm_compute. reflexivity.
  - intros i Hi. cbn in Hi. lia.
  - reflexivity.
  - intros [|[|k]] h data Hh Hd; [| |done]; injection Hh as <-; injection Hd as <-;
      (split; vm_compute; reflexivity).
  - eexists _, _. split; [vm_compute; reflexivity|]. split; [vm_compute; reflexivity|].
    split; [vm_compute; congruence|]. split; [vm_compute; congruence|]. vm_compute. reflexivity.
Qed.

(** What its caches are to hold. *)
Definition file_expectations (fs : sqfs) (inode : sqfs_inode) : expectations := {|
  data_hdr _ h := h = stored_data + 4;
  frag_hdr _ h := h = stored_data + 5;
  index_of _ index := sqfs_blockidx_add fs inode = Ret (Success index)
|}.

Lemma sample_file_coherent :
  coherent sample_file_fs sample_file sample_file_xtra
    (file_expectations sample_file_fs sample_file) sample_file_headers.
Proof.
  split; [| |done].
  - intros [|[|k]] h Hh Hne; [| |done]; injection Hh as <-; [done|]. by destruct Hne.
  - intros fe Hfe. vm_compute in Hfe. injection Hfe as <-. reflexivity.
Qed.

Lemma sample_file_fs_ok : fs_ok sample_file_fs.
Proof. split; [vm_compute; congruence|done]. Qed.

(** Files of holes long enough for an index, in blocks of two bytes: one whose list
    ends eight bytes after a metadata block, one with a fragment whose list ends
    with its metadata block. *)
Definition zeros (n : Z) : list byte := replicate (Z.to_nat n) x00.
Definition holes_image : list byte :=
  stored_md (zeros 8192) ++ stored_md (zeros 8) ++ [x71] ++
  stored_md (to_disk (Build_squashfs_fragment_entry 8204 (stored_data + 1) 0)).
Definition holes_fs : sqfs :=
  mk_sqfs holes_image 0 0 0 (sample_file_sb 2) table_zero (mk_table 16 1 (Some [8205]))
    table_zero None (Build_squashfs_xattr_id_table 0 0 0) table_zero.
Definition holes_xtra : xtra_reg := mk_xreg 0 4100 SQUASHFS_INVALID_FRAG 0.
Definition holes_file : sqfs_inode := sample_reg holes_xtra (mk_cursor 0 0).
Definition holes_mds : list (Z * list byte) := [(8194, zeros 8192); (10, zeros 8)].
Definition tail_xtra : xtra_reg := mk_xreg 0 4097 0 0.
Definition tail_file : sqfs_inode := sample_reg tail_xtra (mk_cursor 0 0).

Lemma holes_chain : md_chain holes_fs 0 holes_mds.
Proof.
  cbn [md_chain holes_mds]. split; [vm_compute; reflexivity|]. split; [done|].
  split; [done|]. split; [vm_compute; congruence|]. split; [vm_compute; reflexivity|].
  split; [done|]. split; [done|]. split; [vm_compute; congruence|done].
Qed.

Lemma holes_data fs x hs n k (h : Z) (data : list byte) :
  block_size fs = 2 -> 2 * Z.of_nat n <= x.(xr_file_size) ->
  replicate n 0 !! k = Some h -> replicate n (zeros 2) !! k = Some data ->
  block_holds fs (data_pos x hs k) h (block_want fs x k) data.
Proof.
  intros Hb Hn [-> Hk]%lookup_replicate [-> _]%lookup_replicate.
  assert (block_want fs x k = 2) as -> by (unfold block_want; rewrite Hb; lia). by split.
Qed.

Lemma holes_on_disk :
  file_on_disk holes_fs holes_file holes_xtra holes_mds (replicate (Z.to_nat 2050) 0)
    (replicate (Z.to_nat 2050) (zeros 2)) [].
Proof.
  split.
  - reflexivity.
  - reflexivity.
  - vm_compute. done.
  - vm_compute. intuition congruence.
  - vm_compute. intuition congruence.
  - vm_compute. reflexivity.
  - apply Forall_replicate. done.
  - apply holes_chain.
  - vm_compute. intuition congruence.
  - vm_compute. congruence.
  - vm_compute. reflexivity.
  - intros i Hi. cbn in Hi. assert (i = 1%nat) as -> by lia. vm_compute. intuition congruence.
  - reflexivity.
  - intros k h data. apply holes_data; [reflexivity|vm_compute; congruence].
  - reflexivity.
Qed.

Lemma tail_on_disk :
  file_on_disk holes_fs tail_file tail_xtra holes_mds (replicate (Z.to_nat 2048) 0)
    (replicate (Z.to_nat 2048) (zeros 2)) [x71].
Proof.
  split.
  - reflexivity.
  - reflexivity.
  - vm_compute. done.
  - vm_compute. intuition congruence.
  - vm_compute. intuition congruence.
  - vm_compute. reflexivity.
  - apply Forall_replicate. done.
  - apply holes_chain.
  - vm_compute. intuition congruence.
  - vm_compute. congruence.
  - vm_compute. reflexivity.
  - intros i Hi. cbn in Hi. assert (i = 1%nat) as -> by lia. vm_compute. intuition congruence.
  - reflexivity.
  - intros k h data. apply holes_data; [reflexivity|vm_compute; congruence].
  - eexists _, _. split; [vm_compute; reflexivity|]. split; [vm_compute; reflexivity|].
    split; [vm_compute; congruence|]. split; [vm_compute; congruence|]. vm_compute. reflexivity.
Qed.

Definition holes_expectations (inode : sqfs_inode) : expectations := {|
  data_hdr _ h := h = 0;
  frag_hdr _ h := h = stored_data + 1;
  index_of _ index := sqfs_blockidx_add holes_fs inode = Ret (Success index)
|}.

Lemma holes_coherent : 
  coherent holes_fs holes_file holes_xtra (holes_expectations holes_file)
    (replicate (Z.to_nat 2050) 0).
Proof.
  split; [| |done].
  - intros k h [-> _]%lookup_replicate Hne. by destruct Hne.
  - intros fe Hfe. vm_compute in Hfe. congruence.
Qed.

Lemma tail_coherent :
  coherent holes_fs tail_file tail_xtra (holes_expectations tail_file)
    (replicate (Z.to_nat 2048) 0).
Proof.
  split; [| |done].
  - intros k h [-> _]%lookup_replicate Hne. by destruct Hne.
  - intros fe Hfe. vm_compute in Hfe. injection Hfe as <-. reflexivity.
Qed.

Lemma holes_fs_ok : fs_ok holes_fs.
Proof. split; [vm_compute; congruence|done]. Qed.

(** Two bytes of the block, the hole and the fragment: a read across all of them. *)
Lemma sqfs_read_range_correct_witness :
  let run := sqfs_read_range (m := M) sample_file_fs sample_file 2 100 (sample_state []) in
  answer run = Ret (Success [x63; x64; x00; x00; x00; x00; x71; x72]) /\
  inv sample_file_fs (file_expectations sample_file_fs sample_file)
    (final (sample_state []) run) [] None.
Proof.
  destruct (sqfs_read_range_correct sample_file_fs sample_file_fs_ok sample_file sample_file_xtra
    _ _ _ _ sample_file_on_disk (CL := sample_laws) _ sample_file_coherent (sample_state []) 2 100
    (sample_inv _ _ _) eq_refl ltac:(vm_compute; intuition congruence) eq_refl) as (s' & E & Hi).
  cbv zeta. rewrite E. split; [vm_compute; reflexivity|exact Hi].
Defined.

(** The second request for memory fails. *)
Lemma sqfs_read_range_alloc_failure_witness :
  let run := sqfs_read_range (m := M) sample_file_fs sample_file 2 100 (sample_state [true; false]) in
  answer run = Ret (Failure SQFS_ERR) /\
  inv sample_file_fs (file_expectations sample_file_fs sample_file)
    (final (sample_state []) run) [] None.
Proof.
  intros run. split; [vm_compute; reflexivity|].
  assert (index_short sample_file_fs sample_file sample_file_headers 2 = false) as Ht by done.
  destruct (sqfs_read_range_alloc_failure sample_file_fs sample_file_fs_ok sample_file sample_file_xtra
    _ _ _ _ sample_file_on_disk (CL := sample_laws) _ sample_file_coherent
    (sample_state [true; false]) 2 100 (sample_inv _ _ _)
    ltac:(vm_compute; intuition congruence) eq_refl Ht) as (s' & r & E & Hi & _).
  unfold run. rewrite E. exact Hi.
Defined.

(** Byte 4098 is in block 2049; the index leads to block 2048.  The last byte of the
    other file is in its fragment, and the index is short. *)
Lemma sqfs_blockidx_blocklist_correct_witness :
  let run := sqfs_blockidx_blocklist (m := M) holes_fs holes_file 4098 (sample_state []) in
  answer run = Ret (Success (mk_bl 2 (mk_cursor 8194 0) false 4096 0 0 0)) /\
  inv holes_fs (holes_expectations holes_file) (final (sample_state []) run) [] None /\
  sqfs_blockidx_blocklist (m := M) holes_fs tail_file 4096 (sample_state []) = Crash MemFault.
Proof.
  intros run. split; [vm_compute; reflexivity|].
  pose proof (sqfs_blockidx_blocklist_correct holes_fs holes_fs_ok tail_file tail_xtra
    _ _ _ _ tail_on_disk (CL := sample_laws) _ tail_coherent (sample_state []) 4096
    (sample_inv _ _ _) eq_refl ltac:(vm_compute; intuition congruence)) as Hshort.
  pose proof (sqfs_blockidx_blocklist_correct holes_fs holes_fs_ok holes_file holes_xtra
    _ _ _ _ holes_on_disk (CL := sample_laws) _ holes_coherent (sample_state []) 4098
    (sample_inv _ _ _) eq_refl ltac:(vm_compute; intuition congruence)) as H.
  assert (index_short holes_fs tail_file (replicate (Z.to_nat 2048) 0) 4096 = true) as Et
    by (vm_compute; reflexivity).
  assert (index_short holes_fs holes_file (replicate (Z.to_nat 2050) 0) 4098 = false) as Ef
    by (vm_compute; reflexivity).
  cbv zeta in H, Hshort. rewrite Et in Hshort. rewrite Ef in H.
  destruct H as (s' & bl & k & E & Hi & _). unfold run. rewrite E. split; [exact Hi|exact Hshort].
Defined.


Lemma sqfs_read_range_zero_block_size_witness :
  sqfs_read_range (m := M) (sample_fs [] sample_sb) sample_file 0 1 (sample_state []) =
    Crash DivByZero.
Proof.
  exact (sqfs_read_range_zero_block_size (sample_fs [] sample_sb) sample_file sample_file_xtra
    (sample_state []) 0 1 ltac:(vm_compute; reflexivity) ltac:(vm_compute; reflexivity)
    ltac:(vm_compute; reflexivity) ltac:(lia) ltac:(vm_compute; reflexivity)).
Defined.
