(* ===== verification/Xattr.v ===== *)
(** * Xattr: extended attributes (xattr.c)

    The attributes of an inode are a list of entries in a metadata stream: a
    header, the name without its prefix, the value, or a reference to a value
    stored elsewhere.  [sqfs_xattr] is an iterator over them that reads as little as
    it can: [cursors] tells which of its places are known. *)
From S2P Require Import Prelude Swap Cache Decompress FsState Block BlockOk Sample MdRead Table Inode.

Definition SQUASHFS_XATTR_SECURITY : Z := 2.
Definition SQUASHFS_XATTR_VALUE_OOL : Z := 256.
Definition SQUASHFS_XATTR_PREFIX_MASK : Z := 0xff.
Definition SQFS_XATTR_PREFIX_MAX : Z := SQUASHFS_XATTR_SECURITY.

(** "user.", "trusted." and "security.". *)
Definition sqfs_xattr_prefixes : list (list byte) :=
  [[x75; x73; x65; x72; x2e];
   [x74; x72; x75; x73; x74; x65; x64; x2e];
   [x73; x65; x63; x75; x72; x69; x74; x79; x2e]].

Definition CURS_VSIZE : Z := 1.
Definition CURS_VAL : Z := 2.
Definition CURS_NEXT : Z := 4.

(** [x->fs] is the [fs] of the operations. *)
Record sqfs_xattr := mk_xattr {
  x_cursors : Z;
  x_c_name : sqfs_md_cursor;
  x_c_vsize : sqfs_md_cursor;
  x_c_val : sqfs_md_cursor;
  x_c_next : sqfs_md_cursor;
  x_remain : Z;
  x_info : squashfs_xattr_id;
  x_type : Z;
  x_ool : bool;
  x_entry : squashfs_xattr_entry;
  x_val : squashfs_xattr_val
}.

(** [strncmp(a, b, n) == 0]; the lists end where the strings have their
    terminator. *)
Fixpoint strncmp_eq (n : nat) (a b : list byte) : bool :=
  match n with
  | 0%nat => true
  | S n =>
      let ca := hd x00 a in
      let cb := hd x00 b in
      if bool_decide (ca = cb) then
        if bool_decide (ca = x00) then true else strncmp_eq n (tl a) (tl b)
      else false
  end.

(** The error code with what [fs->xattr_info] and [fs->xattr_table] become. *)
Definition sqfs_xattr_init (fs : sqfs) (ms : mallocs)
    : sqfs_err * (squashfs_xattr_id_table * sqfs_table) * mallocs :=
  let start := s64 fs.(sb).(sb_xattr_id_table_start) in
  if start =? SQUASHFS_INVALID_BLK then (SQFS_OK, (fs.(xattr_info), fs.(xattr_table)), ms)
  else
    match pread_exact fs.(fd) 16 (s64 (start + fs.(fs_offset))) with
    | None => (SQFS_ERR, (fs.(xattr_info), fs.(xattr_table)), ms)
    | Some bs =>
        match swapin_struct bs with
        | None => (SQFS_ERR, (fs.(xattr_info), fs.(xattr_table)), ms)
        | Some info =>
            let '(err, table, ms) :=
              sqfs_table_init fs.(xattr_table) fs.(fd) (s64 (start + 16 + fs.(fs_offset))) 16
                info.(xt_xattr_ids) ms in
            (err, (info, table), ms)
        end
    end.

Section xattr.
Context {m : Type -> Type} {FM : FsMonad m}.

(** [x] is the structure as the caller has it, whatever it holds. *)
Definition sqfs_xattr_open (fs : sqfs) (inode : sqfs_inode) (x : sqfs_xattr) : m sqfs_xattr :=
  let x := mk_xattr x.(x_cursors) x.(x_c_name) x.(x_c_vsize) x.(x_c_val) x.(x_c_next) 0
             x.(x_info) x.(x_type) x.(x_ool) x.(x_entry) x.(x_val) in
  if (fs.(xattr_info).(xt_xattr_ids) =? 0) || (inode.(xattr) =? SQUASHFS_INVALID_XATTR)
  then mret x
  else
    bs ← fm_or_err (sqfs_table_get fs.(xattr_table) fs inode.(xattr));
    match swapin_struct bs with
    | None => fm_lift (Crash MemFault)
    | Some info =>
        let c_next := sqfs_md_cursor_inode info.(xi_xattr)
                        fs.(xattr_info).(xt_xattr_table_start) in
        mret (mk_xattr CURS_NEXT x.(x_c_name) x.(x_c_vsize) x.(x_c_val) c_next
                info.(xi_count) info x.(x_type) x.(x_ool) x.(x_entry) x.(x_val))
    end.

(** The prefix of the attribute just read. *)
Definition xattr_prefix (x : sqfs_xattr) : outcome (list byte) :=
  match zlookup sqfs_xattr_prefixes x.(x_type) with
  | Some p => Ret p
  | None => Crash MemFault
  end.

Definition sqfs_xattr_name_size (x : sqfs_xattr) : outcome Z :=
  p ← xattr_prefix x;
  Ret (x.(x_entry).(xe_size) + len p).

(** [name] tells whether the buffer is not null; the bytes are what goes in it. *)
Definition sqfs_xattr_name (fs : sqfs) (x : sqfs_xattr) (name prefix : bool)
    : m (sqfs_xattr * list byte) :=
  p ← (if name && prefix then fm_lift (xattr_prefix x) else mret []);
  '(c_vsize, bs) ← sqfs_md_read fs x.(x_c_name) name x.(x_entry).(xe_size);
  mret (mk_xattr (x.(x_cursors) ||| CURS_VSIZE) x.(x_c_name) c_vsize x.(x_c_val) x.(x_c_next)
          x.(x_remain) x.(x_info) x.(x_type) x.(x_ool) x.(x_entry) x.(x_val), p ++ bs).

(** The name is skipped when the place after it is not known. *)
Definition need_vsize (fs : sqfs) (x : sqfs_xattr) : m sqfs_xattr :=
  if (x.(x_cursors) &&& CURS_VSIZE) =? 0
  then '(x, _) ← sqfs_xattr_name fs x false false; mret x
  else mret x.

Definition sqfs_xattr_value_size (fs : sqfs) (x : sqfs_xattr) : m (sqfs_xattr * Z) :=
  x ← need_vsize fs x;
  '(c_val, val) ← md_struct squashfs_xattr_val fs x.(x_c_vsize);
  if x.(x_ool) then
    '(c_next, bs) ← sqfs_md_read fs c_val true 8;
    let pos := sqfs_swapin64 bs in
    let cursors := x.(x_cursors) ||| CURS_NEXT in
    let c_val := sqfs_md_cursor_inode pos fs.(xattr_info).(xt_xattr_table_start) in
    '(c_val, val) ← md_struct squashfs_xattr_val fs c_val;
    mret (mk_xattr (cursors ||| CURS_VAL) x.(x_c_name) x.(x_c_vsize) c_val c_next x.(x_remain)
            x.(x_info) x.(x_type) x.(x_ool) x.(x_entry) val, val.(xv_vsize))
  else
    mret (mk_xattr (x.(x_cursors) ||| CURS_VAL) x.(x_c_name) x.(x_c_vsize) c_val x.(x_c_next)
            x.(x_remain) x.(x_info) x.(x_type) x.(x_ool) x.(x_entry) val, val.(xv_vsize)).

Definition sqfs_xattr_value (fs : sqfs) (x : sqfs_xattr) (buf : bool)
    : m (sqfs_xattr * list byte) :=
  x ← (if (x.(x_cursors) &&& CURS_VAL) =? 0
       then '(x, _) ← sqfs_xattr_value_size fs x; mret x
       else mret x);
  '(c, bs) ← sqfs_md_read fs x.(x_c_val) buf x.(x_val).(xv_vsize);
  mret (if x.(x_ool) then x
        else mk_xattr (x.(x_cursors) ||| CURS_NEXT) x.(x_c_name) x.(x_c_vsize) x.(x_c_val) c
               x.(x_remain) x.(x_info) x.(x_type) x.(x_ool) x.(x_entry) x.(x_val), bs).

Definition force_inline (x : sqfs_xattr) : sqfs_xattr :=
  mk_xattr x.(x_cursors) x.(x_c_name) x.(x_c_vsize) x.(x_c_val) x.(x_c_next) x.(x_remain)
    x.(x_info) x.(x_type) false x.(x_entry) x.(x_val).

(** The value is skipped when the place of the next attribute is not known. *)
Definition need_next (fs : sqfs) (x : sqfs_xattr) : m sqfs_xattr :=
  if (x.(x_cursors) &&& CURS_NEXT) =? 0
  then '(x, _) ← sqfs_xattr_value fs (force_inline x) false; mret x
  else mret x.

Definition sqfs_xattr_read (fs : sqfs) (x : sqfs_xattr) : m sqfs_xattr :=
  if x.(x_remain) =? 0 then fm_fail SQFS_ERR
  else
    x ← need_next fs x;
    '(c_name, entry) ← md_struct squashfs_xattr_entry fs x.(x_c_next);
    let type := entry.(xe_type) &&& SQUASHFS_XATTR_PREFIX_MASK in
    let ool := negb ((entry.(xe_type) &&& SQUASHFS_XATTR_VALUE_OOL) =? 0) in
    if SQFS_XATTR_PREFIX_MAX <? type then fm_fail SQFS_ERR
    else
      mret (mk_xattr 0 c_name x.(x_c_vsize) x.(x_c_val) x.(x_c_next) (x.(x_remain) - 1)
              x.(x_info) type ool entry x.(x_val)).

(** The loop over the prefixes; [i] is the index of the first of [l]. *)
Fixpoint find_prefix (name : list byte) (l : list (list byte)) (i : Z) : option Z :=
  match l with
  | [] => None
  | p :: l => if strncmp_eq (length p) name p then Some i else find_prefix name l (i + 1)
  end.

Definition sqfs_xattr_find_prefix (name : list byte) : option Z :=
  find_prefix name sqfs_xattr_prefixes 0.

Fixpoint xattr_find_loop (f : fuel) (fs : sqfs) (x : sqfs_xattr) (type : Z) (name : list byte)
    : m (sqfs_xattr * bool) :=
  if x.(x_remain) =? 0 then mret (x, false)
  else
    match f with
    | NoFuel => fm_lift (Crash OutOfFuel)
    | More k =>
        x ← sqfs_xattr_read fs x;
        if negb (x.(x_type) =? type) || negb (x.(x_entry).(xe_size) =? len name)
        then xattr_find_loop (k tt) fs x type name
        else
          '(x, cmp) ← sqfs_xattr_name fs x true false;
          if strncmp_eq (length name) name cmp then mret (x, true)
          else xattr_find_loop (k tt) fs x type name
    end.

(** [name] is a C string. *)
Definition sqfs_xattr_find (fs : sqfs) (x : sqfs_xattr) (name : list byte)
    : m (sqfs_xattr * bool) :=
  match sqfs_xattr_find_prefix name with
  | None => mret (x, false)
  | Some type =>
      p ← fm_lift (match zlookup sqfs_xattr_prefixes type with
                   | Some p => Ret p | None => Crash MemFault end);
      let name := drop (length p) name in
      fm_alloc;;
      xattr_find_loop full_tank fs x type name
  end.

(** [buf] is [None] for a null buffer, else its size [*size]; the result is the
    new [*size] and what was put in the buffer, if anything was.  [x] is the
    uninitialised [sqfs_xattr] on the stack. *)
Definition sqfs_xattr_lookup (fs : sqfs) (inode : sqfs_inode) (x : sqfs_xattr)
    (name : list byte) (buf : option Z) : m (Z * option (list byte)) :=
  x ← sqfs_xattr_open fs inode x;
  '(x, found) ← sqfs_xattr_find fs x name;
  if negb found then mret (0, None)
  else
    '(x, real) ← sqfs_xattr_value_size fs x;
    match buf with
    | Some size =>
        if real <=? size then
          '(_, bs) ← sqfs_xattr_value fs x true;
          mret (real, Some bs)
        else mret (real, None)
    | None => mret (real, None)
    end.
End xattr.

(** ** Strings *)
Lemma strncmp_eq_prefix p name :
  x00 ∉ p -> strncmp_eq (length p) name p = true <-> take (length p) name = p.
Proof.
  revert name. induction p as [|b p IH]; intros name Hp; [done|].
  apply not_elem_of_cons in Hp as [Hb Hp]. cbn [length strncmp_eq hd tl].
  destruct name as [|a name]; cbn [hd tl take firstn].
  - rewrite bool_decide_eq_false_2 by congruence. done.
  - case_bool_decide; [subst a|split; [done|congruence]].
    rewrite bool_decide_eq_false_2 by congruence. rewrite IH by done.
    split; congruence.
Qed.

Lemma strncmp_eq_same name cmp :
  x00 ∉ name -> length cmp = length name -> strncmp_eq (length name) name cmp = true <-> name = cmp.
Proof.
  revert cmp. induction name as [|a name IH]; intros cmp Hn Hl; [by destruct cmp|].
  apply not_elem_of_cons in Hn as [Ha Hn]. destruct cmp as [|b cmp]; [done|].
  cbn [length strncmp_eq hd tl]. case_bool_decide; [subst b|split; [done|congruence]].
  rewrite bool_decide_eq_false_2 by congruence. cbn in Hl. rewrite IH by (done || lia).
  split; congruence.
Qed.

(** ** Attributes as the archive holds them *)
Record xattr_item := {
  it_type : Z;
  it_name : list byte;
  it_ref : option Z;  (* where the value is, when it is out of line *)
  it_value : list byte
}.

Definition xattr_full_name (it : xattr_item) : option (list byte) :=
  (fun p => p ++ it.(it_name)) <$> zlookup sqfs_xattr_prefixes it.(it_type).

Definition value_bytes (v : list byte) : list byte := to_disk (Build_squashfs_xattr_val (len v)) ++ v.

Definition item_entry (it : xattr_item) : squashfs_xattr_entry :=
  Build_squashfs_xattr_entry
    (it.(it_type) + match it.(it_ref) with Some _ => SQUASHFS_XATTR_VALUE_OOL | None => 0 end)
    (len it.(it_name)).
Definition item_payload (it : xattr_item) : list byte :=
  match it.(it_ref) with Some r => le_encode 8 r | None => it.(it_value) end.
Definition item_bytes (it : xattr_item) : list byte :=
  to_disk (item_entry it) ++ it.(it_name) ++ value_bytes (item_payload it).
Definition items_bytes (items : list xattr_item) : list byte := concat (item_bytes <$> items).

Record item_ok (it : xattr_item) : Prop := {
  io_type : 0 <= it.(it_type) <= SQFS_XATTR_PREFIX_MAX;
  io_name : len it.(it_name) < 2 ^ 16;
  io_value : len it.(it_value) < 2 ^ 32;
  io_ref r : it.(it_ref) = Some r -> 0 <= r < 2 ^ 64
}.

(** The attribute the code is to find. *)
Definition xattr_find_spec (items : list xattr_item) (name : list byte) : option xattr_item :=
  list_find (fun it => xattr_full_name it = Some name) items ≫= fun p => Some p.2.

Section holding.
Context (fs : sqfs) (Hfs : fs_ok fs).

(** [bs] lies in the metadata at [c]. *)
Definition holds (c : sqfs_md_cursor) (bs : list byte) : Prop :=
  0 <= c.(cur_offset) /\ in_size (c.(cur_offset) + len bs) /\
  exists c', sqfs_md_read (m := O) fs c true (len bs) = Ret (Success (c', bs)).

Lemma holds_app c xs ys :
  holds c (xs ++ ys) ->
  exists c1, sqfs_md_read (m := O) fs c true (len xs) = Ret (Success (c1, xs)) /\
    sqfs_md_read (m := O) fs c false (len xs) = Ret (Success (c1, [])) /\ holds c1 ys.
Proof.
  intros (Ho & Hs & c' & E). rewrite length_app, Nat2Z.inj_add in Hs, E. unfold in_size in *.
  apply md_read_prefix in E as (c1 & E1 & Hc & E2); unfold in_size; try lia; [|done].
  exists c1. split; [done|].
  apply md_read_end in E1 as H1; unfold in_size; try lia; [|done]. destruct H1 as (_ & Hn & _).
  split; [done|]. split; [lia|]. split; [unfold in_size; lia|]. by exists c'.
Qed.

Lemma holds_prefix c xs ys : holds c (xs ++ ys) -> holds c xs.
Proof.
  intros H. pose proof H as (Ho & Hs & _). apply holds_app in H as (c1 & E & _).
  rewrite length_app, Nat2Z.inj_add in Hs. unfold in_size in *.
  split; [done|]. split; [unfold in_size; lia|eauto].
Qed.

Lemma holds_struct (A : Type) `{OnDisk A} (a : A) c rest :
  fits a -> holds c (to_disk a ++ rest) ->
  exists c1, md_struct (m := O) A fs c = Ret (Success (c1, a)) /\ holds c1 rest.
Proof.
  intros Hf Hc. apply holds_app in Hc as (c1 & E & _ & Hr). exists c1. split; [|done].
  rewrite to_disk_length in E by done. unfold md_struct. rewrite E. run_m. by rewrite swapin_to_disk.
Qed.

Lemma cursor_holds id base bs c' :
  in_size (65536 + len bs) ->
  sqfs_md_read (m := O) fs (sqfs_md_cursor_inode id base) true (len bs) = Ret (Success (c', bs)) ->
  holds (sqfs_md_cursor_inode id base) bs.
Proof.
  intros Hs E. pose proof (cursor_inode_offset id base). unfold in_size in *.
  split; [lia|]. split; [unfold in_size; lia|eauto].
Qed.
End holding.

Lemma xattr_val_fits v : 0 <= v < 2 ^ 32 -> fits (Build_squashfs_xattr_val v).
Proof. intros. repeat constructor; cbn; lia. Qed.

Lemma item_entry_fits it : item_ok it -> fits (item_entry it).
Proof.
  intros [Ht Hn _ _]. unfold SQFS_XATTR_PREFIX_MAX, SQUASHFS_XATTR_SECURITY in Ht.
  unfold item_entry, SQUASHFS_XATTR_VALUE_OOL. repeat constructor; cbn; destruct (it_ref it); lia.
Qed.

Lemma item_entry_type it :
  item_ok it ->
  ((item_entry it).(xe_type) &&& SQUASHFS_XATTR_PREFIX_MASK) = it.(it_type) /\
  negb (((item_entry it).(xe_type) &&& SQUASHFS_XATTR_VALUE_OOL) =? 0) =
    match it.(it_ref) with Some _ => true | None => false end.
Proof.
  intros [Ht _ _ _]. unfold SQFS_XATTR_PREFIX_MAX, SQUASHFS_XATTR_SECURITY in Ht.
  unfold item_entry. cbn [xe_type].
  assert (it_type it = 0 \/ it_type it = 1 \/ it_type it = 2) as Hc by lia.
  destruct Hc as [->|[->| ->]]; by destruct (it_ref it).
Qed.

(** ** The iterator *)
Section iterator.
Context (fs : sqfs) (Hfs : fs_ok fs).

Abbreviation base := fs.(xattr_info).(xt_xattr_table_start).

(** An attribute whose value, if out of line, is where it says. *)
Definition item_there (it : xattr_item) : Prop :=
  item_ok it /\
  forall r, it.(it_ref) = Some r -> holds fs (sqfs_md_cursor_inode r base) (value_bytes it.(it_value)).

(** What is left of the list after the name. *)
Definition after_name (it : xattr_item) (rest : list xattr_item) : list byte :=
  value_bytes (item_payload it) ++ items_bytes rest.

(** [it] is the attribute just read and [rest] the ones after it.  [named] when the
    name was read too. *)
Record current (x : sqfs_xattr) (it : xattr_item) (rest : list xattr_item) (named : bool) : Prop := {
  cu_ok : item_ok it;
  cu_remain : x.(x_remain) = len rest;
  cu_type : x.(x_type) = it.(it_type);
  cu_ool : x.(x_ool) = match it.(it_ref) with Some _ => true | None => false end;
  cu_size : x.(x_entry).(xe_size) = len it.(it_name);
  cu_cursors : x.(x_cursors) = if named then CURS_VSIZE else 0;
  cu_place : if named then holds fs x.(x_c_vsize) (after_name it rest)
             else holds fs x.(x_c_name) (it.(it_name) ++ after_name it rest)
}.

(** The iterator is before [items]. *)
Definition before (x : sqfs_xattr) (items : list xattr_item) : Prop :=
  (x.(x_remain) = len items /\ x.(x_cursors) = CURS_NEXT /\ holds fs x.(x_c_next) (items_bytes items)) \/
  exists it named, current x it items named.

Lemma payload_size it : item_ok it -> len (item_payload it) < 2 ^ 32.
Proof.
  intros [_ _ Hv _]. unfold item_payload. destruct (it_ref it); [|done].
  by rewrite le_encode_length.
Qed.

(** The name, into a buffer or past it. *)
Lemma xattr_name_at x it rest (b : bool) :
  current x it rest false ->
  exists x', sqfs_xattr_name (m := O) fs x b false =
      Ret (Success (x', if b then it.(it_name) else [])) /\
    current x' it rest true.
Proof.
  intros [Ht Hr Hty Hool Hsz Hcu Hp]. unfold sqfs_xattr_name. rewrite andb_false_r. run_m.
  destruct (holds_app fs Hfs _ _ _ Hp) as (c1 & E1 & E2 & Hc1). rewrite Hsz, Hcu.
  destruct b; [rewrite E1|rewrite E2]; run_m; eexists; (split; [done|]); by split.
Qed.

(** The size of the value, and where the value is. *)
Lemma xattr_value_size_at x it rest :
  current x it rest true -> item_there it ->
  exists x', sqfs_xattr_value_size (m := O) fs x = Ret (Success (x', len it.(it_value))) /\
    x'.(x_val).(xv_vsize) = len it.(it_value) /\ holds fs x'.(x_c_val) it.(it_value) /\
    (x'.(x_cursors) &&& CURS_VAL) <> 0.
Proof.
  intros [Hok Hr Hty Hool Hsz Hcu Hp] [_ Hthere]. unfold sqfs_xattr_value_size.
  unfold need_vsize. rewrite Hcu. change ((CURS_VSIZE &&& CURS_VSIZE) =? 0) with false. run_m.
  unfold after_name, value_bytes in Hp. rewrite <- app_assoc in Hp.
  pose proof (payload_size it Hok) as Hpay.
  destruct (holds_struct fs Hfs _ _ _ _ (xattr_val_fits (len (item_payload it)) ltac:(lia)) Hp)
    as (c1 & -> & Hc1). rewrite Hool. unfold item_payload in *.
  destruct (it_ref it) as [r|] eqn:Er.
  - destruct (holds_app fs Hfs _ _ _ Hc1) as (c2 & E2 & _ & _).
    rewrite le_encode_length in E2. change (Z.of_nat 8) with 8 in E2. rewrite E2. run_m.
    assert (sqfs_swapin64 (le_encode 8 r) = r) as ->.
    { pose proof (io_ref _ Hok r Er). unfold sqfs_swapin64.
      rewrite sqfs_swapin_le, le_decode_encode by (rewrite le_encode_length; lia).
      by apply Z.mod_small. }
    pose proof (Hthere r eq_refl) as Hv. unfold value_bytes in Hv. pose proof (io_value _ Hok).
    destruct (holds_struct fs Hfs _ _ _ _ (xattr_val_fits (len (it_value it)) ltac:(lia)) Hv)
      as (c3 & -> & Hc3). run_m.
    eexists. split; [done|]. split; [done|]. split; [done|].
    cbn [x_cursors]. by rewrite Hcu.
  - eexists. split; [done|]. split; [done|]. split; [by apply holds_prefix in Hc1|].
    cbn [x_cursors]. by rewrite Hcu.
Qed.

(** The value into a buffer. *)
Lemma xattr_value_at x v :
  (x.(x_cursors) &&& CURS_VAL) <> 0 -> x.(x_val).(xv_vsize) = len v -> holds fs x.(x_c_val) v ->
  exists x', sqfs_xattr_value (m := O) fs x true = Ret (Success (x', v)).
Proof.
  intros Hc Hv Hh. unfold sqfs_xattr_value. rewrite (proj2 (Z.eqb_neq _ 0)) by done. run_m.
  rewrite <- (app_nil_r v) in Hh. destruct (holds_app fs Hfs _ _ _ Hh) as (c1 & E1 & _ & _).
  rewrite Hv, E1. run_m. by eexists.
Qed.

(** Past the value, inline or not: the payload is skipped as if it were the value. *)
Lemma xattr_skip x it rest named :
  current x it rest named ->
  exists x', sqfs_xattr_value (m := O) fs (force_inline x) false = Ret (Success (x', [])) /\
    holds fs x'.(x_c_next) (items_bytes rest) /\ x'.(x_remain) = len rest.
Proof.
  intros Hcu. assert (exists x', need_vsize (m := O) fs (force_inline x) = Ret (Success x') /\ holds fs x'.(x_c_vsize) (after_name it rest) /\
     x'.(x_ool) = false /\ x'.(x_remain) = len rest /\ x'.(x_cursors) = CURS_VSIZE) as
    (x1 & E1 & Hp & Ho & Hr & Hc).
  { destruct Hcu as [Hok Hr Hty Hool Hsz Hc Hp]. unfold need_vsize.
    replace (x_cursors (force_inline x)) with (x_cursors x) by done. rewrite Hc.
    destruct named.
    - change ((CURS_VSIZE &&& CURS_VSIZE) =? 0) with false. eexists; split; [done|]. done.
    - change ((0 &&& CURS_VSIZE) =? 0) with true. unfold sqfs_xattr_name, force_inline. cbn [andb].
      cbn [x_entry x_c_name x_cursors x_ool x_remain x_c_vsize].
      destruct (holds_app fs Hfs _ _ _ Hp) as (c1 & _ & E2 & Hc1). rewrite Hsz. run_m. rewrite E2. run_m.
      eexists; split; [done|]. cbn. rewrite Hc. done. }
  assert ((x_cursors (force_inline x) &&& CURS_VAL) = 0) as Hv0.
  { destruct Hcu as [_ _ _ _ _ Hcc _]. cbn. rewrite Hcc. by destruct named. }
  unfold sqfs_xattr_value. rewrite Hv0, Z.eqb_refl. unfold sqfs_xattr_value_size. rewrite E1. run_m.
  unfold after_name, value_bytes in Hp. rewrite <- app_assoc in Hp.
  pose proof (payload_size it (cu_ok _ _ _ _ Hcu)) as Hpay.
  destruct (holds_struct fs Hfs _ _ _ _ (xattr_val_fits (len (item_payload it)) ltac:(lia)) Hp)
    as (c1 & -> & Hc1). rewrite Ho. run_m. cbn [x_c_val x_val xv_vsize x_ool].
  destruct (holds_app fs Hfs _ _ _ Hc1) as (c2 & _ & E2 & Hc2). rewrite E2. run_m.
  eexists; split; [done|]. by split.
Qed.

(** The next attribute. *)
Lemma xattr_read_at x it rest :
  before x (it :: rest) -> item_ok it ->
  exists x', sqfs_xattr_read (m := O) fs x = Ret (Success x') /\ current x' it rest false.
Proof.
  intros Hb Hok.
  assert (x.(x_remain) = len (it :: rest)) as Hrem.
  { destruct Hb as [[? _]|(i & b & [? ? _ _ _ _ _])]; done. }
  assert (exists x1, need_next (m := O) fs x = Ret (Success x1) /\ holds fs x1.(x_c_next) (items_bytes (it :: rest)) /\
     x1.(x_remain) = len (it :: rest)) as (x1 & E1 & Hn & Hr1).
  { unfold need_next. destruct Hb as [(_ & Hc & Hh)|(i & b & Hcu)].
    - rewrite Hc. change ((CURS_NEXT &&& CURS_NEXT) =? 0) with false. by exists x.
    - destruct (xattr_skip x i (it :: rest) b Hcu) as (x' & E & Hh & Hr).
      rewrite (cu_cursors _ _ _ _ Hcu). exists x'. destruct b; rewrite E; by run_m. }
  unfold sqfs_xattr_read. rewrite Hrem. destruct (Z.eqb_spec (len (it :: rest)) 0); [cbn in *; lia|].
  rewrite E1. run_m.
  assert (items_bytes (it :: rest) = to_disk (item_entry it) ++ it_name it ++ after_name it rest) as Eb.
  { unfold items_bytes, after_name, item_bytes. cbn [fmap list_fmap concat]. by rewrite <- !app_assoc. }
  rewrite Eb in Hn.
  destruct (holds_struct fs Hfs _ _ _ _ (item_entry_fits it Hok) Hn) as (c1 & -> & Hc1). run_m.
  destruct (item_entry_type it Hok) as [-> ->]. pose proof (io_type _ Hok).
  destruct (Z.ltb_spec SQFS_XATTR_PREFIX_MAX (it_type it)); [lia|].
  eexists; split; [done|]. split; try done. cbn [x_remain]. rewrite Hr1. cbn [length]. lia.
Qed.

(** ** Finding a name *)

(** The first attribute of the type with this rest of the name. *)
Fixpoint find_item (type : Z) (name : list byte) (items : list xattr_item)
    : option (xattr_item * list xattr_item) :=
  match items with
  | [] => None
  | it :: rest =>
      if decide (it.(it_type) = type /\ it.(it_name) = name) then Some (it, rest)
      else find_item type name rest
  end.

Lemma find_loop_at f x type name items :
  x00 ∉ name -> before x items -> Forall item_ok items -> lasts f (len items) ->
  exists x', match find_item type name items with
    | Some (it, rest) =>
        xattr_find_loop (m := O) f fs x type name = Ret (Success (x', true)) /\ current x' it rest true
    | None => xattr_find_loop (m := O) f fs x type name = Ret (Success (x', false))
    end.
Proof.
  intros Hnul. revert f x. induction items as [|it rest IH]; intros f x Hb Hall Hf.
  { exists x. cbn. assert (x_remain x = 0) as Hr.
    { destruct Hb as [[? _]|(i & b & [? ? _ _ _ _ _])]; done. }
    by destruct f; cbn [xattr_find_loop]; rewrite Hr. }
  apply Forall_cons in Hall as [Hit Hall].
  destruct (lasts_turn f (len (it :: rest)) Hf) as (k & -> & Hk); [cbn; lia|].
  assert (lasts (k tt) (len rest)) as Hk' by (by replace (len rest) with (len (it :: rest) - 1) by (cbn; lia)).
  assert (x_remain x <> 0) as Hne.
  { destruct Hb as [[-> _]|(i & b & [? -> _ _ _ _ _])]; cbn; lia. }
  cbn [xattr_find_loop find_item]. rewrite (proj2 (Z.eqb_neq _ 0)) by done.
  destruct (xattr_read_at x it rest Hb Hit) as (x1 & -> & Hcu). run_m.
  rewrite (cu_type _ _ _ _ Hcu), (cu_size _ _ _ _ Hcu).
  destruct (Z.eqb_spec (it_type it) type) as [Et|Et]; cbn [negb orb].
  2: { rewrite decide_False by (intros [? ?]; congruence). apply IH; try done. right. by exists it, false. }
  destruct (Z.eqb_spec (len (it_name it)) (len name)) as [El|El]; cbn [negb].
  2: { rewrite decide_False by (intros [? ?]; congruence). apply IH; try done. right. by exists it, false. }
  destruct (xattr_name_at x1 it rest true Hcu) as (x2 & -> & Hcu2). run_m.
  destruct (strncmp_eq (length name) name (it_name it)) eqn:Es.
  - apply strncmp_eq_same in Es as ->; [|done|lia]. rewrite decide_True by done. by exists x2.
  - rewrite decide_False.
    + apply IH; try done. right. by exists it, true.
    + intros [_ <-]. rewrite (proj2 (strncmp_eq_same (it_name it) (it_name it) Hnul eq_refl)) in Es; done.
Qed.
End iterator.

(** ** Names and prefixes *)
Lemma find_prefix_some name l i t :
  find_prefix name l i = Some t ->
  i <= t /\ exists p, l !! Z.to_nat (t - i) = Some p /\ strncmp_eq (length p) name p = true.
Proof.
  revert i. induction l as [|q l IH]; intros i; cbn [find_prefix]; [done|].
  destruct (strncmp_eq (length q) name q) eqn:E.
  - intros [= <-]. split; [lia|]. exists q. by rewrite Z.sub_diag.
  - intros [Hi (p & Hp & Hs)]%IH. split; [lia|]. exists p. split; [|done].
    by replace (Z.to_nat (t - i)) with (S (Z.to_nat (t - (i + 1)))) by lia.
Qed.

(** A name with one of the prefixes is found to have that prefix and no other. *)
Lemma find_prefix_app t p rest :
  zlookup sqfs_xattr_prefixes t = Some p -> sqfs_xattr_find_prefix (p ++ rest) = Some t.
Proof.
  intros Hp. assert (0 <= t < 3) as Ht by (apply (zlookup_is_Some sqfs_xattr_prefixes); eauto).
  assert (t = 0 \/ t = 1 \/ t = 2) as Hc by lia.
  destruct Hc as [->|[->| ->]]; injection Hp as <-; reflexivity.
Qed.

Lemma find_prefix_split name t :
  sqfs_xattr_find_prefix name = Some t ->
  exists p, zlookup sqfs_xattr_prefixes t = Some p /\ name = p ++ drop (length p) name.
Proof.
  intros [Hi (p & Hp & Hs)]%find_prefix_some. rewrite Z.sub_0_r in Hp.
  exists p. rewrite zlookup_lookup by done. split; [done|].
  apply strncmp_eq_prefix in Hs; [by rewrite <- Hs at 1; rewrite take_drop|].
  assert (Forall (fun p => x00 ∉ p) sqfs_xattr_prefixes) as Hall.
  { apply (bool_decide_unpack _). by vm_compute. }
  by apply (Forall_lookup_1 _ _ _ _ Hall Hp).
Qed.

Lemma full_name_find type p rest it :
  zlookup sqfs_xattr_prefixes type = Some p -> item_ok it ->
  xattr_full_name it = Some (p ++ rest) <-> it.(it_type) = type /\ it.(it_name) = rest.
Proof.
  intros Hp Hok. unfold xattr_full_name. split.
  - intros (q & Hq & Heq)%fmap_Some.
    assert (it_type it = type) as <-.
    { apply find_prefix_app with (rest := rest) in Hp. rewrite Heq in Hp.
      rewrite (find_prefix_app _ q) in Hp by done. congruence. }
    split; [done|]. rewrite Hp in Hq. injection Hq as <-. by apply app_inv_head in Heq.
  - intros [-> ->]. by rewrite Hp.
Qed.

Lemma find_item_spec type p rest items :
  zlookup sqfs_xattr_prefixes type = Some p -> Forall item_ok items ->
  fst <$> find_item type rest items = xattr_find_spec items (p ++ rest).
Proof.
  intros Hp. unfold xattr_find_spec. induction items as [|it items IH]; intros Hall; [done|].
  apply Forall_cons in Hall as [Hok Hall]. cbn [find_item list_find].
  pose proof (full_name_find type p rest it Hp Hok) as Hiff.
  repeat case_decide; try done; try tauto. rewrite IH by done.
  by destruct (list_find _ items) as [[]|].
Qed.

Lemma find_spec_no_prefix name items :
  sqfs_xattr_find_prefix name = None -> xattr_find_spec items name = None.
Proof.
  intros Hn. unfold xattr_find_spec. induction items as [|it items IH]; [done|].
  cbn [list_find]. case_decide as Hd.
  - apply fmap_Some in Hd as (p & Hp & ->). by rewrite (find_prefix_app (it_type it) p) in Hn.
  - by destruct (list_find _ items) as [[]|].
Qed.

(** ** Looking up an attribute *)

(** The list of the attributes of an inode; of a value that is out of line it has only the
    place. *)
Definition xattr_list (fs : sqfs) (inode : sqfs_inode) (items : list xattr_item) : Prop :=
  if (fs.(xattr_info).(xt_xattr_ids) =? 0) || (inode.(xattr) =? SQUASHFS_INVALID_XATTR)
  then items = []
  else
    exists id c,
      sqfs_table_get (m := O) fs.(xattr_table) fs inode.(xattr) = Ret (Success (to_disk id)) /\
      fits id /\ id.(xi_count) = len items /\
      c = sqfs_md_cursor_inode id.(xi_xattr) fs.(xattr_info).(xt_xattr_table_start) /\
      holds fs c (items_bytes items) /\ Forall item_ok items.

(** The attributes with all their values. *)
Definition inode_xattrs (fs : sqfs) (inode : sqfs_inode) (items : list xattr_item) : Prop :=
  xattr_list fs inode items /\ Forall (item_there fs) items.

Lemma find_spec_all (P : xattr_item -> Prop) items name it :
  Forall P items -> xattr_find_spec items name = Some it -> P it.
Proof.
  unfold xattr_find_spec. intros Hall Hf. destruct (list_find _ items) as [[i it']|] eqn:E; [|done].
  injection Hf as ->. apply list_find_Some in E as (Hi & _). by apply (Forall_lookup_1 _ _ _ _ Hall Hi).
Qed.

(** The size of the value and the value if it fits in the buffer. *)
Definition lookup_answer (items : list xattr_item) (name : list byte) (buf : option Z)
    : Z * option (list byte) :=
  match xattr_find_spec items name with
  | None => (0, None)
  | Some it =>
      (len it.(it_value),
       match buf with
       | Some size => if len it.(it_value) <=? size then Some it.(it_value) else None
       | None => None
       end)
  end.

Section lookup.
Context (fs : sqfs) (Hfs : fs_ok fs).

Lemma xattr_open_ref inode x items :
  xattr_list fs inode items ->
  exists x', sqfs_xattr_open (m := O) fs inode x = Ret (Success x') /\
    (items = [] /\ x'.(x_remain) = 0 \/ before fs x' items /\ Forall item_ok items /\
       len items < 2 ^ 32).
Proof.
  unfold xattr_list, sqfs_xattr_open. destruct (_ || _).
  - intros ->. eexists; split; [done|]. by left.
  - intros (id & c & E & Hf & Hc & -> & Hh & Hall). rewrite E. cbn [fm_or_err fs_spec]. run_m.
    rewrite swapin_to_disk by done. eexists; split; [done|]. right.
    split; [left|]; [by split; [|split]|]. split; [done|].
    assert (0 <= xi_count id < 2 ^ 32); [|lia].
    unfold fits, fields_fit in Hf. cbn in Hf. repeat (apply Forall2_cons in Hf as [? Hf]). cbn in *. lia.
Qed.

Lemma xattr_lookup_ref inode x name items buf :
  xattr_list fs inode items -> x00 ∉ name ->
  (forall it, xattr_find_spec items name = Some it -> item_there fs it) ->
  sqfs_xattr_lookup (m := O) fs inode x name buf = Ret (Success (lookup_answer items name buf)).
Proof.
  intros Hx Hnul Hfound. destruct (xattr_open_ref inode x items Hx) as (x1 & E1 & Hcase).
  unfold sqfs_xattr_lookup, lookup_answer. rewrite E1. run_m. unfold sqfs_xattr_find.
  destruct (sqfs_xattr_find_prefix name) as [t|] eqn:Ht.
  2: { rewrite find_spec_no_prefix by done. done. }
  destruct (find_prefix_split name t Ht) as (p & Hp & Hname). rewrite Hp.
  cbn [fm_lift fm_alloc spec_lift fs_spec]. run_m. cbn [spec_lift]. cbv zeta.
  set (rest := drop (length p) name) in *.
  assert (x00 ∉ rest) as Hnul'.
  { rewrite Hname in Hnul. apply not_elem_of_app in Hnul. tauto. }
  destruct Hcase as [[-> Hr]|(Hb & Hok & Hlen)].
  { assert (forall f, xattr_find_loop (m := O) f fs x1 t rest = Ret (Success (x1, false))) as Hl
      by (intros f; destruct f; cbn [xattr_find_loop]; by rewrite Hr).
    by rewrite Hl. }
  clearbody rest. subst name.
  rewrite <- (find_item_spec t p rest items) in * by done.
  destruct (find_loop_at fs Hfs full_tank x1 t rest items Hnul' Hb Hok) as (x2 & Hl);
    [by apply full_tank_lasts; lia|].
  destruct (find_item t rest items) as [[it more]|]; cbn [fmap option_fmap option_map fst].
  2: { by rewrite Hl. }
  destruct Hl as [-> Hcu]. cbn [negb].
  destruct (xattr_value_size_at fs Hfs x2 it more Hcu (Hfound it eq_refl)) as (x3 & -> & Hv & Hh & Hc).
  destruct buf as [size|]; [|done]. destruct (_ <=? size); [|done].
  by destruct (xattr_value_at fs Hfs x3 (it_value it) Hc Hv Hh) as (x4 & ->).
Qed.

Context {CI : CacheImpl} {CL : CacheLaws CI} (X : expectations).

Lemma sim_xattr_name b x name prefix :
  sim fs X b (sqfs_xattr_name fs x name prefix) (sqfs_xattr_name fs x name prefix).
Proof. unfold sqfs_xattr_name. sim_tac. Qed.
Hint Resolve sim_xattr_name : sim.

Lemma sim_md_struct' (A : Type) `{OnDisk A} b cur :
  sim fs X b (md_struct A fs cur) (md_struct A fs cur).
Proof. unfold md_struct. sim_tac. Qed.
Hint Resolve sim_md_struct' : sim.

Lemma sim_xattr_value_size b x :
  sim fs X b (sqfs_xattr_value_size fs x) (sqfs_xattr_value_size fs x).
Proof. unfold sqfs_xattr_value_size, need_vsize. sim_tac. Qed.
Hint Resolve sim_xattr_value_size : sim.

Lemma sim_xattr_value b x buf :
  sim fs X b (sqfs_xattr_value fs x buf) (sqfs_xattr_value fs x buf).
Proof. unfold sqfs_xattr_value. sim_tac. Qed.
Hint Resolve sim_xattr_value : sim.

Lemma sim_xattr_read b x : sim fs X b (sqfs_xattr_read fs x) (sqfs_xattr_read fs x).
Proof. unfold sqfs_xattr_read, need_next. sim_tac. Qed.
Hint Resolve sim_xattr_read : sim.

Lemma sim_xattr_find_loop b f x type name :
  sim fs X b (xattr_find_loop f fs x type name) (xattr_find_loop f fs x type name).
Proof.
  revert x. induction f as [|f IH]; intros x; cbn [xattr_find_loop];
    (destruct (_ =? 0); [apply sim_ret|]); [apply sim_lift|].
  apply sim_bind; [apply sim_xattr_read|]. intros x1. destruct (_ || _); [apply IH|].
  apply sim_bind; [apply sim_xattr_name|]. intros [x2 cmp].
  destruct (strncmp_eq _ _ _); [apply sim_ret|apply IH].
Qed.

Lemma sim_xattr_lookup b inode x name buf :
  sim fs X b (sqfs_xattr_lookup fs inode x name buf) (sqfs_xattr_lookup fs inode x name buf).
Proof.
  unfold sqfs_xattr_lookup, sqfs_xattr_open. apply sim_bind; [sim_tac|]. intros x1.
  apply sim_bind; [|intros [x2 found]; sim_tac]. unfold sqfs_xattr_find.
  destruct (sqfs_xattr_find_prefix name); [|sim_tac].
  apply sim_bind; [sim_tac|]. intros p. cbv zeta. apply sim_bind; [sim_tac|]. intros _.
  apply sim_xattr_find_loop.
Qed.

(** C15: when no allocation fails, a lookup gives the value of the first attribute of the inode
    whose full name, prefix included, is the one asked for: inline or out of line, whole or
    only its size when the buffer is too small, and size zero when there is none. The
    attributes on the way are skipped as the list has them: a value that is out of line is not
    followed, so that only the value asked for need be in the archive. *)
Theorem sqfs_xattr_lookup_correct (s : sqfs_state) (inode : sqfs_inode) (x : sqfs_xattr)
    (items : list xattr_item) (name : list byte) (buf : option Z) :
  inv fs X s [] None -> s.(mem) = [] -> xattr_list fs inode items -> x00 ∉ name ->
  (forall it, xattr_find_spec items name = Some it -> item_there fs it) ->
  exists s', sqfs_xattr_lookup (m := M) fs inode x name buf s =
      Ret (s', Success (lookup_answer items name buf)) /\
    inv fs X s' [] None.
Proof.
  intros Hi Hm Hx Hn Hv.
  destruct (sim_exact fs X false _ _ s _ (sim_xattr_lookup false inode x name buf) Hi Hm
    (xattr_lookup_ref inode x name items buf Hx Hn Hv)) as (s' & E & Hi' & _). by exists s'.
Qed.
End lookup.

(** ** An inode with two attributes, one out of line *)
Definition sample_xattrs : list xattr_item :=
  [{| it_type := 0; it_name := [x61]; it_ref := None; it_value := [x68; x69] |};
   {| it_type := 1; it_name := [x62]; it_ref := Some 28; it_value := [x78; x79; x7a] |}].
Definition sample_xattr_md : list byte := items_bytes sample_xattrs ++ value_bytes [x78; x79; x7a].
Definition sample_xattr_id : squashfs_xattr_id := Build_squashfs_xattr_id 0 2 28.
Definition sample_xattr_fs : sqfs :=
  mk_sqfs (stored_md sample_xattr_md ++ stored_md (to_disk sample_xattr_id)) 0 0 0 sample_sb
    table_zero table_zero table_zero None (Build_squashfs_xattr_id_table 0 1 0)
    (mk_table 16 1 (Some [37])).
Definition sample_xattr_inode : sqfs_inode :=
  mk_inode (Build_squashfs_base_inode SQUASHFS_LREG_TYPE S_IFREG 0 0 0 1) 1 0 (mk_cursor 0 0)
    (XtraReg (mk_xreg 0 0 0 0)).

(** "trusted.b" *)
Definition sample_trusted_b : list byte := [x74; x72; x75; x73; x74; x65; x64; x2e; x62].

Definition sample_xattr : sqfs_xattr :=
  mk_xattr 0 (mk_cursor 0 0) (mk_cursor 0 0) (mk_cursor 0 0) (mk_cursor 0 0) 0 sample_xattr_id 0
    false (Build_squashfs_xattr_entry 0 0) (Build_squashfs_xattr_val 0).

Lemma sample_xattr_there it : it ∈ sample_xattrs -> item_there sample_xattr_fs it.
Proof.
  intros Hin. repeat (apply elem_of_cons in Hin as [->|Hin]); [| |by apply not_elem_of_nil in Hin];
    (split; [split; cbn; [vm_compute; intuition congruence|lia|lia|intros r [=]; lia]|]);
    intros r; [done|]. intros [= <-].
  apply (cursor_holds _ _ _ _ (mk_cursor 37 0)); [vm_compute; intuition congruence|].
  vm_compute. reflexivity.
Qed.

Lemma sample_inode_xattrs : inode_xattrs sample_xattr_fs sample_xattr_inode sample_xattrs.
Proof.
  assert (Forall (item_there sample_xattr_fs) sample_xattrs) as Hall
    by (apply Forall_forall, sample_xattr_there).
  split; [|done]. exists sample_xattr_id, (mk_cursor 0 0). split; [vm_compute; reflexivity|].
  split; [repeat constructor; cbn; lia|]. split; [done|]. split; [done|]. split.
  - apply (cursor_holds _ 0 0 _ (mk_cursor 0 28)); [vm_compute; intuition congruence|].
    vm_compute. reflexivity.
  - eapply Forall_impl; [exact Hall|]. by intros it [].
Qed.

(** Two attributes again, the value of the first one at a place where there is nothing. *)
Definition far_xattrs : list xattr_item :=
  [{| it_type := 0; it_name := [x61]; it_ref := Some (2 ^ 40); it_value := [x68; x69] |};
   {| it_type := 1; it_name := [x62]; it_ref := None; it_value := [x78; x79; x7a] |}].
Definition far_xattr_md : list byte := items_bytes far_xattrs.
Definition far_xattr_id : squashfs_xattr_id := Build_squashfs_xattr_id 0 2 29.
Definition far_xattr_fs : sqfs :=
  mk_sqfs (stored_md far_xattr_md ++ stored_md (to_disk far_xattr_id)) 0 0 0 sample_sb
    table_zero table_zero table_zero None (Build_squashfs_xattr_id_table 0 1 0)
    (mk_table 16 1 (Some [2 + len far_xattr_md])).

Lemma far_xattr_list : xattr_list far_xattr_fs sample_xattr_inode far_xattrs.
Proof.
  exists far_xattr_id, (mk_cursor 0 0). split; [vm_compute; reflexivity|].
  split; [repeat constructor; cbn; lia|]. split; [done|]. split; [done|]. split.
  - apply (cursor_holds _ 0 0 _ (mk_cursor (2 + len far_xattr_md) 0)); [vm_compute; intuition congruence|].
    vm_compute. reflexivity.
  - apply Forall_forall. intros it Hin.
    repeat (apply elem_of_cons in Hin as [->|Hin]); [| |by apply not_elem_of_nil in Hin];
      (split; cbn; [vm_compute; intuition congruence|lia|lia|by intros r [= <-]]).
Qed.

(** The second attribute, past the first one, with room and without. *)
Lemma sqfs_xattr_lookup_correct_witness :
  let run buf := sqfs_xattr_lookup (m := M) far_xattr_fs sample_xattr_inode sample_xattr
                   sample_trusted_b buf (sample_state []) in
  answer (run (Some 3)) = Ret (Success (3, Some [x78; x79; x7a])) /\
  answer (run (Some 2)) = Ret (Success (3, None)) /\
  inv far_xattr_fs no_expectations (final (sample_state []) (run (Some 3))) [] None.
Proof.
  intros run. split; [vm_compute; reflexivity|]. split; [vm_compute; reflexivity|].
  assert (fs_ok far_xattr_fs) as Hfs by (split; [vm_compute; congruence|done]).
  assert (x00 ∉ sample_trusted_b) as Hn by (apply (bool_decide_unpack _); by vm_compute).
  destruct (sqfs_xattr_lookup_correct far_xattr_fs Hfs (CL := sample_laws) no_expectations
    (sample_state []) sample_xattr_inode sample_xattr far_xattrs sample_trusted_b (Some 3)
    (sample_inv _ _ _) eq_refl far_xattr_list Hn) as (s' & E & Hi).
  - intros it Hit. vm_compute in Hit. injection Hit as <-. split; [|done].
    split; cbn; [vm_compute; intuition congruence|lia|lia|done].
  - unfold run. rewrite E. exact Hi.
Defined.
