(* ===== verification/Fuse.v ===== *)
(** * Fuse: what the two FUSE drivers share (fuseprivate.c)

    The error numbers of the replies, the list of the names of attributes, the
    statistics of the archive, the arguments of the command line.  The functions look
    at the error codes of the operations they call ([try]) and answer with an
    [errno]. *)
From S2P Require Import Prelude Swap Cache Decompress FsState Block BlockOk Sample MdRead Table Inode Dir Ends Xattr.

(** errno.h; [sqfs_enoattr] is ENODATA. *)
Definition ENOENT : Z := 2.
Definition EIO : Z := 5.
Definition ENOMEM : Z := 12.
Definition ENOTDIR : Z := 20.
Definition EISDIR : Z := 21.
Definition EINVAL : Z := 22.
Definition EROFS : Z := 30.
Definition ERANGE : Z := 34.
Definition sqfs_enoattr : Z := 61.

(** ** The names of the attributes *)
Section listxattr.
Context {CI : CacheImpl}.

(** [count] is the number of bytes counted, [out] what is in the buffer; [buf] is the
    size of the buffer, if there is one.  An [errno], or the new [*size] and the
    buffer. *)
Fixpoint listxattr_loop (f : fuel) (fs : sqfs) (x : sqfs_xattr) (buf : option Z) (count : Z)
    (out : list byte) : M (Z + Z * list byte) :=
  if x.(x_remain) =? 0 then mret (inr (count, out))
  else
    match f with
    | NoFuel => lift (Crash OutOfFuel)
    | More k =>
        r ← try (sqfs_xattr_read fs x);
        match r with
        | Failure _ => mret (inl EIO)
        | Success x =>
            n ← lift (sqfs_xattr_name_size x);
            let count := u64 (count + u64 (n + 1)) in
            match buf with
            | None => listxattr_loop (k tt) fs x buf count out
            | Some size =>
                if size <? count then mret (inl ERANGE)
                else
                  r ← try (sqfs_xattr_name fs x true true);
                  match r with
                  | Failure _ => mret (inl EIO)
                  | Success (x, name) =>
                      listxattr_loop (k tt) fs x buf count (out ++ name ++ [x00])
                  end
            end
        end
    end.

(** [x] is the structure on the stack.  A failure to open has its sign the wrong way
    round. *)
Definition sqfs_listxattr (fs : sqfs) (inode : sqfs_inode) (x : sqfs_xattr) (buf : option Z)
    : M (Z + Z * list byte) :=
  r ← try (sqfs_xattr_open fs inode x);
  match r with
  | Failure _ => mret (inl (- EIO))
  | Success x => listxattr_loop full_tank fs x buf 0 []
  end.
End listxattr.

(** ** The statistics *)
Record statvfs := mk_statvfs {
  f_bsize : Z;
  f_frsize : Z;
  f_blocks : Z;
  f_bfree : Z;
  f_bavail : Z;
  f_files : Z;
  f_ffree : Z;
  f_favail : Z;
  f_namemax : Z
}.

Definition sqfs_statfs (sq : sqfs) : outcome statvfs :=
  let sb := sq.(sb) in
  if 64 <=? sb.(sb_block_log) then Crash BadShift
  else
    Ret (mk_statvfs sb.(sb_block_size) sb.(sb_block_size)
           (u64 (Z.shiftr (u64 (sb.(sb_bytes_used) - 1)) sb.(sb_block_log) + 1))
           0 0 sb.(sb_inodes) 0 0 SQUASHFS_NAME_LEN).

(** ** The command line *)

(** The members that [sqfs_opt_proc] sets. *)
Record sqfs_opts := mk_opts { image : option (list byte); mountpoint : bool }.

(** fuse_opt.h. *)
Definition FUSE_OPT_KEY_OPT : Z := -1.
Definition FUSE_OPT_KEY_NONOPT : Z := -2.

(** -1 for an error, 0 to drop the argument, 1 to keep it. *)
Definition sqfs_opt_proc (opts : sqfs_opts) (arg : list byte) (key : Z) : sqfs_opts * Z :=
  if key =? FUSE_OPT_KEY_NONOPT then
    if opts.(mountpoint) then (opts, -1)  (* Too many args *)
    else
      match opts.(image) with
      | Some _ => (mk_opts opts.(image) true, 1)
      | None => (mk_opts (Some arg) opts.(mountpoint), 0)
      end
  else if (key =? FUSE_OPT_KEY_OPT) &&
          (strncmp_eq 2 arg [x2d; x68] || strncmp_eq 3 arg [x2d; x2d; x68])
  then (opts, -1)
  else (opts, 1).

(** ** The list of the names is right *)

(** What the archive holds: every full name with a terminator. *)
Definition names_bytes (items : list xattr_item) : list byte :=
  concat (map (fun it => default [] (xattr_full_name it) ++ [x00]) items).

Definition listxattr_answer (items : list xattr_item) (buf : option Z) : Z + Z * list byte :=
  let names := names_bytes items in
  match buf with
  | None => inr (len names, [])
  | Some size => if len names <=? size then inr (len names, names) else inl ERANGE
  end.

Section theorems.
Context (fs : sqfs) (Hfs : fs_ok fs) {CI : CacheImpl} {CL : CacheLaws CI} (X : expectations).

Lemma sim_xattr_open b inode x :
  sim fs X b (sqfs_xattr_open fs inode x) (sqfs_xattr_open fs inode x).
Proof. unfold sqfs_xattr_open. sim_tac. Qed.

Lemma full_name_spec it :
  item_ok it -> exists p, zlookup sqfs_xattr_prefixes it.(it_type) = Some p /\ len p <= 9 /\
    xattr_full_name it = Some (p ++ it.(it_name)).
Proof.
  intros [Ht _ _ _]. unfold SQFS_XATTR_PREFIX_MAX, SQUASHFS_XATTR_SECURITY in Ht.
  unfold xattr_full_name.
  assert (it_type it = 0 \/ it_type it = 1 \/ it_type it = 2) as [->|[->| ->]] by lia;
    eexists; (split; [reflexivity|]); (split; [vm_compute; congruence|reflexivity]).
Qed.

Lemma names_bytes_length items :
  Forall item_ok items -> 0 <= len (names_bytes items) <= len items * 2 ^ 17.
Proof.
  unfold names_bytes. induction 1 as [|it items Hok _ IH]; [cbn; lia|].
  cbn [map concat]. rewrite !length_app. cbn [length].
  destruct (full_name_spec it Hok) as (p & Hp & Hl & ->). cbn [default id].
  rewrite length_app. pose proof (io_name it Hok). lia.
Qed.

Lemma xattr_name_size_at x it rest p named :
  current fs x it rest named -> zlookup sqfs_xattr_prefixes it.(it_type) = Some p ->
  sqfs_xattr_name_size x = Ret (len (p ++ it.(it_name))).
Proof.
  intros Hcu Hp. unfold sqfs_xattr_name_size, xattr_prefix. rewrite (cu_type _ _ _ _ _ Hcu), Hp.
  cbn [mbind outcome_bind]. rewrite (cu_size _ _ _ _ _ Hcu), length_app. f_equal. lia.
Qed.

Lemma xattr_full_name_at x it rest p :
  current fs x it rest false -> zlookup sqfs_xattr_prefixes it.(it_type) = Some p ->
  exists x', sqfs_xattr_name (m := O) fs x true true = Ret (Success (x', p ++ it.(it_name))) /\
    current fs x' it rest true.
Proof.
  intros Hcu Hp. destruct (xattr_name_at fs Hfs x it rest true Hcu) as (x' & E & Hcu').
  exists x'. split; [|done]. revert E. unfold sqfs_xattr_name, xattr_prefix. cbn [andb].
  rewrite (cu_type _ _ _ _ _ Hcu), Hp. run_m. cbn [spec_lift fm_lift fs_spec].
  destruct (sqfs_md_read _ _ _ _) as [[[c bs]|]|]; [|done..]. by intros [= <- ->].
Qed.

Lemma listxattr_loop_at f x items buf count out s :
  good fs X s -> (items = [] /\ x.(x_remain) = 0 \/ before fs x items) ->
  Forall item_ok items -> lasts f (len items) ->
  0 <= count -> count + len (names_bytes items) < 2 ^ 64 ->
  (forall size, buf = Some size -> count <= size) ->
  exists s', good fs X s' /\ listxattr_loop f fs x buf count out s = Ret (s', Success
    match buf with
    | None => inr (count + len (names_bytes items), out)
    | Some size =>
        if count + len (names_bytes items) <=? size
        then inr (count + len (names_bytes items), out ++ names_bytes items) else inl ERANGE
    end).
Proof.
  revert f x count out s. induction items as [|it items IH]; intros f x count out s Hs Hb Hall Hf Hc0 Hmax Hsize.
  { assert (x_remain x = 0) as Hr.
    { destruct Hb as [[_ ?]|[[? _]|(i & b & [? ? _ _ _ _ _])]]; done. }
    exists s. split; [done|]. change (len (names_bytes [])) with 0. rewrite Z.add_0_r.
    destruct f; cbn [listxattr_loop]; rewrite Hr; (destruct buf as [size|]; [|done]);
      specialize (Hsize size eq_refl); zbool; try lia; change (names_bytes []) with (@nil byte);
      by rewrite app_nil_r. }
  destruct Hb as [[[=] _]|Hb]. apply Forall_cons in Hall as [Hit Hall].
  destruct (lasts_turn f _ Hf) as (k & -> & Hk); [cbn [length]; lia|].
  assert (lasts (k tt) (len items)) as Hk' by (by replace (len items) with (len (it :: items) - 1) by (cbn [length]; lia)).
  assert (x_remain x <> 0) as Hne.
  { destruct Hb as [[-> _]|(i & b & [? -> _ _ _ _ _])]; cbn [length]; lia. }
  cbn [listxattr_loop]. rewrite (proj2 (Z.eqb_neq _ 0)) by done.
  destruct (xattr_read_at fs Hfs x it items Hb Hit) as (x1 & E1 & Hcu).
  destruct (try_exact fs X false _ _ s _ (sim_xattr_read fs X false x) Hs E1) as (s1 & E1' & Hs1).
  run_m. rewrite E1'. cbn beta iota.
  destruct (full_name_spec it Hit) as (p & Hp & Hpl & Hname).
  rewrite (xattr_name_size_at x1 it items p false Hcu Hp). cbn [lift].
  assert (names_bytes (it :: items) = (p ++ it_name it) ++ [x00] ++ names_bytes items) as En.
  { unfold names_bytes. cbn [map concat]. rewrite Hname. cbn [default id]. by rewrite <- !app_assoc. }
  rewrite En in *. set (full := p ++ it_name it) in *. rewrite !length_app in *. cbn [length] in Hmax |- *.
  rewrite (wrap_small 64 (len full + 1)), (wrap_small 64) by lia.
  destruct buf as [size|].
  - destruct (Z.ltb_spec size (count + (len full + 1))) as [Hlt|Hle].
    { exists s1. split; [done|]. rewrite (proj2 (Z.leb_gt _ _)) by lia. done. }
    destruct (xattr_full_name_at x1 it items p Hcu Hp) as (x2 & E2 & Hcu2).
    destruct (try_exact fs X false _ _ s1 _ (sim_xattr_name fs X false x1 true true) Hs1 E2)
      as (s2 & E2' & Hs2).
    rewrite E2'. cbn beta iota.
    destruct (IH (k tt) x2 (count + (len full + 1)) (out ++ full ++ [x00]) s2 Hs2) as (s3 & Hs3 & E3);
      [right; right; by exists it, true|done|done|lia|lia|intros ? [= <-]; lia|].
    exists s3. split; [done|]. fold full. rewrite E3, <- !app_assoc. cbn [app].
    by replace (count + (len full + 1) + len (names_bytes items))
      with (count + Z.of_nat (length full + S (length (names_bytes items)))) by lia.
  - destruct (IH (k tt) x1 (count + (len full + 1)) out s1 Hs1) as (s3 & Hs3 & E3);
      [right; right; by exists it, false|done|done|lia|lia|done|].
    exists s3. split; [done|]. rewrite E3.
    by replace (count + (len full + 1) + len (names_bytes items))
      with (count + Z.of_nat (length full + S (length (names_bytes items)))) by lia.
Qed.

Lemma listxattr_good s inode x items buf :
  good fs X s -> xattr_list fs inode items -> (forall size, buf = Some size -> 0 <= size) ->
  exists s', good fs X s' /\
    sqfs_listxattr fs inode x buf s = Ret (s', Success (listxattr_answer items buf)).
Proof.
  intros Hs Hx Hb. destruct (xattr_open_ref fs inode x items Hx) as (x1 & E1 & Hcase).
  destruct (try_exact fs X false _ _ s _ (sim_xattr_open false inode x) Hs E1) as (s1 & E1' & Hs1).
  unfold sqfs_listxattr. run_m. rewrite E1'. cbn beta iota.
  assert (Forall item_ok items /\ len items < 2 ^ 32) as [Hok Hlen].
  { destruct Hcase as [[-> _]|(_ & ? & ?)]; [done|by split]. }
  pose proof (names_bytes_length items Hok) as Hn.
  destruct (listxattr_loop_at full_tank x1 items buf 0 [] s1 Hs1) as (s2 & Hs2 & E2);
    [tauto|done|apply full_tank_lasts; lia|lia|lia|done|].
  exists s2. split; [done|]. rewrite E2. unfold listxattr_answer. by rewrite Z.add_0_l.
Qed.

(** the names of an inode's attributes come out in the order of the archive, each with
    its prefix and a terminator; without a buffer only their size, and with one that is
    too small [ERANGE]. *)
Theorem sqfs_listxattr_correct (s : sqfs_state) (inode : sqfs_inode) (x : sqfs_xattr)
    (items : list xattr_item) (buf : option Z) :
  inv fs X s [] None -> s.(mem) = [] -> xattr_list fs inode items ->
  (forall size, buf = Some size -> 0 <= size) ->
  exists s', inv fs X s' [] None /\
    sqfs_listxattr fs inode x buf s = Ret (s', Success (listxattr_answer items buf)).
Proof.
  intros Hi Hm Hx Hb. destruct (listxattr_good s inode x items buf (conj Hi Hm) Hx Hb) as (s' & [? _] & E).
  by exists s'.
Qed.
End theorems.

(** ** The statistics and the command line are right *)

(** the number of blocks is that of the bytes of the archive, rounded up, when the
    logarithm of the block size in the superblock is right. *)
Theorem sqfs_statfs_correct (fs : sqfs) :
  0 <= fs.(sb).(sb_block_log) < 64 -> fs.(sb).(sb_block_size) = 2 ^ fs.(sb).(sb_block_log) ->
  0 < fs.(sb).(sb_bytes_used) < 2 ^ 64 ->
  let bs := fs.(sb).(sb_block_size) in
  sqfs_statfs fs = Ret (mk_statvfs bs bs ((fs.(sb).(sb_bytes_used) + (bs - 1)) / bs) 0 0
                          fs.(sb).(sb_inodes) 0 0 SQUASHFS_NAME_LEN).
Proof.
  intros Hl Hb Hu bs. unfold sqfs_statfs. fold bs in Hb |- *.
  destruct (Z.leb_spec 64 (sb_block_log (sb fs))); [lia|].
  rewrite (wrap_small 64 (_ - 1)) by lia. rewrite Z.shiftr_div_pow2, <- Hb by lia.
  assert (0 < bs) as Hp by (rewrite Hb; lia).
  assert ((sb_bytes_used (sb fs) + (bs - 1)) / bs = (sb_bytes_used (sb fs) - 1) / bs + 1) as ->.
  { rewrite <- Z.div_add by lia. f_equal. lia. }
  assert (0 <= (sb_bytes_used (sb fs) - 1) / bs <= sb_bytes_used (sb fs) - 1)
    by (split; [apply Z.div_pos|apply Z.div_le_upper_bound]; nia).
  by rewrite wrap_small by lia.
Qed.

(** fuse_opt_calls: [sqfs_opt_proc] on every argument with its key; the arguments kept. *)
Fixpoint opt_calls (opts : sqfs_opts) (args : list (list byte * Z))
    : option (sqfs_opts * list (list byte)) :=
  match args with
  | [] => Some (opts, [])
  | (arg, key) :: args =>
      let (opts, r) := sqfs_opt_proc opts arg key in
      if r =? -1 then None
      else
        '(opts, kept) ← opt_calls opts args;
        Some (opts, if r =? 1 then arg :: kept else kept)
  end.

Definition non_options (args : list (list byte * Z)) : list (list byte) :=
  map fst (filter (fun p => p.2 = FUSE_OPT_KEY_NONOPT) args).

Lemma non_options_cons arg key args :
  non_options ((arg, key) :: args) =
  if key =? FUSE_OPT_KEY_NONOPT then arg :: non_options args else non_options args.
Proof.
  unfold non_options. destruct (Z.eqb_spec key FUSE_OPT_KEY_NONOPT).
  - by rewrite filter_cons_True.
  - by rewrite filter_cons_False.
Qed.

(** when the command line is accepted, the image is its first argument that is no
    option, a mount point is there exactly when there is a second one, and there is no
    third. *)
Theorem sqfs_opt_proc_correct (args : list (list byte * Z)) (opts : sqfs_opts)
    (kept : list (list byte)) :
  opt_calls (mk_opts None false) args = Some (opts, kept) ->
  opts.(image) = head (non_options args) /\ len (non_options args) <= 2 /\
  opts.(mountpoint) = (1 <? len (non_options args)).
Proof.
  assert (forall l o, opt_calls o l = Some (opts, kept) ->
    (o.(image) = None -> o.(mountpoint) = false) ->
    let n := (if o.(image) is Some _ then 1 else 0) + (if o.(mountpoint) then 1 else 0) in
    opts.(image) = match o.(image) with Some i => Some i | None => head (non_options l) end /\
    n + len (non_options l) <= 2 /\ opts.(mountpoint) = (1 <? n + len (non_options l))) as H.
  2: { intros E. by destruct (H args _ E) as (? & ? & ?). }
  clear args. intros l. revert kept. induction l as [|[arg key] l IH]; intros kept o; cbn [opt_calls].
  - intros [= -> _]. destruct opts as [[i|] [|]]; intros H; cbn in H |- *; try done.
    by specialize (H eq_refl).
  - rewrite non_options_cons. unfold sqfs_opt_proc.
    destruct (Z.eqb_spec key FUSE_OPT_KEY_NONOPT) as [->|Hk].
    + destruct o as [[i|] [|]]; cbn [mountpoint image]; try done;
        try (by intros _ H; specialize (H eq_refl));
        (destruct (opt_calls _ l) as [[o' k']|] eqn:E; [|done]); intros [= -> _] _;
        destruct (IH _ _ E ltac:(done)) as (H1 & H2 & H3);
        cbv zeta in H1, H2, H3 |- *; cbn [image mountpoint length head] in H1, H2, H3 |- *;
        (split; [done|]); (split; [lia|rewrite H3; zbool; done || lia]).
    + destruct (_ && _); [done|]. cbn [Z.eqb Pos.eqb].
      destruct (opt_calls o l) as [[o' k']|] eqn:E; [|done]. intros [= -> _]. exact (IH _ _ E).
Qed.

(** ** Samples *)

(** 1000 bytes in blocks of 512. *)
Definition sample_statfs_sb : squashfs_super_block :=
  Build_squashfs_super_block 0 7 0 512 0 0 9 0 0 0 0 0 1000 0 0 0 0 0 0.

Lemma sqfs_statfs_correct_witness :
  sqfs_statfs (sample_fs [] sample_statfs_sb) = Ret (mk_statvfs 512 512 2 0 0 7 0 0 256).
Proof.
  exact (sqfs_statfs_correct (sample_fs [] sample_statfs_sb) ltac:(vm_compute; intuition congruence)
    eq_refl ltac:(vm_compute; intuition congruence)).
Defined.

(** An option, the image, the mount point. *)
Lemma sqfs_opt_proc_correct_witness :
  let args := [([x2d; x66], FUSE_OPT_KEY_OPT); ([x61], FUSE_OPT_KEY_NONOPT); ([x62], FUSE_OPT_KEY_NONOPT)] in
  opt_calls (mk_opts None false) args = Some (mk_opts (Some [x61]) true, [[x2d; x66]; [x62]]) /\
  Some [x61] = head (non_options args) /\ len (non_options args) <= 2.
Proof.
  intros args. split; [reflexivity|].
  destruct (sqfs_opt_proc_correct args (mk_opts (Some [x61]) true) [[x2d; x66]; [x62]] eq_refl)
    as (H1 & H2 & _).
  split; [exact H1|exact H2].
Defined.
