(* ===== verification/Serve.v ===== *)
(** * Serve: the operations on archives that may hold anything

    For the drivers, which must answer every request: what each operation gives when
    the archive is wrong or memory is short.  [inode_sound] is what is always true of
    an inode that was read; [serves m P] says that [m] answers, with something in [P],
    and leaves the caches and blocks in order. *)
From S2P Require Import Prelude Swap Cache Decompress FsState Block BlockOk Sample MdRead Table Xattr Inode Dir Ends Stat File FileOk Fuse.

Definition inode_sound (i : sqfs_inode) : Prop :=
  inode_ranges i /\ (S_ISDIR (mode i) = true -> exists x, i.(xtra) = XtraDir x).

Section operations.
Context (fs : sqfs) (Hfs : fs_ok fs).

Lemma ends_inode_get id : ends (sqfs_inode_get (m := O) fs id) inode_sound.
Proof. apply ends_total. exact (inode_get_total fs Hfs id). Qed.

Lemma ends_id_get idx : ends (sqfs_id_get (m := O) fs idx) (fun _ => True).
Proof. unfold sqfs_id_get. by apply (ends_bind _ _ _ _ (ends_table_get fs Hfs _ _)). Qed.

Lemma ends_stat makedev inode : ends (sqfs_stat makedev (m := O) fs inode) (fun _ => True).
Proof.
  unfold sqfs_stat. apply (ends_bind _ _ (fun _ => True)).
  - unfold stat_xtra, get_reg, get_dev, get_symlink_size.
    repeat case_match; try done; by destruct (xtra inode).
  - intros [[size blocks] rdev] _. apply (ends_bind _ _ (fun _ => True)).
    { destruct (_ <? _); [done|apply ends_id_get]. }
    intros uid _. apply (ends_bind _ _ (fun _ => True)); [|done].
    destruct (_ <? _); [done|apply ends_id_get].
Qed.

Lemma ends_readlink inode buf :
  inode_sound inode -> (forall size, buf = Some size -> 0 <= size < 2 ^ 64) ->
  ends (sqfs_readlink (m := O) fs inode buf) (fun p => 0 <= fst p < 2 ^ 64).
Proof.
  intros [[Hn Hr] _] Hb. unfold sqfs_readlink. destruct (negb _); [done|].
  apply (ends_bind _ _ (fun n => 0 <= n < 2 ^ 32)).
  { apply ends_lift. unfold get_symlink_size. by destruct (xtra inode). }
  intros want Hw. destruct buf as [size|].
  2: { cbn. by apply (wrap_range 64). }
  cbv zeta. set (w := if _ <? want then _ else want). specialize (Hb size eq_refl).
  assert (0 <= w < 2 ^ 32) as Hw'.
  { pose proof (wrap_range 64 (size - 1) ltac:(done)). unfold w. zbool; lia. }
  destruct (size <=? w); [done|].
  apply (ends_bind _ _ (fun _ => True)); [|by intros [? ?]].
  eapply ends_weaken; [apply ends_md_read|]; unfold in_size; [done|lia|lia|done].
Qed.

(** ** Directories *)
Lemma ends_dir_open inode offset :
  inode_sound inode -> ends (sqfs_dir_open (m := O) fs inode offset) dir_ok.
Proof.
  intros [Hr Hd]. destruct (S_ISDIR (mode inode)) eqn:Hm.
  - destruct (Hd eq_refl) as [x Hx]. apply ends_total.
    pose proof (dir_open_total fs Hfs inode offset x Hx Hr) as H.
    destruct (sqfs_dir_open fs inode offset) as [[d|]|]; [apply H|done..].
  - unfold sqfs_dir_open. by rewrite Hm.
Qed.

Lemma ends_dir_next d :
  dir_ok d ->
  ends (sqfs_dir_next (m := O) fs d true) (fun p =>
    match p with
    | (d', Some e) => dir_ok d' /\ dir_measure d' < dir_measure d
    | (_, None) => True
    end).
Proof.
  intros Hd. apply ends_total. pose proof (dir_next_total fs Hfs d true Hd) as H.
  destruct (sqfs_dir_next fs d true) as [[[d' [e|]]|]|]; [|done..].
  split; [apply H|]. destruct H as (H1 & H2 & _). lia.
Qed.

Lemma ends_dir_lookup inode name namelen :
  inode_sound inode -> ends (sqfs_dir_lookup (m := O) fs inode name namelen) (fun _ => True).
Proof.
  intros [Hr Hd]. destruct (S_ISDIR (mode inode)) eqn:Hm.
  - destruct (Hd eq_refl) as [x Hx]. pose proof (dir_lookup_total fs Hfs inode name namelen x Hx Hr) as H.
    destruct (sqfs_dir_lookup fs inode name namelen) as [[]|]; [done..|by subst].
  - unfold sqfs_dir_lookup, sqfs_dir_open. by rewrite Hm.
Qed.

Lemma ends_lookup_path_loop n inode path id :
  inode_sound inode -> (length path <= n)%nat ->
  ends (lookup_path_loop (m := O) n fs inode path id) (fun p => inode_sound (snd (fst p))).
Proof.
  revert inode path id. induction n as [|n IH]; intros inode path id Hi Hn.
  { by destruct path; [|cbn in Hn; lia]. }
  destruct path as [|c path]; [done|]. cbn [lookup_path_loop].
  pose proof (skip_length (c :: path)) as Hs. pose proof (span_name_app (skip_slashes (c :: path))) as Ha.
  destruct (span_name _) as [name rest]. cbn [fst snd] in Ha. apply (f_equal length) in Ha.
  rewrite length_app in Ha. destruct (Z.eqb_spec (len name) 0); [done|].
  apply (ends_bind _ _ _ _ (ends_dir_lookup inode _ _ Hi)). intros [e|] _; [|done].
  apply (ends_bind _ _ _ _ (ends_inode_get _)). intros i' Hi'. apply IH; [done|]. cbn [length] in *. lia.
Qed.

Lemma ends_lookup_path inode path :
  inode_sound inode -> ends (sqfs_lookup_path (m := O) fs inode path) (fun p => inode_sound (snd p)).
Proof.
  intros Hi. unfold sqfs_lookup_path, sqfs_lookup_path_with_id.
  eapply ends_bind; [by apply ends_lookup_path_loop|]. by intros [[? ?] ?].
Qed.

(** ** Extended attributes

    Which places of the iterator are known, after an attribute was read ([xattr_at])
    and before one is ([xattr_ready]). *)
Definition xattr_at (x : sqfs_xattr) : Prop :=
  0 <= x.(x_remain) < 2 ^ 32 /\ 0 <= x.(x_c_name).(cur_offset) <= 2 ^ 16 /\
  0 <= x.(x_entry).(xe_size) < 2 ^ 16 /\ 0 <= x.(x_type) <= SQFS_XATTR_PREFIX_MAX /\
  let vsize := 0 <= x.(x_c_vsize).(cur_offset) <= 2 ^ 18 in
  let val := 0 <= x.(x_c_val).(cur_offset) <= 2 ^ 16 /\ 0 <= x.(x_val).(xv_vsize) < 2 ^ 32 in
  let next := 0 <= x.(x_c_next).(cur_offset) <= 2 ^ 40 in
  x.(x_cursors) = 0 \/ (x.(x_cursors) = 1 /\ vsize) \/ (x.(x_cursors) = 3 /\ vsize /\ val) \/
  (x.(x_cursors) = 7 /\ vsize /\ val /\ next).

Definition xattr_ready (x : sqfs_xattr) : Prop :=
  xattr_at x \/
  0 <= x.(x_remain) < 2 ^ 32 /\
  (x.(x_remain) = 0 \/ x.(x_cursors) = CURS_NEXT /\ 0 <= x.(x_c_next).(cur_offset) <= 2 ^ 40).

(** [x'] is the same attribute as [x]. *)
Definition xattr_same (x x' : sqfs_xattr) : Prop :=
  xattr_at x' /\ x'.(x_remain) = x.(x_remain).

(** [sqfs_init] leaves the table so. *)
Context (Heach : fs.(xattr_table).(tbl_each) = 16 \/ fs.(xattr_info).(xt_xattr_ids) = 0).

Lemma ends_xattr_open inode x : ends (sqfs_xattr_open (m := O) fs inode x) xattr_ready.
Proof.
  unfold sqfs_xattr_open. cbv zeta. destruct Heach as [He|He].
  2: { rewrite He. right. cbn [x_remain]. split; [lia|by left]. }
  destruct (_ || _).
  { right. cbn [x_remain]. split; [lia|by left]. }
  eapply ends_bind; [by apply ends_or_err, ends_table_get|]. cbn beta.
  intros bs Hl. rewrite He in Hl.
  destruct (swapin_struct bs) as [info|] eqn:E; [|done]. apply swapin_fits in E; [|done]. unfold fits, fields_fit in E. cbn in E. rewrite ?Forall2_cons in E.
  right. cbn [x_remain x_cursors x_c_next]. split; [lia|]. right. split; [done|].
  pose proof (cursor_inode_offset info.(xi_xattr) fs.(xattr_info).(xt_xattr_table_start)). lia.
Qed.

Lemma ends_xattr_name x name prefix :
  xattr_at x -> x.(x_cursors) = 0 ->
  ends (sqfs_xattr_name (m := O) fs x name prefix)
    (fun p => xattr_same x (fst p) /\ (fst p).(x_cursors) = 1).
Proof.
  intros (Hr & Hn & He & Ht & _) Hc. unfold sqfs_xattr_name.
  apply (ends_bind _ _ (fun _ => True)).
  { destruct (name && prefix); [|done]. apply ends_lift. unfold xattr_prefix.
    by destruct (zlookup _ _). }
  intros p _. eapply ends_bind; [apply ends_md_read; unfold in_size; lia || done|].
  intros [c bs] [Hb _]. cbn [fst] in *. unfold xattr_same, xattr_at. cbn. rewrite Hc. cbn.
  repeat split; try lia. right. left. split; [done|lia].
Qed.

Lemma fits_val (v : squashfs_xattr_val) : fits v -> 0 <= v.(xv_vsize) < 2 ^ 32.
Proof. intros Hf. unfold fits, fields_fit in Hf. cbn in Hf. rewrite ?Forall2_cons in Hf. tauto. Qed.

Lemma ends_need_vsize x :
  xattr_at x -> x.(x_cursors) = 0 \/ x.(x_cursors) = 1 ->
  ends (need_vsize (m := O) fs x)
    (fun x' => xattr_same x x' /\ x'.(x_cursors) = 1 /\ x'.(x_ool) = x.(x_ool)).
Proof.
  intros Ha Hc. unfold need_vsize. destruct Hc as [Hc|Hc]; rewrite Hc; cbn [Z.eqb].
  - change ((0 &&& CURS_VSIZE) =? 0) with true. cbv iota.
    assert (ends (sqfs_xattr_name (m := O) fs x false false) (fun p =>
      xattr_same x (fst p) /\ (fst p).(x_cursors) = 1 /\ (fst p).(x_ool) = x.(x_ool))) as H.
    { pose proof (ends_xattr_name x false false Ha Hc) as H. revert H.
      unfold sqfs_xattr_name. cbn [andb]. run_m.
      destruct (sqfs_md_read _ _ _ _) as [[[c bs]|]|]; [|done..]. cbn. tauto. }
    eapply ends_bind; [exact H|]. intros [x' bs] Hx. exact Hx.
  - change ((1 &&& CURS_VSIZE) =? 0) with false. split; [by split|done].
Qed.

Lemma ends_xattr_value_size x :
  xattr_at x -> x.(x_cursors) = 0 \/ x.(x_cursors) = 1 ->
  ends (sqfs_xattr_value_size (m := O) fs x) (fun p =>
    xattr_same x (fst p) /\ (fst p).(x_ool) = x.(x_ool) /\
    (fst p).(x_cursors) = (if x.(x_ool) then 7 else 3)).
Proof.
  intros Ha Hc. unfold sqfs_xattr_value_size. eapply ends_bind; [by apply ends_need_vsize|].
  cbn beta. intros x1 ([Ha1 Hr1] & Hc1 & Ho1). unfold xattr_same. rewrite <- Ho1, <- Hr1. clear Ha Hc.
  destruct Ha1 as (Hr & Hn & He & Ht & Hcase). rewrite Hc1 in Hcase. cbn zeta in Hcase.
  assert (0 <= cur_offset (x_c_vsize x1) <= 2 ^ 18) as Hv by lia.
  eapply ends_bind; [apply ends_md_struct; [done|done|unfold in_size; lia]|].
  intros [c v] [Hcv Hvf%fits_val]. cbn [fst snd] in *.
  destruct (x_ool x1) eqn:Ho.
  - eapply ends_bind; [apply ends_md_read; unfold in_size; try lia; done|].
    intros [c2 bs] [Hc2 _]. cbv zeta. cbn [fst snd] in *.
    pose proof (cursor_inode_offset (sqfs_swapin64 bs) fs.(xattr_info).(xt_xattr_table_start)).
    eapply ends_bind; [apply ends_md_struct; [done|done|unfold in_size; lia]|].
    intros [c3 v3] [Hc3 Hv3%fits_val]. cbn [fst snd] in *. rewrite Hc1.
    unfold xattr_same, xattr_at. cbn. rewrite ?Ho. repeat split; try lia.
    do 3 right. repeat split; lia.
  - unfold xattr_same, xattr_at. rewrite Hc1. cbn. rewrite ?Ho. repeat split; try lia.
    do 2 right. left. repeat split; lia.
Qed.

Lemma ends_xattr_value x buf :
  xattr_at x ->
  ends (sqfs_xattr_value (m := O) fs x buf) (fun p =>
    xattr_same x (fst p) /\ (x.(x_ool) = false -> (fst p).(x_cursors) = 7)).
Proof.
  intros Ha. unfold sqfs_xattr_value.
  eapply (ends_bind _ _ (fun x' => xattr_same x x' /\ x'.(x_ool) = x.(x_ool) /\
            (x'.(x_cursors) = 3 \/ x'.(x_cursors) = 7))).
  - assert (forall b, b = false \/ x.(x_cursors) = 0 \/ x.(x_cursors) = 1 ->
      (b = false -> x.(x_cursors) = 3 \/ x.(x_cursors) = 7) ->
      ends (if b : bool then '(x, _) ← sqfs_xattr_value_size (m := O) fs x; mret x else mret x)
        (fun x' => xattr_same x x' /\ x'.(x_ool) = x.(x_ool) /\
            (x'.(x_cursors) = 3 \/ x'.(x_cursors) = 7))) as H.
    { intros [|] Hb Hb'; [|split; [by split|]; split; [done|by apply Hb']].
      eapply ends_bind; [apply ends_xattr_value_size; [done|by destruct Hb]|].
      intros [x' n] (? & ? & Hc'). cbn [fst] in *. split; [done|]. split; [done|].
      destruct (x_ool x); tauto. }
    apply H; destruct Ha as (_ & _ & _ & _ & Hc); cbn zeta in Hc;
      destruct Hc as [Hc|[[Hc _]|[[Hc _]|[Hc _]]]]; rewrite Hc; first [by intros [=]|clear; cbn; intuition].
  - intros x1 ([Ha1 Hr1] & Ho1 & Hc1). unfold xattr_same. rewrite <- Hr1, <- Ho1. clear Ha.
    pose proof Ha1 as (Hr & Hn & He & Ht & Hcase).
    assert (0 <= cur_offset (x_c_val x1) <= 2 ^ 16 /\ 0 <= xv_vsize (x_val x1) < 2 ^ 32 /\
            0 <= cur_offset (x_c_vsize x1) <= 2 ^ 18) as (Hcv & Hvs & Hcs) by (cbn zeta in Hcase; lia).
    eapply ends_bind; [apply ends_md_read; [done|unfold in_size; lia..]|]. intros [c bs] [Hc _].
    cbn [fst snd] in *. destruct (x_ool x1) eqn:Ho.
    + split; [|done]. by split.
    + unfold xattr_same, xattr_at. cbn.
      assert ((x_cursors x1 ||| CURS_NEXT) = 7) as -> by (destruct Hc1 as [->| ->]; done).
      repeat split; lia.
Qed.

Lemma ends_xattr_read x :
  xattr_ready x -> x.(x_remain) <> 0 ->
  ends (sqfs_xattr_read (m := O) fs x) (fun x' =>
    xattr_at x' /\ x'.(x_cursors) = 0 /\ x'.(x_remain) = x.(x_remain) - 1).
Proof.
  intros Hx Hne. unfold sqfs_xattr_read. rewrite (proj2 (Z.eqb_neq _ 0)) by done.
  eapply (ends_bind _ _ (fun x' => 0 <= x'.(x_c_next).(cur_offset) <= 2 ^ 40 /\
            x'.(x_remain) = x.(x_remain))).
  - unfold need_next. destruct Hx as [Ha|[Hr [Hz|[Hc Hn]]]]; [|done|].
    2: { rewrite Hc. by change ((CURS_NEXT &&& CURS_NEXT) =? 0) with false. }
    assert (x.(x_cursors) = 7 \/ ((x.(x_cursors) &&& CURS_NEXT) =? 0) = true) as [Hc|Hc].
    { destruct Ha as (_ & _ & _ & _ & Hc). cbn zeta in Hc.
      destruct Hc as [Hc|[[Hc _]|[[Hc _]|[Hc _]]]]; rewrite Hc; cbn; tauto. }
    + rewrite Hc. change ((7 &&& CURS_NEXT) =? 0) with false.
      destruct Ha as (Hr & _ & _ & _ & H). cbn zeta in H. cbn. lia.
    + rewrite Hc. eapply ends_bind; [apply (ends_xattr_value (force_inline x)); exact Ha|].
      intros [x' bs] [[Ha' Hr'] Hc']. specialize (Hc' eq_refl). cbn [fst] in *.
      destruct Ha' as (_ & _ & _ & _ & H). cbn zeta in H. cbn. cbn in Hr'. lia.
  - intros x1 [Hn1 Hr1]. eapply ends_bind; [apply ends_md_struct; [done|done|unfold in_size; lia]|].
    intros [c e] [Hc He]. cbv zeta. cbn [fst snd] in *.
    assert (0 <= (xe_type e &&& SQUASHFS_XATTR_PREFIX_MASK)).
    { apply Z.land_nonneg. right. unfold SQUASHFS_XATTR_PREFIX_MASK. lia. }
    destruct (Z.ltb_spec SQFS_XATTR_PREFIX_MAX (xe_type e &&& SQUASHFS_XATTR_PREFIX_MASK)); [done|].
    unfold fits, fields_fit in He. cbn in He. rewrite ?Forall2_cons in He.
    unfold xattr_at. cbn. rewrite Hr1. destruct Hx as [(Hr & _)|[Hr _]]; repeat split; lia || tauto.
Qed.

Lemma ends_xattr_find_loop f x type name :
  xattr_ready x -> lasts f x.(x_remain) ->
  ends (xattr_find_loop (m := O) f fs x type name)
    (fun p => snd p = true -> xattr_at (fst p) /\ (fst p).(x_cursors) = 1).
Proof.
  revert x. induction f as [|f IH]; intros x Hx Hf; cbn [xattr_find_loop];
    (destruct (Z.eqb_spec (x_remain x) 0) as [|Hne]; [done|]);
    assert (0 <= x_remain x) by (destruct Hx as [(? & _)|[? _]]; lia);
    (destruct Hf as [?|Hf]; [lia|]); [done|].
  eapply ends_bind; [by apply ends_xattr_read|]. cbn beta. intros x1 (Ha & Hc & Hr).
  assert (lasts (f tt) (x_remain x1)) as Hf1 by by rewrite Hr.
  destruct (_ || _); [by apply IH; [left|]|].
  eapply ends_bind; [by apply ends_xattr_name|]. intros [x2 cmp] [[Ha2 Hr2] Hc2]. cbn [fst snd] in *.
  destruct (strncmp_eq _ _ _); [done|]. apply IH; [by left|by rewrite Hr2].
Qed.

Lemma ends_xattr_lookup inode x name buf :
  ends (sqfs_xattr_lookup (m := O) fs inode x name buf) (fun _ => True).
Proof.
  unfold sqfs_xattr_lookup. apply (ends_bind _ _ _ _ (ends_xattr_open inode x)). intros x1 Hx1.
  apply (ends_bind _ _ (fun p => snd p = true -> xattr_at (fst p) /\ (fst p).(x_cursors) = 1)).
  - unfold sqfs_xattr_find. destruct (sqfs_xattr_find_prefix name) as [t|] eqn:Et; [|done].
    destruct (find_prefix_split name t Et) as (p & -> & _). cbv zeta.
    apply (ends_bind _ _ (fun _ => True)); [done|]. intros q _.
    apply (ends_bind _ _ (fun _ => True)); [done|]. intros _ _.
    apply ends_xattr_find_loop; [done|]. apply full_tank_lasts.
    destruct Hx1 as [(? & _)|[? _]]; lia.
  - intros [x2 [|]] H; [|done]. cbn [negb]. destruct (H eq_refl) as [Ha Hc]. cbn [fst] in *.
    eapply ends_bind; [apply ends_xattr_value_size; [done|by right]|].
    intros [x3 n] [[Ha3 _] _]. cbn [fst] in *. destruct buf as [size|]; [|done].
    destruct (n <=? size); [|done]. eapply ends_bind; [by apply ends_xattr_value|]. by intros [? ?].
Qed.
End operations.

(** ** Answering *)
Section serving.
Context (fs : sqfs) (Hfs : fs_ok fs) {CI : CacheImpl} {CL : CacheLaws CI}.
#[local] Abbreviation X := any_expectations.

(** [m] gives an answer in [P] and leaves the state in order, or the process ends; it
    never goes on for ever. *)
Definition serves {A} (m : M A) (P : A -> Prop) : Prop :=
  forall s, inv fs X s [] None ->
  match m s with
  | Ret (s', Success a) => inv fs X s' [] None /\ P a
  | Ret (_, Failure _) => False
  | Crash c => c <> OutOfFuel
  end.

Lemma serves_ret {A} (a : A) (P : A -> Prop) : P a -> serves (mret a) P.
Proof. intros Ha s Hs. by split. Qed.

Lemma serves_bind {A B} (m : M A) (k : A -> M B) P Q :
  serves m P -> (forall a, P a -> serves (k a) Q) -> serves (a ← m; k a) Q.
Proof.
  intros Hm Hk s Hs. specialize (Hm s Hs). run_m. destruct (m s) as [[s' [a|]]|]; [|done..].
  destruct Hm as [Hs' Ha]. exact (Hk a Ha s' Hs').
Qed.

Lemma serves_weaken {A} (m : M A) (P Q : A -> Prop) :
  serves m P -> (forall a, P a -> Q a) -> serves m Q.
Proof.
  intros Hm H s Hs. specialize (Hm s Hs). destruct (m s) as [[s' [a|]]|]; [|done..].
  destruct Hm. split; [done|by apply H].
Qed.

Lemma serves_lift {A} (o : outcome A) (P : A -> Prop) :
  match o with Ret a => P a | Crash c => c <> OutOfFuel end -> serves (lift o) P.
Proof. intros Ho s Hs. by destruct o. Qed.

Lemma serves_malloc : serves malloc_ok (fun _ => True).
Proof. intros s Hs. rewrite malloc_ok_run. split; [by apply inv_set_mem|done]. Qed.

(** The client looks at the code of an operation. *)
Definition on_success {A} (P : A -> Prop) (r : result A) : Prop :=
  match r with Success a => P a | Failure _ => True end.

Lemma serves_try b {A} (m : M A) (P : A -> Prop) : safe fs b m P -> serves (try m) (on_success P).
Proof.
  intros Hm s Hs. pose proof (safe_run fs b m P s Hm Hs) as H. unfold try.
  by destruct (m s) as [[s' [a|e]]|c].
Qed.

Lemma serves_sim b {A} (m : M A) o (P : A -> Prop) :
  sim fs X b m o -> ends o P -> serves (try m) (on_success P).
Proof. intros Hm Ho. by eapply serves_try, safe_ends. Qed.

Lemma serves_read inode start size :
  0 <= fs.(sb).(sb_block_size) < 2 ^ 32 -> inode_sound inode ->
  serves (try (sqfs_read_range fs inode start size)) (on_success (fun bs => len bs <= size)).
Proof.
  intros Hb [[Hn Hr] _]. eapply serves_try, safe_read_range; try done; [unfold in_size; lia|].
  intros x Hx. unfold get_reg in Hx. destruct (xtra inode); try done; by injection Hx as <-.
Qed.

(** An operation after one that always answers. *)
Lemma serves_try_bind {A B} (m : M A) (k : A -> M B) P Q :
  serves m P -> (forall a, P a -> serves (try (k a)) Q) -> serves (try (a ← m; k a)) Q.
Proof.
  intros Hm Hk s Hs. specialize (Hm s Hs). unfold try. run_m.
  destruct (m s) as [[s' [a|]]|]; [|done..]. destruct Hm as [Hs' Ha].
  specialize (Hk a Ha s' Hs'). unfold try in Hk. by destruct (k a s') as [[? ?]|].
Qed.

(** What the operations of an inode answer. *)
Lemma serves_stat makedev inode : serves (try (sqfs_stat makedev fs inode)) (fun _ => True).
Proof.
  eapply serves_weaken; [eapply serves_sim; [apply (sim_stat makedev fs X false)|by apply ends_stat]|done].
Qed.

Lemma serves_dir_lookup inode name n :
  inode_sound inode -> serves (try (sqfs_dir_lookup fs inode name n)) (fun _ => True).
Proof.
  intros Hi. eapply serves_weaken;
    [eapply serves_sim; [apply (sim_dir_lookup fs X false)|by apply ends_dir_lookup]|done].
Qed.

Lemma serves_inode_get id : serves (try (sqfs_inode_get fs id)) (fun _ => True).
Proof.
  eapply serves_weaken; [eapply serves_sim; [apply (sim_inode_get fs X false)|by apply ends_inode_get]|done].
Qed.

Lemma serves_readlink inode buf :
  inode_sound inode -> (forall size, buf = Some size -> 0 <= size < 2 ^ 64) ->
  serves (try (sqfs_readlink fs inode buf)) (on_success (fun p => 0 <= fst p < 2 ^ 64)).
Proof.
  intros Hi Hb. eapply serves_sim; [apply (sim_readlink fs X false)|by apply ends_readlink].
Qed.

Lemma serves_lookup_path inode path :
  inode_sound inode ->
  serves (try (sqfs_lookup_path fs inode path)) (on_success (fun p => inode_sound (snd p))).
Proof.
  intros Hi. apply (serves_sim false _ (sqfs_lookup_path fs inode path)); [|by apply ends_lookup_path].
  unfold sqfs_lookup_path. apply sim_bind; [apply sim_lookup_path|]. intros [[? ?] ?]. apply sim_ret.
Qed.

Context (Heach : fs.(xattr_table).(tbl_each) = 16 \/ fs.(xattr_info).(xt_xattr_ids) = 0).

Lemma serves_listxattr_loop f x buf count out :
  xattr_ready x -> lasts f x.(x_remain) ->
  serves (listxattr_loop f fs x buf count out) (fun _ => True).
Proof.
  revert x count out. induction f as [|f IH]; intros x count out Hx Hf; cbn [listxattr_loop];
    (destruct (Z.eqb_spec (x_remain x) 0) as [|Hne]; [by apply serves_ret|]);
    assert (0 <= x_remain x) by (destruct Hx as [(? & _)|[? _]]; lia);
    (destruct Hf as [?|Hf]; [lia|]); [done|].
  eapply serves_bind; [eapply serves_sim; [apply (sim_xattr_read fs X false)|by apply ends_xattr_read]|].
  intros [x1|e] H1; [|by apply serves_ret]. destruct H1 as (Ha & Hc & Hr).
  apply (serves_bind _ _ (fun _ => True)).
  { apply serves_lift. unfold sqfs_xattr_name_size, xattr_prefix. by destruct (zlookup _ _). }
  intros n _. cbv zeta. destruct buf as [size|]; [|by apply IH; [left|rewrite Hr]].
  destruct (_ <? _); [by apply serves_ret|].
  eapply serves_bind; [eapply serves_sim; [apply (sim_xattr_name fs X false)|by apply ends_xattr_name]|].
  intros [[x2 nm]|e] H2; [|by apply serves_ret]. destruct H2 as [[Ha2 Hr2] Hc2]. cbn [fst] in *.
  apply IH; [by left|by rewrite Hr2, Hr].
Qed.

Lemma serves_listxattr inode x buf : serves (sqfs_listxattr fs inode x buf) (fun _ => True).
Proof.
  unfold sqfs_listxattr.
  eapply serves_bind; [eapply serves_sim; [apply (sim_xattr_open fs X false)|by apply ends_xattr_open]|].
  intros [x1|e] H1; [|by apply serves_ret]. apply serves_listxattr_loop; [done|].
  apply full_tank_lasts. destruct H1 as [(? & _)|[? _]]; lia.
Qed.
End serving.
