(* ===== verification/Init.v ===== *)
(** * Init: opening and closing an archive (fs.c)

    [sqfs_init_with_subdir] reads the superblock, checks it, loads the tables and
    makes the caches; it looks at the errors of the second part only at the end.
    [sqfs_destroy] undoes it. *)
From S2P Require Import Prelude Swap Cache CacheST Decompress FsState Block BlockOk Sample MdRead Table Inode Dir Ends SampleTree File FileOk Xattr Serve.

Definition SQUASHFS_MAJOR : Z := 4.
Definition SQUASHFS_MINOR : Z := 0.

(** (min_major, min_minor, max_major, max_minor) *)
Definition sqfs_version_supported : Z * Z * Z * Z :=
  (SQUASHFS_MAJOR, 0, SQUASHFS_MAJOR, SQUASHFS_MINOR).
Definition sqfs_version (fs : sqfs) : Z * Z := (fs.(sb).(sb_s_major), fs.(sb).(sb_s_minor)).
Definition sqfs_compression (fs : sqfs) : Z := fs.(sb).(sb_compression).

(** [err |= e]: the codes are only compared with [SQFS_OK] afterwards. *)
Definition err_or (err e : sqfs_err) : sqfs_err :=
  match err with SQFS_OK => e | _ => err end.

(** The zeroed structure. *)
Definition sb_zero : squashfs_super_block :=
  Build_squashfs_super_block 0 0 0 0 0 0 0 0 0 0 0 0 0 0 0 0 0 0 0.

Definition with_version (s : squashfs_super_block) (major minor : Z) : squashfs_super_block :=
  Build_squashfs_super_block s.(sb_s_magic) s.(sb_inodes) s.(sb_mkfs_time) s.(sb_block_size)
    s.(sb_fragments) s.(sb_compression) s.(sb_block_log) s.(sb_flags) s.(sb_no_ids) major minor
    s.(sb_root_inode) s.(sb_bytes_used) s.(sb_id_table_start) s.(sb_xattr_id_table_start)
    s.(sb_inode_table_start) s.(sb_directory_table_start) s.(sb_fragment_table_start)
    s.(sb_lookup_table_start).
Definition with_root (s : squashfs_super_block) (root : Z) : squashfs_super_block :=
  Build_squashfs_super_block s.(sb_s_magic) s.(sb_inodes) s.(sb_mkfs_time) s.(sb_block_size)
    s.(sb_fragments) s.(sb_compression) s.(sb_block_log) s.(sb_flags) s.(sb_no_ids)
    s.(sb_s_major) s.(sb_s_minor) root s.(sb_bytes_used) s.(sb_id_table_start)
    s.(sb_xattr_id_table_start) s.(sb_inode_table_start) s.(sb_directory_table_start)
    s.(sb_fragment_table_start) s.(sb_lookup_table_start).

Section init.
Context {CI : CacheImpl}.

(** The superblock as read, in the byte order of the machine. *)
Definition read_sb (fd : list byte) (offset : Z) : option squashfs_super_block :=
  bs ← pread_exact fd 96 (s64 offset); swapin_struct bs.

(** An archive of the other byte order has its version swapped. *)
Definition swap_version (sb : squashfs_super_block) : squashfs_super_block :=
  if sb.(sb_s_magic) =? SQFS_MAGIC_SWAP
  then with_version sb (sqfs_swap16 sb.(sb_s_major)) (sqfs_swap16 sb.(sb_s_minor))
  else sb.

(** The superblock, with the checks that come before any allocation. *)
Definition read_super_block (fd : list byte) (offset : Z) : result squashfs_super_block :=
  match read_sb fd offset with
  | None => Failure SQFS_BADFORMAT
  | Some sb =>
      if negb (sb.(sb_s_magic) =? SQUASHFS_MAGIC) && negb (sb.(sb_s_magic) =? SQFS_MAGIC_SWAP)
      then Failure SQFS_BADFORMAT
      else
        let sb := swap_version sb in
        if negb (sb.(sb_s_major) =? SQUASHFS_MAJOR) || (SQUASHFS_MINOR <? sb.(sb_s_minor))
        then Failure SQFS_BADVERSION
        else Success sb
  end.

(** What [fs->sb] holds when it was refused; bytes of a short read are not looked at. *)
Definition refused_sb (fd : list byte) (offset : Z) : squashfs_super_block :=
  match read_sb fd offset with Some sb => swap_version sb | None => sb_zero end.

(** The tables, in order. *)
Definition init_tables (fd : list byte) (offset : Z) (sb : squashfs_super_block)
    (decomp : option sqfs_decompressor) (ms : mallocs) : sqfs_err * sqfs * mallocs :=
  let no_xattr := Build_squashfs_xattr_id_table 0 0 0 in
  let '(err, ids, ms) :=
    sqfs_table_init table_zero fd (s64 (sb.(sb_id_table_start) + offset)) 4 sb.(sb_no_ids) ms in
  let '(e, frags, ms) :=
    sqfs_table_init table_zero fd (s64 (sb.(sb_fragment_table_start) + offset)) 16
      sb.(sb_fragments) ms in
  let err := err_or err e in
  let fs := mk_sqfs fd offset 0 0 sb ids frags table_zero decomp no_xattr table_zero in
  let '(e, export, ms) :=
    if sqfs_export_ok fs then
      sqfs_table_init table_zero fd (s64 (sb.(sb_lookup_table_start) + offset)) 8 sb.(sb_inodes) ms
    else (SQFS_OK, table_zero, ms) in
  let err := err_or err e in
  let '(e, (info, xattrs), ms) := sqfs_xattr_init fs ms in
  (err_or err e, mk_sqfs fd offset 0 0 sb ids frags export decomp info xattrs, ms).

(** A cache that could not be made stays NULL. *)
Definition cache_or_null {V} (r : result (cache V)) : sqfs_err * cache V :=
  match r with Success c => (SQFS_OK, c) | Failure e => (e, cache_null) end.

Definition init_caches (ms : mallocs) : sqfs_err * sqfs_state :=
  let (r, ms) := sqfs_block_cache_init SQUASHFS_CACHED_BLKS ms in
  let (err, md) := cache_or_null r in
  let (r, ms) := sqfs_block_cache_init DATA_CACHED_BLKS ms in
  let (e, data) := cache_or_null r in
  let err := err_or err e in
  let (r, ms) := sqfs_block_cache_init FRAG_CACHED_BLKS ms in
  let (e, frag) := cache_or_null r in
  let err := err_or err e in
  let (r, ms) := sqfs_blockidx_init ms in
  let (e, index) := cache_or_null r in
  (err_or err e, mk_state md data frag index ∅ ms).

(** The caches become NULL; the blocks that only they held are freed. *)
Definition sqfs_destroy (fs : sqfs) (s : sqfs_state) : outcome (sqfs * sqfs_state) :=
  h ← cache_destroy sqfs_block_cache_dispose s.(md_cache) s.(blocks);
  h ← cache_destroy sqfs_block_cache_dispose s.(data_cache) h;
  h ← cache_destroy sqfs_block_cache_dispose s.(frag_cache) h;
  _ ← cache_destroy (fun _ (u : unit) => Ret u) s.(blockidx) tt;
  Ret (mk_sqfs fs.(fd) fs.(fs_offset) fs.(fs_uid) fs.(fs_gid) fs.(sb)
         (sqfs_table_destroy fs.(id_table)) (sqfs_table_destroy fs.(frag_table))
         (if sqfs_export_ok fs then sqfs_table_destroy fs.(export_table) else fs.(export_table))
         fs.(decompressor) fs.(xattr_info) fs.(xattr_table),
       mk_state cache_null cache_null cache_null cache_null h s.(mem)).

(** What [sqfs_init] leaves: the code, with the structure and the state. *)
Definition init_result : Type := sqfs_err * sqfs * sqfs_state.

Definition destroy_fail (fs : sqfs) (s : sqfs_state) : outcome init_result :=
  '(fs, s) ← sqfs_destroy fs s;
  Ret (SQFS_ERR, fs, s).

(** The new root: [None] when the path leads nowhere.  [new_root] is the
    uninitialised variable.  When [sqfs_inode_get] fails, the code walks from the
    root it has filled in part: a directory without entries or no directory, so the
    walk finds nothing; with a path of slashes only it is found, and the error code
    is still there.  In all cases the archive is closed. *)
Definition find_subdir (fs : sqfs) (subdir : list byte) (new_root : Z) : M (option Z) :=
  root ← sqfs_inode_get fs (sqfs_inode_root fs);
  '(found, _, id) ← sqfs_lookup_path_with_id fs root subdir;
  mret (if (found : bool) then Some (match id with Some id => id | None => new_root end) else None).

Definition with_root_inode (fs : sqfs) (root : Z) : sqfs :=
  mk_sqfs fs.(fd) fs.(fs_offset) fs.(fs_uid) fs.(fs_gid) (with_root fs.(sb) root) fs.(id_table)
    fs.(frag_table) fs.(export_table) fs.(decompressor) fs.(xattr_info) fs.(xattr_table).

(** [subdir] is the string, empty for NULL too. *)
Definition sqfs_init_with_subdir (libs : codec_libs) (fd : list byte) (offset : Z)
    (subdir : list byte) (new_root : Z) (ms : mallocs) : outcome init_result :=
  let zero sb := mk_sqfs fd offset 0 0 sb table_zero table_zero table_zero None
                   (Build_squashfs_xattr_id_table 0 0 0) table_zero in
  let null := mk_state cache_null cache_null cache_null cache_null ∅ ms in
  match read_super_block fd offset with
  | Failure e => Ret (e, zero (refused_sb fd offset), null)
  | Success sb =>
      match sqfs_decompressor_get libs sb.(sb_compression) with
      | None => Ret (SQFS_BADCOMP, zero sb, null)
      | Some decomp =>
          let '(err, fs, ms) := init_tables fd offset sb (Some decomp) ms in
          let (e, s) := init_caches ms in
          let err := err_or err e in
          match subdir with
          | [] =>
              match err with
              | SQFS_OK => Ret (SQFS_OK, fs, s)
              | _ => destroy_fail fs s
              end
          | _ =>
              '(s, r) ← find_subdir fs subdir new_root s;
              match r, err with
              | Success (Some root), SQFS_OK => Ret (SQFS_OK, with_root_inode fs root, s)
              | Success (Some root), _ => destroy_fail (with_root_inode fs root) s
              | _, _ => destroy_fail fs s
              end
          end
      end
  end.

Definition sqfs_init (libs : codec_libs) (fd : list byte) (offset : Z) (ms : mallocs)
    : outcome init_result :=
  sqfs_init_with_subdir libs fd offset [] 0 ms.
End init.

(** ** Closing *)
Section closing.
Context {CI : CacheImpl} {CL : CacheLaws CI}.

Definition entry_refs (l : list (Z * sqfs_block_cache_entry)) : list positive :=
  omap (fun p : Z * sqfs_block_cache_entry => (p.2).(bce_block)) l.

(** Disposing of the entries gives back exactly their references. *)
Lemma dispose_all_ok l h o :
  heap_ok h (entry_refs l ++ o) -> (forall p, p ∈ l -> is_Some (p.2).(bce_block)) ->
  exists h', dispose_all sqfs_block_cache_dispose l h = Ret h' /\ heap_ok h' o.
Proof.
  revert h. induction l as [|[k e] l IH]; intros h Hok Hs; [by exists h|].
  destruct (Hs (k, e) ltac:(by left)) as [b Hb]. cbn [snd] in Hb.
  unfold entry_refs in Hok. cbn [omap list_omap snd] in Hok. rewrite Hb in Hok.
  change (heap_ok h (b :: (entry_refs l ++ o))) in Hok.
  destruct (block_dispose_ok h _ b Hok) as (h1 & E1 & Hok1 & _).
  assert (sqfs_block_cache_dispose e h = Ret h1) as E by (unfold sqfs_block_cache_dispose; by rewrite Hb).
  cbn [dispose_all]. rewrite E. cbn [mbind outcome_bind].
  apply IH; [done|]. intros p Hp. apply Hs. by right.
Qed.

Lemma dispose_all_unit {V} (l : list (Z * V)) u :
  dispose_all (fun _ (u : unit) => Ret u) l u = Ret u.
Proof. induction l as [|[k v] l IH]; [done|]. apply IH. Qed.

Lemma heap_ok_nil h : heap_ok h [] -> h = ∅.
Proof.
  intros H. apply map_empty. intros l. specialize (H l). destruct (h !! l); [|done].
  destruct H as [H _]. unfold occ in H. cbn in H. lia.
Qed.

Lemma destroy_cache_ok c h o :
  cache_quiet c -> heap_ok h (entry_refs (cache_entries c) ++ o) ->
  (forall p, p ∈ cache_entries c -> is_Some (p.2).(bce_block)) ->
  exists h', cache_destroy sqfs_block_cache_dispose c h = Ret h' /\ heap_ok h' o.
Proof. intros Hq Hok Hs. rewrite law_destroy by done. by apply dispose_all_ok. Qed.

Lemma inv_entries_blocks fs X s held bst w p :
  inv fs X s held bst -> p ∈ cache_entries (get_cache w s) -> is_Some (p.2).(bce_block).
Proof.
  intros Hi Hp. destruct (core_content _ _ _ _ (inv_core _ _ _ _ _ Hi) w p Hp) as (l & d & Hl & _).
  rewrite Hl. by eexists.
Qed.

Lemma sqfs_destroy_ok (fs : sqfs) (X : expectations) (s : sqfs_state) :
  inv fs X s [] None ->
  exists fs' s', sqfs_destroy fs s = Ret (fs', s') /\
    s'.(blocks) = ∅ /\ s'.(blockidx) = cache_null /\ (forall w, get_cache w s' = cache_null) /\
    fs'.(id_table).(tbl_blocks) = None /\ fs'.(frag_table).(tbl_blocks) = None /\
    (sqfs_export_ok fs = true -> fs'.(export_table).(tbl_blocks) = None) /\
    fs'.(xattr_table) = fs.(xattr_table).
Proof.
  intros Hi. pose proof (core_heap _ _ _ _ (inv_core _ _ _ _ _ Hi)) as Hh.
  unfold refs in Hh. rewrite app_nil_r in Hh.
  destruct (destroy_cache_ok s.(md_cache) s.(blocks) (cache_refs s.(data_cache) ++ cache_refs s.(frag_cache)))
    as (h1 & E1 & Hh1); [apply (inv_quiet _ _ _ _ _ Hi MdCache)|done|
    intros p; apply (inv_entries_blocks _ _ _ _ _ MdCache p Hi)|].
  destruct (destroy_cache_ok s.(data_cache) h1 (cache_refs s.(frag_cache))) as (h2 & E2 & Hh2);
    [apply (inv_quiet _ _ _ _ _ Hi DataCache)|done|
     intros p; apply (inv_entries_blocks _ _ _ _ _ DataCache p Hi)|].
  destruct (destroy_cache_ok s.(frag_cache) h2 []) as (h3 & E3 & Hh3);
    [apply (inv_quiet _ _ _ _ _ Hi FragCache)|by rewrite app_nil_r|
     intros p; apply (inv_entries_blocks _ _ _ _ _ FragCache p Hi)|].
  unfold sqfs_destroy. rewrite E1. cbn [mbind outcome_bind]. rewrite E2. cbn [mbind outcome_bind].
  rewrite E3. cbn [mbind outcome_bind].
  rewrite law_destroy, dispose_all_unit by apply (inv_blockidx _ _ _ _ _ Hi).
  eexists _, _. split; [done|]. split; [by apply heap_ok_nil|]. split; [done|].
  split; [by intros []|]. split; [done|]. split; [done|]. split; [|done].
  intros Hx. cbn. by rewrite Hx.
Qed.

(** C37: closing an archive that nobody uses frees every block and every cache, and
    the tables of ids, fragments and exports; no block is released twice.  The table
    of extended attributes is not freed. *)
Theorem sqfs_destroy_frees (fs : sqfs) (X : expectations) (s : sqfs_state) :
  inv fs X s [] None ->
  exists fs' s', sqfs_destroy fs s = Ret (fs', s') /\
    s'.(blocks) = ∅ /\ s'.(blockidx) = cache_null /\ (forall w, get_cache w s' = cache_null) /\
    fs'.(id_table).(tbl_blocks) = None /\ fs'.(frag_table).(tbl_blocks) = None /\
    (sqfs_export_ok fs = true -> fs'.(export_table).(tbl_blocks) = None) /\
    fs'.(xattr_table) = fs.(xattr_table).
Proof. apply sqfs_destroy_ok. Qed.

(** ** Opening *)

(** A cache after its initialisation: NULL, or empty. *)
Definition cache_new {V} (c : cache V) : Prop :=
  c = cache_null \/ (cache_quiet c /\ cache_entries c = []).

Lemma cache_or_null_new {V} (zero : V) n ms r ms' e c :
  0 < n -> cache_init zero n ms = (r, ms') -> cache_or_null r = (e, c) ->
  cache_new c /\ (e = SQFS_OK -> cache_quiet c /\ cache_entries c = []) /\ (ms = [] -> e = SQFS_OK).
Proof.
  intros Hn E. destruct r as [c'|e']; cbn; intros [= <- <-].
  - apply law_init in E; [|done]. split; [by right|]. split; [done|done].
  - apply law_init_fail in E as [-> ?]. split; [by left|]. done.
Qed.

Lemma destroy_new c h :
  cache_new c -> cache_destroy sqfs_block_cache_dispose c h = Ret h.
Proof.
  intros [->|[Hq He]]; [by apply law_null|]. by rewrite law_destroy, He.
Qed.

Lemma err_or_ok err e : err_or err e = SQFS_OK <-> err = SQFS_OK /\ e = SQFS_OK.
Proof. destruct err; cbn; intuition congruence. Qed.

Definition state_new (s : sqfs_state) : Prop :=
  (forall w, cache_new (get_cache w s)) /\ cache_new s.(blockidx) /\ s.(blocks) = ∅.

Lemma init_caches_spec ms err s :
  init_caches ms = (err, s) -> state_new s /\ (err = SQFS_OK -> fresh_state s).
Proof.
  unfold init_caches, sqfs_block_cache_init, sqfs_blockidx_init.
  destruct law_counts as (H1 & H2 & H3).
  destruct (cache_init _ SQUASHFS_CACHED_BLKS _) as [r1 ms1] eqn:E1.
  destruct (cache_or_null r1) as [e1 c1] eqn:F1.
  destruct (cache_init _ DATA_CACHED_BLKS _) as [r2 ms2] eqn:E2.
  destruct (cache_or_null r2) as [e2 c2] eqn:F2.
  destruct (cache_init _ FRAG_CACHED_BLKS _) as [r3 ms3] eqn:E3.
  destruct (cache_or_null r3) as [e3 c3] eqn:F3.
  destruct (cache_init [] SQUASHFS_META_SLOTS _) as [r4 ms4] eqn:E4.
  destruct (cache_or_null r4) as [e4 c4] eqn:F4.
  destruct (cache_or_null_new _ _ _ _ _ _ _ H1 E1 F1) as (N1 & K1 & _).
  destruct (cache_or_null_new _ _ _ _ _ _ _ H2 E2 F2) as (N2 & K2 & _).
  destruct (cache_or_null_new _ _ _ _ _ _ _ H3 E3 F3) as (N3 & K3 & _).
  assert (0 < SQUASHFS_META_SLOTS) as H4 by done.
  destruct (cache_or_null_new _ _ _ _ _ _ _ H4 E4 F4) as (N4 & K4 & _).
  intros [= <- <-]. split; [split; [by intros []|done]|].
  rewrite !err_or_ok. intros (((?%K1 & ?%K2) & ?%K3) & [? ?]%K4).
  split; [by intros []|done].
Qed.

Lemma destroy_new_state fs s :
  state_new s -> exists fs' s', sqfs_destroy fs s = Ret (fs', s') /\ s'.(blocks) = ∅ /\
    s'.(blockidx) = cache_null /\ forall w, get_cache w s' = cache_null.
Proof.
  intros (Hc & Hb & Hh). unfold sqfs_destroy.
  rewrite (destroy_new _ _ (Hc MdCache)). cbn [mbind outcome_bind].
  rewrite (destroy_new _ _ (Hc DataCache)). cbn [mbind outcome_bind].
  rewrite (destroy_new _ _ (Hc FragCache)). cbn [mbind outcome_bind].
  assert (cache_destroy (fun _ (u : unit) => Ret u) s.(blockidx) tt = Ret tt) as ->.
  { destruct Hb as [->|[Hq He]]; [by apply law_null|]. by rewrite law_destroy, He. }
  eexists _, _. split; [done|]. split; [done|]. split; [done|]. by intros [].
Qed.

Lemma init_tables_fs fd offset sb d ms :
  let '(_, fs, _) := init_tables fd offset sb d ms in
  fs.(FsState.fd) = fd /\ fs.(fs_offset) = offset /\ fs.(FsState.sb) = sb /\ fs.(decompressor) = d.
Proof.
  unfold init_tables.
  destruct (sqfs_table_init _ _ _ _ _ _) as [[e1 t1] ms1].
  destruct (sqfs_table_init _ _ _ _ _ _) as [[e2 t2] ms2].
  destruct (if sqfs_export_ok _ then _ else _) as [[e3 t3] ms3].
  by destruct (sqfs_xattr_init _ _) as [[e4 [i4 t4]] ms4].
Qed.

(** With no allocation failure the allocator's answers stay the same. *)
Lemma table_init_nil t fd start each count :
  snd (sqfs_table_init t fd start each count []) = [].
Proof.
  unfold sqfs_table_init. destruct (count =? 0); [done|]. cbn.
  by destruct (pread_exact _ _ _).
Qed.

Lemma xattr_init_nil fs : snd (sqfs_xattr_init fs []) = [].
Proof.
  unfold sqfs_xattr_init. destruct (_ =? SQUASHFS_INVALID_BLK); [done|].
  destruct (pread_exact _ _ _); [|done]. destruct (swapin_struct _) as [info|]; [|done].
  pose proof (table_init_nil (xattr_table fs) (fd fs)
    (s64 (s64 (sb_xattr_id_table_start (sb fs)) + 16 + fs_offset fs)) 16 (xt_xattr_ids info)) as H.
  by destruct (sqfs_table_init _ _ _ _ _ _) as [[e t] ms].
Qed.

Lemma init_tables_nil fd offset sb d :
  snd (init_tables fd offset sb d []) = [].
Proof.
  unfold init_tables.
  pose proof (table_init_nil table_zero fd (s64 (sb_id_table_start sb + offset)) 4 (sb_no_ids sb)) as H1.
  destruct (sqfs_table_init _ _ _ _ _ _) as [[e1 t1] ms1]. cbn in H1. subst ms1.
  pose proof (table_init_nil table_zero fd (s64 (sb_fragment_table_start sb + offset)) 16 (sb_fragments sb)) as H2.
  destruct (sqfs_table_init _ _ _ _ _ _) as [[e2 t2] ms2]. cbn in H2. subst ms2.
  destruct (if sqfs_export_ok _ then _ else _) as [[e3 t3] ms3] eqn:E3.
  assert (ms3 = []) as ->.
  { destruct (sqfs_export_ok _); [|congruence].
    pose proof (table_init_nil table_zero fd (s64 (sb_lookup_table_start sb + offset)) 8 (sb_inodes sb)) as H3.
    by rewrite E3 in H3. }
  match goal with |- context [sqfs_xattr_init ?fs []] => pose proof (xattr_init_nil fs) as H4 end.
  by destruct (sqfs_xattr_init _ []) as [[e4 [i4 t4]] ms4].
Qed.

Lemma init_caches_nil : exists s, init_caches [] = (SQFS_OK, s) /\ s.(mem) = [].
Proof.
  unfold init_caches, sqfs_block_cache_init, sqfs_blockidx_init.
  destruct (law_init_nil (mk_bce None 0) SQUASHFS_CACHED_BLKS) as [c1 ->]. cbn.
  destruct (law_init_nil (mk_bce None 0) DATA_CACHED_BLKS) as [c2 ->]. cbn.
  destruct (law_init_nil (mk_bce None 0) FRAG_CACHED_BLKS) as [c3 ->]. cbn.
  destruct (law_init_nil (@nil sqfs_blockidx_entry) SQUASHFS_META_SLOTS) as [c4 ->]. cbn. by eexists.
Qed.

(** The version found is the supported one. *)
Lemma read_super_block_version fd offset sb :
  read_super_block fd offset = Success sb ->
  sb.(sb_s_major) = SQUASHFS_MAJOR /\ sb.(sb_s_minor) <= SQUASHFS_MINOR /\
  (sb.(sb_s_magic) = SQUASHFS_MAGIC \/ sb.(sb_s_magic) = SQFS_MAGIC_SWAP).
Proof.
  unfold read_super_block. destruct (read_sb _ _) as [sb0|]; [|done]. unfold swap_version.
  destruct (Z.eqb_spec (sb_s_magic sb0) SQUASHFS_MAGIC) as [Hm|Hm],
    (Z.eqb_spec (sb_s_magic sb0) SQFS_MAGIC_SWAP) as [Hw|Hw]; cbn [negb andb]; try done;
    match goal with |- context [negb (?a =? _) || (_ <? ?b)] =>
      destruct (Z.eqb_spec a SQUASHFS_MAJOR), (Z.ltb_spec SQUASHFS_MINOR b) end;
    cbn [negb orb]; try done; intros [= <-]; auto.
Qed.

(** What the checks look at. *)
Lemma super_block_at (bs : list byte) :
  len bs = 96 -> exists sb, swapin_struct bs = Some sb /\ sb.(sb_s_magic) = int_at bs 0 4 /\
    sb.(sb_s_major) = int_at bs 28 2 /\ sb.(sb_s_minor) = int_at bs 30 2 /\ sb.(sb_compression) = int_at bs 20 2.
Proof.
  intros Hl. eexists. split.
  - apply (struct_reads (A := squashfs_super_block)); [exact Hl|reflexivity].
  - by repeat split.
Qed.

(** The checks of the superblock, by its bytes. *)
Lemma read_super_block_bytes fd offset :
  let start := s64 offset in
  let at_ o w := int_at fd (start + o) w in
  let swapped := at_ 0 4 =? 0x68737173 in
  let version o := if swapped then le_decode (rev (slice fd (start + o) 2)) else at_ o 2 in
  match read_super_block fd offset with
  | Failure e =>
      if (start <? 0) || (len fd <? start + 96) || negb ((at_ 0 4 =? 0x73717368) || swapped)
      then e = SQFS_BADFORMAT
      else e = SQFS_BADVERSION /\ negb (version 28 =? 4) || (0 <? version 30) = true
  | Success sb =>
      (start <? 0) || (len fd <? start + 96) || negb ((at_ 0 4 =? 0x73717368) || swapped) = false /\
      negb (version 28 =? 4) || (0 <? version 30) = false /\ sb.(sb_compression) = at_ 20 2
  end.
Proof.
  intros start at_ swapped version. unfold read_super_block, read_sb, pread_exact, sqfs_pread. fold start.
  destruct (Z.ltb_spec start 0) as [|Hs]; [done|]. cbn [orb].
  destruct (Z.ltb_spec (len fd) (start + 96)) as [Hl|Hl].
  { assert (len (slice fd start 96) <> 96) as Hne.
    { unfold slice. rewrite length_take, length_drop. lia. }
    by rewrite (proj2 (Z.eqb_neq _ _) Hne). }
  assert (len (slice fd start 96) = 96) as Hlen by (rewrite slice_length; lia).
  rewrite Hlen, Z.eqb_refl. cbn [mbind option_bind].
  destruct (super_block_at (slice fd start 96) Hlen) as (sb & -> & Hmagic & Hmajor & Hminor & Hcomp).
  assert (forall o w, 0 <= o -> 0 <= w -> o + w <= 96 -> int_at (slice fd start 96) o w = at_ o w) as Hat.
  { intros o w Ho Hw Hle. unfold at_, int_at. by rewrite slice_slice by lia. }
  rewrite Hat in Hmagic, Hmajor, Hminor, Hcomp by lia. unfold swap_version, with_version.
  rewrite Hmagic. change SQUASHFS_MAGIC with 0x73717368.
  change SQFS_MAGIC_SWAP with 0x68737173. fold swapped.
  assert (forall o, 0 <= o -> o + 2 <= 96 -> (if swapped then sqfs_swap16 (at_ o 2) else at_ o 2) = version o) as Hv.
  { intros o Ho Hle. unfold version. destruct swapped; [|done]. unfold at_, int_at.
    assert (len (slice fd (start + o) 2) = 2) as H2 by (rewrite slice_length; lia).
    destruct (slice fd (start + o) 2) as [|lo [|hi [|? ?]]]; try (cbn in H2; lia).
    exact (proj1 (sqfs_swap16_bytes lo hi)). }
  rewrite <- (negb_orb (_ =? _)). destruct ((at_ 0 4 =? _) || swapped); cbn [negb]; [|done].
  rewrite <- (Hv 28), <- (Hv 30) by lia. change SQUASHFS_MAJOR with 4. change SQUASHFS_MINOR with 0.
  destruct swapped; cbn [sb_s_major sb_s_minor sb_compression]; rewrite Hmajor, Hminor; by destruct (_ || _).
Qed.

(** C38: opening an archive always returns.  The code tells what is wrong, by the bytes of
    the file from the offset on, in this order: there are not 96 of them, or the first four
    are not "hsqs" or "sqsh" (SQFS_BADFORMAT); the version at bytes 28 to 31, of the other
    byte order for "sqsh", is not 4.0 (SQFS_BADVERSION); the number at bytes 20 and 21 is
    not that of a compression that is built in (SQFS_BADCOMP); then it opens, or a table or
    memory is missing (SQFS_ERR).  On every failure no block and no cache stays allocated;
    of the table of extended attributes that is not said, since the code does not free
    it. *)
Theorem sqfs_init_total (libs : codec_libs) (fd : list byte) (offset : Z) (ms : mallocs) :
  let start := s64 offset in
  let at_ o w := int_at fd (start + o) w in
  let swapped := at_ 0 4 =? 0x68737173 in
  let version o := if swapped then le_decode (rev (slice fd (start + o) 2)) else at_ o 2 in
  exists err fs s, sqfs_init libs fd offset ms = Ret (err, fs, s) /\
    (err = SQFS_OK \/
     s.(blocks) = ∅ /\ s.(blockidx) = cache_null /\ forall w, get_cache w s = cache_null) /\
    if (start <? 0) || (len fd <? start + 96) || negb ((at_ 0 4 =? 0x73717368) || swapped)
    then err = SQFS_BADFORMAT
    else if negb (version 28 =? 4) || (0 <? version 30) then err = SQFS_BADVERSION
    else match sqfs_decompressor_get libs (at_ 20 2) with
         | None => err = SQFS_BADCOMP
         | Some _ => err = SQFS_OK \/ err = SQFS_ERR
         end.
Proof.
  intros start at_ swapped version. pose proof (read_super_block_bytes fd offset) as Hsb.
  cbv zeta in Hsb. fold start in Hsb. change (fun o w => int_at fd (start + o) w) with at_ in Hsb.
  unfold sqfs_init, sqfs_init_with_subdir.
  destruct (read_super_block fd offset) as [sb|e].
  2: { eexists _, _, _. split; [done|]. split; [right; split; [done|]; split; [done|]; by intros []|].
       revert Hsb. fold (at_ 0 4) swapped. destruct (_ || negb _); [done|]. intros [-> Hv].
       by assert (negb (version 28 =? 4) || (0 <? version 30) = true) as -> by exact Hv. }
  destruct Hsb as (Hf & Hv & Hc). rewrite Hc. fold (at_ 0 4) swapped in Hf, Hv. rewrite Hf.
  assert (negb (version 28 =? 4) || (0 <? version 30) = false) as -> by exact Hv. fold (at_ 20 2).
  destruct (sqfs_decompressor_get libs (at_ 20 2)) as [d|].
  2: { eexists _, _, _. split; [done|]. split; [|done]. right. split; [done|]. split; [done|]. by intros []. }
  destruct (init_tables fd offset sb (Some d) ms) as [[err fs] ms1].
  destruct (init_caches ms1) as [e s] eqn:Ec. apply init_caches_spec in Ec as [Hnew _].
  destruct (destroy_new_state fs s Hnew) as (fs' & s' & Ed & Hd).
  destruct (err_or err e); [by eexists _, _, _; split; [done|]; auto|..];
    unfold destroy_fail; rewrite Ed; eexists _, _, _; (split; [done|]); auto.
Qed.

Lemma init_success libs fd offset ms fs s :
  codec_laws libs -> len fd <= 2 ^ 62 -> sqfs_init libs fd offset ms = Ret (SQFS_OK, fs, s) ->
  fs_ok fs /\ fresh_state s /\ fs.(FsState.fd) = fd /\ fs.(fs_offset) = offset /\
  read_super_block fd offset = Success fs.(sb) /\
  fs.(decompressor) = sqfs_decompressor_get libs fs.(sb).(sb_compression) /\
  is_Some fs.(decompressor) /\
  exists ms1 e1 e2, init_tables fd offset fs.(sb) fs.(decompressor) ms = (e1, fs, ms1) /\
    init_caches ms1 = (e2, s) /\ err_or e1 e2 = SQFS_OK.
Proof.
  intros Hlibs Hlen. unfold sqfs_init, sqfs_init_with_subdir.
  destruct (read_super_block fd offset) as [sb|e] eqn:Es.
  2: { intros [= -> _ _]. exfalso. revert Es. unfold read_super_block.
       destruct (read_sb _ _); [|done].
       destruct (_ && _); [done|]. by destruct (_ || _). }
  destruct (sqfs_decompressor_get libs (sb_compression sb)) as [d|] eqn:Ed; [|done].
  pose proof (init_tables_fs fd offset sb (Some d) ms) as Hfs.
  destruct (init_tables fd offset sb (Some d) ms) as [[err fs0] ms1] eqn:Et.
  destruct Hfs as (Hfd & Ho & Hsb & Hd).
  destruct (init_caches ms1) as [e s0] eqn:Ec. pose proof (init_caches_spec _ _ _ Ec) as [Hnew Hfresh].
  destruct (destroy_new_state fs0 s0 Hnew) as (fs' & s' & Edd & _).
  destruct (err_or err e) eqn:Ee; unfold destroy_fail; rewrite ?Edd; intros E; try done.
  injection E as <- <-. apply err_or_ok in Ee as Hee. destruct Hee as [-> ->].
  split; [split; [by rewrite Hfd|]|].
  - rewrite Hd. intros d' [= <-]. by eapply sqfs_decompressor_get_ok.
  - rewrite Hfd, Hsb, Hd, Ed. split; [by apply Hfresh|]. do 4 (split; [done|]). split; [by eexists|].
    by exists ms1, SQFS_OK, SQFS_OK.
Qed.

(** When no allocation fails before, none is to fail after. *)
Lemma init_mem libs fd offset fs s :
  codec_laws libs -> len fd <= 2 ^ 62 -> sqfs_init libs fd offset [] = Ret (SQFS_OK, fs, s) -> s.(mem) = [].
Proof.
  intros Hlibs Hlen E.
  destruct (init_success _ _ _ _ _ _ Hlibs Hlen E) as (_ & _ & _ & _ & _ & _ & _ & ms1 & e1 & e2 & Et & Ec & _).
  pose proof (init_tables_nil fd offset (sb fs) (decompressor fs)) as Hn. rewrite Et in Hn. cbn in Hn. subst ms1.
  destruct init_caches_nil as (s0 & Es & Hm). rewrite Ec in Es. by injection Es as _ ->.
Qed.

Lemma fits_block_size (sb : squashfs_super_block) : fits sb -> 0 <= sb.(sb_block_size) < 2 ^ 32.
Proof.
  unfold fits, fields_fit. cbn. rewrite !Forall2_cons. cbn. tauto.
Qed.

Lemma xattr_init_each fs ms info t ms' :
  fs.(xattr_info).(xt_xattr_ids) = 0 -> sqfs_xattr_init fs ms = (SQFS_OK, (info, t), ms') ->
  t.(tbl_each) = 16 \/ info.(xt_xattr_ids) = 0.
Proof.
  intros Hz. unfold sqfs_xattr_init. destruct (_ =? SQUASHFS_INVALID_BLK); [intros [= <- <- _]; by right|].
  destruct (pread_exact _ _ _); [|done]. destruct (swapin_struct _) as [info'|]; [|done].
  unfold sqfs_table_init. destruct (Z.eqb_spec (xt_xattr_ids info') 0); [intros [= <- <- _]; by right|].
  destruct (malloc ms) as [[|] ?]; cbn [negb]; [|done].
  destruct (pread_exact _ _ _); [|done]. intros [= <- <- _]. by left.
Qed.

(** What the operations on any archive rely on. *)
Lemma init_sound libs fd offset ms fs s :
  codec_laws libs -> len fd <= 2 ^ 62 -> sqfs_init libs fd offset ms = Ret (SQFS_OK, fs, s) ->
  0 <= fs.(sb).(sb_block_size) < 2 ^ 32 /\ (fs.(xattr_table).(tbl_each) = 16 \/ fs.(xattr_info).(xt_xattr_ids) = 0).
Proof.
  intros Hlibs Hlen E.
  destruct (init_success _ _ _ _ _ _ Hlibs Hlen E)
    as (_ & _ & _ & _ & Hsb & _ & _ & ms1 & e1 & e2 & Et & _ & [-> _]%err_or_ok). split.
  - revert Hsb. unfold read_super_block, read_sb. destruct (pread_exact _ _ _) as [bs|] eqn:Hp; [|done].
    cbn [mbind option_bind]. destruct (swapin_struct _) as [sb0|] eqn:Es; [|done].
    apply swapin_fits, fits_block_size in Es; [|by apply pread_exact_len in Hp].
    destruct (_ && _); [done|]. cbv zeta. destruct (_ || _); [done|]. intros [= <-].
    unfold swap_version. destruct (_ =? SQFS_MAGIC_SWAP); cbn; lia.
  - unfold init_tables in Et.
    destruct (sqfs_table_init _ _ _ _ _ _) as [[x1 t1] m1].
    destruct (sqfs_table_init _ _ _ _ _ _) as [[x2 t2] m2].
    destruct (if sqfs_export_ok _ then _ else _) as [[x3 t3] m3].
    destruct (sqfs_xattr_init _ _) as [[x4 [i4 t4]] m4] eqn:Ex. injection Et as Ee <- _.
    apply err_or_ok in Ee as [_ ->]. by eapply xattr_init_each in Ex.
Qed.

(** C19: what a successful opening gives: the superblock of the file, of the
    supported version, with its decompressor; and a state from which every theorem on
    the operations starts. *)
Theorem sqfs_init_success (libs : codec_libs) (fd : list byte) (offset : Z) (ms : mallocs)
    (fs : sqfs) (s : sqfs_state) :
  codec_laws libs -> len fd <= 2 ^ 62 -> sqfs_init libs fd offset ms = Ret (SQFS_OK, fs, s) ->
  fs_ok fs /\ (forall X, inv fs X s [] None) /\
  fs.(FsState.fd) = fd /\ fs.(fs_offset) = offset /\
  read_super_block fd offset = Success fs.(sb) /\
  fst (sqfs_version fs) = SQUASHFS_MAJOR /\ snd (sqfs_version fs) <= SQUASHFS_MINOR /\
  fs.(decompressor) = sqfs_decompressor_get libs (sqfs_compression fs).
Proof.
  intros Hlibs Hlen E.
  destruct (init_success _ _ _ _ _ _ Hlibs Hlen E) as (Hok & Hfr & Hfd & Ho & Hsb & Hd & _).
  pose proof (read_super_block_version _ _ _ Hsb) as (Hma & Hmi & _).
  split; [done|]. split; [intros X; by apply inv_fresh|]. done.
Qed.

(** ** A subdirectory as the root *)

(** What the walk finds. *)
Definition subdir_spec (fs : sqfs) (subdir : list byte) : O (bool * sqfs_inode * option Z) :=
  root ← sqfs_inode_get fs (sqfs_inode_root fs);
  walk fs root (components subdir) None.

Lemma find_subdir_sim fs X subdir new_root :
  sim fs X false (find_subdir fs subdir new_root)
    ('(found, _, id) ← subdir_spec fs subdir;
     mret (if (found : bool) then Some (match id with Some id => id | None => new_root end) else None)).
Proof.
  unfold find_subdir, subdir_spec.
  assert (forall A B C (o : O A) (k : A -> O B) (k' : B -> O C),
    (b ← (a ← o; k a); k' b) = (a ← o; b ← k a; k' b)) as Hassoc
    by (intros A B C o k k'; run_m; by destruct o as [[]|]).
  rewrite Hassoc. apply sim_bind; [apply sim_inode_get|]. intros root.
  apply sim_bind; [|intros [[[] i] id]; apply sim_ret].
  replace (walk fs root (components subdir) None) with
    (sqfs_lookup_path_with_id (m := O) fs root subdir) by (by apply lookup_path_walk).
  apply sim_lookup_path.
Qed.

Lemma inv_with_root fs root X s :
  inv fs X s [] None -> inv (with_root_inode fs root) X s [] None.
Proof. intros [[Hh Hc Hx] Hq Hb]. split; [split|done|done]; done. Qed.

(** with a subdirectory the root becomes the inode its path leads to; a path
    that leads nowhere closes the archive again.  A path of slashes only leads to
    the root itself, but the variable that is to hold the new root is then not
    written: the root becomes whatever was on the stack. *)
Theorem sqfs_init_subdir (libs : codec_libs) (fd : list byte) (offset : Z) (subdir : list byte)
    (new_root : Z) (fs : sqfs) (s : sqfs_state) (X : expectations) :
  codec_laws libs -> len fd <= 2 ^ 62 -> subdir <> [] ->
  sqfs_init libs fd offset [] = Ret (SQFS_OK, fs, s) ->
  let run := sqfs_init_with_subdir libs fd offset subdir new_root [] in
  match subdir_spec fs subdir with
  | Crash c => run = Crash c
  | Ret (Success (true, _, id)) =>
      let root := match id with Some id => id | None => new_root end in
      exists s', run = Ret (SQFS_OK, with_root_inode fs root, s') /\
        inv (with_root_inode fs root) X s' [] None
  | Ret _ => exists fs' s', run = Ret (SQFS_ERR, fs', s') /\ s'.(blocks) = ∅
  end.
Proof.
  intros Hlibs Hlen Hne E run.
  destruct (init_success _ _ _ _ _ _ Hlibs Hlen E)
    as (Hok & Hfr & _ & _ & Hsb & Hd & [d Hsome] & ms1 & e1 & e2 & Et & Ec & Ee).
  assert (run = ('(s, r) ← find_subdir fs subdir new_root s;
      match r with
      | Success (Some root) => Ret (SQFS_OK, with_root_inode fs root, s)
      | _ => destroy_fail fs s
      end)) as Hrun.
  { unfold run, sqfs_init_with_subdir. rewrite Hsb, <- Hd, Hsome, <- Hsome, Et, Ec, Ee.
    by destruct subdir. }
  pose proof (init_mem _ _ _ _ _ Hlibs Hlen E) as Hmem.
  pose proof (inv_fresh fs X s Hfr) as Hi.
  pose proof (find_subdir_sim fs X subdir new_root s [] None ltac:(done) Hi) as Hsim.
  rewrite Hrun. revert Hsim. run_m.
  destruct (subdir_spec fs subdir) as [[[[[] i] id]|e]|c]; run_m;
    destruct (find_subdir fs subdir new_root s) as [[s' r]|c'];
    try (intros (Hi' & [[= <-]|[? _]] & _); [|done]); try (by intros [=]); try (by intros [= ->]).
  - eexists. split; [done|]. by apply inv_with_root.
  - unfold destroy_fail. cbn. destruct (sqfs_destroy_ok fs X s' Hi') as (fs1 & s1 & -> & Hb & _). by eexists _, _.
  - unfold destroy_fail. cbn. destruct (sqfs_destroy_ok fs X s' Hi') as (fs1 & s1 & -> & Hb & _). by eexists _, _.
  - intros (_ & [?|[? _]] & _); done.
Qed.

(** What holds of an archive that was opened, whatever is in it. *)
Record archive_open (fs : sqfs) (s : sqfs_state) : Prop := {
  op_fs : fs_ok fs;
  op_bsize : 0 <= fs.(sb).(sb_block_size) < 2 ^ 32;
  op_xattrs : fs.(xattr_table).(tbl_each) = 16 \/ fs.(xattr_info).(xt_xattr_ids) = 0;
  op_state : forall X, inv fs X s [] None
}.

Lemma init_opened libs fd offset ms fs s :
  codec_laws libs -> len fd <= 2 ^ 62 -> sqfs_init libs fd offset ms = Ret (SQFS_OK, fs, s) -> archive_open fs s.
Proof.
  intros Hlibs Hlen E. destruct (init_success _ _ _ _ _ _ Hlibs Hlen E) as (Hf & Hfr & _).
  destruct (init_sound _ _ _ _ _ _ Hlibs Hlen E). split; [done..|]. intros X. by apply inv_fresh.
Qed.

(** At its root or at a directory in it. *)
Lemma init_subdir_opened libs fd offset subdir new_root ms fs s :
  codec_laws libs -> len fd <= 2 ^ 62 ->
  sqfs_init_with_subdir libs fd offset subdir new_root ms = Ret (SQFS_OK, fs, s) -> archive_open fs s.
Proof.
  intros Hlibs Hlen E. destruct subdir as [|c subdir]; [by apply (init_opened libs fd offset ms)|].
  assert (exists fs0 s0 root, sqfs_init libs fd offset ms = Ret (SQFS_OK, fs0, s0) /\
    find_subdir fs0 (c :: subdir) new_root s0 = Ret (s, Success (Some root)) /\
    fs = with_root_inode fs0 root) as (fs0 & s0 & root & E0 & Ef & ->).
  { revert E. unfold sqfs_init, sqfs_init_with_subdir. destruct (read_super_block fd offset) as [sb|e] eqn:Esb.
    2: { intros [= -> _ _]. exfalso. revert Esb. unfold read_super_block. destruct (read_sb _ _); [|done].
         destruct (_ && _); [done|]. by destruct (_ || _). }
    destruct (sqfs_decompressor_get libs _) as [dec|]; [|done]. destruct (init_tables _ _ _ _ _) as [[err fs0] ms1].
    destruct (init_caches ms1) as [e s0].
    destruct (find_subdir fs0 (c :: subdir) new_root s0) as [[s1 [[root|]|e']]|c'] eqn:Ef; cbn [mbind outcome_bind];
      try done.
    2, 3: by unfold destroy_fail; destruct (sqfs_destroy fs0 s1) as [[]|].
    destruct (err_or err e) eqn:Ee;
      try (by unfold destroy_fail; destruct (sqfs_destroy (with_root_inode fs0 root) s1) as [[]|]).
    intros [= <- <-]. by exists fs0, s0, root. }
  destruct (init_opened libs fd offset ms fs0 s0 Hlibs Hlen E0) as [Hf Hb Hx Hi].
  split; [by destruct Hf|done..|]. intros X. apply inv_with_root.
  pose proof (find_subdir_sim fs0 X (c :: subdir) new_root s0 [] None ltac:(done) (Hi X)) as Hsim.
  rewrite Ef in Hsim. revert Hsim. run_m. destruct (subdir_spec fs0 (c :: subdir)) as [[[[[] i] id]|e]|c'];
    by intros (Hi' & _).
Qed.

(** No block and no cache of an archive is left.  That is all of it that the state has: of
    its tables and its descriptor this says nothing. *)
Definition released (s : sqfs_state) : Prop :=
  s.(blocks) = ∅ /\ s.(blockidx) = cache_null /\ forall w, get_cache w s = cache_null.

Lemma inv_released fs X s : inv fs X s [] None ->
  exists fs' s', sqfs_destroy fs s = Ret (fs', s') /\ released s'.
Proof.
  intros Hi. destruct (sqfs_destroy_ok fs X s Hi) as (fs' & s' & E & Hb & Hx & Hc & _).
  by exists fs', s'.
Qed.

Lemma destroy_fail_released fs X s : inv fs X s [] None ->
  exists fs' s', destroy_fail fs s = Ret (SQFS_ERR, fs', s') /\ released s'.
Proof.
  intros Hi. destruct (inv_released fs X s Hi) as (fs' & s' & E & Hr).
  exists fs', s'. unfold destroy_fail. by rewrite E.
Qed.

Lemma serves_find_subdir fs subdir new_root :
  fs_ok fs -> serves fs (try (find_subdir fs subdir new_root)) (fun _ => True).
Proof.
  intros Hf. apply (serves_weaken fs _ (on_success (fun _ => True))); [|done].
  eapply serves_sim; [apply find_subdir_sim|]. unfold subdir_spec.
  eapply (ends_bind _ _ (fun _ => True)); [|by intros [[[] i] id]].
  eapply ends_bind; [by apply ends_inode_get|]. intros root Hr.
  rewrite <- (lookup_path_walk (length subdir)) by done. eapply ends_weaken; [by apply ends_lookup_path_loop|done].
Qed.

(** When the archive is about to be walked. *)
Lemma init_state libs fd offset (subdir : list byte) sb d ms :
  codec_laws libs -> len fd <= 2 ^ 62 -> subdir = [] \/ ms = [] ->
  sqfs_decompressor_get libs sb.(sb_compression) = Some d ->
  let '(_, fs, ms1) := init_tables fd offset sb (Some d) ms in
  let (_, s) := init_caches ms1 in
  fs_ok fs /\ state_new s /\ (subdir <> [] -> forall X, inv fs X s [] None).
Proof.
  intros Hlibs Hlen Hms Ed. pose proof (init_tables_fs fd offset sb (Some d) ms) as Hfs.
  pose proof (init_tables_nil fd offset sb (Some d)) as Hnil.
  destruct (init_tables fd offset sb (Some d) ms) as [[e1 fs] ms1] eqn:Et.
  destruct (init_caches ms1) as [e2 s] eqn:Ec. destruct Hfs as (Hfd & _ & _ & Hd).
  destruct (init_caches_spec _ _ _ Ec) as [Hnew Hfr]. split; [|split; [done|]].
  - split; [by rewrite Hfd|]. rewrite Hd. intros d' [= <-]. by eapply sqfs_decompressor_get_ok.
  - intros Hne X. destruct Hms as [?| ->]; [done|]. rewrite Et in Hnil. cbn in Hnil. subst ms1.
    destruct init_caches_nil as (s' & Ec' & _). rewrite Ec in Ec'. injection Ec' as -> ->.
    by apply inv_fresh, Hfr.
Qed.

(** An archive is opened, or no block and no cache of it is left; a walk to a subdirectory needs the
    caches, so that memory must not be short. *)
Lemma init_ends libs fd offset subdir new_root ms :
  codec_laws libs -> len fd <= 2 ^ 62 -> subdir = [] \/ ms = [] ->
  match sqfs_init_with_subdir libs fd offset subdir new_root ms with
  | Ret (err, fs, s) => if decide (err = SQFS_OK) then archive_open fs s else released s
  | Crash c => c <> OutOfFuel
  end.
Proof.
  intros Hlibs Hlen Hms.
  assert (forall fs s, sqfs_init_with_subdir libs fd offset subdir new_root ms = Ret (SQFS_OK, fs, s) ->
    archive_open fs s) as Hok by (intros fs s E; by eapply init_subdir_opened).
  revert Hok. unfold sqfs_init_with_subdir. destruct (read_super_block fd offset) as [sb|e].
  2: { intros Hok. case_decide; [by subst; apply Hok|]. split; [done|]. split; [done|]. by intros []. }
  destruct (sqfs_decompressor_get libs _) as [d|] eqn:Ed.
  2: { intros _. split; [done|]. split; [done|]. by intros []. }
  pose proof (init_state libs fd offset subdir sb d ms Hlibs Hlen Hms Ed) as H.
  destruct (init_tables _ _ _ _ _) as [[e1 fs] ms1]. destruct (init_caches ms1) as [e2 s].
  destruct H as (Hf & Hnew & Hi). destruct subdir as [|b subdir].
  - destruct (destroy_new_state fs s Hnew) as (fs' & s' & Ed' & Hr). unfold destroy_fail. rewrite Ed'.
    destruct (err_or e1 e2); [intros Hok; by apply Hok|done..].
  - specialize (Hi ltac:(done) any_expectations).
    pose proof (serves_find_subdir fs (b :: subdir) new_root Hf s Hi) as Hfind. unfold try in Hfind.
    destruct (find_subdir fs (b :: subdir) new_root s) as [[s1 r]|]; [|done].
    cbn [mbind outcome_bind]. destruct Hfind as [Hi1 _].
    destruct (destroy_fail_released fs _ s1 Hi1) as (f1 & s2 & -> & Hr1).
    destruct r as [[root|]|e]; [|done..].
    destruct (destroy_fail_released (with_root_inode fs root) _ s1 (inv_with_root _ _ _ _ Hi1)) as (f2 & s3 & -> & Hr2).
    destruct (err_or e1 e2); [intros Hok; by apply Hok|done..].
Qed.

(** a cache that could not be made is no obstacle to the walk to the
    subdirectory, which comes before the look at the errors: reading the root through
    the NULL cache of the metadata ends the program. *)
Theorem sqfs_init_subdir_null_cache (libs : codec_libs) (fd : list byte) (offset : Z)
    (subdir : list byte) (new_root : Z) (sb : squashfs_super_block) (d : sqfs_decompressor)
    (ms ms1 ms2 : mallocs) (err : sqfs_err) (fs : sqfs) (e : sqfs_err) :
  read_super_block fd offset = Success sb ->
  sqfs_decompressor_get libs sb.(sb_compression) = Some d ->
  init_tables fd offset sb (Some d) ms = (err, fs, ms1) ->
  sqfs_block_cache_init SQUASHFS_CACHED_BLKS ms1 = (Failure e, ms2) -> subdir <> [] ->
  sqfs_init_with_subdir libs fd offset subdir new_root ms = Crash MemFault.
Proof.
  intros Hsb Hd Ht Hc Hs. unfold sqfs_init_with_subdir. rewrite Hsb, Hd, Ht.
  assert (exists e' s, init_caches ms1 = (e', s) /\ s.(md_cache) = cache_null) as (e' & s & -> & Hnull).
  { unfold init_caches. rewrite Hc. cbn [cache_or_null].
    destruct (sqfs_block_cache_init DATA_CACHED_BLKS ms2) as [r1 m1]. destruct (cache_or_null r1).
    destruct (sqfs_block_cache_init FRAG_CACHED_BLKS m1) as [r2 m2]. destruct (cache_or_null r2).
    destruct (sqfs_blockidx_init m2) as [r3 m3]. destruct (cache_or_null r3). by eexists _, _. }
  destruct subdir as [|c subdir]; [done|].
  assert (forall X, find_subdir fs (c :: subdir) X s = Crash MemFault) as E.
  { intros X. unfold find_subdir, sqfs_inode_get, md_struct, sqfs_md_read. run_m.
    change (disk_size squashfs_base_inode) with 16.
    cbn [md_read_loop]. change (0 <? 16) with true. cbv iota. run_m.
    unfold with_md_block, fs_impl, impl_with_md_block, sqfs_md_cache, m_cache_get. run_m.
    cbn [get_cache]. rewrite Hnull. destruct (law_null (V := sqfs_block_cache_entry)) as (_ & Hg & _). rewrite Hg. done. }
  by rewrite E.
Qed.
End closing.

(** ** The sample tree as a file *)

(** zlib as a function that returns its input, as far as there is room. *)
Definition sample_libs : codec_libs := {|
  uncompress := Some (fun input outsz => if len input <=? outsz then Some input else None);
  lzma_stream_buffer_decode := None;
  lzma_alone _ _ _ := {| lzma_init_ok := false; lzma_header_ok := false; lzma_stream_end := false;
    lzma_ok := false; lzma_total_out := 0; lzma_avail_in := 0; lzma_out := [] |};
  lzo1x_decompress_safe := None;
  LZ4_decompress_safe := None;
  ZSTD_decompress := None
|}.

Lemma sample_libs_ok : codec_laws sample_libs.
Proof.
  split; intros g input outsz out; try done. intros [= <-]. cbn.
  destruct (Z.leb_spec (len input) outsz); [|done]. by intros [= <-].
Qed.

Definition tree_init : outcome (init_result (CI := sample_cache)) := sqfs_init sample_libs tree_image 0 [].
Definition tree_opened : sqfs :=
  match tree_init with Ret (_, fs, _) => fs | Crash _ => tree_fs end.
Definition tree_state : sqfs_state (CI := sample_cache) :=
  match tree_init with Ret (_, _, s) => s | Crash _ => sample_state [] end.

Lemma tree_init_ok : tree_init = Ret (SQFS_OK, tree_opened, tree_state).
Proof.
  assert (match tree_init with Ret (SQFS_OK, _, _) => true | _ => false end = true) as H
    by (vm_compute; reflexivity).
  unfold tree_opened, tree_state. by destruct tree_init as [[[[] fs] s]|c].
Qed.

Lemma sqfs_init_success_witness :
  sqfs_version tree_opened = (4, 0) /\ inv tree_opened no_expectations tree_state [] None.
Proof.
  destruct (sqfs_init_success (CL := sample_laws) sample_libs tree_image 0 [] tree_opened tree_state
    sample_libs_ok ltac:(vm_compute; congruence) tree_init_ok) as (_ & Hi & _).
  split; [reflexivity|apply Hi].
Defined.

(** "/d" becomes the root; the place of its inode is 32. *)
Lemma sqfs_init_subdir_witness :
  exists s', sqfs_init_with_subdir (CI := sample_cache) sample_libs tree_image 0 [x2f; x64] 77 [] =
    Ret (SQFS_OK, with_root_inode tree_opened 32, s').
Proof.
  pose proof (sqfs_init_subdir (CL := sample_laws) sample_libs tree_image 0 [x2f; x64] 77 tree_opened
    tree_state no_expectations sample_libs_ok ltac:(vm_compute; congruence) ltac:(congruence)
    tree_init_ok) as H.
  assert (exists i, subdir_spec tree_opened [x2f; x64] = Ret (Success (true, i, Some 32))) as [i E]
    by (eexists; vm_compute; reflexivity).
  rewrite E in H. cbv zeta in H. destruct H as (s' & H & _). exists s'. exact H.
Defined.

(** The first allocation that fails is the one of the metadata cache. *)
Lemma sqfs_init_subdir_null_cache_witness :
  sqfs_init_with_subdir (CI := sample_cache) sample_libs tree_image 0 [x64] 0 [false] = Crash MemFault.
Proof.
  destruct (init_tables tree_image 0 tree_sb
    (sqfs_decompressor_get sample_libs ZLIB_COMPRESSION) [false]) as [[err fs] ms1] eqn:Et.
  assert (ms1 = [false]) as -> by (vm_compute in Et; congruence).
  eapply (sqfs_init_subdir_null_cache (CL := sample_laws) sample_libs tree_image 0 [x64] 0 tree_sb);
    [vm_compute; reflexivity|reflexivity|exact Et|reflexivity|congruence].
Defined.

Lemma sqfs_destroy_frees_witness :
  exists fs' s', sqfs_destroy tree_opened tree_state = Ret (fs', s') /\ s'.(blocks) = ∅.
Proof.
  assert (inv tree_opened no_expectations tree_state [] None) as Hi
    by (apply inv_fresh; apply (init_success (CL := sample_laws) sample_libs tree_image 0 [] _ _
      sample_libs_ok ltac:(vm_compute; congruence) tree_init_ok)).
  destruct (sqfs_destroy_frees tree_opened no_expectations tree_state Hi) as (fs' & s' & E & Hb & _).
  exists fs', s'. split; [exact E|exact Hb].
Defined.
