(* ===== verification/SampleArchive.v ===== *)
(** * SampleArchive: an archive for the tools

    "/a" is a file of ten bytes in blocks of four, "/d" a directory in which "x" is the same
    file, "/l" a symbolic link to "d/x".  Everything is stored without compression; the
    table of ids has one owner. *)
From S2P Require Import Prelude Swap Cache CacheST Decompress FsState Block BlockOk Sample MdRead Table Inode Dir SampleTree Stat Traverse File FileOk Init.

#[local] Existing Instance sample_cache.

Definition arch_data : list byte := [x68; x65; x6c; x6c; x6f; x2c; x66; x75; x73; x65].
Definition arch_headers : list Z := [stored_data + 4; stored_data + 4; stored_data + 2].
Definition arch_target : list byte := [x64; x2f; x78].

Definition arch_root_items : list dir_item :=
  [sample_item (Some (Build_squashfs_dir_header 2 0 1)) 64 2 SQUASHFS_REG_TYPE [x61];
   sample_item None 32 1 SQUASHFS_DIR_TYPE [x64];
   sample_item None 108 3 SQUASHFS_SYMLINK_TYPE [x6c]].
Definition arch_sub_items : list dir_item :=
  [sample_item (Some (Build_squashfs_dir_header 0 0 1)) 64 2 SQUASHFS_REG_TYPE [x78]].

Definition arch_root_inode : squashfs_dir_inode := tree_dir_inode 1 0 arch_root_items.
Definition arch_sub_inode : squashfs_dir_inode :=
  tree_dir_inode 2 (len (items_bytes arch_root_items)) arch_sub_items.
Definition arch_file_inode : squashfs_reg_inode :=
  Build_squashfs_reg_inode (sample_base SQUASHFS_REG_TYPE 0x1a4 3) 96 SQUASHFS_INVALID_FRAG 0 (len arch_data).
Definition arch_link_inode : squashfs_symlink_inode :=
  Build_squashfs_symlink_inode (sample_base SQUASHFS_SYMLINK_TYPE 0x1ff 4) 1 (len arch_target).

Definition arch_inode_data : list byte :=
  to_disk arch_root_inode ++ to_disk arch_sub_inode ++
  (to_disk arch_file_inode ++ concat (le_encode 4 <$> arch_headers)) ++
  (to_disk arch_link_inode ++ arch_target).
Definition arch_inodes : list byte := stored_md arch_inode_data.
Definition arch_dirs : list byte :=
  stored_md (items_bytes arch_root_items ++ items_bytes arch_sub_items).
Definition arch_ids : list byte := stored_md (le_encode 4 1000).

Definition inodes_at : Z := 96 + len arch_data.
Definition dirs_at : Z := inodes_at + len arch_inodes.
Definition ids_at : Z := dirs_at + len arch_dirs.
Definition id_table_at : Z := ids_at + len arch_ids.
Definition arch_sb : squashfs_super_block :=
  Build_squashfs_super_block SQUASHFS_MAGIC 4 0 4 0 ZLIB_COMPRESSION 2 0 1 4 0 0
    (id_table_at + 8) id_table_at (2 ^ 64 - 1) inodes_at dirs_at 96 (2 ^ 64 - 1).
Definition arch_image : list byte :=
  to_disk arch_sb ++ arch_data ++ arch_inodes ++ arch_dirs ++ arch_ids ++ le_encode 8 ids_at.

Definition arch_init : outcome (init_result (CI := sample_cache)) := sqfs_init sample_libs arch_image 0 [].
Definition arch_fs : sqfs :=
  match arch_init with Ret (_, fs, _) => fs | Crash _ => tree_fs end.
Definition arch_state : sqfs_state (CI := sample_cache) :=
  match arch_init with Ret (_, _, s) => s | Crash _ => sample_state [] end.

Lemma arch_init_ok : arch_init = Ret (SQFS_OK, arch_fs, arch_state).
Proof.
  assert (match arch_init with Ret (SQFS_OK, _, _) => true | _ => false end = true) as H
    by (vm_compute; reflexivity).
  unfold arch_fs, arch_state. by destruct arch_init as [[[[] fs] s]|c].
Qed.

Lemma arch_fs_ok : fs_ok arch_fs.
Proof.
  apply (init_success (CL := sample_laws) sample_libs arch_image 0 [] arch_fs arch_state sample_libs_ok
    ltac:(vm_compute; congruence) arch_init_ok).
Qed.

(** ** The directories *)
Lemma arch_item_fits it : it ∈ arch_root_items ++ arch_sub_items -> item_fits it.
Proof.
  intros H. repeat (apply elem_of_cons in H as [->|H]); [..|by apply not_elem_of_nil in H];
    (split; [|split; vm_compute; congruence]); repeat constructor; vm_compute; congruence.
Qed.

Lemma arch_sub_items_ok : items_ok 0 arch_sub_items.
Proof.
  apply items_group with (n := 0); [|repeat constructor; vm_compute; congruence|done|done|constructor].
  apply (arch_item_fits (sample_item (Some (Build_squashfs_dir_header 0 0 1)) 64 2 SQUASHFS_REG_TYPE [x78])).
  do 3 right. by left.
Qed.

Lemma arch_root_items_ok : items_ok 0 arch_root_items.
Proof.
  apply items_group with (n := 2); [|repeat constructor; vm_compute; congruence|done|done|].
  - apply (arch_item_fits (sample_item (Some (Build_squashfs_dir_header 2 0 1)) 64 2 SQUASHFS_REG_TYPE [x61])).
    by left.
  - apply (items_more 1); [|apply (items_more 0); [|constructor]].
    + apply (arch_item_fits (sample_item None 32 1 SQUASHFS_DIR_TYPE [x64])). right. by left.
    + apply (arch_item_fits (sample_item None 108 3 SQUASHFS_SYMLINK_TYPE [x6c])). do 2 right. by left.
Qed.

(** The inodes as the code has them. *)
Definition arch_root : sqfs_inode := tree_inode arch_root_inode (mk_cursor inodes_at 32).
Definition arch_sub : sqfs_inode := tree_inode arch_sub_inode (mk_cursor inodes_at 64).
Definition arch_file : sqfs_inode := decode_inode (DReg arch_file_inode) (mk_cursor inodes_at 96).
Definition arch_link : sqfs_inode := decode_inode (DSymlink arch_link_inode) (mk_cursor inodes_at 132).

Lemma arch_root_get : sqfs_inode_get (m := O) arch_fs (sqfs_inode_root arch_fs) = Ret (Success arch_root).
Proof. vm_compute. reflexivity. Qed.
Lemma arch_sub_get : sqfs_inode_get (m := O) arch_fs 32 = Ret (Success arch_sub).
Proof. vm_compute. reflexivity. Qed.
Lemma arch_file_get : sqfs_inode_get (m := O) arch_fs 64 = Ret (Success arch_file).
Proof. vm_compute. reflexivity. Qed.
Lemma arch_link_get : sqfs_inode_get (m := O) arch_fs 108 = Ret (Success arch_link).
Proof. vm_compute. reflexivity. Qed.

Lemma arch_root_on_disk : dir_on_disk arch_fs arch_root (tree_xdir arch_root_inode) arch_root_items [].
Proof.
  apply tree_dir_on_disk; [reflexivity|vm_compute; intuition congruence|reflexivity| |
    vm_compute; intuition congruence].
  split; [eexists; vm_compute; reflexivity|apply arch_root_items_ok|reflexivity| |];
    vm_compute; intuition congruence.
Qed.

Lemma arch_sub_on_disk : dir_on_disk arch_fs arch_sub (tree_xdir arch_sub_inode) arch_sub_items [].
Proof.
  apply tree_dir_on_disk; [reflexivity|vm_compute; intuition congruence|reflexivity| |
    vm_compute; intuition congruence].
  split; [eexists; vm_compute; reflexivity|apply arch_sub_items_ok|reflexivity| |];
    vm_compute; intuition congruence.
Qed.

(** ** The tree *)
Definition arch_entry_a : sqfs_dir_entry := mk_dentry 64 3 SQUASHFS_REG_TYPE (Some [x61]) 1 0 21.
Definition arch_entry_d : sqfs_dir_entry := mk_dentry 32 2 SQUASHFS_DIR_TYPE (Some [x64]) 1 21 30.
Definition arch_entry_x : sqfs_dir_entry := mk_dentry 64 3 SQUASHFS_REG_TYPE (Some [x78]) 1 0 21.
Definition arch_entry_l : sqfs_dir_entry := mk_dentry 108 4 SQUASHFS_SYMLINK_TYPE (Some [x6c]) 1 30 39.
Definition arch_forest : forest :=
  FCons arch_entry_a FNil
    (FCons arch_entry_d (FCons arch_entry_x FNil FNil) (FCons arch_entry_l FNil FNil)).

Lemma arch_listing : listing no_header 0 arch_root_items = roots arch_forest.
Proof. vm_compute. reflexivity. Qed.

Lemma arch_forest_on_disk : forest_on_disk arch_fs arch_forest.
Proof.
  cbn [forest_on_disk arch_forest]. split; [done|]. split; [done|]. split; [|done].
  change (sqfs_dentry_is_dir arch_entry_d) with true. cbv iota.
  exists arch_sub, (tree_xdir arch_sub_inode), arch_sub_items, [].
  split; [exact arch_sub_get|]. split; [exact arch_sub_on_disk|vm_compute; reflexivity].
Qed.

(** ** The file *)
Definition arch_xreg : xtra_reg := mk_xreg 96 10 SQUASHFS_INVALID_FRAG 0.

Lemma arch_file_on_disk :
  file_on_disk arch_fs arch_file arch_xreg [(len arch_inodes, arch_inode_data)] arch_headers
    [[x68; x65; x6c; x6c]; [x6f; x2c; x66; x75]; [x73; x65]] [].
Proof.
  split.
  - reflexivity.
  - reflexivity.
  - vm_compute. done.
  - vm_compute. intuition congruence.
  - vm_compute. intuition congruence.
  - vm_compute. reflexivity.
  - repeat constructor; vm_compute; intuition congruence.
  - split; [vm_compute; reflexivity|]. split; [done|]. split; [done|]. split; [|done].
    vm_compute. congruence.
  - vm_compute. intuition congruence.
  - vm_compute. congruence.
  - vm_compute. reflexivity.
  - intros i Hi. cbn in Hi. lia.
  - reflexivity.
  - intros [|[|[|k]]] h data Hh Hd; [| | |done]; injection Hh as <-; injection Hd as <-;
      (split; vm_compute; reflexivity).
  - vm_compute. reflexivity.
Qed.

(** What the caches are to hold. *)
Definition arch_expectations : expectations := {|
  data_hdr pos h := h = if pos =? 104 then stored_data + 2 else stored_data + 4;
  frag_hdr _ _ := False;
  index_of _ index := sqfs_blockidx_add arch_fs arch_file = Ret (Success index)
|}.

Lemma arch_coherent : coherent arch_fs arch_file arch_xreg arch_expectations arch_headers.
Proof.
  split; [| |done].
  - intros [|[|[|k]]] h Hh Hne h'; [| | |done]; injection Hh as <-;
      match goal with |- context [u64 ?p] => let v := eval vm_compute in (u64 p) in change (u64 p) with v end; done.
  - intros fe Hfe. vm_compute in Hfe. congruence.
Qed.

Lemma arch_index start : 0 <= start < 10 -> index_short arch_fs arch_file arch_headers start = false.
Proof. intros _. unfold index_short. apply andb_false_r. Qed.

Definition arch_stat : stat := mk_stat 0 0x81a4 1 1700000000 10 0 0 4 1000 1000.
Lemma arch_file_stat makedev : sqfs_stat makedev (m := O) arch_fs arch_file = Ret (Success arch_stat).
Proof. vm_compute. reflexivity. Qed.

Lemma arch_link_target :
  exists cur', sqfs_md_read (m := O) arch_fs arch_link.(next) true (len arch_target) =
    Ret (Success (cur', arch_target)).
Proof. eexists. vm_compute. reflexivity. Qed.
