(* ===== verification/System.v ===== *)
(** * System: a program and the system it runs on

    The tools and the drivers' start-up call the C library and the kernel.  A [call] is what
    they ask; the [host] answers it, from what was asked before, and is a parameter.  A
    program is a computation of [P]: it keeps the list of its calls and the state of the
    archive, and it may end early, with a status. *)
From Stdlib Require Import Strings.String.
From stdpp Require Import pretty.
From S2P Require Import Prelude Cache FsState.

(** libfuse; the names of its functions without fuse_. *)
Inductive fuse_call :=
  | OptParse
  | OptAddArg (arg : list byte)
  | OptFreeArgs
  | CmdlineHelp
  | ParseCmdline
  | SessionNew
  | SessionMount (mountpoint : list byte)
  | Daemonize (foreground : bool)
  | SetSignalHandlers
  | SessionLoop (threads : bool)
  | RemoveSignalHandlers
  | SessionUnmount
  | SessionDestroy
  | FuseMain
  (* FUSE 2 *)
  | Mount (mountpoint : list byte)
  | KernChanNew
  | LowlevelNew
  | SessionAddChan
  | SessionRemoveChan
  | CloseChan                                  (* close of the descriptor of fuse_mount *)
  | Unmount (mountpoint : list byte).

Inductive call :=
  | Open (path : list byte)                    (* open(path, O_RDONLY) *)
  | Close                                      (* close of the image *)
  | Stdout (text : list byte)
  | Stderr (text : list byte)
  | Perror (msg : list byte)
  | Access (path : list byte)                  (* access(path, F_OK) *)
  | Mkdir (path : list byte) (mode : Z)
  | Fopen (path : list byte)                   (* fopen(path, "w+") *)
  | Fwrite (data : list byte)                  (* to the file last opened *)
  | Fclose
  | Chmod (path : list byte) (mode : Z)
  | Unlink (path : list byte)
  | Symlink (target path : list byte)
  | OpenNull | CloseNull                       (* /dev/null *)
  | StatFile (path : list byte)
  | OpenPipe (path : list byte)                (* open(path, O_WRONLY) *)
  | WritePipe (data : list byte)
  | ClosePipe
  | Fork
  | Setsid
  | Exec (file : list byte) (args : list (list byte))
  | Kill (parent : bool) (signal : Z)          (* the parent, or the process itself *)
  | Sigaction (signal : Z)
  | Alarm (seconds : Z)
  | Uname
  | Fuse (f : fuse_call).

Record host := {
  (** The contents of a file, when it can be opened. *)
  images : list call -> list byte -> option (list byte);
  (** Whether a call succeeds. *)
  answers : list call -> call -> bool;
  (** What it gives: a descriptor, a process, the mode of a file, a status. *)
  numbers : list call -> call -> Z;
  errno : list call -> Z
}.

Definition text (s : string) : list byte := String.list_byte_of_string s.
Definition newline : byte := x0a.
(** printf's %d. *)
Definition decimal (z : Z) : list byte := text (pretty z).

Section program.
Context {CI : CacheImpl}.

Record world := mk_world { w_calls : list call; w_fs : sqfs_state }.

(** The program goes on with a value or ends with a status. *)
Definition P (A : Type) : Type := world -> outcome (world * (A + Z)).

#[global] Instance P_ret : MRet P := fun A a w => Ret (w, inl a).
#[global] Instance P_bind : MBind P := fun A B k m w =>
  match m w with
  | Ret (w, inl a) => k a w
  | Ret (w, inr status) => Ret (w, inr status)
  | Crash c => Crash c
  end.

Definition exit {A} (status : Z) : P A := fun w => Ret (w, inr status).
Definition run {A} (o : outcome A) : P A := fun w =>
  match o with Ret a => Ret (w, inl a) | Crash c => Crash c end.
(** A function of the library, with its error code. *)
Definition reader {A} (m : M A) : P (result A) := fun w =>
  match m w.(w_fs) with
  | Ret (s, r) => Ret (mk_world w.(w_calls) s, inl r)
  | Crash c => Crash c
  end.

Definition asked (w : world) (c : call) : world := mk_world (w.(w_calls) ++ [c]) w.(w_fs).
Definition sys (h : host) (c : call) : P bool := fun w =>
  Ret (asked w c, inl (h.(answers) w.(w_calls) c)).
Definition ask (h : host) (c : call) : P Z := fun w =>
  Ret (asked w c, inl (h.(numbers) w.(w_calls) c)).
Definition get_errno (h : host) : P Z := fun w => Ret (w, inl (h.(errno) w.(w_calls))).
(** A call whose answer is not looked at. *)
Definition tell (c : call) : P unit := fun w => Ret (asked w c, inl tt).
Definition open_file (h : host) (path : list byte) : P (option (list byte)) := fun w =>
  Ret (asked w (Open path), inl (h.(images) w.(w_calls) path)).

(** malloc *)
Definition alloc : P bool := fun w =>
  let (ok, m) := malloc w.(w_fs).(mem) in Ret (mk_world w.(w_calls) (set_mem w.(w_fs) m), inl ok).

(** Before an archive is opened. *)
Definition null_state (ms : mallocs) : sqfs_state :=
  mk_state cache_null cache_null cache_null cache_null ∅ ms.

(** A program from its start to its end: what it asked, and its status. *)
Definition execute (main : P Z) (ms : mallocs) : outcome (world * Z) :=
  match main (mk_world [] (null_state ms)) with
  | Ret (w, inl status) | Ret (w, inr status) => Ret (w, status)
  | Crash c => Crash c
  end.
End program.

(** Unfold the monad. *)
Ltac run_p := unfold mbind, mret, P_bind, P_ret; cbn beta iota.

(** What was written to the standard output. *)
Fixpoint stdout_of (calls : list call) : list byte :=
  match calls with
  | [] => []
  | Stdout bs :: calls => bs ++ stdout_of calls
  | _ :: calls => stdout_of calls
  end.

Lemma stdout_of_app a b : stdout_of (a ++ b) = stdout_of a ++ stdout_of b.
Proof. induction a as [|[] a IH]; cbn [app stdout_of]; rewrite ?IH, ?app_assoc; done. Qed.

(** What was written to the standard error; perror adds the system's own words. *)
Fixpoint stderr_of (calls : list call) : list byte :=
  match calls with
  | [] => []
  | Stderr bs :: calls | Perror bs :: calls => bs ++ stderr_of calls
  | _ :: calls => stderr_of calls
  end.

Lemma stderr_of_app a b : stderr_of (a ++ b) = stderr_of a ++ stderr_of b.
Proof. induction a as [|[] a IH]; cbn [app stderr_of]; rewrite ?IH, ?app_assoc; done. Qed.

(** ** What the calls have done *)

(** The calls have an effect on something, step by step; a step looks at whether its call
    succeeds. *)
Definition replay {S} (step : bool -> S -> call -> S) (h : host) (calls : list call)
    : list call * S -> list call * S :=
  fun acc => fold_left (fun '(before, x) c => (before ++ [c], step (h.(answers) before c) x c)) calls acc.
Definition after {S} (step : bool -> S -> call -> S) (h : host) (x : S) (calls : list call) : S :=
  (replay step h calls ([], x)).2.

Lemma replay_before {S} (step : bool -> S -> call -> S) h calls b x :
  (replay step h calls (b, x)).1 = b ++ calls.
Proof.
  revert b x. induction calls as [|c calls IH]; intros b x; [symmetry; apply app_nil_r|].
  cbn. etransitivity; [apply IH|]. by rewrite <- app_assoc.
Qed.

Lemma after_snoc {S} (step : bool -> S -> call -> S) h x calls c :
  after step h x (calls ++ [c]) = step (h.(answers) calls c) (after step h x calls) c.
Proof.
  unfold after, replay. rewrite fold_left_app.
  pose proof (replay_before step h calls [] x) as H. unfold replay in H.
  destruct (fold_left _ calls _) as [b y]. cbn in H. subst b. reflexivity.
Qed.

(** ** What a program does, whatever the answers *)
Section does.
Context {CI : CacheImpl}.

(** [m] goes on with a value and a world as [Q] says, or ends as [E] says, or dies; it does
    not go on for ever. *)
Definition does {A} (m : P A) (Q : A -> world -> Prop) (E : Z -> world -> Prop) (w : world) : Prop :=
  match m w with
  | Ret (w, inl a) => Q a w
  | Ret (w, inr status) => E status w
  | Crash c => c <> OutOfFuel
  end.

Lemma does_ret {A} (a : A) Q E w : Q a w -> does (mret a) Q E w.
Proof. done. Qed.

Lemma does_bind {A B} (m : P A) (k : A -> P B) (R : A -> world -> Prop) Q E w :
  does m R E w -> (forall a w, R a w -> does (k a) Q E w) -> does (m ≫= k) Q E w.
Proof.
  intros Hm Hk. unfold does in *. run_p. destruct (m w) as [[w' [a|st]]|c]; [|done..]. by apply Hk.
Qed.

Lemma does_mono {A} (m : P A) (Q Q' : A -> world -> Prop) (E E' : Z -> world -> Prop) w :
  does m Q E w -> (forall a w, Q a w -> Q' a w) -> (forall st w, E st w -> E' st w) -> does m Q' E' w.
Proof. unfold does. destruct (m w) as [[w' [a|st]]|c]; auto. Qed.

(** Step by step. *)
Lemma does_sys {B} h c (k : bool -> P B) Q E w :
  does (k (h.(answers) w.(w_calls) c)) Q E (asked w c) -> does (sys h c ≫= k) Q E w.
Proof. done. Qed.

Lemma does_ask {B} h c (k : Z -> P B) Q E w :
  does (k (h.(numbers) w.(w_calls) c)) Q E (asked w c) -> does (ask h c ≫= k) Q E w.
Proof. done. Qed.

Lemma does_errno {B} h (k : Z -> P B) Q E w :
  does (k (h.(errno) w.(w_calls))) Q E w -> does (get_errno h ≫= k) Q E w.
Proof. done. Qed.

Lemma does_tell {B} c (k : unit -> P B) Q E w : does (k tt) Q E (asked w c) -> does (tell c ≫= k) Q E w.
Proof. done. Qed.

Lemma does_value {A B} (a : A) (k : A -> P B) Q E w : does (k a) Q E w -> does (mret a ≫= k) Q E w.
Proof. done. Qed.

Lemma does_exit {A} status (Q : A -> world -> Prop) (E : Z -> world -> Prop) w : E status w -> does (exit status) Q E w.
Proof. done. Qed.
End does.
