(* ===== verification/Util.v ===== *)
(** * Util: opening an image file (util.c)

    The file is opened, the archive in it is initialised, and an error is told in words and
    closes the file.  [new_root] is the variable of [sqfs_init_with_subdir] that may stay
    uninitialised. *)
From Stdlib Require Import Strings.String.
From S2P Require Import Prelude Swap Cache Decompress FsState Block Sample Init System.

(** [memset] of the structure. *)
Definition fs_zero : sqfs :=
  mk_sqfs [] 0 0 0 sb_zero table_zero table_zero table_zero None
    (Build_squashfs_xattr_id_table 0 0 0) table_zero.

Section util.
Context {CI : CacheImpl} (h : host) (libs : codec_libs).

Definition sqfs_fd_open (path : list byte) (print : bool) : P (result (list byte)) :=
  fd ← open_file h path;
  match fd with
  | Some fd => mret (Success fd)
  | None =>
      _ ← (if print then tell (Perror (text "Can't open squashfs image")) else mret tt);
      mret (Failure SQFS_ERR)
  end.

Definition sqfs_fd_close : P unit := tell Close.

(** [sqfs_init_with_subdir] makes the state of the archive. *)
Definition init_image (fd : list byte) (offset : Z) (subdir : list byte) (new_root : Z)
    : P (sqfs_err * sqfs) := fun w =>
  '(err, fs, s) ← sqfs_init_with_subdir libs fd offset subdir new_root w.(w_fs).(mem);
  Ret (mk_world w.(w_calls) s, inl (err, fs)).

(** [fprintf(stderr, "%s", name)].  NULL is not a string: what C leaves undefined is a crash here,
    though a C library may print "(null)" and go on. *)
Definition eprint_name (name : option (list byte)) (before after : list byte) : P unit :=
  match name with
  | Some name => tell (Stderr (before ++ name ++ after))
  | None => run (Crash MemFault)
  end.

Fixpoint supported_loop (first : bool) (sup : list Z) : P unit :=
  match sup with
  | [] => mret tt
  | type :: sup =>
      if type =? SQFS_COMP_UNKNOWN then supported_loop first sup
      else
        _ ← (if first then mret tt else tell (Stderr (text ", ")));
        _ ← eprint_name (sqfs_compression_name type) [] [];
        supported_loop false sup
  end.

Definition eprintln (s : string) : P unit := tell (Stderr (text s ++ [newline])).

Definition report_version (fs : sqfs) : P unit :=
  let (major, minor) := sqfs_version fs in
  let '(mj1, mn1, mj2, mn2) := sqfs_version_supported in
  let number a b := decimal a ++ text "." ++ decimal b in
  _ ← tell (Stderr (text "Squashfs version " ++ number major minor ++
                    text " detected, only version"));
  _ ← tell (Stderr (if (mj1 =? mj2) && (mn1 =? mn2) then text " " ++ number mj1 mn1
                    else text "s " ++ number mj1 mn1 ++ text " to " ++ number mj2 mn2));
  eprintln " supported.".

Definition report_compression (fs : sqfs) : P unit :=
  _ ← eprint_name (sqfs_compression_name (sqfs_compression fs))
        (text "Squashfs image uses ") (text " compression, this version supports only ");
  _ ← supported_loop true (sqfs_compression_supported libs);
  eprintln ".".

(** [fs] is the structure of the caller, which stays as it was when there is no file. *)
Definition sqfs_open_image_with_subdir (fs : sqfs) (image : list byte) (offset : Z)
    (subdir : list byte) (new_root : Z) : P (sqfs_err * sqfs) :=
  fd ← sqfs_fd_open image true;
  match fd with
  | Failure err => mret (err, fs)
  | Success fd =>
      '(err, fs) ← init_image fd offset subdir new_root;
      _ ← match err with
          | SQFS_OK => mret tt
          | SQFS_BADFORMAT => eprintln "This doesn't look like a squashfs image."
          | SQFS_BADVERSION => report_version fs
          | SQFS_BADCOMP => report_compression fs
          | _ => eprintln "Something went wrong trying to read the squashfs image."
          end;
      _ ← (if decide (err = SQFS_OK) then mret tt else sqfs_fd_close);
      mret (err, fs)
  end.

Definition sqfs_open_image (fs : sqfs) (image : list byte) (offset : Z) (new_root : Z)
    : P (sqfs_err * sqfs) :=
  sqfs_open_image_with_subdir fs image offset [] new_root.

(** sqfs_destroy *)
Definition destroy_image (fs : sqfs) : P sqfs := fun w =>
  '(fs, s) ← sqfs_destroy fs w.(w_fs); Ret (mk_world w.(w_calls) s, inl fs).

(** ** What is told *)

(** Texts with a separator between them. *)
Fixpoint joined (sep : list byte) (l : list (list byte)) : list byte :=
  match l with
  | [] => []
  | [a] => a
  | a :: l => a ++ sep ++ joined sep l
  end.

(** The names of the types that this build can decompress. *)
Definition supported_names : list (list byte) :=
  omap sqfs_compression_name (sqfs_compression_supported libs).

(** The message for an error, when there is one to give. *)
Definition message (err : sqfs_err) (fs : sqfs) : option (list byte) :=
  match err with
  | SQFS_OK => Some []
  | SQFS_BADFORMAT => Some (text "This doesn't look like a squashfs image." ++ [newline])
  | SQFS_BADVERSION =>
      Some (text "Squashfs version " ++ decimal fs.(sb).(sb_s_major) ++ text "." ++
            decimal fs.(sb).(sb_s_minor) ++
            text " detected, only version 4.0 supported." ++ [newline])
  | SQFS_BADCOMP =>
      name ← sqfs_compression_name fs.(sb).(sb_compression);
      Some (text "Squashfs image uses " ++ name ++
            text " compression, this version supports only " ++
            joined (text ", ") supported_names ++ text "." ++ [newline])
  | _ => Some (text "Something went wrong trying to read the squashfs image." ++ [newline])
  end.

(** Only words: calls that write to the standard error. *)
Definition words (calls : list call) : Prop :=
  Forall (fun c => match c with Stderr _ => True | _ => False end) calls.

(** [m] says [bs] and does nothing else. *)
Definition says (m : P unit) (bs : list byte) : Prop :=
  forall w, exists told, words told /\ stderr_of told = bs /\
    m w = Ret (mk_world (w.(w_calls) ++ told) w.(w_fs), inl tt).

Lemma says_nothing : says (mret tt) [].
Proof. intros [c s]. exists []. split; [constructor|]. split; [done|]. by rewrite app_nil_r. Qed.

Lemma says_stderr bs : says (tell (Stderr bs)) bs.
Proof. intros w. exists [Stderr bs]. split; [by repeat constructor|]. split; [apply app_nil_r|done]. Qed.

Lemma says_bind (m k : P unit) a b : says m a -> says k b -> says (_ ← m; k) (a ++ b).
Proof.
  intros Hm Hk w. destruct (Hm w) as (ta & Ha & <- & Em).
  destruct (Hk (mk_world (w.(w_calls) ++ ta) w.(w_fs))) as (tb & Hb & <- & Ek).
  exists (ta ++ tb). split; [by apply Forall_app|]. split; [apply stderr_of_app|].
  run_p. rewrite Em, Ek. cbn. by rewrite app_assoc.
Qed.

Lemma says_name name a b : says (eprint_name (Some name) a b) (a ++ name ++ b).
Proof. apply says_stderr. Qed.

(** The names: the separator comes before every name but the first. *)
Definition listed (first : bool) (l : list (list byte)) : list byte :=
  if first then joined (text ", ") l else concat (map (app (text ", ")) l).

Lemma joined_cons a l : joined (text ", ") (a :: l) = a ++ listed false l.
Proof.
  revert a. induction l as [|b l IH]; intros a; [symmetry; apply app_nil_r|].
  cbn [joined listed map concat]. cbn [joined] in IH. rewrite <- app_assoc.
  do 2 f_equal. apply IH.
Qed.

Lemma listed_cons first a l :
  listed first (a :: l) = (if first then [] else text ", ") ++ a ++ listed false l.
Proof. destruct first; [apply joined_cons|]. cbn [listed map concat]. by rewrite <- app_assoc. Qed.

(** Every type that is announced has a name. *)
Definition named (type : Z) : Prop :=
  type = SQFS_COMP_UNKNOWN \/ is_Some (sqfs_compression_name type).

Lemma supported_named : Forall named (sqfs_compression_supported libs).
Proof.
  unfold sqfs_compression_supported. apply Forall_app. split.
  - repeat (apply Forall_app; split); case_match; repeat first [apply Forall_nil | apply Forall_cons; split];
      try done; right; by eexists.
  - apply Forall_replicate. by left.
Qed.

Lemma supported_loop_says first sup :
  Forall named sup -> says (supported_loop first sup) (listed first (omap sqfs_compression_name sup)).
Proof.
  intros H. revert first. induction H as [|type sup Ht _ IH]; intros first.
  { by destruct first; apply says_nothing. }
  cbn [supported_loop omap list_omap].
  destruct (Z.eqb_spec type SQFS_COMP_UNKNOWN) as [->|Hne]; [apply IH|].
  destruct Ht as [?|[name ->]]; [done|]. rewrite listed_cons.
  apply says_bind; [destruct first; [apply says_nothing|apply says_stderr]|].
  apply says_bind; [|apply IH]. replace name with ([] ++ name ++ []) at 2 by apply app_nil_r. apply says_name.
Qed.

Lemma report_version_says fs bs : message SQFS_BADVERSION fs = Some bs -> says (report_version fs) bs.
Proof.
  intros [= <-]. unfold report_version, sqfs_version, sqfs_version_supported. cbv zeta.
  match goal with |- says _ ?bs =>
    replace bs with ((text "Squashfs version " ++ (decimal (sb_s_major (sb fs)) ++ text "." ++
      decimal (sb_s_minor (sb fs))) ++ text " detected, only version") ++
      (text " " ++ text "4.0") ++ text " supported." ++ [newline]) end.
  - repeat apply says_bind; apply says_stderr.
  - rewrite <- !app_assoc. do 4 f_equal.
Qed.

Lemma report_compression_says fs bs :
  message SQFS_BADCOMP fs = Some bs -> says (report_compression fs) bs.
Proof.
  unfold message, report_compression, sqfs_compression.
  destruct (sqfs_compression_name _) as [name|]; [|done]. intros [= <-].
  match goal with |- says _ ?bs => replace bs with ((text "Squashfs image uses " ++ name ++
    text " compression, this version supports only ") ++ joined (text ", ") supported_names ++
    text "." ++ [newline]) by by rewrite <- !app_assoc end.
  apply says_bind; [apply says_name|]. apply says_bind; [|apply says_stderr].
  apply (supported_loop_says true), supported_named.
Qed.

(** The cases of an image. *)
Lemma open_image_cases (fs : sqfs) (image : list byte) (offset : Z) (subdir : list byte)
    (new_root : Z) (w : world) :
  let run := sqfs_open_image_with_subdir fs image offset subdir new_root w in
  let calls := w.(w_calls) ++ [Open image] in
  match h.(images) w.(w_calls) image with
  | None =>
      run = Ret (mk_world (calls ++ [Perror (text "Can't open squashfs image")]) w.(w_fs),
                 inl (SQFS_ERR, fs))
  | Some fd =>
      match sqfs_init_with_subdir libs fd offset subdir new_root w.(w_fs).(mem) with
      | Crash c => run = Crash c
      | Ret (err, fs', s) =>
          match message err fs' with
          | None => run = Crash MemFault
          | Some bs =>
              exists told, words told /\ stderr_of told = bs /\
                run = Ret (mk_world (calls ++ told ++ if decide (err = SQFS_OK) then [] else [Close]) s,
                           inl (err, fs'))
          end
      end
  end.
Proof.
  cbv zeta. unfold sqfs_open_image_with_subdir, sqfs_fd_open, open_file, init_image, asked. run_p.
  destruct (images h (w_calls w) image) as [fd|]; [|done].
  destruct (sqfs_init_with_subdir _ _ _ _ _ _) as [[[err fs'] s]|c]; [|done].
  set (w1 := mk_world (w_calls w ++ [Open image]) s). cbn [mbind outcome_bind].
  assert (forall m bs, says m bs -> exists told, words told /\ stderr_of told = bs /\
    match m w1 with
    | Ret (w, inl _) => (fun _ => (_ ← (if decide (err = SQFS_OK) then mret tt else sqfs_fd_close);
        mret (err, fs')) w) tt
    | Ret (w, inr status) => Ret (w, inr status)
    | Crash c => Crash c
    end = Ret (mk_world ((w_calls w ++ [Open image]) ++ told ++
      if decide (err = SQFS_OK) then [] else [Close]) s, inl (err, fs'))) as Hsay.
  { intros m bs Hm. destruct (Hm w1) as (told & Hw & Hb & ->). exists told. split; [done|]. split; [done|].
    cbn [w_fs w1 w_calls]. destruct (decide _); run_p; [by rewrite app_nil_r|].
    unfold sqfs_fd_close, tell, asked. cbn [w_calls w_fs]. by rewrite <- !app_assoc. }
  destruct (message err fs') as [bs|] eqn:Em.
  - apply Hsay. destruct err; try (injection Em as <-); try apply says_stderr.
    + apply says_nothing.
    + by apply report_version_says.
    + by apply report_compression_says.
  - destruct err; try done. revert Em. unfold message, report_compression, sqfs_compression.
    by destruct (sqfs_compression_name _).
Qed.

(** C39: opening an image asks the system for the file, and gives what the initialisation of the
    archive gives; an error is told in one message, with the version or the compression
    that was found and those that are supported, and then the file is closed, which it is
    not when the archive is open.  A compression type without a name stops the program. *)
Theorem sqfs_open_image_correct (fs : sqfs) (image : list byte) (offset : Z) (subdir : list byte)
    (new_root : Z) (w : world) :
  let run := sqfs_open_image_with_subdir fs image offset subdir new_root w in
  let calls := w.(w_calls) ++ [Open image] in
  match h.(images) w.(w_calls) image with
  | None =>
      run = Ret (mk_world (calls ++ [Perror (text "Can't open squashfs image")]) w.(w_fs),
                 inl (SQFS_ERR, fs))
  | Some fd =>
      match sqfs_init_with_subdir libs fd offset subdir new_root w.(w_fs).(mem) with
      | Crash c => run = Crash c
      | Ret (err, fs', s) =>
          match message err fs' with
          | None => run = Crash MemFault
          | Some bs =>
              exists told, words told /\ stderr_of told = bs /\
                run = Ret (mk_world (calls ++ told ++ if decide (err = SQFS_OK) then [] else [Close]) s,
                           inl (err, fs'))
          end
      end
  end.
Proof. apply open_image_cases. Qed.

(** The case without an error. *)
Lemma open_image_ok fs0 image fd offset subdir new_root w fs s :
  h.(images) w.(w_calls) image = Some fd ->
  sqfs_init_with_subdir libs fd offset subdir new_root w.(w_fs).(mem) = Ret (SQFS_OK, fs, s) ->
  sqfs_open_image_with_subdir fs0 image offset subdir new_root w =
    Ret (mk_world (w.(w_calls) ++ [Open image]) s, inl (SQFS_OK, fs)).
Proof.
  intros Hi E. unfold sqfs_open_image_with_subdir, sqfs_fd_open, open_file, init_image, asked. run_p.
  rewrite Hi. cbn [w_fs w_calls]. by rewrite E.
Qed.

(** The calls are about the image, or words. *)
Definition plain (c : call) : Prop :=
  match c with Open _ | Close | Stderr _ | Perror _ => True | _ => False end.

Definition since (calls calls' : list call) : Prop := exists extra, calls' = calls ++ extra /\ Forall plain extra.

Lemma since_refl calls : since calls calls.
Proof. exists []. by rewrite app_nil_r. Qed.
Lemma since_snoc calls c : plain c -> since calls (calls ++ [c]).
Proof. intros H. exists [c]. split; [done|by constructor]. Qed.
Lemma since_trans a b c : since a b -> since b c -> since a c.
Proof.
  intros (x & -> & Hx) (y & -> & Hy). exists (x ++ y). split; [by rewrite app_assoc|by apply Forall_app].
Qed.

Lemma alloc_does w :
  released w.(w_fs) ->
  does alloc (fun ok w' => w'.(w_calls) = w.(w_calls) /\ released w'.(w_fs) /\
    (w.(w_fs).(mem) = [] -> w'.(w_fs).(mem) = [])) (fun _ _ => False) w.
Proof.
  intros Hr. unfold does, alloc. destruct (malloc (mem (w_fs w))) as [ok ms] eqn:Em.
  split; [done|]. split; [done|]. cbn. intros E. rewrite E in Em. by injection Em as <- <-.
Qed.

(** The archive is open, or no block and no cache of it is left. *)
Lemma open_image_does {CL : CacheLaws CI} fs image offset subdir new_root w :
  codec_laws libs -> (forall calls path fd, h.(images) calls path = Some fd -> len fd <= 2 ^ 62) ->
  subdir = [] \/ w.(w_fs).(mem) = [] -> released w.(w_fs) ->
  does (sqfs_open_image_with_subdir fs image offset subdir new_root)
    (fun r w' => since w.(w_calls) w'.(w_calls) /\
       if decide (r.1 = SQFS_OK) then archive_open r.2 w'.(w_fs) else released w'.(w_fs))
    (fun _ _ => False) w.
Proof.
  intros Hlibs Hsize Hms Hr. unfold does. pose proof (open_image_cases fs image offset subdir new_root w) as H.
  cbv zeta in H. destruct (images h (w_calls w) image) as [fd|] eqn:Ei.
  2: { rewrite H. split; [|done]. cbn [w_calls].
       apply (since_trans _ (w_calls w ++ [Open image])); by apply since_snoc. }
  pose proof (init_ends libs fd offset subdir new_root (mem (w_fs w)) Hlibs (Hsize _ _ _ Ei) Hms) as He.
  destruct (sqfs_init_with_subdir _ _ _ _ _ _) as [[[err fs'] s]|c]; [|by rewrite H].
  destruct (message err fs') as [bs|]; [|by rewrite H]. destruct H as (told & Hw & _ & ->).
  split; [|exact He]. cbn [w_calls]. apply (since_trans _ (w_calls w ++ [System.Open image])); [by apply since_snoc|].
  exists (told ++ if decide (err = SQFS_OK) then [] else [Close]). split; [done|]. apply Forall_app. split.
  - eapply Forall_impl; [exact Hw|]. by intros [].
  - case_decide; repeat constructor.
Qed.

(** Only a file whose archive was initialised. *)
Lemma open_image_inv fs0 image offset subdir new_root w w' fs :
  sqfs_open_image_with_subdir fs0 image offset subdir new_root w = Ret (w', inl (SQFS_OK, fs)) ->
  exists fd, h.(images) w.(w_calls) image = Some fd /\
    sqfs_init_with_subdir libs fd offset subdir new_root w.(w_fs).(mem) = Ret (SQFS_OK, fs, w'.(w_fs)) /\
    w'.(w_calls) = w.(w_calls) ++ [Open image].
Proof.
  unfold sqfs_open_image_with_subdir, sqfs_fd_open, open_file, init_image, asked. run_p.
  destruct (images h (w_calls w) image) as [fd|]; [|done]. cbn [w_fs w_calls mbind outcome_bind].
  destruct (sqfs_init_with_subdir _ _ _ _ _ _) as [[[err fs1] s]|c] eqn:E; [|done]. cbn [mbind outcome_bind].
  intros H. destruct err; try done; revert H.
  2: destruct (report_compression fs1 _) as [[w1 [[]|]]|]; done.
  intros [= <- <-]. by exists fd.
Qed.
End util.

(** A build with zlib and an archive of an old version. *)
Example message_version :
  message sample_libs SQFS_BADVERSION
    (sample_fs [] (Build_squashfs_super_block 0 0 0 0 0 1 0 0 0 3 1 0 0 0 0 0 0 0 0)) =
  Some (text "Squashfs version 3.1 detected, only version 4.0 supported." ++ [newline]).
Proof. reflexivity. Qed.

Example message_compression :
  message sample_libs SQFS_BADCOMP
    (sample_fs [] (Build_squashfs_super_block 0 0 0 0 0 3 0 0 0 4 0 0 0 0 0 0 0 0 0)) =
  Some (text "Squashfs image uses lzo compression, this version supports only zlib." ++ [newline]).
Proof. reflexivity. Qed.
