(* ===== verification/Mount.v ===== *)
(** * Mount: what the two drivers share (fuseprivate.c)

    The usage message, and the word on a named pipe that tells whether the file system was
    mounted.  [package] and [version] are PACKAGE_NAME and PACKAGE_STRING, which the
    configuration gives; [mt] is SQFS_MULTITHREADED and [help] HAVE_DECL_FUSE_CMDLINE_HELP. *)
From Stdlib Require Import Strings.String.
From S2P Require Import Prelude Cache FsState System Util.

Definition NOTIFY_SUCCESS : byte := x73.
Definition NOTIFY_FAILURE : byte := x66.
Definition S_IFIFO : Z := 0x1000.

Definition quote : byte := x22.

Section mount.
Context {CI : CacheImpl} (h : host).

(** ** Usage *)
Section usage.
Context (package version : list byte) (mt help : bool).

Definition eprint (bs : list byte) : P unit := tell (Stderr bs).

Definition sqfs_minimal_fuse_usage : P unit :=
  _ ← eprint (newline :: text "Selection of FUSE options:" ++ [newline]);
  _ ← eprintln "    -h   --help            print help";
  _ ← eprintln "    -V   --version         print version";
  _ ← eprintln "    -d   -o debug          enable debug output (implies -f)";
  eprintln "    -f                     foreground operation".

(** [progname] is [None] for NULL, which is no string for the second %s. *)
Definition sqfs_usage (progname : option (list byte)) (fuse_usage ll_usage : bool) : P Z :=
  _ ← eprint (version ++ text " (c) 2012 Dave Vasilevsky" ++ [newline; newline]);
  _ ← eprint (text "Usage: " ++ default package progname ++ text " [options] ARCHIVE MOUNTPOINT" ++ [newline]);
  _ ← eprint_name progname [newline] (text " options:" ++ [newline]);
  _ ← eprintln "    -o offset=N            offset N bytes into ARCHIVE to mount";
  _ ← eprintln "    -o subdir=PATH         mount subdirectory PATH of ARCHIVE";
  _ ← eprint (text "    -o notify_pipe=PATH    named pipe that will receive 's' (success)" ++ [newline] ++
              text "                           or 'f' (failure) when the mountpoint is ready" ++ [newline]);
  _ ← (if ll_usage then
         _ ← eprintln "    -o timeout=N           idle N seconds for automatic unmount";
         _ ← eprintln "    -o uid=N               set file owner to uid N";
         eprintln "    -o gid=N               set file group to gid N"
       else mret tt);
  _ ← (if fuse_usage then
         if ll_usage then
           if mt then
             if help then
               _ ← eprint (newline :: text "FUSE options:" ++ [newline]);
               tell (Fuse CmdlineHelp)
             else
               _ ← tell (Fuse (OptAddArg []));
               _ ← tell (Fuse (OptAddArg (text "-ho")));
               _ ← eprint [newline];
               tell (Fuse ParseCmdline)
           else sqfs_minimal_fuse_usage
         else
           _ ← sqfs_minimal_fuse_usage;
           _ ← eprintln "    -o allow_other         allow access by other users";
           eprintln "    -o allow_root          allow access by the superuser"
       else mret tt);
  mret (-2).
End usage.

(** ** The pipe

    [stat] gives the mode of a file; every negative number is a failure. *)
Definition quoted (path : list byte) : list byte := quote :: path ++ [quote].

Definition notify_mount_ready (notify_pipe : list byte) (status : byte) : P unit :=
  let problem what :=
    errno ← get_errno h;
    eprint (text what ++ quoted notify_pipe ++ text " (" ++ decimal errno ++ text ")" ++ [newline]) in
  st_mode ← ask h (StatFile notify_pipe);
  if st_mode <? 0 then problem "Cannot stat file "%string
  else if (st_mode &&& S_IFIFO) =? 0 then eprint (quoted notify_pipe ++ text " is not a pipe" ++ [newline])
  else
    pipe_fd ← ask h (OpenPipe notify_pipe);
    if pipe_fd <? 0 then problem "Open fifo failed "%string
    else
      n ← ask h (WritePipe [status]);
      if n <? 0 then problem "Write to fifo failed "%string
      else tell ClosePipe.

(** The child ends here. *)
Definition notify_mount_ready_async (notify_pipe : option (list byte)) (status : byte) : P unit :=
  match notify_pipe with
  | None => mret tt
  | Some notify_pipe =>
      pid ← ask h Fork;
      if pid <? 0 then eprint (text "Fork Failed")
      else if pid =? 0 then
        _ ← notify_mount_ready notify_pipe status;
        exit 0
      else mret tt
  end.
End mount.

(** ** Calls that change nothing

    [calm] calls have no effect on the file system that libfuse has mounted, and do not tell
    of a failure. *)
Definition calm (c : call) : Prop :=
  match c with
  | WritePipe bs => bs <> [NOTIFY_FAILURE]
  | Fuse (SessionNew | SessionMount _ | SetSignalHandlers | SessionLoop _ | RemoveSignalHandlers |
          SessionUnmount | SessionDestroy | FuseMain | Mount _ | Unmount _) => False
  | _ => True
  end.

Section calm.
Context {CI : CacheImpl} (h : host).

Definition more (calls calls' : list call) : Prop := exists extra, calls' = calls ++ extra /\ Forall calm extra.

Lemma more_refl calls : more calls calls.
Proof. exists []. by rewrite app_nil_r. Qed.
Lemma more_snoc calls c : calm c -> more calls (calls ++ [c]).
Proof. intros H. exists [c]. split; [done|by constructor]. Qed.
Lemma more_trans a b c : more a b -> more b c -> more a c.
Proof.
  intros (x & -> & Hx) (y & -> & Hy). exists (x ++ y). rewrite app_assoc. split; [done|by apply Forall_app].
Qed.
Lemma more_since a b : since a b -> more a b.
Proof. intros (x & -> & Hx). exists x. split; [done|]. eapply Forall_impl; [exact Hx|]. by intros []. Qed.

Definition follows (w w' : world) : Prop := more w.(w_calls) w'.(w_calls) /\ w'.(w_fs) = w.(w_fs).

Lemma follows_refl w : follows w w.
Proof. split; [apply more_refl|done]. Qed.
Lemma follows_asked w c : calm c -> follows w (asked w c).
Proof. intros Hc. split; [by apply more_snoc|done]. Qed.
Lemma follows_trans a b c : follows a b -> follows b c -> follows a c.
Proof. intros [? ?] [? ?]. split; [by eapply more_trans|congruence]. Qed.

(** This process is a child. *)
Definition forked (calls : list call) : Prop :=
  exists before rest, calls = before ++ Fork :: rest /\ h.(numbers) before Fork = 0.

Lemma forked_more calls calls' : forked calls -> more calls calls' -> forked calls'.
Proof. intros (b & r & -> & Hn) (x & -> & _). exists b, (r ++ x). by rewrite <- app_assoc. Qed.

(** [m] makes calm calls only, and only in a child it ends the process. *)
Definition calmly {A} (m : P A) : Prop :=
  forall w, does m (fun _ w' => follows w w') (fun _ w' => forked w'.(w_calls)) w.

Lemma calmly_ret {A} (a : A) : calmly (mret a).
Proof. intros w. apply does_ret, follows_refl. Qed.

Lemma calmly_bind {A B} (m : P A) (k : A -> P B) : calmly m -> (forall a, calmly (k a)) -> calmly (m ≫= k).
Proof.
  intros Hm Hk w. eapply does_bind; [apply Hm|]. intros a w1 H1. eapply does_mono; [apply Hk|..]; [|done].
  intros b w2 H2. exact (follows_trans _ _ _ H1 H2).
Qed.

Lemma calmly_tell c : calm c -> calmly (tell c).
Proof. intros Hc w. exact (follows_asked w c Hc). Qed.
Lemma calmly_sys c : calm c -> calmly (sys h c).
Proof. intros Hc w. exact (follows_asked w c Hc). Qed.
Lemma calmly_ask c : calm c -> calmly (ask h c).
Proof. intros Hc w. exact (follows_asked w c Hc). Qed.
Lemma calmly_errno : calmly (get_errno h).
Proof. intros w. exact (follows_refl w). Qed.
Lemma calmly_crash {A} c : c <> OutOfFuel -> calmly (@run _ A (Crash c)).
Proof. intros Hc w. exact Hc. Qed.

(** A child that ends. *)
Lemma calmly_child {A} (m : P unit) status w :
  calmly m -> forked w.(w_calls) ->
  does (_ ← m; exit (A := A) status) (fun _ w' => follows w w') (fun _ w' => forked w'.(w_calls)) w.
Proof.
  intros Hm Hw. eapply does_bind; [apply Hm|]. intros ? w1 H1. exact (forked_more _ _ Hw (proj1 H1)).
Qed.
End calm.

Create HintDb calm.
#[export] Hint Resolve calmly_ret calmly_errno : calm.
#[export] Hint Extern 1 (calmly _ (_ ≫= _)) => (apply calmly_bind; [|intros ?]) : calm.
#[export] Hint Extern 1 (calmly _ (tell _)) => (apply calmly_tell; cbn; done) : calm.
#[export] Hint Extern 1 (calmly _ (sys _ _)) => (apply calmly_sys; cbn; done) : calm.
#[export] Hint Extern 1 (calmly _ (ask _ _)) => (apply calmly_ask; cbn; done) : calm.
#[export] Hint Extern 1 (calmly _ (eprint _)) => (apply calmly_tell; exact I) : calm.
#[export] Hint Extern 1 (calmly _ (eprintln _)) => (apply calmly_tell; exact I) : calm.
#[export] Hint Extern 2 (calmly _ (if ?b then _ else _)) => (destruct b) : calm.

Section messages.
Context {CI : CacheImpl} (h : host).

Lemma usage_does package version mt help progname fuse_usage ll_usage w :
  does (sqfs_usage package version mt help progname fuse_usage ll_usage)
    (fun err w' => err = -2 /\ follows w w') (fun _ w' => forked h w'.(w_calls)) w.
Proof.
  assert (forall (m : P unit) (k : P Z), calmly h m ->
    (forall w, does k (fun err w' => err = -2 /\ follows w w') (fun _ w' => forked h w'.(w_calls)) w) ->
    forall w, does (_ ← m; k) (fun err w' => err = -2 /\ follows w w') (fun _ w' => forked h w'.(w_calls)) w) as Hseq.
  { intros m k Hm Hk w0. eapply does_bind; [apply Hm|]. intros ? w1 H1. eapply does_mono; [apply Hk| |done].
    intros e w2 [He H2]. split; [done|]. exact (follows_trans _ _ _ H1 H2). }
  revert w. unfold sqfs_usage, sqfs_minimal_fuse_usage.
  do 2 (apply Hseq; [auto with calm|]). apply Hseq.
  { unfold eprint_name. destruct progname; [by apply calmly_tell|by apply calmly_crash]. }
  do 5 (apply Hseq; [auto 20 with calm|]). intros w. apply does_ret. split; [done|apply follows_refl].
Qed.

(** The named pipe can be written to. *)
Definition pipe_ready (calls : list call) (p : list byte) : Prop :=
  let mode := h.(numbers) calls (StatFile p) in
  0 <= mode /\ mode &&& S_IFIFO <> 0 /\ 0 <= h.(numbers) (calls ++ [StatFile p]) (OpenPipe p).

#[local] Ltac calls := repeat first [apply Forall_nil_2 | apply Forall_cons_2; [first [by left | by right]|]].

(** The status is written when it can be, and there are words when it was not. *)
Lemma notify_runs p status w :
  exists rest, notify_mount_ready h p status w =
      Ret (mk_world (w.(w_calls) ++ StatFile p :: rest) w.(w_fs), inl tt) /\
    (pipe_ready w.(w_calls) p <-> WritePipe [status] ∈ rest) /\
    Forall (fun c => calm c \/ c = WritePipe [status]) rest.
Proof.
  unfold notify_mount_ready, ask, get_errno, eprint, tell, asked, pipe_ready. run_p. cbn [w_calls w_fs].
  cbn beta; cbn [w_calls w_fs]. destruct (Z.ltb_spec (numbers h (w_calls w) (StatFile p)) 0) as [Hm|Hm].
  { cbn beta; eexists [_]; cbn [w_calls w_fs]; rewrite <- ?app_assoc. split; [done|]. split; [|calls].
    rewrite list_elem_of_singleton. split; [lia|done]. }
  cbn beta; cbn [w_calls w_fs]. destruct (Z.eqb_spec (numbers h (w_calls w) (StatFile p) &&& S_IFIFO) 0) as [Hf|Hf].
  { cbn beta; eexists [_]; cbn [w_calls w_fs]; rewrite <- ?app_assoc. split; [done|]. split; [|calls].
    rewrite list_elem_of_singleton. split; [tauto|done]. }
  cbn beta; cbn [w_calls w_fs]. destruct (Z.ltb_spec (numbers h (w_calls w ++ [StatFile p]) (OpenPipe p)) 0) as [Ho|Ho].
  { cbn beta; eexists [_; _]; cbn [w_calls w_fs]; rewrite <- ?app_assoc. split; [done|]. split; [|calls].
    rewrite !elem_of_cons, elem_of_nil. split; [lia|by intros [|[|[]]]]. }
  cbn beta; cbn [w_calls w_fs]. destruct (Z.ltb_spec (numbers h ((w_calls w ++ [StatFile p]) ++ [OpenPipe p]) (WritePipe [status])) 0) as [Hw|Hw];
    cbn beta; eexists [_; _; _]; cbn [w_calls w_fs]; rewrite <- ?app_assoc; (split; [done|]).
  all: split; [|calls].
  all: rewrite !elem_of_cons; tauto.
Qed.

Lemma notify_calm p status : status <> NOTIFY_FAILURE -> calmly h (notify_mount_ready h p status).
Proof.
  intros Hs. unfold notify_mount_ready. apply calmly_bind; [auto with calm|intros mode].
  destruct (_ <? 0); [auto with calm|]. destruct (_ =? 0); [auto with calm|].
  apply calmly_bind; [auto with calm|intros fd]. destruct (_ <? 0); [auto with calm|].
  apply calmly_bind; [|auto with calm]. apply calmly_ask. cbn. congruence.
Qed.

Lemma notify_async_calm p status :
  status <> NOTIFY_FAILURE -> calmly h (notify_mount_ready_async h p status).
Proof.
  intros Hs w. unfold notify_mount_ready_async. destruct p as [p|]; [|apply calmly_ret].
  apply does_ask. pose proof (follows_asked w Fork I) as Hw.
  assert (forall m : P unit, calmly h m -> does m (fun _ w' => follows w w') (fun _ w' => forked h w'.(w_calls)) (asked w Fork))
    as Hgo.
  { intros m Hm. eapply does_mono; [apply Hm| |done]. intros ? w' H'. exact (follows_trans _ _ _ Hw H'). }
  destruct (_ <? 0); [apply Hgo; auto with calm|].
  destruct (Z.eqb_spec (numbers h (w_calls w) Fork) 0) as [Hz|Hz]; [|apply Hgo; auto with calm].
  eapply does_mono; [apply calmly_child; [by apply notify_calm|]| |done].
  - exists w.(w_calls), []. done.
  - intros ? w' H'. exact (follows_trans _ _ _ Hw H').
Qed.
End messages.
