(* ===== verification/Walk.v ===== *)
(** * Walk: a program's loop over a traversal

    squashfuse_ls and squashfuse_extract both turn in
    [while (sqfs_traverse_next(&trv, &err)) { if (!trv.dir_end) ... }].  [walk] is that loop
    with what is done for an item as an argument; [walk_all] says what it does on a tree that
    is in order, for any work that keeps the caches in order. *)
From S2P Require Import Prelude Cache FsState Block BlockOk Dir Traverse System.

Section walk.
Context {CI : CacheImpl}.

(** [err] and the traversal after the loop. *)
Fixpoint walk (f : fuel) (fs : sqfs) (body : sqfs_traverse -> P unit) (trv : sqfs_traverse)
    : P (status * sqfs_traverse) :=
  match f with
  | NoFuel => run (Crash OutOfFuel)
  | More k =>
      r ← reader (sqfs_traverse_next fs trv);
      match r with
      | Failure e => mret (Failure e, trv)
      | Success (more, err, trv) =>
          if (more : bool) then
            _ ← (if trv.(dir_end) then mret tt else body trv);
            walk (k tt) fs body trv
          else mret (err, trv)
      end
  end.
End walk.

(** The client that never prunes. *)
Definition uncut : list byte -> sqfs_dir_entry -> bool := fun _ _ => false.

(** The paths of the items, in the order of the traversal. *)
Definition items (evs : list event) : list (list byte) :=
  omap (fun ev => match ev with Item p _ => Some p | Dir_end _ => None end) evs.
Definition paths (f : forest) : list (list byte) := items (events uncut [] f).

Section tree.
Context (fs : sqfs) (Hfs : fs_ok fs) {CI : CacheImpl} {CL : CacheLaws CI} (X : expectations).
Context (body : sqfs_traverse -> P unit).
(** What holds of the calls made so far when [evs] are still to come. *)
Context (I : list event -> list call -> Prop).

#[local] Abbreviation good := (BlockOk.good fs X).

(** The body keeps [I] for the item at [p], and the caches in order. *)
Definition keeps (p : list byte) (e : sqfs_dir_entry) : Prop :=
  forall evs t w, I (Item p e :: evs) w.(w_calls) -> good w.(w_fs) -> path_bytes t = Ret p ->
    t.(t_entry) = e ->
    exists w', body t w = Ret (w', inl tt) /\ good w'.(w_fs) /\ I evs w'.(w_calls).

#[local] Abbreviation gives := (gives fs X uncut).

(** One turn of the loop, up to the work for the item. *)
Lemma walk_turn k ev evs K t w :
  good w.(w_fs) -> gives (ev :: evs) K w.(w_fs) t ->
  exists s1 t1, good s1 /\ event_of t1 = Ret ev /\
    walk (More k) fs body t w =
      (_ ← (if t1.(dir_end) then mret tt else body t1); walk (k tt) fs body t1) (mk_world w.(w_calls) s1) /\
    forall s2, good s2 -> gives evs K s2 t1.
Proof.
  intros Hw (s1 & t1 & E & Hs1 & Hev & Hg). exists s1, t1. split; [done|]. split; [done|]. split.
  - cbn [walk]. unfold reader. run_p. by rewrite E.
  - intros s2 Hs2. specialize (Hg s2 Hs2). by destruct ev.
Qed.

Lemma event_of_item t p e :
  event_of t = Ret (Item p e) -> t.(dir_end) = false /\ path_bytes t = Ret p /\ t.(t_entry) = e.
Proof. unfold event_of. destruct (path_bytes t); [|done]. cbn. destruct (dir_end t); [done|]. by intros [= -> ->]. Qed.
Lemma event_of_end t p : event_of t = Ret (Dir_end p) -> t.(dir_end) = true.
Proof. unfold event_of. destruct (path_bytes t); [|done]. cbn. by destruct (dir_end t). Qed.

Context (Hend : forall p evs calls, I (Dir_end p :: evs) calls -> I evs calls).

(** The loop works through [evs] and goes on with the rest. *)
Lemma walk_items evs rest K n f t w :
  I (evs ++ rest) w.(w_calls) -> good w.(w_fs) -> gives (evs ++ rest) K w.(w_fs) t ->
  (forall p e, Item p e ∈ evs -> keeps p e) -> 0 <= n -> lasts f (len evs + n) ->
  exists f' t' w', walk f fs body t w = walk f' fs body t' w' /\ lasts f' n /\
    I rest w'.(w_calls) /\ good w'.(w_fs) /\ gives rest K w'.(w_fs) t'.
Proof.
  intros HI Hw Hg Hb Hn. revert f t w HI Hw Hg. induction evs as [|ev evs IH]; intros f t w HI Hw Hg Hf.
  { by exists f, t, w. }
  cbn [length] in Hf. destruct (lasts_turn _ _ Hf) as (k & -> & Hk); [lia|].
  replace (Z.of_nat (S (length evs)) + n - 1) with (len evs + n) in Hk by lia.
  destruct (walk_turn k ev (evs ++ rest) K t w Hw Hg) as (s1 & t1 & Hs1 & Hev & -> & Hg1).
  assert (exists w2, (if t1.(dir_end) then mret tt else body t1) (mk_world w.(w_calls) s1) = Ret (w2, inl tt) /\
    good w2.(w_fs) /\ I (evs ++ rest) w2.(w_calls)) as (w2 & E2 & Hs2 & HI2).
  { destruct ev as [p e|p].
    - apply event_of_item in Hev as (-> & Hp & He).
      by apply (Hb p e ltac:(by left) (evs ++ rest) t1 (mk_world w.(w_calls) s1)).
    - apply event_of_end in Hev as ->. exists (mk_world w.(w_calls) s1). split; [done|]. split; [done|]. by eapply Hend. }
  revert E2. run_p. intros ->. apply IH; [|done..|by apply Hg1|done].
  intros p e Hin. apply Hb. by right.
Qed.

(** The whole tree. *)
Lemma walk_all f evs t w :
  I evs w.(w_calls) -> good w.(w_fs) -> gives evs (all_given fs X) w.(w_fs) t ->
  (forall p e, Item p e ∈ evs -> keeps p e) -> lasts f (len evs + 1) ->
  exists w' t', walk f fs body t w = Ret (w', inl (Success tt, t')) /\ I [] w'.(w_calls) /\
    good w'.(w_fs) /\ is_ret (sqfs_traverse_close t').
Proof.
  intros HI Hw Hg Hb Hf.
  destruct (walk_items evs [] (all_given fs X) 1 f t w) as (f' & t' & w' & -> & Hf' & HI' & Hw' & Hg');
    rewrite ?app_nil_r; [done..|].
  destruct (lasts_turn _ _ Hf') as (k & -> & _); [lia|].
  destruct Hg' as (s2 & t2 & E & Hs & _ & Hc). exists (mk_world w'.(w_calls) s2), t2. split; [|done].
  cbn [walk]. unfold reader. run_p. by rewrite E.
Qed.

(** Up to an item whose work ends the program. *)
Lemma walk_exit f evs p e evs' t w status (Q : world -> Prop) :
  I (evs ++ Item p e :: evs') w.(w_calls) -> good w.(w_fs) ->
  gives (evs ++ Item p e :: evs') (all_given fs X) w.(w_fs) t ->
  (forall q i, Item q i ∈ evs -> keeps q i) ->
  (forall t w, I (Item p e :: evs') w.(w_calls) -> good w.(w_fs) -> path_bytes t = Ret p -> t.(t_entry) = e ->
    exists w', body t w = Ret (w', inr status) /\ Q w') ->
  lasts f (len evs + 1) ->
  exists w', walk f fs body t w = Ret (w', inr status) /\ Q w'.
Proof.
  intros HI Hw Hg Hb Hx Hf.
  destruct (walk_items evs (Item p e :: evs') (all_given fs X) 1 f t w HI Hw Hg Hb ltac:(lia) Hf)
    as (f' & t' & w1 & -> & Hf' & HI' & Hw' & Hg').
  destruct (lasts_turn _ _ Hf') as (k & -> & _); [lia|].
  destruct (walk_turn k (Item p e) evs' _ t' w1 Hw' Hg') as (s2 & t2 & Hs2 & Hev & -> & _).
  apply event_of_item in Hev as (-> & Hp & He).
  destruct (Hx t2 (mk_world w1.(w_calls) s2) HI' Hs2 Hp He) as (w' & E & HQ). exists w'. split; [|done].
  revert E. by run_p; intros ->.
Qed.
End tree.
