(* ===== verification/Disk.v ===== *)
(** * Disk: what the calls of a program leave on a disk

    [disk_after h calls] is read off the calls and the answers of the host: the
    directories, files and links that those which succeeded have made, by path.
    [disk_laws] is what a program may rely on, as POSIX has it for a disk with room where
    nobody else writes; [disk_host] is a host for which it holds. *)
From S2P Require Import Prelude Cache FsState Dir SampleArchive System.

#[export] Instance byte_countable : Countable byte := inj_countable Byte.to_N Byte.of_N Byte.of_to_N.

Inductive node :=
  | NDir
  | NFile (mode : option Z) (data : list byte)     (* [None]: as fopen makes it *)
  | NLink (target : list byte).
#[export] Instance node_eq_dec : EqDecision node.
Proof. solve_decision. Defined.

Record disk := mk_disk { d_nodes : gmap (list byte) node; d_cur : option (list byte) }.
Definition empty_disk : disk := mk_disk ∅ None.

(** What is in front of the last slash. *)
Fixpoint dirname (p : list byte) : option (list byte) :=
  match p with
  | [] => None
  | c :: p =>
      match dirname p with
      | Some a => Some (c :: a)
      | None => if bool_decide (c = slash) then Some [] else None
      end
  end.

(** A path that ends in a slash names the directory itself. *)
Definition strip (p : list byte) : list byte :=
  match last p with
  | Some c => if bool_decide (c = slash) then removelast p else p
  | None => p
  end.

(** A call that succeeds. *)
Definition step (d : disk) (c : call) : disk :=
  let nodes := d.(d_nodes) in
  match c with
  | Mkdir p _ => mk_disk (<[strip p := NDir]> nodes) d.(d_cur)
  | Symlink target p => mk_disk (<[strip p := NLink target]> nodes) d.(d_cur)
  | Unlink p => mk_disk (delete (strip p) nodes) d.(d_cur)
  | Fopen p => mk_disk (<[strip p := NFile None []]> nodes) (Some (strip p))
  | Fclose => mk_disk nodes None
  | Fwrite bs =>
      match d.(d_cur) with
      | Some p =>
          mk_disk (alter (fun n => match n with NFile m data => NFile m (data ++ bs) | n => n end) p nodes)
            (Some p)
      | None => d
      end
  | Chmod p mode =>
      mk_disk (alter (fun n => match n with NFile _ data => NFile (Some mode) data | n => n end)
                 (strip p) nodes) d.(d_cur)
  | _ => d
  end.

Definition disk_after (h : host) (calls : list call) : disk := 
  after (fun ok d c => if ok : bool then step d c else d) h empty_disk calls.

Lemma disk_after_snoc h calls c :
  disk_after h (calls ++ [c]) =
  if h.(answers) calls c then step (disk_after h calls) c else disk_after h calls.
Proof. apply (after_snoc (fun ok d c => if ok : bool then step d c else d)). Qed.

(** The directory of [p] is there. *)
Definition in_dir (d : disk) (p : list byte) : Prop :=
  match dirname (strip p) with Some a => d.(d_nodes) !! a = Some NDir | None => True end.
#[export] Instance in_dir_dec d p : Decision (in_dir d p).
Proof. unfold in_dir. destruct (dirname _); apply _. Defined.

Definition free (d : disk) (p : list byte) : Prop := d.(d_nodes) !! strip p = None.

Record disk_laws (h : host) : Prop := {
  law_access calls p :
    h.(answers) calls (Access p) = bool_decide (is_Some ((disk_after h calls).(d_nodes) !! strip p));
  law_mkdir calls p mode :
    free (disk_after h calls) p -> in_dir (disk_after h calls) p ->
    h.(answers) calls (Mkdir p mode) = true;
  law_symlink calls target p :
    free (disk_after h calls) p -> in_dir (disk_after h calls) p ->
    h.(answers) calls (Symlink target p) = true;
  law_fopen calls p :
    free (disk_after h calls) p -> in_dir (disk_after h calls) p ->
    h.(answers) calls (Fopen p) = true;
  law_fopen_no_dir calls p :
    ~ in_dir (disk_after h calls) p -> h.(answers) calls (Fopen p) = false;
  law_fwrite calls bs : is_Some (disk_after h calls).(d_cur) -> h.(answers) calls (Fwrite bs) = true;
  law_fclose calls : is_Some (disk_after h calls).(d_cur) -> h.(answers) calls Fclose = true;
  law_chmod calls p mode :
    is_Some ((disk_after h calls).(d_nodes) !! strip p) -> h.(answers) calls (Chmod p mode) = true
}.

(** ** A host *)
Definition accepts (d : disk) (c : call) : bool :=
  match c with
  | Access p => bool_decide (is_Some (d.(d_nodes) !! strip p))
  | Mkdir p _ | Symlink _ p => bool_decide (d.(d_nodes) !! strip p = None) && bool_decide (in_dir d p)
  | Fopen p => bool_decide (d.(d_nodes) !! strip p <> Some NDir) && bool_decide (in_dir d p)
  | Unlink p => bool_decide (is_Some (d.(d_nodes) !! strip p))
  | _ => true
  end.

Definition disk_of (calls : list call) : disk :=
  fold_left (fun d c => if accepts d c then step d c else d) calls empty_disk.

(** The files it can open are [files]. *)
Definition disk_host (files : list byte -> option (list byte)) : host := {|
  images _ p := files p;
  answers calls c := accepts (disk_of calls) c;
  numbers _ _ := 0;
  errno _ := 0
|}.

Lemma disk_host_after files calls : disk_after (disk_host files) calls = disk_of calls.
Proof.
  induction calls as [|c calls IH] using rev_ind; [done|].
  rewrite disk_after_snoc, IH. unfold disk_of. by rewrite fold_left_app.
Qed.

Lemma disk_host_laws files : disk_laws (disk_host files).
Proof.
  split; intros calls *; rewrite ?disk_host_after; cbn; unfold free; try done.
  - intros -> ?. by rewrite !bool_decide_true.
  - intros -> ?. by rewrite !bool_decide_true.
  - intros -> ?. by rewrite !bool_decide_true.
  - intros ?. by rewrite (bool_decide_false (in_dir _ _)), andb_false_r.
Qed.

(** ** Paths *)
Lemma dirname_none p : slash ∉ p -> dirname p = None.
Proof.
  induction p as [|c p IH]; [done|]. rewrite not_elem_of_cons. intros [Hc Hp]. cbn.
  rewrite IH by done. by rewrite bool_decide_false by congruence.
Qed.

Lemma dirname_app a p : slash ∉ p -> dirname (a ++ slash :: p) = Some a.
Proof.
  intros Hp. induction a as [|c a IH]; cbn; [by rewrite dirname_none|by rewrite IH].
Qed.

Lemma dirname_prefix b p a : dirname p = Some a -> dirname (b ++ p) = Some (b ++ a).
Proof. intros H. induction b as [|c b IH]; cbn; [done|by rewrite IH]. Qed.

Lemma strip_id p c : last p = Some c -> c <> slash -> strip p = p.
Proof. intros H Hc. unfold strip. by rewrite H, bool_decide_false. Qed.

(** A host where the file "i" is the sample archive. *)
Definition arch_host : host := disk_host (fun p => if decide (p = [x69]) then Some arch_image else None).
