(* ===== verification/Ls.v ===== *)
(** * Ls: squashfuse_ls (ls.c)

    The program prints the path of every item of an archive.  [main] takes the arguments with
    the name of the program first; [t0], [fs0] and [new_root] are its uninitialised
    variables. *)
From Stdlib Require Import Strings.String.
From S2P Require Import Prelude Swap Cache CacheST Decompress FsState Block BlockOk Sample MdRead Inode Dir SampleTree Traverse File FileOk Init SampleArchive System Util Walk Disk.

Definition PROGNAME : list byte := text "squashfuse_ls".
Definition ERR_MISC : Z := -1.
Definition ERR_USAGE : Z := -2.
Definition ERR_OPEN : Z := -3.

Section ls.
Context {CI : CacheImpl} (h : host) (libs : codec_libs).

Definition usage {A} : P A :=
  _ ← tell (Stderr (PROGNAME ++ text " (c) 2013 Dave Vasilevsky" ++ [newline; newline]));
  _ ← tell (Stderr (text "Usage: " ++ PROGNAME ++ text " ARCHIVE" ++ [newline]));
  exit ERR_USAGE.

Definition die {A} (msg : list byte) : P A :=
  _ ← tell (Stderr (msg ++ [newline]));
  exit ERR_MISC.

(** [printf("%s\n", trv.path)] *)
Definition print_path (trv : sqfs_traverse) : P unit :=
  path ← run (path_bytes trv);
  tell (Stdout (c_str path ++ [newline])).

Definition main (f : fuel) (fs0 : sqfs) (t0 : sqfs_traverse) (new_root : Z)
    (argv : list (list byte)) : P Z :=
  match argv with
  | [_; image] =>
      '(err, fs) ← sqfs_open_image h libs fs0 image 0 new_root;
      if decide (err = SQFS_OK) then
        r ← reader (sqfs_traverse_open t0 fs (sqfs_inode_root fs));
        match r with
        | Success (Success _, trv) =>
            '(err, trv) ← walk f fs print_path trv;
            match err with
            | Failure _ => die (text "sqfs_traverse_next error")
            | Success _ =>
                _ ← run (sqfs_traverse_close trv);
                _ ← sqfs_fd_close;
                mret 0
            end
        | _ => die (text "sqfs_traverse_open error")
        end
      else exit ERR_OPEN
  | _ => usage
  end.

(** ** A tree in order *)
Context {CL : CacheLaws CI}.

Definition print_call (p : list byte) : call := Stdout (p ++ [newline]).

(** What is printed and what is to be printed make up [final]. *)
Definition printing (final : list call) (evs : list event) (calls : list call) : Prop :=
  Forall name_ok (items evs) /\ calls ++ map print_call (items evs) = final.

Lemma print_keeps fs X final p e : keeps fs X print_path (printing final) p e.
Proof.
  intros evs t w [Hp E] Hw Ht _. cbn in Hp. apply Forall_cons in Hp as [Hp Hps].
  exists (mk_world (w.(w_calls) ++ [print_call p]) w.(w_fs)). split; [|split; [exact Hw|]].
  - unfold print_path, tell, asked, run. run_p. rewrite Ht, c_str_ok by done. done.
  - split; [done|]. cbn [w_calls]. rewrite <- app_assoc. exact E.
Qed.

(** C8: for an image whose directories are in order, squashfuse_ls opens it, writes the path of
    every item below the root on a line of its own, each exactly once, parents first and in
    the order of the directories, closes it and ends with status 0. *)
Theorem squashfuse_ls_correct (fd : list byte) (fs0 fs : sqfs) (t0 : sqfs_traverse) (new_root : Z)
    (s : sqfs_state) (name image : list byte) (inode : sqfs_inode) (x : xtra_dir)
    (its : list dir_item) (index : list (squashfs_dir_index * list byte)) (tree : forest) (f : fuel) :
  codec_laws libs -> len fd <= 2 ^ 62 -> h.(images) [] image = Some fd ->
  sqfs_init libs fd 0 [] = Ret (SQFS_OK, fs, s) ->
  sqfs_inode_get (m := O) fs (sqfs_inode_root fs) = Ret (Success inode) ->
  dir_on_disk fs inode x its index -> listing no_header 0 its = roots tree ->
  forest_on_disk fs tree -> height tree < 2 ^ 32 -> Forall name_ok (paths tree) ->
  lasts f (len (events uncut [] tree) + 1) ->
  exists w, execute (main f fs0 t0 new_root [name; image]) [] = Ret (w, 0) /\
    w.(w_calls) = [Open image] ++ map print_call (paths tree) ++ [Close].
Proof.
  intros Hlibs Hlen Him Ei Er Hd Hl Hf Hh Hp Hfuel.
  destruct (init_success _ _ _ _ _ _ Hlibs Hlen Ei) as (Hok & Hfr & _).
  assert (BlockOk.good fs any_expectations s) as Hs by (split; [by apply inv_fresh|by eapply init_mem]).
  destruct (traversal_gives fs Hok any_expectations s t0 _ inode x its index tree uncut Hs Er Hd Hl Hf Hh)
    as (s1 & t1 & E1 & Hs1 & Hg).
  destruct (walk_all fs any_expectations print_path (printing ([Open image] ++ map print_call (paths tree))) ltac:(done) f
    (events uncut [] tree) t1 (mk_world [Open image] s1)) as (w2 & t2 & E2 & [_ Hw2] & _ & Hc);
    [by split|done|by apply Hg|by intros; apply print_keeps|done|].
  destruct (sqfs_traverse_close t2) as [t3|] eqn:E3; [|done].
  eexists. split.
  - unfold execute, main, sqfs_open_image. run_p.
    rewrite (open_image_ok h libs fs0 image fd 0 [] new_root (mk_world [] (null_state [])) fs s Him Ei).
    rewrite decide_True by done. unfold reader. run_p. cbn [w_fs w_calls app]. rewrite E1, E2, E3.
    cbn [run]. unfold sqfs_fd_close, tell, asked. reflexivity.
  - cbn [w_calls]. cbn in Hw2. rewrite app_nil_r in Hw2. by rewrite Hw2.
Qed.
End ls.

(** ** Sample *)
#[local] Existing Instance sample_cache.


Lemma squashfuse_ls_correct_witness :
  exists w, execute (main arch_host sample_libs full_tank arch_fs stale_trv 0 [PROGNAME; [x69]]) [] = Ret (w, 0) /\
    stdout_of w.(w_calls) = text "a" ++ [newline] ++ text "d" ++ [newline] ++ text "d/x" ++ [newline] ++
                            text "l" ++ [newline].
Proof.
  destruct (squashfuse_ls_correct arch_host sample_libs (CL := sample_laws) arch_image arch_fs arch_fs stale_trv 0
    arch_state PROGNAME [x69] arch_root _ _ _ arch_forest full_tank sample_libs_ok ltac:(vm_compute; congruence)
    eq_refl arch_init_ok arch_root_get arch_root_on_disk arch_listing arch_forest_on_disk
    ltac:(vm_compute; reflexivity) ltac:(repeat constructor; vm_compute; congruence)
    ltac:(apply full_tank_lasts; vm_compute; congruence)) as (w & E & Hw).
  exists w. split; [exact E|]. rewrite Hw. reflexivity.
Defined.
