(* ===== verification/Extract.v ===== *)
(** * Extract: squashfuse_extract (extract.c)

    The program copies the items of an archive to the directory squashfs-root: all of them, or
    those whose path starts with its second argument.  [main] takes the arguments with the
    name of the program first; [t0], [fs0] and [new_root] are its uninitialised variables;
    [makedev] is the C library's.  A message prints members of the union of an inode that
    may be of another type: [other] is what is read there then. *)
From Stdlib Require Import Strings.String.
From S2P Require Import Prelude Swap Cache CacheST Decompress FsState Block BlockOk Sample MdRead Table Inode Dir Ends Stat SampleTree Traverse File FileOk Xattr Init SampleArchive System Util Walk Disk.

Definition PROGNAME : list byte := text "squashfuse_extract".
Definition ERR_MISC : Z := 1.
Definition ERR_USAGE : Z := 2.
Definition ERR_OPEN : Z := 3.
Definition EXIT_FAILURE : Z := 1.

Definition root_prefix : list byte := text "squashfs-root/".

Definition starts_with (pre str : list byte) : bool :=
  if len str <? len pre then false else strncmp_eq (length pre) pre str.

(** The path goes behind the prefix into an array of 1024 bytes. *)
Definition prefixed (path : list byte) : outcome (list byte) :=
  let p := root_prefix ++ path in
  if 1024 <? len p + 1 then Crash MemFault else Ret p.

(** What is printed of the mode of a file. *)
Definition permissions (st_mode : Z) : list byte :=
  let bit m c := if (st_mode &&& m) =? 0 then text "-" else text c in
  text "Permissions: " ++ (if S_ISDIR st_mode then text "d" else text "-") ++
  bit 0x100 "r"%string ++ bit 0x80 "w"%string ++ bit 0x40 "x"%string ++
  bit 0x20 "r"%string ++ bit 0x10 "w"%string ++ bit 8 "x"%string ++
  bit 4 "r"%string ++ bit 2 "w"%string ++ bit 1 "x"%string ++ [newline].

Section extract.
Context (makedev : Z -> Z -> Z) (other : sqfs_inode -> Z).
Context {CI : CacheImpl} (h : host) (libs : codec_libs).

(** A message on the standard error. *)
Definition report (what : string) (bs : list byte) (after : string) : P unit :=
  tell (Stderr (text what ++ bs ++ text after ++ [newline])).

(** Members of the union of an inode, which may be of another type. *)
Definition file_size_member (inode : sqfs_inode) : Z :=
  match inode.(xtra) with XtraReg x => x.(xr_file_size) | _ => other inode end.
Definition parent_member (inode : sqfs_inode) : Z :=
  match inode.(xtra) with XtraDir x => x.(xd_parent_inode) | _ => other inode end.

Definition usage {A} : P A :=
  _ ← tell (Stderr (text "Usage: " ++ PROGNAME ++ text " ARCHIVE PATH_TO_EXTRACT" ++ [newline]));
  _ ← tell (Stderr (text "       " ++ PROGNAME ++ text " ARCHIVE -a" ++ [newline]));
  exit ERR_USAGE.

Definition die {A} (msg : list byte) : P A :=
  _ ← tell (Stderr (msg ++ [newline]));
  exit ERR_MISC.

(** A directory that is not there is made. *)
Definition make_dir (path : list byte) : P unit :=
  there ← sys h (Access path);
  if (there : bool) then mret tt
  else
    ok ← sys h (Mkdir path 0x1ff);
    if (ok : bool) then mret tt
    else
      _ ← tell (Perror (text "mkdir error"));
      exit EXIT_FAILURE.

(** The loop that reads [at_a_time] bytes and writes them. *)
Fixpoint copy_loop (f : fuel) (fs : sqfs) (inode : sqfs_inode) (file_size already at_a_time : Z)
    : P unit :=
  if u64 already <? file_size then
    match f with
    | NoFuel => run (Crash OutOfFuel)
    | More k =>
        r ← reader (sqfs_read_range fs inode already at_a_time);
        match r with
        | Failure _ => die (text "sqfs_read_range error")
        | Success buf =>
            _ ← tell (Fwrite buf);
            copy_loop (k tt) fs inode file_size (s64 (already + len buf)) (len buf)
        end
    end
  else mret tt.

Definition extract_reg (fs : sqfs) (inode : sqfs_inode) (dst : list byte) : P unit :=
  _ ← report "Extract to: " dst "";
  r ← reader (sqfs_stat makedev fs inode);
  match r with
  | Failure _ => die (text "sqfs_stat error")
  | Success st =>
      _ ← tell (Stdout (permissions st.(st_mode)));
      ok ← sys h (Fopen dst);
      if negb ok then die (text "fopen error")
      else
        x ← run (get_reg inode);
        _ ← copy_loop full_tank fs inode x.(xr_file_size) 0 (64 * 1024);
        _ ← tell Fclose;
        tell (Chmod dst st.(st_mode))
  end.

(** The room for the target is that of the path of the link. *)
Definition extract_symlink (fs : sqfs) (inode : sqfs_inode) (path dst : list byte) : P unit :=
  r ← reader (sqfs_readlink fs inode (Some (len path + 1)));
  match r with
  | Failure _ => die (text "sqfs_readlink error")
  | Success (_, buf) =>
      _ ← report "Symlink: " (dst ++ text " to " ++ c_str buf) " ";
      _ ← tell (Unlink dst);
      ok ← sys h (Symlink (c_str buf) dst);
      if (ok : bool) then mret tt else die (text "symlink error")
  end.

Definition extract_item (what : list byte) (fs : sqfs) (trv : sqfs_traverse) : P unit :=
  path ← run (path_bytes trv);
  let path := c_str path in
  if starts_with what path || bool_decide (what = text "-a") then
    let id := sqfs_dentry_inode trv.(t_entry) in
    _ ← report "trv.path: " path "";
    _ ← report "sqfs_inode_id: " (decimal id) "";
    r ← reader (sqfs_inode_get fs id);
    match r with
    | Failure _ => die (text "sqfs_inode_get error")
    | Success inode =>
        let type := inode.(base).(bi_inode_type) in
        _ ← report "inode.base.inode_type: " (decimal type) "";
        _ ← report "inode.xtra.reg.file_size: " (decimal (file_size_member inode)) "";
        dst ← run (prefixed path);
        _ ← (if type =? SQUASHFS_DIR_TYPE then
               _ ← report "inode.xtra.dir.parent_inode: " (decimal (parent_member inode)) "i";
               _ ← report "mkdir: " dst "/";
               make_dir dst
             else if type =? SQUASHFS_REG_TYPE then extract_reg fs inode dst
             else if type =? SQUASHFS_SYMLINK_TYPE then extract_symlink fs inode path dst
             else report "TODO: Implement inode.base.inode_type " (decimal type) "");
        tell (Stderr [newline])
    end
  else mret tt.

Definition main (f : fuel) (fs0 : sqfs) (t0 : sqfs_traverse) (new_root : Z)
    (argv : list (list byte)) : P Z :=
  _ ← make_dir root_prefix;
  match argv with
  | [_; image; path_to_extract] =>
      '(err, fs) ← sqfs_open_image h libs fs0 image 0 new_root;
      if decide (err = SQFS_OK) then
        r ← reader (sqfs_traverse_open t0 fs (sqfs_inode_root fs));
        match r with
        | Success (Success _, trv) =>
            '(err, trv) ← walk f fs (extract_item path_to_extract fs) trv;
            match err with
            | Failure _ => die (text "sqfs_traverse_next error")
            | Success _ =>
                _ ← run (sqfs_traverse_close trv);
                _ ← sqfs_fd_close;
                mret 0
            end
        | _ => die (text "sqfs_traverse_open error")
        end
      else exit ERR_OPEN
  | _ => usage
  end.
End extract.

(** ** What an item holds *)

(** [COther] is an item of a type that the program passes by. *)
Inductive content :=
  | CDir
  | CFile (mode : Z) (data : list byte)
  | CLink (target : list byte)
  | COther.

Definition dst (p : list byte) : list byte := root_prefix ++ p.

(** What is to be at [dst p]: a link gets as much of its target as its own path has
    bytes. *)
Definition node_of (p : list byte) (c : content) : option node :=
  match c with
  | CDir => Some NDir
  | CFile mode data => Some (NFile (Some mode) data)
  | CLink target => Some (NLink (take (length p) target))
  | COther => None
  end.

Definition put (p : list byte) (c : content) (m : gmap (list byte) node) : gmap (list byte) node :=
  match node_of p c with Some n => <[dst p := n]> m | None => m end.

Lemma put_ne p c m q : q <> dst p -> put p c m !! q = m !! q.
Proof. intros. unfold put. destruct (node_of p c); [by rewrite lookup_insert_ne|done]. Qed.

Lemma put_free p c m : m !! dst p = None -> put p c m !! dst p = node_of p c.
Proof. intros. unfold put. destruct (node_of p c); [by rewrite lookup_insert_eq|done]. Qed.

(** ** What a tree becomes *)
Section growing.
Context (contents : sqfs_dir_entry -> content).

(** What [evs] add to the disk. *)
Fixpoint grown (m : gmap (list byte) node) (evs : list event) : gmap (list byte) node :=
  match evs with
  | [] => m
  | Item p e :: evs => grown (put p (contents e) m) evs
  | Dir_end _ :: evs => grown m evs
  end.

(** The item at [p] can be made. *)
Record placed (m : gmap (list byte) node) (p : list byte) : Prop := {
  pl_name : name_ok p;
  pl_len : len (dst p) < 1024;
  pl_strip : strip (dst p) = dst p;
  pl_free : m !! dst p = None;
  pl_dir : in_dir (mk_disk m None) (dst p)
}.

(** So can all of [evs], one after the other. *)
Fixpoint in_turn (m : gmap (list byte) node) (evs : list event) : Prop :=
  match evs with
  | [] => True
  | Item p e :: evs => placed m p /\ in_turn (put p (contents e) m) evs
  | Dir_end _ :: evs => in_turn m evs
  end.

Lemma in_turn_app m a b : in_turn m a -> in_turn (grown m a) b -> in_turn m (a ++ b).
Proof.
  revert m. induction a as [|[p e|p] a IH]; intros m; cbn [in_turn grown app]; [done| |apply IH].
  intros [Hp Ha] Hb. split; [done|]. by apply IH.
Qed.

Lemma grown_kept m evs q n : in_turn m evs -> m !! q = Some n -> grown m evs !! q = Some n.
Proof.
  revert m. induction evs as [|[p e|p] evs IH]; intros m; cbn [in_turn grown]; [done| |apply IH].
  intros [Hp Hr] Hq. apply IH; [done|]. rewrite put_ne; [done|].
  intros ->. by rewrite (pl_free _ _ Hp) in Hq.
Qed.

Lemma grown_other m evs q : (forall p, p ∈ items evs -> q <> dst p) -> grown m evs !! q = m !! q.
Proof.
  revert m. induction evs as [|[p e|p] evs IH]; intros m H; cbn [grown]; [done| |by apply IH].
  rewrite IH by (intros p' Hp'; apply H; by right). apply put_ne, H. by left.
Qed.

Lemma dst_inj p q : dst p = dst q -> p = q.
Proof. apply app_inv_head. Qed.

(** Each path once: the item is there as it is, or not at all. *)
Lemma grown_item m evs p e :
  in_turn m evs -> NoDup (items evs) -> Item p e ∈ evs -> grown m evs !! dst p = node_of p (contents e).
Proof.
  revert m. induction evs as [|ev evs IH]; intros m Hr Hnd Hin; [by apply not_elem_of_nil in Hin|].
  apply elem_of_cons in Hin as [<-|Hin].
  - destruct Hr as [Hp Hr]. apply NoDup_cons in Hnd as [Hnp _]. cbn [grown].
    rewrite grown_other by (intros q Hq E; apply dst_inj in E as ->; done).
    apply put_free, Hp.
  - destruct ev as [p' e'|p']; cbn [grown]; [|by apply IH]. destruct Hr as [_ Hr].
    apply NoDup_cons in Hnd as [_ Hnd]. by apply IH.
Qed.

(** Names as a file system has them; every directory with something in it is one in its
    basic form. *)
Fixpoint tidy (f : forest) : Prop :=
  match f with
  | FNil => True
  | FCons e children rest =>
      (exists nm, e.(e_name) = Some nm /\ nm <> [] /\ slash ∉ nm) /\
      (sqfs_dentry_is_dir e = true -> contents e = CDir \/ children = FNil) /\ tidy children /\ tidy rest
  end.

Definition dir_of (names : list (list byte)) : list byte :=
  text "squashfs-root" ++ concat (map (cons slash) names).

Lemma prefix_dir_of names : root_prefix ++ prefix names = dir_of names ++ [slash].
Proof.
  unfold dir_of, prefix, root_prefix. induction names as [|n names IH] using rev_ind; [reflexivity|].
  rewrite !map_app, !concat_app, app_assoc, IH. cbn [map concat TRAVERSE_PATH_SEPARATOR].
  by rewrite !app_nil_r, <- !app_assoc.
Qed.

Lemma dst_in names nm : dst (prefix names ++ nm) = dir_of names ++ slash :: nm.
Proof. unfold dst. rewrite app_assoc, prefix_dir_of, <- app_assoc. done. Qed.

Lemma dst_sub names nm : dst (prefix names ++ nm) = dir_of (names ++ [nm]).
Proof.
  rewrite dst_in. unfold dir_of. rewrite map_app, concat_app, <- app_assoc. cbn. by rewrite app_nil_r.
Qed.

Lemma dst_placed m names nm :
  m !! dir_of names = Some NDir -> nm <> [] -> slash ∉ nm ->
  name_ok (prefix names ++ nm) -> len (dst (prefix names ++ nm)) < 1024 ->
  m !! dst (prefix names ++ nm) = None -> placed m (prefix names ++ nm).
Proof.
  intros Hm Hne Hs Hn Hl Hf.
  assert (strip (dst (prefix names ++ nm)) = dst (prefix names ++ nm)) as Hstrip.
  { rewrite dst_in. destruct nm as [|c nm _] using rev_ind; [done|].
    apply (strip_id _ c); [|intros ->; set_solver].
    replace (dir_of names ++ slash :: nm ++ [c]) with ((dir_of names ++ slash :: nm) ++ [c])
      by by rewrite <- app_assoc. apply last_snoc. }
  split; [done..|]. unfold in_dir. rewrite Hstrip, dst_in, dirname_app by done. done.
Qed.

Lemma tree_in_turn f names m :
  tidy f -> m !! dir_of names = Some NDir -> NoDup (items (events uncut names f)) ->
  (forall p, p ∈ items (events uncut names f) ->
    name_ok p /\ len (dst p) < 1024 /\ m !! dst p = None) ->
  in_turn m (events uncut names f).
Proof.
  revert names m. induction f as [|e fc IHc fr IHr]; intros names m Ht Hm Hnd Hp; [done|].
  destruct Ht as ((nm & Hnm & Hne & Hsl) & Hdir & Htc & Htr).
  cbn [events] in *. rewrite Hnm in *. change (default [] (Some nm)) with nm in *.
  set (p := prefix names ++ nm) in *. set (m1 := put p (contents e) m).
  change (uncut p e) with false in *. rewrite andb_true_r in *.
  set (inner := if sqfs_dentry_is_dir e then _ else _) in *.
  change (items (Item p e :: inner ++ events uncut names fr))
    with (p :: items (inner ++ events uncut names fr)) in *.
  unfold items in *. rewrite omap_app in *. fold (items inner) (items (events uncut names fr)) in *.
  apply NoDup_cons in Hnd as [Hnp Hnd]. apply NoDup_app in Hnd as (Hndc & Hdisj & Hndr).
  destruct (Hp p ltac:(by left)) as (Hpn & Hpl & Hpf).
  assert (forall q, q ∈ items inner ++ items (events uncut names fr) -> m1 !! dst q = None) as Hfree.
  { intros q Hq. destruct (Hp q ltac:(by right)) as (_ & _ & Hq'). unfold m1. rewrite put_ne; [done|].
    intros E. apply dst_inj in E as ->. done. }
  cbn [in_turn]. split; [by apply dst_placed|]. fold m1.
  assert (in_turn m1 inner) as Hinner.
  { subst inner. destruct (sqfs_dentry_is_dir e) eqn:Hd; [|done]. apply in_turn_app; [|done].
    unfold items in *. rewrite omap_app, app_nil_r in *.
    destruct (Hdir eq_refl) as [Hcd| ->]; [|done]. apply IHc; [done| |done|].
    - unfold m1. rewrite <- dst_sub. fold p. by rewrite put_free, Hcd.
    - intros q Hq. destruct (Hp q) as (? & ? & _); [right; apply elem_of_app; by left|].
      split; [done|]. split; [done|]. apply Hfree, elem_of_app. by left. }
  apply in_turn_app; [done|]. apply IHr; [done| |done|].
  - apply grown_kept; [done|]. unfold m1. rewrite put_ne; [done|]. intros E. by rewrite <- E, Hm in Hpf.
  - intros q Hq. destruct (Hp q) as (? & ? & _); [right; apply elem_of_app; by right|].
    split; [done|]. split; [done|]. rewrite grown_other.
    + apply Hfree, elem_of_app. by right.
    + intros q' Hq' E. apply dst_inj in E as <-. by apply (Hdisj q Hq').
Qed.
End growing.

Section right.
Context (makedev : Z -> Z -> Z) (h : host) (Hh : disk_laws h).
Context (fs : sqfs) (Hfs : fs_ok fs) {CI : CacheImpl} {CL : CacheLaws CI} (X : expectations).

#[local] Abbreviation good := (BlockOk.good fs X).

(** The part of a file that the program asks for at a time. *)
Definition chunk : Z := 64 * 1024.

(** The inode of an entry is a directory, a file or a link in its basic form, or of
    another type: a device, a fifo, a socket, or anything in its extended form.  Where
    the parts of the file begin the index of its block list is not short. *)
Inductive holds (e : sqfs_dir_entry) : content -> Prop :=
  | holds_dir inode :
      sqfs_inode_get (m := O) fs e.(e_inode) = Ret (Success inode) ->
      inode.(base).(bi_inode_type) = SQUASHFS_DIR_TYPE -> holds e CDir
  | holds_file inode x mds hs bs tail st :
      sqfs_inode_get (m := O) fs e.(e_inode) = Ret (Success inode) ->
      inode.(base).(bi_inode_type) = SQUASHFS_REG_TYPE ->
      file_on_disk fs inode x mds hs bs tail -> coherent fs inode x X hs ->
      (forall start, 0 <= start < x.(xr_file_size) -> start mod chunk = 0 -> index_short fs inode hs start = false) ->
      sqfs_stat makedev (m := O) fs inode = Ret (Success st) ->
      holds e (CFile st.(st_mode) (file_contents bs tail))
  | holds_link inode target cur' :
      sqfs_inode_get (m := O) fs e.(e_inode) = Ret (Success inode) ->
      inode.(base).(bi_inode_type) = SQUASHFS_SYMLINK_TYPE ->
      S_ISLNK (mode inode) = true -> inode.(xtra) = XtraSymlink (len target) ->
      in_size inode.(next).(cur_offset) -> in_size (inode.(next).(cur_offset) + len target) ->
      sqfs_md_read (m := O) fs inode.(next) true (len target) = Ret (Success (cur', target)) ->
      name_ok target -> holds e (CLink target)
  | holds_other inode :
      sqfs_inode_get (m := O) fs e.(e_inode) = Ret (Success inode) ->
      inode.(base).(bi_inode_type) ∉ [SQUASHFS_DIR_TYPE; SQUASHFS_REG_TYPE; SQUASHFS_SYMLINK_TYPE] ->
      holds e COther.

(** ** One item *)

(** [m] goes on, with the disk [d] and the caches in order. *)
Definition leads_to {A} (m : outcome (world * (A + Z))) (a : A) (d : disk) : Prop :=
  exists w, m = Ret (w, inl a) /\ good w.(w_fs) /\ disk_after h w.(w_calls) = d.

Lemma disk_step calls c :
  h.(answers) calls c = true \/ step (disk_after h calls) c = disk_after h calls ->
  disk_after h (calls ++ [c]) = step (disk_after h calls) c.
Proof.
  intros H. rewrite disk_after_snoc. destruct (answers h calls c); [done|]. by destruct H.
Qed.

Lemma disk_err calls bs : disk_after h (calls ++ [Stderr bs]) = disk_after h calls.
Proof. apply disk_step. by right. Qed.

(** Messages. *)
Lemma leads_report {A} what bs aft (k : P A) w a d :
  (forall w', w'.(w_fs) = w.(w_fs) -> disk_after h w'.(w_calls) = disk_after h w.(w_calls) -> leads_to (k w') a d) ->
  leads_to ((_ ← report what bs aft; k) w) a d.
Proof. intros Hk. apply (Hk (asked w _)); [done|apply disk_err]. Qed.

Lemma leads_newline (m : P unit) w d :
  leads_to (m w) tt d -> leads_to ((_ ← m; tell (Stderr [newline])) w) tt d.
Proof.
  intros (w' & E & Hw & Hd). exists (asked w' (Stderr [newline])). run_p. rewrite E.
  split; [done|]. split; [done|]. rewrite <- Hd. apply disk_err.
Qed.

Lemma make_dir_run p w d :
  disk_after h w.(w_calls) = d -> free d p -> in_dir d p ->
  exists calls, make_dir h p w = Ret (mk_world calls w.(w_fs), inl tt) /\
    disk_after h calls = mk_disk (<[strip p := NDir]> d.(d_nodes)) d.(d_cur).
Proof.
  intros Hd Hf Hp. unfold make_dir, sys, asked. run_p. rewrite (law_access _ Hh), Hd.
  rewrite bool_decide_false by (unfold free in Hf; rewrite Hf; by intros [? ?]). cbv iota. cbn [w_calls w_fs].
  assert (disk_after h (w_calls w ++ [Access p]) = d) as Hd1.
  { rewrite disk_step by (by right). done. }
  rewrite (law_mkdir _ Hh) by (by rewrite Hd1). cbv iota. eexists. split; [done|].
  rewrite disk_step, Hd1; [done|]. left. by rewrite (law_mkdir _ Hh) by (by rewrite Hd1).
Qed.

Section file.
Context (inode : sqfs_inode) (x : xtra_reg) (mds : list (Z * list byte)) (hs : list Z)
  (bs : list (list byte)) (tail : list byte).
Context (Hfile : file_on_disk fs inode x mds hs bs tail) (Hco : coherent fs inode x X hs).
Context (Htail : forall start, 0 <= start < x.(xr_file_size) -> start mod chunk = 0 ->
  index_short fs inode hs start = false).

#[local] Abbreviation F := x.(xr_file_size).
#[local] Abbreviation data := (file_contents bs tail).

Lemma read_good start size s :
  good s -> 0 <= start < F -> start mod chunk = 0 -> 0 < size ->
  exists s', sqfs_read_range (m := M) fs inode start size s = Ret (s', Success (slice data start size)) /\
    good s'.
Proof.
  intros [Hi Hm] Hs Hc Hsz. specialize (Htail start Hs Hc).
  destruct (sim_exact fs X true _ _ s _ (sim_read_range fs Hfs inode x mds hs bs tail Hfile X Hco start size Hs)
    Hi Hm (read_range_ref fs Hfs inode x mds hs bs tail Hfile start size Hs Hsz Htail)) as (s' & E & Hi' & Hm').
  by exists s'.
Qed.

(** The file at [p] grows up to the contents, a whole part at a time but for the last. *)
Lemma copy_leads f p already at_a_time w nodes m :
  good w.(w_fs) -> disk_after h w.(w_calls) = mk_disk nodes (Some p) ->
  nodes !! p = Some (NFile m (take (Z.to_nat already) data)) ->
  0 <= already <= F -> (already < F -> at_a_time = chunk /\ already mod chunk = 0) -> lasts f (F - already) ->
  leads_to (copy_loop f fs inode F already at_a_time w) tt
    (mk_disk (<[p := NFile m data]> nodes) (Some p)).
Proof.
  pose proof (contents_length fs inode x mds hs bs tail Hfile) as Hlen. pose proof (fo_size Hfile) as HF.
  revert already at_a_time w nodes. induction f as [|k IH]; intros already at_a_time w nodes Hw Hd Hn Ha Hat Hf;
    cbn [copy_loop]; rewrite wrap_small by lia.
  all: destruct (Z.ltb_spec already F) as [Hlt|].
  1: { by destruct Hf; [lia|]. }
  1, 3: eexists; split; [reflexivity|]; split; [done|]; rewrite Hd, take_ge in * by lia;
    by rewrite insert_id.
  destruct (Hat Hlt) as [-> Hmod].
  destruct (read_good already chunk w.(w_fs) Hw ltac:(lia) Hmod ltac:(done)) as (s1 & E1 & Hs1).
  clear Hat. assert (0 < chunk) as Hch by done.
  unfold reader, tell, asked. run_p. rewrite E1. cbn [w_calls w_fs].
  assert (len (slice data already chunk) = Z.min chunk (F - already)) as Hl
    by (rewrite slice_length by lia; lia).
  rewrite swrap_small by lia.
  set (buf := slice data already chunk) in *.
  destruct (IH tt (already + len buf) (len buf) (mk_world (w_calls w ++ [Fwrite buf]) s1)
    (<[p := NFile m (take (Z.to_nat (already + len buf)) data)]> nodes)) as (w2 & E2 & Hw2 & Hd2);
    cbn [w_calls w_fs]; [done| |by rewrite lookup_insert_eq|lia| | |].
  - rewrite disk_step, Hd by (left; apply (law_fwrite _ Hh); rewrite Hd; by eexists). cbn [step d_cur d_nodes].
    f_equal. apply map_eq. intros q. destruct (decide (q = p)) as [->|];
      [|by rewrite lookup_alter_ne, lookup_insert_ne by done].
    rewrite lookup_alter_eq, Hn, lookup_insert_eq. cbn. do 2 f_equal.
    unfold buf. apply take_slice; lia.
  - intros Hmore. assert (len buf = chunk) as -> by lia. split; [done|].
    rewrite Zplus_mod, Hmod, Z_mod_same_full. done.
  - destruct (lasts_turn _ _ Hf ltac:(lia)) as (k' & [= <-] & Hk). eapply lasts_le; [|exact Hk]. lia.
  - exists w2. split; [exact E2|]. split; [done|]. by rewrite Hd2, insert_insert_eq.
Qed.
End file.

Lemma extract_reg_leads inode x mds hs bs tail st p w d :
  file_on_disk fs inode x mds hs bs tail -> coherent fs inode x X hs ->
  (forall start, 0 <= start < x.(xr_file_size) -> start mod chunk = 0 -> index_short fs inode hs start = false) ->
  sqfs_stat makedev (m := O) fs inode = Ret (Success st) ->
  disk_after h w.(w_calls) = d -> good w.(w_fs) -> free d p -> in_dir d p ->
  leads_to (extract_reg makedev h fs inode p w) tt
    (mk_disk (<[strip p := NFile (Some st.(st_mode)) (file_contents bs tail)]> d.(d_nodes)) None).
Proof.
  intros Hfile Hco Ht Est Hd0 Hw0 Hf Hp. pose proof (fo_size Hfile) as HF.
  unfold extract_reg. apply leads_report. intros w' Ew Hd. rewrite <- Ew in Hw0. rewrite Hd0 in Hd.
  clear w Ew Hd0. rename w' into w, Hw0 into Hw.
  destruct (good_exact fs X false _ _ w.(w_fs) _ (sim_stat makedev fs X false inode) Hw Est) as (s1 & E1 & Hs1).
  unfold reader, tell, sys, asked. run_p. rewrite E1. cbn [w_calls w_fs].
  set (c0 := Stdout _). set (calls := w_calls w ++ [c0]).
  assert (disk_after h calls = d) as Hd1 by (unfold calls; rewrite disk_step, Hd by (by right); done).
  rewrite (law_fopen _ Hh) by (by rewrite Hd1). cbn [negb]. rewrite (fo_reg Hfile). cbn [run].
  assert (disk_after h (calls ++ [Fopen p]) = mk_disk (<[strip p := NFile None []]> d.(d_nodes)) (Some (strip p)))
    as Hd2 by (rewrite disk_step, Hd1 by (left; apply (law_fopen _ Hh); by rewrite Hd1); done).
  destruct (copy_leads inode x mds hs bs tail Hfile Hco Ht full_tank (strip p) 0 (64 * 1024)
    (mk_world (calls ++ [Fopen p]) s1) _ None Hs1 Hd2) as (w3 & E3 & Hs3 & Hd3);
    [by rewrite lookup_insert_eq|lia|done|apply full_tank_lasts; lia|].
  rewrite E3. cbn [w_calls w_fs]. rewrite insert_insert_eq in Hd3.
  assert (disk_after h (w_calls w3 ++ [Fclose]) =
    mk_disk (<[strip p := NFile None (file_contents bs tail)]> d.(d_nodes)) None) as Hd4.
  { rewrite disk_step, Hd3; [done|]. left. apply (law_fclose _ Hh). rewrite Hd3. by eexists. }
  eexists. split; [reflexivity|]. split; [done|]. cbn [w_calls]. rewrite disk_step, Hd4.
  - cbn [step d_nodes d_cur]. f_equal. by rewrite alter_insert_eq.
  - left. apply (law_chmod _ Hh). rewrite Hd4. cbn. rewrite lookup_insert_eq. by eexists.
Qed.

Lemma extract_symlink_leads inode target cur' path p w d :
  S_ISLNK (mode inode) = true -> inode.(xtra) = XtraSymlink (len target) ->
  in_size inode.(next).(cur_offset) -> in_size (inode.(next).(cur_offset) + len target) ->
  sqfs_md_read (m := O) fs inode.(next) true (len target) = Ret (Success (cur', target)) ->
  name_ok target -> len path < 2 ^ 62 ->
  disk_after h w.(w_calls) = d -> good w.(w_fs) -> free d p -> in_dir d p ->
  leads_to (extract_symlink h fs inode path p w) tt
    (mk_disk (<[strip p := NLink (take (length path) target)]> d.(d_nodes)) d.(d_cur)).
Proof.
  intros Hl Hx Ho Ho' Er Hn Hlen Hd Hw Hf Hp.
  pose proof (readlink_ref fs Hfs inode target cur' (Some (len path + 1)) Hl Hx Ho Ho' Er
    ltac:(intros ? [= <-]; lia)) as E.
  destruct (good_exact fs X false _ _ w.(w_fs) _ (sim_readlink fs X false inode _) Hw E) as (s1 & E1 & Hs1).
  unfold extract_symlink, reader. run_p. rewrite E1. cbn beta iota.
  apply leads_report. intros w' Ew Hd'. cbn [w_calls w_fs] in *. rewrite Hd in Hd'. rewrite <- Ew in Hs1.
  clear w Ew Hd Hw E1. rename w' into w, Hd' into Hd. unfold tell, sys, asked. run_p. cbn [w_calls w_fs].
  replace (Z.to_nat (len path + 1 - 1)) with (length path) by lia. rewrite c_str_app, c_str_ok by (by apply Forall_take).
  assert (disk_after h (w_calls w ++ [Unlink p]) = d) as Hd1.
  { rewrite disk_step, Hd; [|right; rewrite Hd]; cbn; rewrite delete_id by done; by destruct d. }
  rewrite (law_symlink _ Hh) by (by rewrite Hd1). eexists. split; [reflexivity|]. split; [done|].
  cbn [w_calls]. rewrite disk_step, Hd1; [done|]. left. apply (law_symlink _ Hh); by rewrite Hd1.
Qed.

Context (other : sqfs_inode -> Z).

(** One item, chosen, whose place is free. *)
Lemma extract_item_leads e c p t w d :
  holds e c -> path_bytes t = Ret p -> t.(t_entry) = e -> name_ok p -> len (dst p) < 1024 ->
  disk_after h w.(w_calls) = d -> d.(d_cur) = None -> good w.(w_fs) -> strip (dst p) = dst p -> free d (dst p) -> in_dir d (dst p) ->
  leads_to (extract_item makedev other h (text "-a") fs t w) tt
    (mk_disk (put p c d.(d_nodes)) None).
Proof.
  intros Hc Ht He Hn Hlen Hd Hcur Hw Hstrip Hf Hp. unfold extract_item. run_p. rewrite Ht. cbn [run].
  rewrite c_str_ok by done. rewrite bool_decide_true, orb_true_r by done.
  apply leads_report. intros w1 Ew1 Hd1. apply leads_report. intros w2 Ew2 Hd2.
  rewrite <- Ew1, <- Ew2 in Hw. rewrite Hd1, Hd in Hd2. clear w Ew1 Ew2 Hd Hd1 w1. rename w2 into w, Hd2 into Hd.
  assert (prefixed p = Ret (dst p)) as Edst by (unfold prefixed; fold (dst p); zbool; done || lia).
  assert (len p < 2 ^ 62) as Hlp by (unfold dst in Hlen; rewrite length_app in Hlen; lia).
  assert (exists inode, sqfs_inode_get (m := O) fs e.(e_inode) = Ret (Success inode)) as [inode Eg]
    by (destruct Hc; by eexists).
  destruct (good_exact fs X false _ _ w.(w_fs) _ (sim_inode_get fs X false _) Hw Eg) as (s1 & E1 & Hs1).
  unfold reader, sqfs_dentry_inode. run_p. rewrite He, E1. cbv zeta.
  apply leads_report. intros w1 Ew1 Hd1. apply leads_report. intros w2 Ew2 Hd2. cbn [w_fs w_calls] in *.
  rewrite <- Ew1, <- Ew2 in Hs1. rewrite Hd1, Hd in Hd2. clear w Ew1 Ew2 Hd Hd1 w1 E1 Hw. rename w2 into w, Hd2 into Hd.
  run_p. rewrite Edst. cbn [run]. apply leads_newline.
  assert (put p c (d_nodes d) = match node_of p c with Some n => <[strip (dst p) := n]> (d_nodes d) | None => d_nodes d end)
    as -> by (by rewrite Hstrip).
  destruct Hc as [inode' E T|inode' x mds hs bs tail st E T Hfile Hco Htl Est|inode' target cur' E T Hl Hx Ho Ho' Er Hnt|inode' E T];
    rewrite E in Eg; injection Eg as ->; rewrite ?T; cbn [node_of].
  - change (SQUASHFS_DIR_TYPE =? SQUASHFS_DIR_TYPE) with true. cbv iota. rewrite <- Hcur.
    apply leads_report. intros w1 Ew1 Hd1. apply leads_report. intros w2 Ew2 Hd2. rewrite Hd1, Hd in Hd2.
    destruct (make_dir_run (dst p) w2 d Hd2 Hf Hp) as (calls & Em & Hd').
    exists (mk_world calls (w_fs w2)). split; [exact Em|]. split; [by rewrite Ew2, Ew1|done].
  - change (SQUASHFS_REG_TYPE =? SQUASHFS_DIR_TYPE) with false.
    change (SQUASHFS_REG_TYPE =? SQUASHFS_REG_TYPE) with true. cbv iota.
    by apply (extract_reg_leads inode x mds hs bs tail st (dst p) w d).
  - change (SQUASHFS_SYMLINK_TYPE =? SQUASHFS_DIR_TYPE) with false.
    change (SQUASHFS_SYMLINK_TYPE =? SQUASHFS_REG_TYPE) with false.
    change (SQUASHFS_SYMLINK_TYPE =? SQUASHFS_SYMLINK_TYPE) with true. cbv iota. rewrite <- Hcur.
    by apply (extract_symlink_leads inode target cur' p (dst p) w d).
  - rewrite !not_elem_of_cons in T. destruct T as (T1 & T2 & T3 & _).
    rewrite !(proj2 (Z.eqb_neq _ _)) by done.
    eexists (asked w _). split; [reflexivity|]. split; [done|].
    cbn [asked w_calls]. rewrite disk_err, Hd, <- Hcur. by destruct d.
Qed.

(** ** The whole tree *)
Context (contents : sqfs_dir_entry -> content).

(** What is on the disk and what is still to come make up [final]. *)
Definition copying (final : gmap (list byte) node) (evs : list event) (calls : list call) : Prop :=
  let d := disk_after h calls in
  d.(d_cur) = None /\ in_turn contents d.(d_nodes) evs /\ grown contents d.(d_nodes) evs = final.

Lemma item_keeps final p e :
  holds e (contents e) -> keeps fs X (extract_item makedev other h (text "-a") fs) (copying final) p e.
Proof.
  intros Hc evs t w (Hcur & [Hp Hr] & Hg) Hw Ht He. destruct Hp as [Hn Hl Hs Hf Hd].
  destruct (extract_item_leads e (contents e) p t w (disk_after h w.(w_calls)) Hc Ht He Hn Hl eq_refl Hcur Hw Hs)
    as (w' & E & Hw' & Hd'); [unfold free; by rewrite Hs|done|].
  exists w'. split; [done|]. split; [done|]. unfold copying. rewrite Hd'. by split; [|split].
Qed.

End right.

(** C7: extracting a whole archive to a disk that is empty and has room makes squashfs-root
    and in it, for every item of the archive whose inode is in its basic form, a directory, a
    file with the bytes of its contents and its mode, or a link to the first bytes of its
    target, as many as the link's own path has.  An item of any other type (a device, a fifo,
    a socket, and every extended inode) is passed by: nothing is at its path.  Every directory
    is made before what is in it, nothing else is made, and the program ends with status 0.
    The archive has to be one of which the program can do that: its paths differ and fit the array of
    1024 bytes, a directory with something in it has a basic inode, every file can be stat'ed
    and no part of 64 KiB of a file begins where the index of the block list is short (C1). *)
Theorem squashfuse_extract_correct (makedev : Z -> Z -> Z) (other : sqfs_inode -> Z) (h : host) (libs : codec_libs)
    {CI : CacheImpl} {CL : CacheLaws CI} (X : expectations)
    (fd : list byte) (fs0 fs : sqfs) (t0 : sqfs_traverse) (new_root : Z) (s : sqfs_state)
    (name image : list byte) (inode : sqfs_inode) (x : xtra_dir) (its : list dir_item)
    (index : list (squashfs_dir_index * list byte)) (tree : forest)
    (contents : sqfs_dir_entry -> content) (f : fuel) :
  disk_laws h -> codec_laws libs -> len fd <= 2 ^ 62 ->
  (forall calls, h.(images) calls image = Some fd) ->
  sqfs_init libs fd 0 [] = Ret (SQFS_OK, fs, s) ->
  sqfs_inode_get (m := O) fs (sqfs_inode_root fs) = Ret (Success inode) ->
  dir_on_disk fs inode x its index -> listing no_header 0 its = roots tree ->
  forest_on_disk fs tree -> height tree < 2 ^ 32 ->
  (forall p e, Item p e ∈ events uncut [] tree -> holds makedev fs X e (contents e)) ->
  tidy contents tree -> NoDup (paths tree) ->
  (forall p, p ∈ paths tree -> name_ok p /\ len (dst p) < 1024) ->
  lasts f (len (events uncut [] tree) + 1) ->
  exists w, execute (main makedev other h libs f fs0 t0 new_root [name; image; text "-a"]) [] = Ret (w, 0) /\
    let m := (disk_after h w.(w_calls)).(d_nodes) in
    m !! text "squashfs-root" = Some NDir /\
    (forall p e, Item p e ∈ events uncut [] tree -> m !! dst p = node_of p (contents e)) /\
    (forall q, is_Some (m !! q) -> q = text "squashfs-root" \/ exists p, p ∈ paths tree /\ q = dst p).
Proof.
  intros Hh Hlibs Hlen Him Ei Er Hd Hl Hf Hht Hc Ht Hnd Hp Hfuel.
  destruct (init_success _ _ _ _ _ _ Hlibs Hlen Ei) as (Hok & Hfr & _).
  assert (BlockOk.good fs X s) as Hs by (split; [by apply inv_fresh|by eapply init_mem]).
  destruct (make_dir_run h Hh root_prefix (mk_world [] (null_state [])) empty_disk eq_refl eq_refl I)
    as (calls & Em & Hcalls).
  destruct (traversal_gives fs Hok X s t0 _ inode x its index tree uncut Hs Er Hd Hl Hf Hht)
    as (s1 & t1 & E1 & Hs1 & Hg).
  set (evs := events uncut [] tree) in *. set (m0 := {[ text "squashfs-root" := NDir ]} : gmap (list byte) node).
  assert (disk_after h (calls ++ [Open image]) = mk_disk m0 None) as Hd0
    by (rewrite disk_step, Hcalls by (by right); reflexivity).
  assert (forall p, m0 !! dst p = None) as Hm0.
  { intros p. apply lookup_singleton_ne. intros E. apply (f_equal length) in E. unfold dst in E.
    rewrite length_app in E. cbn in E. lia. }
  assert (in_turn contents m0 evs) as Hturn.
  { apply (tree_in_turn contents tree []); [done|apply lookup_singleton_eq|done|].
    intros p Hin. destruct (Hp p Hin). by split; [|split]. }
  destruct (walk_all fs X (extract_item makedev other h (text "-a") fs)
    (copying h contents (grown contents m0 evs)) ltac:(done) f evs t1 (mk_world (calls ++ [Open image]) s1))
    as (w2 & t2 & E2 & (Hcur & _ & Hw2) & _ & Hcl);
    [by unfold copying; cbn [w_calls]; rewrite Hd0|done|by apply Hg| |done|].
  { intros p e Hin. apply (item_keeps makedev h Hh fs Hok X other contents), (Hc p e Hin). }
  destruct (sqfs_traverse_close t2) as [t3|] eqn:E3; [|done]. cbn [grown] in Hw2.
  eexists. split.
  - unfold execute, main, sqfs_open_image. run_p. rewrite Em. cbn [w_fs].
    rewrite (open_image_ok h libs fs0 image fd 0 [] new_root (mk_world calls (null_state [])) fs s (Him _) Ei).
    rewrite decide_True by done. unfold reader. run_p. cbn [w_fs w_calls]. rewrite E1, E2, E3.
    cbn [run]. unfold sqfs_fd_close, tell, asked. reflexivity.
  - cbn [w_calls]. rewrite disk_step by (by right). change (step ?d Close) with d. rewrite Hw2.
    split; [by apply (grown_kept contents _ _ _ _ Hturn), lookup_singleton_eq|]. split.
    + intros p e Hin. by apply grown_item.
    + intros q Hq. destruct (decide (q ∈ map dst (paths tree))) as [(p & -> & Hin)%list_elem_of_fmap|Hno];
        [right; by exists p|left].
      rewrite grown_other in Hq.
      * destruct (decide (q = text "squashfs-root")) as [|Hne]; [done|].
        destruct Hq as [n Hq]. unfold m0 in Hq. by rewrite lookup_singleton_ne in Hq.
      * intros p Hin ->. apply Hno, list_elem_of_fmap. by exists p.
Qed.

(** ** A file on its own *)

Definition chosen (what p : list byte) : bool :=
  starts_with what (c_str p) || bool_decide (what = text "-a").

Section alone.
Context (makedev : Z -> Z -> Z) (other : sqfs_inode -> Z) (h : host) (Hh : disk_laws h).
Context (fs : sqfs) {CI : CacheImpl} {CL : CacheLaws CI} (X : expectations) (what : list byte).

(** Only squashfs-root is there. *)
Definition bare (calls : list call) : Prop :=
  disk_after h calls = mk_disk {[ text "squashfs-root" := NDir ]} None.

Lemma dst_absent p : ({[ text "squashfs-root" := NDir ]} : gmap (list byte) node) !! dst p = None.
Proof.
  apply lookup_singleton_ne. intros E. apply (f_equal length) in E. unfold dst in E.
  rewrite length_app in E. cbn in E. lia.
Qed.

Lemma unchosen_keeps p e :
  chosen what p = false -> keeps fs X (extract_item makedev other h what fs) (fun _ => bare) p e.
Proof.
  intros Hc evs t w HI Hw Ht _. exists w. split; [|done]. unfold extract_item, run. run_p. rewrite Ht.
  unfold chosen in Hc. by rewrite Hc.
Qed.

(** [m] ends at fopen. *)
Definition fails_at_fopen {A} (m : outcome (world * (A + Z))) : Prop :=
  exists w', m = Ret (w', inr ERR_MISC) /\ bare w'.(w_calls) /\
    last w'.(w_calls) = Some (Stderr (text "fopen error" ++ [newline])).

Lemma bare_err calls bs : bare calls -> bare (calls ++ [Stderr bs]).
Proof. unfold bare. by rewrite disk_err. Qed.

Lemma fails_report {A} what' bs aft (k : P A) w :
  bare w.(w_calls) -> (forall w', w'.(w_fs) = w.(w_fs) -> bare w'.(w_calls) -> fails_at_fopen (k w')) ->
  fails_at_fopen ((_ ← report what' bs aft; k) w).
Proof. intros Hb Hk. apply (Hk (asked w _)); [done|by apply bare_err]. Qed.

Lemma fails_bind {A B} (m : P A) (k : A -> P B) w : fails_at_fopen (m w) -> fails_at_fopen ((m ≫= k) w).
Proof. intros (w' & E & H). exists w'. split; [|done]. run_p. by rewrite E. Qed.

Lemma reg_fails inode st p a w :
  sqfs_stat makedev (m := O) fs inode = Ret (Success st) -> strip (dst p) = dst p -> dirname p = Some a ->
  bare w.(w_calls) -> BlockOk.good fs X w.(w_fs) -> fails_at_fopen (extract_reg makedev h fs inode (dst p) w).
Proof.
  intros Est Hs Ha Hb Hw. unfold extract_reg. apply fails_report; [done|]. intros w1 Ew Hb1. rewrite <- Ew in Hw.
  destruct (good_exact fs X false _ _ w1.(w_fs) _ (sim_stat makedev fs X false inode) Hw Est) as (s2 & E2 & Hs2).
  unfold reader, die, exit, tell, sys, asked. run_p. rewrite E2. cbn [w_calls w_fs].
  assert (bare (w_calls w1 ++ [Stdout (permissions (st_mode st))])) as Hb2
    by (unfold bare; rewrite disk_step by (by right); exact Hb1).
  assert (answers h (w_calls w1 ++ [Stdout (permissions (st_mode st))]) (Fopen (dst p)) = false) as Ef.
  { apply (law_fopen_no_dir _ Hh). unfold bare in Hb2. rewrite Hb2. unfold in_dir. rewrite Hs.
    unfold dst. rewrite (dirname_prefix _ _ _ Ha). cbn [d_nodes]. intros H. pose proof (dst_absent a) as Hd.
    unfold dst in Hd. congruence. }
  rewrite Ef. cbn [negb w_calls]. eexists. split; [reflexivity|]. cbn [w_calls]. split; [|apply last_snoc].
  apply bare_err. unfold bare. by rewrite disk_after_snoc, Ef.
Qed.

Lemma nested_exits e mode data p a t w :
  holds makedev fs X e (CFile mode data) -> chosen what p = true -> name_ok p -> len (dst p) < 1024 ->
  strip (dst p) = dst p -> dirname p = Some a ->
  bare w.(w_calls) -> BlockOk.good fs X w.(w_fs) -> path_bytes t = Ret p -> t.(t_entry) = e ->
  fails_at_fopen (extract_item makedev other h what fs t w).
Proof.
  intros Hc Hch Hn Hl Hs Ha HI Hw Ht He.
  inversion Hc as [|inode x mds hs bs tail st E T Hfile Hco Htl Est| |]; subst.
  unfold extract_item. run_p. rewrite Ht. cbn [run]. unfold chosen in Hch. rewrite Hch.
  apply fails_report; [done|]. intros w1 Ew1 Hb1. apply fails_report; [done|]. intros w2 Ew2 Hb2.
  rewrite <- Ew1, <- Ew2 in Hw.
  destruct (good_exact fs X false _ _ w2.(w_fs) _ (sim_inode_get fs X false _) Hw E) as (s1 & E1 & Hs1).
  unfold reader, sqfs_dentry_inode. run_p. rewrite E1, T. cbv zeta.
  apply fails_report; [done|]. intros w3 Ew3 Hb3. apply fails_report; [done|]. intros w4 Ew4 Hb4.
  cbn [w_fs] in Ew3. rewrite <- Ew3, <- Ew4 in Hs1. run_p.
  assert (prefixed (c_str p) = Ret (dst p)) as ->
    by (rewrite c_str_ok by done; unfold prefixed; fold (dst p); zbool; done || lia).
  cbn [run]. change (SQUASHFS_REG_TYPE =? SQUASHFS_DIR_TYPE) with false.
  change (SQUASHFS_REG_TYPE =? SQUASHFS_REG_TYPE) with true. cbv iota.
  apply fails_bind. by apply (reg_fails inode st p a).
Qed.
End alone.

(** the parents of what is asked for are not made: when the first item whose path starts with
    the argument is a file that is not at the top, the program ends with status 1 and the
    disk has nothing but an empty squashfs-root. *)
Theorem squashfuse_extract_alone (makedev : Z -> Z -> Z) (other : sqfs_inode -> Z) (h : host) (libs : codec_libs)
    {CI : CacheImpl} {CL : CacheLaws CI} (X : expectations)
    (fd : list byte) (fs0 fs : sqfs) (t0 : sqfs_traverse) (new_root : Z) (s : sqfs_state)
    (name image what : list byte) (inode : sqfs_inode) (x : xtra_dir) (its : list dir_item)
    (index : list (squashfs_dir_index * list byte)) (tree : forest)
    (evs evs' : list event) (p a : list byte) (e : sqfs_dir_entry) (mode : Z) (data : list byte) (f : fuel) :
  disk_laws h -> codec_laws libs -> len fd <= 2 ^ 62 ->
  (forall calls, h.(images) calls image = Some fd) ->
  sqfs_init libs fd 0 [] = Ret (SQFS_OK, fs, s) ->
  sqfs_inode_get (m := O) fs (sqfs_inode_root fs) = Ret (Success inode) ->
  dir_on_disk fs inode x its index -> listing no_header 0 its = roots tree ->
  forest_on_disk fs tree -> height tree < 2 ^ 32 ->
  events uncut [] tree = evs ++ Item p e :: evs' ->
  (forall q i, Item q i ∈ evs -> chosen what q = false) -> chosen what p = true ->
  holds makedev fs X e (CFile mode data) -> name_ok p -> len (dst p) < 1024 ->
  strip (dst p) = dst p -> dirname p = Some a ->
  lasts f (len evs + 1) ->
  exists w, execute (main makedev other h libs f fs0 t0 new_root [name; image; what]) [] = Ret (w, ERR_MISC) /\
    (disk_after h w.(w_calls)).(d_nodes) = {[ text "squashfs-root" := NDir ]} /\
    last w.(w_calls) = Some (Stderr (text "fopen error" ++ [newline])).
Proof.
  intros Hh Hlibs Hlen Him Ei Er Hd Hl Hf Hht Hev Hbefore Hch Hc Hn Hlp Hs Ha Hfuel.
  destruct (init_success _ _ _ _ _ _ Hlibs Hlen Ei) as (Hok & Hfr & _).
  assert (BlockOk.good fs X s) as Hg0 by (split; [by apply inv_fresh|by eapply init_mem]).
  destruct (make_dir_run h Hh root_prefix (mk_world [] (null_state [])) empty_disk eq_refl eq_refl I)
    as (calls & Em & Hcalls).
  destruct (traversal_gives fs Hok X s t0 _ inode x its index tree uncut Hg0 Er Hd Hl Hf Hht)
    as (s1 & t1 & E1 & Hs1 & Hg). rewrite Hev in Hg.
  assert (bare h (calls ++ [Open image])) as Hb
    by (unfold bare; rewrite disk_step, Hcalls by (by right); reflexivity).
  destruct (walk_exit fs X (extract_item makedev other h what fs) (fun _ => bare h) ltac:(done) f evs p e evs' t1
    (mk_world (calls ++ [Open image]) s1) ERR_MISC
    (fun w' => bare h w'.(w_calls) /\ last w'.(w_calls) = Some (Stderr (text "fopen error" ++ [newline]))))
    as (w2 & E2 & Hb2 & Hlast); [done|done|by apply Hg| | |done|].
  { intros q i Hq. apply unchosen_keeps. by eapply Hbefore. }
  { intros t w HI Hw Ht He. by apply (nested_exits makedev other h Hh fs X what e mode data p a). }
  exists w2. split; [|split; [unfold bare in Hb2; by rewrite Hb2|done]].
  unfold execute, main, sqfs_open_image. run_p. rewrite Em. cbn [w_fs].
  rewrite (open_image_ok h libs fs0 image fd 0 [] new_root (mk_world calls (null_state [])) fs s (Him _) Ei).
  rewrite decide_True by done. unfold reader. run_p. cbn [w_fs w_calls]. by rewrite E1, E2.
Qed.

(** ** Sample *)
#[local] Existing Instance sample_cache.

Definition arch_contents (e : sqfs_dir_entry) : content :=
  if e.(e_type) =? SQUASHFS_REG_TYPE then CFile 0x81a4 arch_data
  else if e.(e_type) =? SQUASHFS_DIR_TYPE then CDir
  else CLink arch_target.

Lemma arch_holds makedev p e :
  Item p e ∈ events uncut [] arch_forest -> holds makedev arch_fs arch_expectations e (arch_contents e).
Proof.
  intros H.
  assert (forall e, e.(e_inode) = 64 ->
    holds makedev arch_fs arch_expectations e (CFile 0x81a4 arch_data)) as Hfile.
  { intros e' He. refine (holds_file makedev arch_fs arch_expectations e' arch_file arch_xreg _ _ _ _ arch_stat
      _ eq_refl arch_file_on_disk arch_coherent (fun start Hs _ => arch_index start Hs) (arch_file_stat makedev)).
    rewrite He. exact arch_file_get. }
  repeat (apply elem_of_cons in H as [H|H]; [try discriminate H; injection H as -> ->|]);
    [| | | |by apply not_elem_of_nil in H].
  - by apply Hfile.
  - by eapply holds_dir; [apply arch_sub_get|].
  - by apply Hfile.
  - destruct arch_link_target as [cur' E].
    refine (holds_link makedev arch_fs arch_expectations arch_entry_l arch_link arch_target cur'
      arch_link_get eq_refl eq_refl eq_refl _ _ E _); [vm_compute; intuition congruence..|].
    repeat constructor; vm_compute; congruence.
Qed.

Definition arch_main : P Z :=
  main (fun _ _ => 0) (fun _ => 0) arch_host sample_libs full_tank arch_fs stale_trv 0 [PROGNAME; [x69]; text "-a"].

(** The target of the link "l" is cut to one byte. *)
Lemma squashfuse_extract_correct_witness :
  exists w, execute arch_main [] = Ret (w, 0) /\
    let m := (disk_after arch_host w.(w_calls)).(d_nodes) in
    m !! text "squashfs-root/d" = Some NDir /\
    m !! text "squashfs-root/d/x" = Some (NFile (Some 0x81a4) arch_data) /\
    m !! text "squashfs-root/l" = Some (NLink (text "d")).
Proof.
  destruct (squashfuse_extract_correct (fun _ _ => 0) (fun _ => 0) arch_host sample_libs (CL := sample_laws) arch_expectations
    arch_image arch_fs arch_fs stale_trv 0 arch_state PROGNAME [x69] arch_root _ _ _ arch_forest arch_contents
    full_tank (disk_host_laws _) sample_libs_ok ltac:(vm_compute; congruence) ltac:(reflexivity) arch_init_ok
    arch_root_get arch_root_on_disk arch_listing arch_forest_on_disk ltac:(vm_compute; reflexivity)
    (arch_holds _)) as (w & E & _ & Hm & _).
  - cbn [tidy arch_forest]. repeat split; try done; try (intros _; by left); eexists; (split; [done|]); (split; [done|]);
      apply (bool_decide_unpack _); vm_compute; exact I.
  - apply (bool_decide_unpack _); vm_compute; exact I.
  - intros p Hp. repeat (apply elem_of_cons in Hp as [->|Hp]; [split; [repeat constructor; vm_compute; congruence|done]|]).
    by apply not_elem_of_nil in Hp.
  - apply full_tank_lasts; vm_compute; congruence.
  - exists w. split; [exact E|]. split; [|split].
    + apply (Hm [x64] arch_entry_d). right. by left.
    + apply (Hm [x64; x2f; x78] arch_entry_x). do 2 right. by left.
    + apply (Hm [x6c] arch_entry_l). do 4 right. by left.
Defined.

(** "d/x" alone. *)
Lemma squashfuse_extract_alone_witness :
  exists w, execute (main (fun _ _ => 0) (fun _ => 0) arch_host sample_libs full_tank arch_fs stale_trv 0
      [PROGNAME; [x69]; text "d/x"]) [] = Ret (w, 1) /\
    (disk_after arch_host w.(w_calls)).(d_nodes) = {[ text "squashfs-root" := NDir ]}.
Proof.
  destruct (squashfuse_extract_alone (fun _ _ => 0) (fun _ => 0) arch_host sample_libs (CL := sample_laws) arch_expectations
    arch_image arch_fs arch_fs stale_trv 0 arch_state PROGNAME [x69] (text "d/x") arch_root _ _ _ arch_forest
    [Item [x61] arch_entry_a; Item [x64] arch_entry_d] [Dir_end [x64]; Item [x6c] arch_entry_l]
    [x64; x2f; x78] [x64] arch_entry_x 0x81a4 arch_data
    full_tank (disk_host_laws _) sample_libs_ok ltac:(vm_compute; congruence) ltac:(reflexivity) arch_init_ok
    arch_root_get arch_root_on_disk arch_listing arch_forest_on_disk ltac:(vm_compute; reflexivity) eq_refl)
    as (w & E & Hm & _); [|reflexivity| | | | | | |].
  - intros q i Hq. repeat (apply elem_of_cons in Hq as [Hq|Hq]; [injection Hq as -> ->; reflexivity|]).
    by apply not_elem_of_nil in Hq.
  - apply (arch_holds _ [x64; x2f; x78] arch_entry_x). do 2 right. by left.
  - repeat constructor; vm_compute; congruence.
  - reflexivity.
  - reflexivity.
  - reflexivity.
  - apply full_tank_lasts; vm_compute; congruence.
  - exists w. split; [exact E|exact Hm].
Defined.
