(* ===== verification/Ll.v ===== *)
(** * Ll: the requests of the low-level FUSE driver (ll.c)

    A handler gets a request of the kernel and gives one reply.  [driver] is what the
    handlers share: the archive with its inode numbers, the files and directories that
    are open (the objects behind [fi->fh], by address), and what the idle timeout looks
    at.  libfuse packs the entries of a directory: [dirent_size] is the room it needs
    for a name, and a packed buffer is the list of its entries.  [makedev] is the C
    library's; [mt] is SQFS_MULTITHREADED; [now] is what time() gives. *)
From Stdlib Require Import Strings.String.
From S2P Require Import Prelude Swap Hash Cache Decompress FsState Block BlockOk MdRead Table Xattr Inode Dir Stat LlInode File Fuse Init System Util Mount.

(** signal.h *)
Definition SIGINT : Z := 2.
Definition SIGALRM : Z := 14.
Definition SIGTERM : Z := 15.

Definition SQFS_FUSE_INODE_NONE : Z := 0.
(** O_WRONLY | O_RDWR *)
Definition O_WRONLY_RDWR : Z := 3.

Inductive handle := FileHandle (inode : sqfs_inode) | DirHandle (inode : sqfs_inode).

Record driver := mk_driver {
  d_ll : sqfs_ll;
  handles : gmap positive handle;
  open_refcount : Z;
  last_access : Z;
  idle_timeout_secs : Z;
  fuse_instance : bool
}.

(** An entry of a directory as libfuse is given it. *)
Record dirent := mk_dirent { dn_name : list byte; dn_ino : Z; dn_mode : Z; dn_off : Z }.

Inductive reply :=
  | ReplyErr (err : Z)
  | ReplyNone
  | ReplyAttr (st : stat)
  | ReplyOpen (fh : positive) (keep_cache : bool)
  | ReplyEntry (ino : Z) (attr : stat)
  | ReplyBuf (bs : list byte)
  | ReplyDir (ds : list dirent)
  | ReplyReadlink (target : list byte)
  | ReplyXattr (size : Z)
  | ReplyStatfs (st : statvfs).

Definition stat_zero : stat := mk_stat 0 0 0 0 0 0 0 0 0 0.
Definition with_ino (st : stat) (ino : Z) : stat :=
  mk_stat ino st.(st_mode) st.(st_nlink) st.(st_mtime) st.(st_size) st.(st_blocks) st.(st_rdev)
    st.(st_blksize) st.(st_uid) st.(st_gid).

Definition with_ll (d : driver) (ll : sqfs_ll) : driver :=
  mk_driver ll d.(handles) d.(open_refcount) d.(last_access) d.(idle_timeout_secs) d.(fuse_instance).

Section ll.
Context {CI : CacheImpl} (makedev : Z -> Z -> Z) (dirent_size : list byte -> Z) (mt : bool).

(** ** The idle timeout *)
Definition update_access_time (now : Z) (d : driver) : driver :=
  if mt && (d.(idle_timeout_secs) =? 0) then d
  else mk_driver d.(d_ll) d.(handles) d.(open_refcount) now d.(idle_timeout_secs) d.(fuse_instance).

(** A [sig_atomic_t] is an [int]. *)
Definition update_open_refcount (delta : Z) (d : driver) : driver :=
  mk_driver d.(d_ll) d.(handles) (s32 (d.(open_refcount) + delta)) d.(last_access)
    d.(idle_timeout_secs) d.(fuse_instance).

(** What the alarm does: nothing more, or it interrupts the process, or it sets itself
    again. *)
Inductive tick := TickIgnored | TickInterrupt | TickAgain.

Definition alarm_tick (now : Z) (d : driver) : tick :=
  if negb d.(fuse_instance) || (d.(idle_timeout_secs) =? 0) then TickIgnored
  else if (d.(open_refcount) =? 0) && (d.(idle_timeout_secs) <? now - d.(last_access))
  then TickInterrupt
  else TickAgain.

(** The variables that setup_idle_timeout sets. *)
Definition watch_idle (now timeout_secs : Z) (d : driver) : driver :=
  let d := update_access_time now
    (mk_driver d.(d_ll) d.(handles) d.(open_refcount) d.(last_access) timeout_secs d.(fuse_instance)) in
  mk_driver d.(d_ll) d.(handles) d.(open_refcount) d.(last_access) d.(idle_timeout_secs) true.

Definition setup_idle_timeout (h : host) (now timeout_secs : Z) (d : driver) : P driver :=
  let d := watch_idle now timeout_secs d in
  ok ← sys h (Sigaction SIGALRM);
  _ ← (if (ok : bool) then tell (Alarm 1)
       else tell (Perror (text "fuse: cannot get old signal handler")));
  mret d.

Definition teardown_idle_timeout (d : driver) : P driver :=
  _ ← tell (Alarm 0);
  mret (mk_driver d.(d_ll) d.(handles) d.(open_refcount) d.(last_access) d.(idle_timeout_secs) false).

(** ** What [fi->fh] points to *)
Definition new_handle (d : driver) (h : handle) : driver * positive :=
  let fh := fresh (dom d.(handles)) in
  (mk_driver d.(d_ll) (<[fh := h]> d.(handles)) d.(open_refcount) d.(last_access)
     d.(idle_timeout_secs) d.(fuse_instance), fh).

Definition free_handle (d : driver) (fh : option positive) : outcome driver :=
  match fh with
  | None => Ret d
  | Some fh =>
      match d.(handles) !! fh with
      | None => Crash MemFault
      | Some _ =>
          Ret (mk_driver d.(d_ll) (delete fh d.(handles)) d.(open_refcount) d.(last_access)
                 d.(idle_timeout_secs) d.(fuse_instance))
      end
  end.

Definition file_handle (d : driver) (fh : option positive) : outcome sqfs_inode :=
  match fh ≫= fun fh => d.(handles) !! fh with Some (FileHandle i) => Ret i | _ => Crash MemFault end.
Definition dir_handle (d : driver) (fh : option positive) : outcome sqfs_inode :=
  match fh ≫= fun fh => d.(handles) !! fh with Some (DirHandle i) => Ret i | _ => Crash MemFault end.

(** ** Inodes *)

(** [Success None] leaves the inode of the caller as it was. *)
Definition sqfs_ll_iget (ll : sqfs_ll) (i : Z) : M (result (option sqfs_inode)) :=
  if i =? SQFS_FUSE_INODE_NONE then mret (Success None)
  else
    r ← try (sqfs_ll_inode ll i);
    mret (match r with Success inode => Success (Some inode) | Failure e => Failure e end).

(** The inode, or the reply that [sqfs_ll_iget] sent; an inode nobody wrote is not to be
    read. *)
Definition with_inode (d : driver) (i : Z) (k : sqfs_inode -> M (driver * reply))
    : M (driver * reply) :=
  r ← sqfs_ll_iget d.(d_ll) i;
  match r with
  | Failure _ => mret (d, ReplyErr ENOENT)
  | Success None => lift (Crash MemFault)
  | Success (Some inode) => k inode
  end.

Definition sqfs_ll_op_getattr (now : Z) (d : driver) (ino : Z) : M (driver * reply) :=
  let d := update_access_time now d in
  with_inode d ino (fun inode =>
    r ← try (sqfs_stat makedev d.(d_ll).(ll_fs) inode);
    mret (d, match r with
             | Failure _ => ReplyErr ENOENT
             | Success st => ReplyAttr (with_ino st ino)
             end)).

Definition sqfs_ll_op_lookup (now : Z) (d : driver) (parent : Z) (name : list byte)
    : M (driver * reply) :=
  let d := update_access_time now d in
  let fs := d.(d_ll).(ll_fs) in
  with_inode d parent (fun dir =>
    if negb (S_ISDIR (mode dir)) then mret (d, ReplyErr ENOTDIR)
    else
      r ← try (sqfs_dir_lookup fs dir name (len name));
      match r with
      | Failure _ => mret (d, ReplyErr EIO)
      | Success None => mret (d, ReplyEntry 0 stat_zero)
      | Success (Some entry) =>
          r ← try (sqfs_inode_get fs (sqfs_dentry_inode entry));
          match r with
          | Failure _ => mret (d, ReplyErr ENOENT)
          | Success inode =>
              r ← try (sqfs_stat makedev fs inode);
              match r with
              | Failure _ => mret (d, ReplyErr EIO)
              | Success st =>
                  '(ll, ino) ← ino_register d.(d_ll) entry;
                  mret (with_ll d ll, ReplyEntry ino (with_ino st ino))
              end
          end
      end).

Definition sqfs_ll_op_forget (now : Z) (d : driver) (ino nlookup : Z) : M (driver * reply) :=
  let d := update_access_time now d in
  _ ← sqfs_ll_iget d.(d_ll) SQFS_FUSE_INODE_NONE;
  ll ← lift (ino_forget d.(d_ll) ino nlookup);
  mret (with_ll d ll, ReplyNone).

(** ** Open files and directories *)
Definition sqfs_ll_op_opendir (now : Z) (d : driver) (ino : Z) : M (driver * reply) :=
  let d := update_access_time now d in
  ok ← malloc_ok;
  if negb ok then mret (d, ReplyErr ENOMEM)
  else
    with_inode d ino (fun inode =>
      if negb (S_ISDIR (mode inode)) then mret (d, ReplyErr ENOTDIR)
      else
        let (d, fh) := new_handle d (DirHandle inode) in
        mret (update_open_refcount 1 d, ReplyOpen fh false)).

Definition sqfs_ll_op_open (now : Z) (d : driver) (ino flags : Z) : M (driver * reply) :=
  let d := update_access_time now d in
  if negb ((flags &&& O_WRONLY_RDWR) =? 0) then mret (d, ReplyErr EROFS)
  else
    ok ← malloc_ok;
    if negb ok then mret (d, ReplyErr ENOMEM)
    else
      r ← try (sqfs_ll_inode d.(d_ll) ino);
      match r with
      | Failure _ => mret (d, ReplyErr ENOENT)
      | Success inode =>
          if negb (S_ISREG (mode inode)) then mret (d, ReplyErr EISDIR)
          else
            let (d, fh) := new_handle d (FileHandle inode) in
            mret (update_open_refcount 1 d, ReplyOpen fh true)
      end.

Definition sqfs_ll_op_create (now : Z) (d : driver) : M (driver * reply) :=
  mret (update_access_time now d, ReplyErr EROFS).

Definition sqfs_ll_op_releasedir (now : Z) (d : driver) (fh : option positive)
    : M (driver * reply) :=
  let d := update_open_refcount (-1) (update_access_time now d) in
  d ← lift (free_handle d fh);
  mret (d, ReplyErr 0).

Definition sqfs_ll_op_release (now : Z) (d : driver) (fh : option positive)
    : M (driver * reply) :=
  d ← lift (free_handle d fh);
  mret (update_open_refcount (-1) (update_access_time now d), ReplyErr 0).

Definition sqfs_ll_op_read (now : Z) (d : driver) (fh : option positive) (size off : Z)
    : M (driver * reply) :=
  ok ← malloc_ok;
  if negb ok then mret (d, ReplyErr ENOMEM)
  else
    let d := update_access_time now d in
    inode ← lift (file_handle d fh);
    r ← try (sqfs_read_range d.(d_ll).(ll_fs) inode off (s64 size));
    mret (d, match r with
             | Failure _ => ReplyErr EIO
             | Success buf => if len buf =? 0 then ReplyBuf [] else ReplyBuf buf
             end).

Definition sqfs_ll_op_readlink (now : Z) (d : driver) (ino : Z) : M (driver * reply) :=
  let d := update_access_time now d in
  let fs := d.(d_ll).(ll_fs) in
  with_inode d ino (fun inode =>
    if negb (S_ISLNK (mode inode)) then mret (d, ReplyErr EINVAL)
    else
      r ← try (sqfs_readlink fs inode None);
      match r with
      | Failure _ => mret (d, ReplyErr EIO)
      | Success (size, _) =>
          ok ← malloc_ok;
          if negb ok then mret (d, ReplyErr ENOMEM)
          else
            r ← try (sqfs_readlink fs inode (Some size));
            mret (d, match r with
                     | Failure _ => ReplyErr EIO
                     | Success (_, dst) => ReplyReadlink (c_str dst)
                     end)
      end).

(** ** Directories *)

(** An entry goes into the buffer when there is room; the room it needs, in any case. *)
Definition sqfs_ll_add_direntry (buf : list dirent) (bufsize : Z) (e : dirent)
    : Z * list dirent :=
  let esize := dirent_size e.(dn_name) in
  (esize, if esize <=? bufsize then buf ++ [e] else buf).

(** "." for offset 0 and ".." for offset 1. *)
Fixpoint dots_loop (f : fuel) (dir_offset size : Z) (buf : list dirent)
    : outcome (Z * Z * list dirent) :=
  if dir_offset <? 2 then
    match f with
    | NoFuel => Crash OutOfFuel
    | More k =>
        let name := if dir_offset =? 0 then [x2e] else [x2e; x2e] in
        let dir_offset := dir_offset + 1 in
        let (esize, buf) := sqfs_ll_add_direntry buf size (mk_dirent name 1 S_IFDIR dir_offset) in
        if size <? esize then Ret (dir_offset, size, buf)
        else dots_loop (k tt) dir_offset (size - esize) buf
    end
  else Ret (dir_offset, size, buf).

(** The error and the buffer. *)
Fixpoint entries_loop (f : fuel) (ll : sqfs_ll) (dir : sqfs_dir) (size : Z) (buf : list dirent)
    : M (Z * list dirent) :=
  match f with
  | NoFuel => lift (Crash OutOfFuel)
  | More k =>
      r ← try (sqfs_dir_next ll.(ll_fs) dir true);
      match r with
      | Failure _ => mret (EIO, buf)
      | Success (_, None) => mret (0, buf)
      | Success (dir, Some entry) =>
          let e := mk_dirent (c_str (default [] (sqfs_dentry_name entry))) (ino_fuse_num ll entry)
                     (sqfs_dentry_mode entry) (sqfs_dentry_next_offset entry + 2) in
          let (esize, buf) := sqfs_ll_add_direntry buf size e in
          if size <? esize then mret (0, buf)
          else entries_loop (k tt) ll dir (size - esize) buf
      end
  end.

(** Without SQFS_BROKEN_DIR_OFFSETS. *)
Definition sqfs_ll_op_readdir (now : Z) (d : driver) (fh : option positive) (size off : Z)
    : M (driver * reply) :=
  let d := update_access_time now d in
  ok ← malloc_ok;
  if negb ok then mret (d, ReplyErr ENOMEM)
  else
    '(dir_offset, size, buf) ← lift (dots_loop full_tank off size []);
    let dir_offset := dir_offset - 2 in
    inode ← lift (dir_handle d fh);
    r ← try (sqfs_dir_open d.(d_ll).(ll_fs) inode dir_offset);
    match r with
    | Failure _ => mret (d, ReplyErr EINVAL)
    | Success dir =>
        '(err, buf) ← entries_loop full_tank d.(d_ll) dir size buf;
        mret (d, if err =? 0 then ReplyDir buf else ReplyErr err)
    end.

(** ** Extended attributes; [x] is the iterator on the stack. *)
Definition sqfs_ll_op_listxattr (now : Z) (d : driver) (x : sqfs_xattr) (ino size : Z)
    : M (driver * reply) :=
  let d := update_access_time now d in
  with_inode d ino (fun inode =>
    ok ← (if size =? 0 then mret true else malloc_ok);
    if negb ok then mret (d, ReplyErr ENOMEM)
    else
      let buf := if size =? 0 then None else Some size in
      r ← sqfs_listxattr d.(d_ll).(ll_fs) inode x buf;
      mret (d, match r with
               | inl ferr => ReplyErr ferr
               | inr (size, bs) => match buf with Some _ => ReplyBuf bs | None => ReplyXattr size end
               end)).

(** Without FUSE_XATTR_POSITION. *)
Definition sqfs_ll_op_getxattr (now : Z) (d : driver) (x : sqfs_xattr) (ino : Z)
    (name : list byte) (size : Z) : M (driver * reply) :=
  let d := update_access_time now d in
  with_inode d ino (fun inode =>
    ok ← malloc_ok;
    if negb ok then mret (d, ReplyErr ENOMEM)
    else
      r ← try (sqfs_xattr_lookup d.(d_ll).(ll_fs) inode x name (Some size));
      match r with
      | Failure _ => mret (d, ReplyErr EIO)
      | Success (real, buf) =>
          if real =? 0 then mret (d, ReplyErr sqfs_enoattr)
          else if size =? 0 then mret (d, ReplyXattr real)
          else if size <? real then mret (d, ReplyErr ERANGE)
          else
            match buf with
            | Some bs => mret (d, ReplyBuf bs)
            | None => lift (Crash MemFault)
            end
      end).

Definition stfs_ll_op_statfs (d : driver) : M (driver * reply) :=
  st ← lift (sqfs_statfs d.(d_ll).(ll_fs));
  mret (d, ReplyStatfs st).

(** ** The requests *)
Inductive request :=
  | Getattr (ino : Z)
  | LookupName (parent : Z) (name : list byte)
  | ForgetIno (ino nlookup : Z)
  | Opendir (ino : Z)
  | Readdir (fh : option positive) (size off : Z)
  | Releasedir (fh : option positive)
  | Open (ino flags : Z)
  | Create
  | Read (fh : option positive) (size off : Z)
  | Release (fh : option positive)
  | Readlink (ino : Z)
  | Listxattr (ino size : Z)
  | Getxattr (ino : Z) (name : list byte) (size : Z)
  | Statfs.

(** The table of operations that ll_main.c gives to libfuse. *)
Definition sqfs_ll_ops (x : sqfs_xattr) (now : Z) (d : driver) (r : request) : M (driver * reply) :=
  match r with
  | Getattr ino => sqfs_ll_op_getattr now d ino
  | LookupName parent name => sqfs_ll_op_lookup now d parent name
  | ForgetIno ino nlookup => sqfs_ll_op_forget now d ino nlookup
  | Opendir ino => sqfs_ll_op_opendir now d ino
  | Readdir fh size off => sqfs_ll_op_readdir now d fh size off
  | Releasedir fh => sqfs_ll_op_releasedir now d fh
  | Open ino flags => sqfs_ll_op_open now d ino flags
  | Create => sqfs_ll_op_create now d
  | Read fh size off => sqfs_ll_op_read now d fh size off
  | Release fh => sqfs_ll_op_release now d fh
  | Readlink ino => sqfs_ll_op_readlink now d ino
  | Listxattr ino size => sqfs_ll_op_listxattr now d x ino size
  | Getxattr ino name size => sqfs_ll_op_getxattr now d x ino name size
  | Statfs => stfs_ll_op_statfs d
  end.
End ll.

(** ** Start and end *)
Section start.
Context {CI : CacheImpl} (h : host).

Definition sqfs_ll_op_init (notify_pipe : option (list byte)) : P unit :=
  notify_mount_ready_async h notify_pipe NOTIFY_SUCCESS.

(** Where libfuse has fuse_daemonize. *)
Definition sqfs_ll_daemonize (fg : bool) : P Z := ask h (Fuse (Daemonize fg)).

(** FUSE 3. *)
Definition sqfs_ll_mount (mountpoint : list byte) : P sqfs_err :=
  ok ← sys h (Fuse SessionNew);
  if negb ok then mret SQFS_ERR
  else
    ok ← sys h (Fuse (SessionMount mountpoint));
    if negb ok then
      _ ← tell (Fuse SessionDestroy);
      mret SQFS_ERR
    else mret SQFS_OK.

Definition sqfs_ll_unmount : P unit :=
  _ ← tell (Fuse SessionUnmount);
  tell (Fuse SessionDestroy).

(** FUSE 2: [new] is HAVE_NEW_FUSE_UNMOUNT and [remove] HAVE_DECL_FUSE_SESSION_REMOVE_CHAN;
    [session] tells whether there is one. *)
Section fuse2.
Context (new remove : bool).

Definition sqfs_ll_unmount_2 (session : bool) (mountpoint : list byte) : P unit :=
  _ ← (if session then
         _ ← (if remove then tell (Fuse SessionRemoveChan) else mret tt);
         tell (Fuse SessionDestroy)
       else mret tt);
  if new then tell (Fuse (Unmount mountpoint))
  else
    _ ← tell (Fuse CloseChan);
    tell (Fuse (Unmount mountpoint)).

Definition sqfs_ll_mount_2 (mountpoint : list byte) : P sqfs_err :=
  let add_session : P sqfs_err :=
    ok ← sys h (Fuse LowlevelNew);
    if negb ok then
      _ ← sqfs_ll_unmount_2 false mountpoint;
      mret SQFS_ERR
    else
      _ ← tell (Fuse SessionAddChan);
      mret SQFS_OK in
  ok ← sys h (Fuse (Mount mountpoint));
  if negb ok then mret SQFS_ERR
  else if new then add_session
  else
    ok ← sys h (Fuse KernChanNew);
    if negb ok then
      _ ← tell (Fuse CloseChan);
      mret SQFS_ERR
    else add_session.
End fuse2.

Context (libs : codec_libs) (ino_size : Z).

(** [new_root] is the variable of [sqfs_init_with_subdir]; NULL is [None]. *)
Definition sqfs_ll_open_with_subdir (path : list byte) (offset : Z) (subdir : list byte)
    (new_root : Z) : P (option sqfs_ll) :=
  ok ← alloc;
  if negb ok then
    _ ← tell (Perror (text "Can't allocate memory"));
    mret None
  else
    (* [sqfs_init] sets the offset again *)
    '(err, fs) ← sqfs_open_image_with_subdir h libs fs_zero path offset subdir new_root;
    if decide (err = SQFS_OK) then
      r ← reader (sqfs_ll_init ino_size fs);
      match r with
      | Failure _ =>
          _ ← eprintln "Can't initialize this filesystem!";
          _ ← destroy_image fs;
          mret None
      | Success ll => mret (Some ll)
      end
    else mret None.

Definition sqfs_ll_open (path : list byte) (offset new_root : Z) : P (option sqfs_ll) :=
  sqfs_ll_open_with_subdir path offset [] new_root.

(** The members of the archive that the options set. *)
Definition set_ids (uid gid : Z) (ll : sqfs_ll) : sqfs_ll :=
  let fs := ll.(ll_fs) in
  mk_ll (mk_sqfs fs.(fd) fs.(fs_offset) uid gid fs.(sb) fs.(id_table) fs.(frag_table) fs.(export_table)
           fs.(decompressor) fs.(xattr_info) fs.(xattr_table)) ll.(ll_ino).

(** What is left of the archive, and the nodes freed with the private data. *)
Definition sqfs_ll_destroy (ll : sqfs_ll) : P (sqfs * Z) :=
  fs ← destroy_image ll.(ll_fs);
  mret (fs, ino_destroy ll.(ll_ino)).
End start.
