(* ===== verification/LlOk.v ===== *)
(** * LlOk: the low-level FUSE driver answers

    On any archive and with any failure of an allocation every request gets its reply,
    and the open files and directories are those the kernel was given and has not
    released ([sqfs_ll_serves]).  A [session] is an archive that was opened, a driver
    started on it, and requests; [session_since] also has the time of the last request that
    counts, from which the idle timeout runs ([alarm_tick_correct]). *)
From S2P Require Import Prelude Swap Hash Cache CacheST Decompress FsState Block BlockOk Sample MdRead Table Xattr Inode Dir Ends Stat SampleTree LlInode File FileOk Fuse Serve Init System Util Disk Ll.

(** ** No lack of fuel in the table of inodes *)
Definition has_end {A} (o : outcome A) : Prop := match o with Ret _ => True | Crash c => c <> OutOfFuel end.

Lemma has_end_bind {A B} (o : outcome A) (k : A -> outcome B) :
  has_end o -> (forall a, has_end (k a)) -> has_end (a ← o; k a).
Proof. intros Ho Hk. destruct o as [a|c]; [apply Hk|exact Ho]. Qed.

Section table.
Context {V : Type}.
Implicit Type h : sqfs_hash V.

Lemma bucket_end h i : has_end (bucket h i).
Proof. unfold bucket. by destruct (zlookup _ _). Qed.

Lemma add_internal_end h k v ms : has_end (sqfs_hash_add_internal h k v ms).
Proof.
  unfold sqfs_hash_add_internal. destruct (malloc ms) as [[|] ms']; [|done].
  by apply has_end_bind; [apply bucket_end|].
Qed.

Lemma rehash_end ob err h ms : has_end (rehash ob err h ms).
Proof.
  revert err h ms. induction ob as [|b ob IH]; intros err h ms; cbn [rehash]; [done|].
  apply has_end_bind; [|by intros [[? ?] ?]]. revert err h ms.
  induction b as [|[k v] b IHb]; intros err h ms; cbn [rehash_chain]; [done|].
  destruct err; try apply IHb. apply has_end_bind; [apply add_internal_end|by intros [[? ?] ?]].
Qed.

Lemma hash_add_end h k v ms : has_end (sqfs_hash_add h k v ms).
Proof.
  unfold sqfs_hash_add. destruct (_ <=? _); [|apply add_internal_end].
  apply has_end_bind.
  - unfold sqfs_hash_double. destruct (sqfs_hash_init _ _ _) as [[[] ?] ?]; try done. apply rehash_end.
  - intros [[[] ?] ?]; try done. apply add_internal_end.
Qed.

Lemma hash_get_end h k : has_end (sqfs_hash_get h k).
Proof. by apply has_end_bind; [apply bucket_end|]. Qed.
Lemma hash_update_end h k v : has_end (sqfs_hash_update h k v).
Proof. by apply has_end_bind; [apply bucket_end|]. Qed.
Lemma hash_remove_end h k : has_end (sqfs_hash_remove h k).
Proof.
  apply has_end_bind; [apply bucket_end|]. intros b. by destruct (chain_remove b k) as [[|] ?].
Qed.
End table.

Section any_archive.
Context (fs : sqfs) (Hfs : fs_ok fs) {CI : CacheImpl} {CL : CacheLaws CI}.
Context (Hbs : 0 <= fs.(sb).(sb_block_size) < 2 ^ 32).
Context (Heach : fs.(xattr_table).(tbl_each) = 16 \/ fs.(xattr_info).(xt_xattr_ids) = 0).
Context (makedev : Z -> Z -> Z) (dirent_size : list byte -> Z) (mt : bool).

#[local] Abbreviation serves := (serves fs).

(** ** The inode numbers *)
Lemma serves_end {A} (o : outcome A) : has_end o -> serves (lift o) (fun _ => True).
Proof. intros H. apply serves_lift. by destruct o. Qed.

Lemma serves_ino_sqfs ll i : ll.(ll_fs) = fs -> serves (ino_sqfs ll i) (fun _ => True).
Proof.
  intros Hl. unfold ino_sqfs. rewrite Hl. destruct (ll_ino ll) as [|root icache|root].
  - by apply serves_ret.
  - apply serves_end. unfold sqfs_ll_ino32_sqfs. destruct (_ =? _); [done|].
    by apply has_end_bind; [apply hash_get_end|].
  - unfold sqfs_ll_ino32exp_sqfs. destruct (_ =? _); [by apply serves_ret|].
    apply (serves_bind fs _ _ (fun _ => True)); [|intros r _; by apply serves_ret].
    eapply serves_weaken; [apply (serves_sim fs false _ _ (fun _ => True) (sim_export_inode fs any_expectations false _))|done].
    unfold sqfs_export_inode. destruct (negb _); [done|].
    eapply ends_bind; [by apply ends_table_get|]. by intros.
Qed.

Lemma serves_ll_inode ll i :
  ll.(ll_fs) = fs -> serves (try (sqfs_ll_inode ll i)) (on_success inode_sound).
Proof.
  intros Hl. unfold sqfs_ll_inode. eapply serves_try_bind; [by apply serves_ino_sqfs|].
  intros id _. rewrite Hl. eapply serves_sim; [apply (sim_inode_get fs any_expectations false)|by apply ends_inode_get].
Qed.

Lemma serves_register ll e :
  ll.(ll_fs) = fs -> serves (ino_register ll e) (fun p => (fst p).(ll_fs) = fs).
Proof.
  intros Hl. unfold ino_register. destruct (ll_ino ll) as [|root icache|root]; try by apply serves_ret.
  eapply (serves_bind fs _ _ (fun _ => True)); [|intros [h i] _; by apply serves_ret].
  unfold sqfs_ll_ino32_register. eapply serves_bind; [apply serves_end, hash_get_end|].
  intros [ie|] _.
  - eapply serves_bind; [apply serves_end, hash_update_end|]. intros h _. by apply serves_ret.
  - eapply (serves_bind fs _ _ (fun _ => True)); [|intros [err h] _; by apply serves_ret].
    intros s Hs. unfold hash_add_m.
    pose proof (hash_add_end icache (sqfs_dentry_inode_num e)
      (mk_ientry 1 (INODE_HI (sqfs_dentry_inode e)) (INODE_LO (sqfs_dentry_inode e))) s.(mem)) as H.
    destruct (sqfs_hash_add _ _ _ _) as [[[err h] ms]|]; [|exact H].
    split; [by apply inv_set_mem|done].
Qed.

Lemma serves_forget ll i refs :
  ll.(ll_fs) = fs -> serves (lift (ino_forget ll i refs)) (fun ll => ll.(ll_fs) = fs).
Proof.
  intros Hl. apply serves_lift. unfold ino_forget. destruct (ll_ino ll) as [|root icache|root]; try done.
  assert (has_end (sqfs_ll_ino32_forget root icache i refs)) as H.
  { unfold sqfs_ll_ino32_forget. apply has_end_bind; [apply hash_get_end|]. intros [ie|]; [|done].
    destruct (_ <? _); [apply hash_update_end|].
    apply has_end_bind; [apply hash_remove_end|by intros [? ?]]. }
  by destruct (sqfs_ll_ino32_forget root icache i refs).
Qed.

(** ** The handlers *)
Definition handle_inode (h : handle) : sqfs_inode :=
  match h with FileHandle i | DirHandle i => i end.

(** The objects behind [fi->fh] are inodes that were read, and they are counted. *)
Record driver_ok (d : driver) : Prop := {
  do_fs : d.(d_ll).(ll_fs) = fs;
  do_handles fh h : d.(handles) !! fh = Some h -> inode_sound (handle_inode h);
  do_count : d.(open_refcount) = s32 (Z.of_nat (base.size d.(handles)))
}.

(** What a request has done to the handles. *)
Definition effect (d : driver) (r : request) (rep : reply) (d' : driver) : Prop :=
  match r, rep with
  | Open _ _, ReplyOpen fh _ =>
      d.(handles) !! fh = None /\ exists i, d'.(handles) = <[fh := FileHandle i]> d.(handles)
  | Opendir _, ReplyOpen fh _ =>
      d.(handles) !! fh = None /\ exists i, d'.(handles) = <[fh := DirHandle i]> d.(handles)
  | Release (Some fh), _ | Releasedir (Some fh), _ => d'.(handles) = delete fh d.(handles)
  | _, _ => d'.(handles) = d.(handles)
  end.

(** The kernel releases what it opened, once; an offset is an [off_t]. *)
Definition wanted (d : driver) (r : request) : Prop :=
  match r with
  | Release fh | Releasedir fh => exists fh', fh = Some fh' /\ is_Some (d.(handles) !! fh')
  | Readdir _ _ off => - 2 ^ 63 <= off
  | _ => True
  end.

Lemma access_ok now d : driver_ok d -> driver_ok (update_access_time mt now d).
Proof. intros [? ? ?]. unfold update_access_time. by destruct (_ && _). Qed.

Lemma access_handles now d : handles (update_access_time mt now d) = handles d.
Proof. unfold update_access_time. by destruct (_ && _). Qed.

Lemma with_ll_ok d ll : driver_ok d -> ll.(ll_fs) = fs -> driver_ok (with_ll d ll).
Proof. intros [? ? ?] ?. by split. Qed.

Lemma opened_ok d h d' fh :
  driver_ok d -> inode_sound (handle_inode h) -> new_handle d h = (d', fh) ->
  driver_ok (update_open_refcount 1 d') /\ d.(handles) !! fh = None /\
  d'.(handles) = <[fh := h]> d.(handles).
Proof.
  intros [Hf Hh Hc] Hs [= <- <-]. assert (handles d !! fresh (dom (handles d)) = None) as Hn.
  { apply not_elem_of_dom, is_fresh. }
  split; [|done]. split; cbn; [done| |].
  - intros fh' h'. rewrite lookup_insert. case_decide; [by intros [= <-]|apply Hh].
  - rewrite map_size_insert_None, Hc by done. rewrite swrap_add_swrap. f_equal. lia.
Qed.

Lemma released_ok d fh h :
  driver_ok d -> d.(handles) !! fh = Some h ->
  exists d', free_handle d (Some fh) = Ret d' /\ driver_ok (update_open_refcount (-1) d') /\
    d'.(handles) = delete fh d.(handles) /\ forall now, update_open_refcount (-1) (update_access_time mt now d') =
      update_access_time mt now (update_open_refcount (-1) d').
Proof.
  intros [Hf Hh Hc] Hl. unfold free_handle. rewrite Hl. eexists. split; [done|].
  split; [|split; [done|]]; [split; cbn; [done| |]|].
  - intros fh' h' Hl'. apply (Hh fh'). by apply lookup_delete_Some in Hl' as [_ ?].
  - rewrite map_size_delete_Some, Hc by (by exists h). rewrite swrap_add_swrap. f_equal.
    assert (base.size (handles d) <> 0%nat) by (intros E%map_size_empty_inv; rewrite E in Hl; done). lia.
  - intros now. unfold update_access_time. by destruct (_ && _).
Qed.

Definition serves_request (d : driver) (r : request) (m : M (driver * reply)) : Prop :=
  serves m (fun p => driver_ok (fst p) /\ effect d r (snd p) (fst p)).

Lemma serves_reply d r rep d' :
  driver_ok d' -> effect d r rep d' -> serves_request d r (mret (d', rep)).
Proof. intros ? ?. by apply serves_ret. Qed.

Lemma serves_iget d i : driver_ok d -> serves (sqfs_ll_iget d.(d_ll) i) (fun r =>
  match r with Success (Some inode) => inode_sound inode | _ => True end).
Proof.
  intros Hd. unfold sqfs_ll_iget. destruct (_ =? _); [by apply serves_ret|].
  eapply serves_bind; [apply serves_ll_inode, Hd|]. intros [inode|e] Hi; by apply serves_ret.
Qed.

(** A request that leaves the handles alone replies what it likes. *)
Definition quiet (r : request) : Prop := match r with Open _ _ | Opendir _ | Release _ | Releasedir _ => False | _ => True end.

Lemma quiet_effect d r rep d' : quiet r -> d'.(handles) = d.(handles) -> effect d r rep d'.
Proof. by destruct r. Qed.

Lemma error_effect d r e d' :
  match r with Release _ | Releasedir _ => False | _ => True end ->
  d'.(handles) = d.(handles) -> effect d r (ReplyErr e) d'.
Proof. by destruct r. Qed.

Lemma serves_with_inode d0 r d i k :
  driver_ok d -> match r with Release _ | Releasedir _ => False | _ => True end ->
  d.(handles) = d0.(handles) ->
  (forall inode, inode_sound inode -> serves_request d0 r (k inode)) ->
  serves_request d0 r (with_inode d i k).
Proof.
  intros Hd Hr Hh Hk. unfold with_inode. eapply serves_bind; [by apply serves_iget|].
  intros [[inode|]|e] Hi; [by apply Hk|by apply serves_lift|].
  apply serves_reply; [done|by apply error_effect].
Qed.

Lemma dots_loop_end f o size buf : lasts f (2 - o) -> has_end (dots_loop dirent_size f o size buf).
Proof.
  revert o size buf. induction f as [|f IH]; intros o size buf Hf; cbn [dots_loop];
    (destruct (Z.ltb_spec o 2); [|done]); destruct Hf as [?|Hf]; try lia; try done.
  cbv zeta. destruct (sqfs_ll_add_direntry _ _ _ _) as [esize buf']. destruct (_ <? _); [done|].
  apply IH. by replace (2 - (o + 1)) with (2 - o - 1) by lia.
Qed.

Lemma serves_entries_loop f ll dir size buf :
  ll.(ll_fs) = fs -> dir_ok dir -> lasts f (dir_measure dir + 1) ->
  serves (entries_loop dirent_size f ll dir size buf) (fun _ => True).
Proof.
  intros Hl. revert dir size buf. induction f as [|f IH]; intros dir size buf Hd Hf; cbn [entries_loop].
  { destruct Hf as [Hf|[]]. destruct Hd. unfold dir_measure in Hf. lia. }
  destruct Hf as [Hf|Hf]; [destruct Hd; unfold dir_measure in Hf; lia|]. rewrite Hl.
  eapply serves_bind; [eapply serves_sim; [apply (sim_dir_next fs any_expectations false)|by apply ends_dir_next]|].
  intros [[dir' [e|]]|e] Hr; [|by apply serves_ret..]. destruct Hr as [Hd' Hm]. cbv zeta.
  destruct (sqfs_ll_add_direntry _ _ _ _) as [esize buf']. destruct (_ <? _); [by apply serves_ret|].
  apply IH; [done|]. eapply lasts_le; [|exact Hf]. lia.
Qed.

Lemma serves_handle {A} (o : outcome A) (P : A -> Prop) :
  match o with Ret a => P a | Crash c => c = MemFault end -> serves (lift o) P.
Proof. intros Ho. apply serves_lift. by destruct o; subst. Qed.

Lemma serves_file_handle d fh : driver_ok d -> serves (lift (file_handle d fh)) inode_sound.
Proof.
  intros Hd. apply serves_handle. unfold file_handle. destruct fh as [fh|]; [|done]. cbn.
  destruct (handles d !! fh) as [[i|i]|] eqn:E; [|done..]. exact (do_handles _ Hd fh _ E).
Qed.

Lemma serves_dir_handle d fh : driver_ok d -> serves (lift (dir_handle d fh)) inode_sound.
Proof.
  intros Hd. apply serves_handle. unfold dir_handle. destruct fh as [fh|]; [|done]. cbn.
  destruct (handles d !! fh) as [[i|i]|] eqn:E; [done| |done]. exact (do_handles _ Hd fh _ E).
Qed.

#[local] Ltac reply_tac :=
  apply serves_reply; [by try apply with_ll_ok|];
  first [apply quiet_effect; [exact I|]|apply error_effect; [exact I|]]; cbn; by rewrite ?access_handles.

Lemma serves_op_readdir now d fh sz off :
  driver_ok d -> wanted d (Readdir fh sz off) ->
  serves_request d (Readdir fh sz off) (sqfs_ll_op_readdir dirent_size mt now d fh sz off).
Proof.
  intros Hd Hw. apply (access_ok now) in Hd as Ha. unfold sqfs_ll_op_readdir. cbv zeta.
  apply (serves_bind fs _ _ _ _ (serves_malloc fs)). intros [|] _; cbn [negb]; [|reply_tac].
  apply (serves_bind fs _ _ (fun _ => True)).
  { apply serves_end, dots_loop_end, full_tank_lasts. cbn in Hw. lia. }
  intros [[o sz'] buf] _. apply (serves_bind fs _ _ _ _ (serves_dir_handle _ fh Ha)). intros inode Hi.
  rewrite (do_fs _ Ha). eapply serves_bind.
  { eapply serves_sim; [apply (sim_dir_open fs any_expectations false)|by apply ends_dir_open]. }
  intros [dir|e] Hdir; [|reply_tac]. cbn in Hdir.
  apply (serves_bind fs _ _ (fun _ => True)).
  { apply serves_entries_loop; [apply (do_fs _ Ha)|done|by apply measure_lasts]. }
  intros [err buf'] _. reply_tac.
Qed.

Lemma serves_op_lookup now d parent name :
  driver_ok d ->
  serves_request d (LookupName parent name) (sqfs_ll_op_lookup makedev mt now d parent name).
Proof.
  intros Hd. apply (access_ok now) in Hd as Ha. unfold sqfs_ll_op_lookup. cbv zeta.
  apply serves_with_inode; [done|done|apply access_handles|]. intros dir Hi.
  destruct (negb _); [reply_tac|]. rewrite (do_fs _ Ha).
  apply (serves_bind fs _ _ _ _ (serves_dir_lookup fs Hfs dir name (len name) Hi)).
  intros [[e|]|e] _; [|reply_tac..].
  apply (serves_bind fs _ _ _ _ (serves_inode_get fs Hfs _)). intros [inode|e'] _; [|reply_tac].
  apply (serves_bind fs _ _ _ _ (serves_stat fs Hfs makedev _)). intros [st|e'] _; [|reply_tac].
  apply (serves_bind fs _ _ _ _ (serves_register _ e (do_fs _ Ha))). intros [ll ino] Hl. reply_tac.
Qed.

Lemma serves_op_getattr now d ino :
  driver_ok d -> serves_request d (Getattr ino) (sqfs_ll_op_getattr makedev mt now d ino).
Proof.
  intros Hd. apply (access_ok now) in Hd as Ha. unfold sqfs_ll_op_getattr. cbv zeta.
  apply serves_with_inode; [done|done|apply access_handles|]. intros inode Hi.
  rewrite (do_fs _ Ha). apply (serves_bind fs _ _ _ _ (serves_stat fs Hfs makedev _)). intros r _. reply_tac.
Qed.

Lemma serves_op_forget now d ino n :
  driver_ok d -> serves_request d (ForgetIno ino n) (sqfs_ll_op_forget mt now d ino n).
Proof.
  intros Hd. apply (access_ok now) in Hd as Ha. unfold sqfs_ll_op_forget. cbv zeta.
  apply (serves_bind fs _ _ (fun _ => True)); [by apply serves_ret|]. intros _ _.
  apply (serves_bind fs _ _ _ _ (serves_forget _ ino n (do_fs _ Ha))). intros ll Hl. reply_tac.
Qed.

Lemma serves_opened d0 d r h keep :
  driver_ok d -> d.(handles) = d0.(handles) -> inode_sound (handle_inode h) ->
  match r, h with Open _ _, FileHandle _ | Opendir _, DirHandle _ => True | _, _ => False end ->
  serves_request d0 r (let (d', fh) := new_handle d h in mret (update_open_refcount 1 d', ReplyOpen fh keep)).
Proof.
  intros Hd E Hi Hr. destruct (new_handle d h) as [d' fh] eqn:En.
  destruct (opened_ok d h d' fh Hd Hi En) as (Hok & Hn & Hh).
  apply serves_reply; [done|]. rewrite E in Hn, Hh. cbn [snd fst effect]. by destruct r, h; try done; (split; [done|]; eexists).
Qed.

Lemma serves_op_opendir now d ino :
  driver_ok d -> serves_request d (Opendir ino) (sqfs_ll_op_opendir mt now d ino).
Proof.
  intros Hd. apply (access_ok now) in Hd as Ha. unfold sqfs_ll_op_opendir. cbv zeta.
  apply (serves_bind fs _ _ _ _ (serves_malloc fs)). intros [|] _; cbn [negb]; [|reply_tac].
  apply serves_with_inode; [done|done|apply access_handles|]. intros inode Hi.
  destruct (negb _); [reply_tac|]. apply serves_opened; [done|apply access_handles|done|done].
Qed.

Lemma serves_op_open now d ino flags :
  driver_ok d -> serves_request d (Open ino flags) (sqfs_ll_op_open mt now d ino flags).
Proof.
  intros Hd. apply (access_ok now) in Hd as Ha. unfold sqfs_ll_op_open. cbv zeta.
  destruct (negb _); [reply_tac|].
  apply (serves_bind fs _ _ _ _ (serves_malloc fs)). intros [|] _; cbn [negb]; [|reply_tac].
  apply (serves_bind fs _ _ _ _ (serves_ll_inode _ ino (do_fs _ Ha))). intros [inode|e] Hi; [|reply_tac].
  destruct (negb _); [reply_tac|]. apply serves_opened; [done|apply access_handles|done|done].
Qed.

Lemma serves_op_release now d fh :
  driver_ok d -> wanted d (Release fh) ->
  serves_request d (Release fh) (sqfs_ll_op_release mt now d fh) /\
  serves_request d (Releasedir fh) (sqfs_ll_op_releasedir mt now d fh).
Proof.
  intros Hd (fh' & -> & h & Hl). split.
  - destruct (released_ok d fh' h Hd Hl) as (d' & E & Hok & Hh & Hc).
    unfold sqfs_ll_op_release. rewrite E. apply (serves_bind fs _ _ (eq d')); [by apply serves_lift|].
    intros d1 <-. rewrite Hc. apply serves_reply; [by apply access_ok|]. cbn. by rewrite access_handles.
  - apply (access_ok now) in Hd as Ha.
    assert (handles (update_access_time mt now d) !! fh' = Some h) as Hl' by by rewrite access_handles.
    destruct (released_ok _ fh' h Ha Hl') as (d' & E & Hok & Hh & _).
    unfold sqfs_ll_op_releasedir. cbv zeta. cbn [free_handle update_open_refcount handles] in *.
    rewrite Hl' in E |- *. injection E as <-. cbn in Hok.
    apply (serves_bind fs _ _ (fun d1 => driver_ok d1 /\ d1.(handles) = delete fh' d.(handles))).
    { apply serves_lift. split; [done|]. cbn. by rewrite access_handles. }
    intros d1 [? ?]. by apply serves_reply.
Qed.

Lemma serves_op_read now d fh sz off :
  driver_ok d -> serves_request d (Read fh sz off) (sqfs_ll_op_read mt now d fh sz off).
Proof.
  intros Hd. apply (access_ok now) in Hd as Ha. unfold sqfs_ll_op_read.
  apply (serves_bind fs _ _ _ _ (serves_malloc fs)). intros [|] _; cbn [negb]; [|reply_tac]. cbv zeta.
  apply (serves_bind fs _ _ _ _ (serves_file_handle _ fh Ha)). intros inode Hi. rewrite (do_fs _ Ha).
  apply (serves_bind fs _ _ _ _ (serves_read fs Hfs inode off (s64 sz) Hbs Hi)). intros r _. reply_tac.
Qed.

Lemma serves_op_readlink now d ino :
  driver_ok d -> serves_request d (Readlink ino) (sqfs_ll_op_readlink mt now d ino).
Proof.
  intros Hd. apply (access_ok now) in Hd as Ha. unfold sqfs_ll_op_readlink. cbv zeta.
  apply serves_with_inode; [done|done|apply access_handles|]. intros inode Hi. rewrite (do_fs _ Ha).
  destruct (negb _); [reply_tac|].
  eapply serves_bind; [by apply (serves_readlink fs Hfs inode None)|].
  intros [[sz dst]|e] Hs; [|reply_tac]. cbn in Hs.
  apply (serves_bind fs _ _ _ _ (serves_malloc fs)). intros [|] _; cbn [negb]; [|reply_tac].
  eapply serves_bind; [apply (serves_readlink fs Hfs inode (Some sz)); [done|by intros ? [= <-]]|].
  intros r _. reply_tac.
Qed.

Lemma serves_op_listxattr x now d ino sz :
  driver_ok d -> serves_request d (Listxattr ino sz) (sqfs_ll_op_listxattr mt now d x ino sz).
Proof.
  intros Hd. apply (access_ok now) in Hd as Ha. unfold sqfs_ll_op_listxattr. cbv zeta.
  apply serves_with_inode; [done|done|apply access_handles|]. intros inode Hi. rewrite (do_fs _ Ha).
  apply (serves_bind fs _ _ (fun _ => True)).
  { destruct (sz =? 0); [by apply serves_ret|apply serves_malloc]. }
  intros [|] _; cbn [negb]; [|reply_tac].
  apply (serves_bind fs _ _ _ _ (serves_listxattr fs Hfs Heach inode x _)). intros r _. reply_tac.
Qed.

Lemma serves_op_getxattr x now d ino name sz :
  driver_ok d -> serves_request d (Getxattr ino name sz) (sqfs_ll_op_getxattr mt now d x ino name sz).
Proof.
  intros Hd. apply (access_ok now) in Hd as Ha. unfold sqfs_ll_op_getxattr. cbv zeta.
  apply serves_with_inode; [done|done|apply access_handles|]. intros inode Hi. rewrite (do_fs _ Ha).
  apply (serves_bind fs _ _ _ _ (serves_malloc fs)). intros [|] _; cbn [negb]; [|reply_tac].
  eapply serves_bind.
  { eapply serves_sim; [apply (sim_xattr_lookup fs any_expectations false)|by apply ends_xattr_lookup]. }
  intros [[real buf]|e] _; [|reply_tac].
  destruct (real =? 0); [reply_tac|]. destruct (sz =? 0); [reply_tac|].
  destruct (sz <? real); [reply_tac|]. destruct buf; [reply_tac|by apply serves_lift].
Qed.

Lemma serves_op x now d r :
  driver_ok d -> wanted d r ->
  serves_request d r (sqfs_ll_ops makedev dirent_size mt x now d r).
Proof.
  intros Hd Hw. destruct r; cbn [sqfs_ll_ops].
  - by apply serves_op_getattr.
  - by apply serves_op_lookup.
  - by apply serves_op_forget.
  - by apply serves_op_opendir.
  - by apply serves_op_readdir.
  - exact (proj2 (serves_op_release now d fh Hd Hw)).
  - by apply serves_op_open.
  - apply (access_ok now) in Hd as Ha. unfold sqfs_ll_op_create. reply_tac.
  - by apply serves_op_read.
  - exact (proj1 (serves_op_release now d fh Hd Hw)).
  - by apply serves_op_readlink.
  - by apply serves_op_listxattr.
  - by apply serves_op_getxattr.
  - unfold stfs_ll_op_statfs. rewrite (do_fs _ Hd). apply (serves_bind fs _ _ (fun _ => True)).
    { apply serves_lift. unfold sqfs_statfs. by destruct (_ <=? _). }
    intros st _. reply_tac.
Qed.
End any_archive.

#[local] Abbreviation in_order fs s := (inv fs any_expectations s [] None).

(** ** Sessions *)
Section session.
Context {CI : CacheImpl} {CL : CacheLaws CI}.
Context (makedev : Z -> Z -> Z) (dirent_size : list byte -> Z) (mt : bool).
Context (libs : codec_libs) (Hlibs : codec_laws libs) (h : host).
(** No file is larger than 2^62 bytes. *)
Context (Hsize : forall calls path fd, h.(images) calls path = Some fd -> len fd <= 2 ^ 62).

Lemma serves_ll_init fs n :
  fs_ok fs -> serves fs (try (sqfs_ll_init n fs)) (on_success (fun ll => ll.(ll_fs) = fs)).
Proof.
  intros Hfs.
  assert (forall k : sqfs_inode -> M ino_map, (forall i, serves fs (k i) (fun _ => True)) ->
    serves fs (try (map ← (inode ← sqfs_inode_get fs (sqfs_inode_root fs); k inode); mret (mk_ll fs map)))
      (on_success (fun ll => ll.(ll_fs) = fs))) as H.
  { intros k Hk s1 Hs1. pose proof (serves_inode_get fs Hfs (sqfs_inode_root fs) s1 Hs1) as H.
    unfold try in *. run_m. destruct (sqfs_inode_get (m := M) fs (sqfs_inode_root fs) s1) as [[s2 [i|]]|]; [|by destruct H|done].
    destruct H as [Hs2 _]. specialize (Hk i s2 Hs2). by destruct (k i s2) as [[s3 [m|]]|]; [destruct Hk|..]. }
  unfold sqfs_ll_init. destruct (_ <=? n).
  { intros s1 Hs1. by split. }
  destruct (sqfs_export_ok fs); apply H; intros i.
  - apply (serves_bind fs _ _ _ _ (serves_malloc fs)). intros [|] _; [by apply serves_ret|by apply serves_lift].
  - apply (serves_bind fs _ _ _ _ (serves_malloc fs)). intros [|] _; [|by apply serves_lift].
    apply (serves_bind fs _ _ (fun _ => True)); [|intros icache _; by apply serves_ret].
    intros s1 Hs1. unfold icache_init. destruct (sqfs_hash_init _ _ _) as [[e icache] ms].
    split; [by apply inv_set_mem|done].
Qed.

(** The driver as main starts it. *)
Definition mounted_driver (ll : sqfs_ll) (start now timeout : Z) : driver :=
  let d := mk_driver ll ∅ 0 start 0 false in
  if timeout =? 0 then d else watch_idle mt now timeout d.

(** An archive that was opened, at its root or at a directory in it, and mounted, and any
    requests at any times since. *)
Inductive session (fs : sqfs) (timeout : Z) : driver -> sqfs_state -> Prop :=
  | session_mounted n path offset subdir new_root w w' ll uid gid now start :
      sqfs_ll_open_with_subdir h libs n path offset subdir new_root w = Ret (w', inl (Some ll)) ->
      fs = (set_ids uid gid ll).(ll_fs) ->
      session fs timeout (mounted_driver (set_ids uid gid ll) start now timeout) w'.(w_fs)
  | session_step d s x now r d' rep s' :
      session fs timeout d s -> wanted d r ->
      sqfs_ll_ops makedev dirent_size mt x now d r s = Ret (s', Success (d', rep)) ->
      session fs timeout d' s'.

(** What a session keeps. *)
Record session_inv (fs : sqfs) (d : driver) (s : sqfs_state) : Prop := {
  se_fs : fs_ok fs;
  se_bsize : 0 <= fs.(sb).(sb_block_size) < 2 ^ 32;
  se_xattrs : fs.(xattr_table).(tbl_each) = 16 \/ fs.(xattr_info).(xt_xattr_ids) = 0;
  se_state : in_order fs s;
  se_driver : driver_ok fs d
}.

Lemma session_serves fs d s x now r :
  session_inv fs d s -> wanted d r ->
  match sqfs_ll_ops makedev dirent_size mt x now d r s with
  | Ret (s', Success (d', rep)) => session_inv fs d' s' /\ effect d r rep d'
  | Ret (_, Failure _) => False
  | Crash c => c <> OutOfFuel
  end.
Proof.
  intros [Hf Hb Hx Hs Hd] Hw.
  pose proof (serves_op fs Hf Hb Hx makedev dirent_size mt x now d r Hd Hw s Hs) as H.
  destruct (sqfs_ll_ops _ _ _ _ _ _ _ s) as [[s' [[d' rep]|]]|]; [|done..].
  by destruct H as (? & ? & ?).
Qed.

(** An archive of the driver. *)
Record ll_open_ok (ll : sqfs_ll) (s : sqfs_state) : Prop := {
  lo_fs : fs_ok ll.(ll_fs);
  lo_bsize : 0 <= ll.(ll_fs).(sb).(sb_block_size) < 2 ^ 32;
  lo_xattrs : ll.(ll_fs).(xattr_table).(tbl_each) = 16 \/ ll.(ll_fs).(xattr_info).(xt_xattr_ids) = 0;
  lo_state : in_order ll.(ll_fs) s
}.

Lemma set_ids_ok uid gid ll s : ll_open_ok ll s -> ll_open_ok (set_ids uid gid ll) s.
Proof. intros [[] ? ? [[] ? ?]]. split; [done..|]. split; [|done..]. by split. Qed.

(** The private data of an archive that is open. *)
Lemma ll_init_ends fs n s0 :
  archive_open fs s0 ->
  match sqfs_ll_init n fs s0 with
  | Ret (s, Success ll) => ll_open_ok ll s
  | Ret (s, Failure _) => in_order fs s
  | Crash c => c <> OutOfFuel
  end.
Proof.
  intros [Hf Hb Hx Hi]. pose proof (serves_ll_init fs n Hf s0 (Hi _)) as H. unfold try in H.
  destruct (sqfs_ll_init n fs s0) as [[s [ll|e]]|c]; [|apply H|done]. destruct H as [Hs Hl].
  by split; rewrite Hl.
Qed.

Lemma destroy_image_does fs X w Q :
  inv fs X w.(w_fs) [] None ->
  (forall fs' s, released s -> Q fs' (mk_world w.(w_calls) s)) -> does (destroy_image fs) Q (fun _ _ => False) w.
Proof.
  intros Hi HQ. unfold does, destroy_image. destruct (inv_released fs X _ Hi) as (fs' & s' & -> & Hr). by apply HQ.
Qed.

(** The archive is opened, or no block and no cache of it is left. *)
Lemma ll_open_does n path offset subdir new_root w :
  subdir = [] \/ w.(w_fs).(mem) = [] -> released w.(w_fs) ->
  does (sqfs_ll_open_with_subdir h libs n path offset subdir new_root)
    (fun r w' => since w.(w_calls) w'.(w_calls) /\
       match r with Some ll => ll_open_ok ll w'.(w_fs) | None => released w'.(w_fs) end) (fun _ _ => False) w.
Proof.
  intros Hms Hr. unfold sqfs_ll_open_with_subdir. eapply does_bind; [by apply alloc_does|].
  intros ok w1 (Ec & Hr1 & Hm). rewrite <- Ec. destruct ok; cbn [negb].
  2: { apply does_tell, does_ret. split; [by apply since_snoc|done]. }
  eapply does_bind; [apply open_image_does; [done..| |done]|].
  { destruct Hms as [->|Hms]; [by left|right; by apply Hm]. }
  intros [err fs] w2 [Hc H2]. cbn [fst snd] in H2. destruct (decide (err = SQFS_OK)); [|by apply does_ret].
  apply (does_bind _ _ (fun r w' => w'.(w_calls) = w2.(w_calls) /\
    match r with Success ll => ll_open_ok ll w'.(w_fs) | Failure _ => in_order fs w'.(w_fs) end)).
  { pose proof (ll_init_ends fs n w2.(w_fs) H2) as H. unfold does, reader.
    by destruct (sqfs_ll_init n fs (w_fs w2)) as [[s r]|]. }
  intros [ll|err'] w3 [Ec3 H3]; [apply does_ret; by rewrite Ec3|].
  apply does_tell. eapply does_bind; [|intros fs' w5 H5; apply does_ret; exact H5].
  eapply destroy_image_does; [exact H3|]. intros _ s' Hr'. split; [|done]. cbn [w_calls asked].
  rewrite Ec3. eapply since_trans; [done|by apply since_snoc].
Qed.

Lemma mounted_driver_ok ll start now timeout s :
  ll_open_ok ll s -> session_inv ll.(ll_fs) (mounted_driver ll start now timeout) s.
Proof.
  intros [Hf Hb Hx Hs]. split; [done..|]. unfold mounted_driver, watch_idle, update_access_time.
  destruct (timeout =? 0); [done|]. by destruct (_ && _).
Qed.

Lemma ll_open_inv n path offset subdir new_root w w' ll :
  sqfs_ll_open_with_subdir h libs n path offset subdir new_root w = Ret (w', inl (Some ll)) ->
  ll_open_ok ll w'.(w_fs).
Proof.
  unfold sqfs_ll_open_with_subdir, alloc, reader. run_p. destruct (malloc (mem (w_fs w))) as [ok ms].
  destruct ok; cbn [negb]; [|done]. set (w1 := mk_world _ _).
  destruct (sqfs_open_image_with_subdir _ _ _ _ _ _ _ w1) as [[w2 [[err fs]|]]|] eqn:E; [|done..].
  destruct (decide (err = SQFS_OK)) as [->|]; [|done].
  destruct (open_image_inv _ _ _ _ _ _ _ _ _ _ E) as (fd & Hfd & Ei & _).
  pose proof (ll_init_ends fs n _ (init_subdir_opened _ _ _ _ _ _ _ _ Hlibs (Hsize _ _ _ Hfd) Ei)) as H.
  destruct (sqfs_ll_init n fs (w_fs w2)) as [[s1 [ll'|e]]|]; [by intros [= <- <-]| |done].
  unfold eprintln, tell, destroy_image, asked. cbn [w_fs]. by destruct (sqfs_destroy fs s1) as [[]|].
Qed.

Lemma session_ok fs timeout d s : session fs timeout d s -> session_inv fs d s.
Proof.
  induction 1 as [n path offset subdir new_root w w' ll uid gid now start E ->|d s x now r d' rep s' _ IH Hw E].
  - by eapply mounted_driver_ok, set_ids_ok, ll_open_inv.
  - pose proof (session_serves fs d s x now r IH Hw) as H. rewrite E in H. apply H.
Qed.

(** C20: from the mount of any archive that opens, at its root or below, and with any failure of an
    allocation, every request that the kernel may send gets one reply, or the process dies
    of what was read, but it never goes on for ever; the caches and blocks stay in order, a
    file or directory is opened exactly when the reply says so, at an address of its own, and
    only its release frees it; the counter of what is open is right. *)
Theorem sqfs_ll_serves (fs : sqfs) (timeout : Z) (s : sqfs_state) (x : sqfs_xattr) (now : Z)
    (d : driver) (r : request) :
  session fs timeout d s -> wanted d r ->
  match sqfs_ll_ops makedev dirent_size mt x now d r s with
  | Ret (s', Success (d', rep)) => in_order fs s' /\ driver_ok fs d' /\ effect d r rep d'
  | Ret (_, Failure _) => False
  | Crash c => c <> OutOfFuel
  end.
Proof.
  intros Hs Hw. pose proof (session_serves fs d s x now r (session_ok _ _ _ _ Hs) Hw) as H.
  destruct (sqfs_ll_ops _ _ _ _ _ _ _ s) as [[s' [[d' rep]|]]|]; [|done..].
  by destruct H as [[] ?].
Qed.

(** ** The idle timeout

    What the watch looks at but for the counter: the timeout, whether it runs, and the time
    of the last access. *)
Definition timed (now : Z) (d d' : driver) : Prop :=
  d'.(idle_timeout_secs) = d.(idle_timeout_secs) /\ d'.(fuse_instance) = d.(fuse_instance) /\
  (d.(idle_timeout_secs) <> 0 -> d'.(last_access) = now).

Lemma timed_access now d : timed now d (update_access_time mt now d).
Proof.
  unfold update_access_time. destruct (mt && _) eqn:E; [|done].
  apply andb_true_iff in E as [_ ?%Z.eqb_eq]. split; [done|]. by split.
Qed.

(** Every answer of [m] has [P]. *)
Definition replies (m : M (driver * reply)) (P : driver -> reply -> Prop) : Prop :=
  forall s s' d rep, m s = Ret (s', Success (d, rep)) -> P d rep.

Lemma replies_ret d rep P : P d rep -> replies (mret (d, rep)) P.
Proof. intros H s s' d' rep' [= _ <- <-]. exact H. Qed.

Lemma replies_crash c P : replies (lift (Crash c)) P.
Proof. intros s s' d rep [=]. Qed.

Lemma replies_bind {A} (m : M A) (k : A -> M (driver * reply)) P :
  (forall a, replies (k a) P) -> replies (m ≫= k) P.
Proof. intros Hk s s' d rep. run_m. destruct (m s) as [[s1 [a|e]]|c]; [apply Hk|done..]. Qed.

Lemma replies_lift {A} (o : outcome A) (k : A -> M (driver * reply)) P :
  (forall a, o = Ret a -> replies (k a) P) -> replies (lift o ≫= k) P.
Proof. intros Hk s s' d rep. run_m. destruct o as [a|c]; [by apply Hk|done]. Qed.

Lemma replies_inode d i k P :
  (forall e, P d (ReplyErr e)) -> (forall inode, replies (k inode) P) -> replies (with_inode d i k) P.
Proof.
  intros He Hk. unfold with_inode. apply replies_bind.
  intros [[inode|]|e]; [apply Hk|apply replies_crash|apply replies_ret, He].
Qed.

Lemma timed_free now d d1 d2 fh : timed now d d1 -> free_handle d1 fh = Ret d2 -> timed now d d2.
Proof.
  unfold free_handle. destruct fh as [fh|]; [|by intros ? [= <-]].
  destruct (handles d1 !! fh); [|done]. by intros ? [= <-].
Qed.

(** The requests whose time is noted: all but statfs, and a read that got no memory. *)
Definition noted (r : request) (rep : reply) : bool :=
  match r, rep with
  | Statfs, _ => false
  | Read _ _ _, ReplyErr e => negb (e =? ENOMEM)
  | _, _ => true
  end.

#[local] Ltac replies_tac :=
  repeat first
    [ apply replies_ret; cbn; first [apply timed_access|exact (timed_access _ _)]
    | apply replies_crash
    | apply replies_inode; [intros; cbn; apply timed_access|intros ?]
    | apply replies_bind; intros ?
    | progress cbv beta iota zeta
    | match goal with |- replies (match ?x with _ => _ end) _ => destruct x end ].

Lemma replies_op x now d r :
  replies (sqfs_ll_ops makedev dirent_size mt x now d r)
    (fun d' rep => if noted r rep then timed now d d' else d' = d).
Proof.
  destruct r; cbn [sqfs_ll_ops noted].
  - unfold sqfs_ll_op_getattr. replies_tac.
  - unfold sqfs_ll_op_lookup. replies_tac.
  - unfold sqfs_ll_op_forget. replies_tac.
  - unfold sqfs_ll_op_opendir, new_handle. replies_tac.
  - unfold sqfs_ll_op_readdir. replies_tac.
  - unfold sqfs_ll_op_releasedir. cbv zeta. apply replies_lift. intros d' E. apply replies_ret.
    eapply timed_free; [|exact E]. exact (timed_access now d).
  - unfold sqfs_ll_op_open, new_handle. replies_tac.
  - unfold sqfs_ll_op_create. replies_tac.
  - unfold sqfs_ll_op_read. apply replies_bind. intros [|]; cbn [negb]; [|by apply replies_ret].
    cbv zeta. apply replies_bind. intros inode. apply replies_bind. intros rd. apply replies_ret.
    destruct rd as [buf|e]; [destruct (len buf =? 0)|]; apply timed_access.
  - unfold sqfs_ll_op_release. apply replies_lift. intros d' E. apply replies_ret.
    assert (timed now d (update_access_time mt now d')) as H; [|exact H].
    assert (timed d.(last_access) d d') as (Ei & Ef & _) by (by eapply timed_free; [|exact E]).
    destruct (timed_access now d') as (Ei' & Ef' & Ea). split; [congruence|]. split; [congruence|].
    intros Hn. apply Ea. by rewrite Ei.
  - unfold sqfs_ll_op_readlink. replies_tac.
  - unfold sqfs_ll_op_listxattr. replies_tac.
  - unfold sqfs_ll_op_getxattr. replies_tac.
  - unfold stfs_ll_op_statfs. apply replies_bind. intros st. by apply replies_ret.
Qed.

(** A session, with the time of the last request that is noted; before any, of the mount. *)
Inductive session_since (fs : sqfs) (timeout : Z) : Z -> driver -> sqfs_state -> Prop :=
  | since_mount n path offset subdir new_root w w' ll uid gid now start :
      sqfs_ll_open_with_subdir h libs n path offset subdir new_root w = Ret (w', inl (Some ll)) ->
      fs = (set_ids uid gid ll).(ll_fs) ->
      session_since fs timeout now (mounted_driver (set_ids uid gid ll) start now timeout) w'.(w_fs)
  | since_request last d s x now r d' rep s' :
      session_since fs timeout last d s -> wanted d r ->
      sqfs_ll_ops makedev dirent_size mt x now d r s = Ret (s', Success (d', rep)) ->
      session_since fs timeout (if noted r rep then now else last) d' s'.

Lemma since_session fs timeout last d s : session_since fs timeout last d s -> session fs timeout d s.
Proof. induction 1; [by eapply session_mounted|by eapply session_step]. Qed.

(** The watch runs with the timeout of the mount, and knows the time. *)
Lemma since_watch fs timeout last d s :
  session_since fs timeout last d s ->
  d.(idle_timeout_secs) = timeout /\ d.(fuse_instance) = negb (timeout =? 0) /\
  (timeout <> 0 -> d.(last_access) = last).
Proof.
  induction 1 as [n path offset subdir new_root w w' ll uid gid now start _ _|last d s x now r d' rep s' _ IH _ E].
  - unfold mounted_driver. destruct (Z.eqb_spec timeout 0) as [->|Hne]; [done|]. unfold watch_idle. cbv zeta.
    destruct (timed_access now (mk_driver (set_ids uid gid ll) ∅ 0 start timeout false)) as (Ei & _ & Ea).
    cbn in *. split; [exact Ei|]. split; [done|exact Ea].
  - destruct IH as (Ei & Ef & Ea). pose proof (replies_op x now d r s s' d' rep E) as H.
    cbn beta in H. revert H. destruct (noted r rep); [|by intros ->]. intros (-> & -> & Hl). rewrite Ei in *. done.
Qed.

(** C40: what the alarm does in a session, at any time: without a timeout nothing; with one
    it ends the program when no file and no directory is open and the last request is longer
    ago than the timeout, and else it is set again, so that the program is never ended while
    something is open (fewer than [2^31] of them).  The last request is the last of the
    session that is noted: all are but statfs, and a read for which there is no memory;
    before the first, the time is that of the mount. *)
Theorem alarm_tick_correct (fs : sqfs) (timeout last now : Z) (d : driver) (s : sqfs_state) :
  session_since fs timeout last d s -> Z.of_nat (base.size d.(handles)) < 2 ^ 31 ->
  alarm_tick now d =
    if timeout =? 0 then TickIgnored
    else if (base.size d.(handles) =? 0)%nat && (last + timeout <? now) then TickInterrupt
    else TickAgain.
Proof.
  intros Hs Hn. destruct (since_watch _ _ _ _ _ Hs) as (Ei & Ef & Ea).
  destruct (session_ok _ _ _ _ (since_session _ _ _ _ _ Hs)) as [_ _ _ _ Hd].
  unfold alarm_tick. rewrite Ef, Ei, (do_count _ _ Hd), swrap_small by lia.
  destruct (Z.eqb_spec timeout 0) as [|Hne]; [done|]. rewrite (Ea Hne). cbn [negb orb].
  assert ((Z.of_nat (base.size (handles d)) =? 0) = (base.size (handles d) =? 0)%nat) as ->.
  { destruct (Nat.eqb_spec (base.size (handles d)) 0); zbool; done || lia. }
  destruct (_ =? _)%nat; cbn [andb]; [|done]. zbool; done || lia.
Qed.
End session.

(** ** Sample *)
#[local] Existing Instance sample_cache.

(** The tree is opened and mounted with 64-bit numbers and a timeout of a minute. *)
Definition tree_host : host := disk_host (fun p => if decide (p = [x69]) then Some tree_image else None).

Lemma tree_host_size calls path fd : images tree_host calls path = Some fd -> len fd <= 2 ^ 62.
Proof. cbn. case_decide; [|done]. intros [= <-]. vm_compute. congruence. Qed.

Definition tree_driver : driver :=
  mounted_driver false (mk_ll tree_opened Ino64) 0 100 60.

Lemma tree_ll_open :
  sqfs_ll_open_with_subdir tree_host sample_libs 8 [x69] 0 [] 0 (mk_world [] (null_state [])) =
  Ret (mk_world [System.Open [x69]] tree_state, inl (Some (mk_ll tree_opened Ino64))).
Proof.
  unfold sqfs_ll_open_with_subdir, alloc. run_p. cbn [malloc mem null_state w_fs negb].
  rewrite (open_image_ok tree_host sample_libs _ [x69] tree_image 0 [] 0 (mk_world [] (null_state []))
    tree_opened tree_state eq_refl tree_init_ok).
  reflexivity.
Qed.

Lemma tree_session :
  session sample_makedev (fun name => 24 + len name) false sample_libs tree_host tree_opened 60
    tree_driver tree_state.
Proof.
  exact (session_mounted _ _ _ _ _ _ 60 8 _ _ _ _ _ _ _ 0 0 100 0 tree_ll_open eq_refl).
Qed.

(** The root is opened. *)
Lemma sqfs_ll_serves_witness :
  exists s' d' fh, sqfs_ll_ops sample_makedev (fun name => 24 + len name) false sample_xattr 101 tree_driver
      (Opendir 1) tree_state = Ret (s', Success (d', ReplyOpen fh false)) /\
    driver_ok tree_opened d' /\ effect tree_driver (Opendir 1) (ReplyOpen fh false) d'.
Proof.
  pose proof (sqfs_ll_serves (CL := sample_laws) sample_makedev (fun name => 24 + len name) false
    sample_libs sample_libs_ok tree_host tree_host_size tree_opened 60 tree_state
    sample_xattr 101 tree_driver (Opendir 1) tree_session I) as H.
  destruct (sqfs_ll_ops _ _ _ _ _ _ _ _) as [[s' [[d' rep]|e]]|c] eqn:E;
    [|apply (f_equal answer) in E; vm_compute in E; congruence..].
  apply (f_equal (fun out => match answer out with Ret (Success (_, rep)) => Some rep | _ => None end)) in E as Er.
  cbn [answer] in Er. vm_compute in Er. injection Er as <-.
  destruct H as (_ & Hd & He). exists s', d'. eexists. split; [reflexivity|]. split; [exact Hd|exact He].
Defined.

(** Nothing is open: a request at 130, and sixty seconds. *)
Lemma alarm_tick_correct_witness :
  exists d s', sqfs_ll_op_create false 130 tree_driver tree_state = Ret (s', Success (d, ReplyErr EROFS)) /\
    alarm_tick 190 d = TickAgain /\ alarm_tick 191 d = TickInterrupt.
Proof.
  pose proof (since_mount sample_makedev (fun name => 24 + len name) false sample_libs tree_host tree_opened
    60 8 _ _ _ _ _ _ _ 0 0 100 0 tree_ll_open eq_refl) as H0.
  pose proof (since_request sample_makedev (fun name => 24 + len name) false sample_libs tree_host tree_opened
    60 100 _ _ sample_xattr 130 Create _ _ _ H0 I eq_refl) as H1.
  pose proof (fun now => alarm_tick_correct (CL := sample_laws) sample_makedev (fun name => 24 + len name) false
    sample_libs sample_libs_ok tree_host tree_host_size tree_opened 60 _ now _ _ H1 eq_refl) as H.
  eexists _, _. split; [reflexivity|]. split; [exact (H 190)|exact (H 191)].
Defined.
