(* ===== verification/LlDir.v ===== *)
(** * LlDir: the low-level driver lists a directory

    One request to read an open directory gives the entries that fit in the buffer, from
    the place it asks for; and the requests that a program makes one after the other give
    every entry once.  libfuse's size of an entry is a parameter. *)
From S2P Require Import Prelude Swap Hash Cache CacheST Decompress FsState Block BlockOk Sample MdRead Table Xattr Inode Dir Ends Stat SampleTree LlInode File FileOk Fuse Ll.

(** ** Reading a directory *)
Definition resume (read : list dirent) : Z := match last read with Some e => e.(dn_off) | None => 0 end.

Definition dot_dirents : list dirent :=
  [mk_dirent [x2e] 1 S_IFDIR 1; mk_dirent [x2e; x2e] 1 S_IFDIR 2].
Definition entry_dirent (ll : sqfs_ll) (e : sqfs_dir_entry) : dirent :=
  mk_dirent (default [] e.(e_name)) (ino_fuse_num ll e) (sqfs_dentry_mode e) (e.(e_next_offset) + 2).

(** What a directory lists: itself, its parent, its items. *)
Definition dir_dirents (ll : sqfs_ll) (its : list dir_item) : list dirent :=
  dot_dirents ++ map (entry_dirent ll) (listing no_header 0 its).

(** The entries that fit in a buffer. *)
Fixpoint fitting (dirent_size : list byte -> Z) (size : Z) (ds : list dirent) : list dirent :=
  match ds with
  | [] => []
  | e :: ds =>
      let esize := dirent_size e.(dn_name) in
      if esize <=? size then e :: fitting dirent_size (size - esize) ds else []
  end.

Lemma fitting_prefix dirent_size sz ds : exists more, ds = fitting dirent_size sz ds ++ more.
Proof.
  revert sz. induction ds as [|e ds IH]; intros sz; cbn [fitting]; [by exists []|].
  destruct (_ <=? sz); [|by exists (e :: ds)].
  destruct (IH (sz - dirent_size (dn_name e))) as [more E]. exists more. cbn. by rewrite <- E.
Qed.

Section readdir.
Context (fs : sqfs) (Hfs : fs_ok fs) {CI : CacheImpl} {CL : CacheLaws CI} (X : expectations).
Context (makedev : Z -> Z -> Z) (dirent_size : list byte -> Z) (mt : bool).

#[local] Abbreviation fit := (fitting dirent_size).

Lemma entries_loop_at f ll dir its sz buf s :
  ll.(ll_fs) = fs -> good fs X s -> positioned fs dir its -> names_ok its -> lasts f (len its + 1) ->
  exists s', good fs X s' /\
    entries_loop dirent_size f ll dir sz buf s = Ret (s', Success (0,
      buf ++ fit sz (map (entry_dirent ll) (listing dir.(d_header) dir.(d_offset) its)))).
Proof.
  intros Hl. revert f dir sz buf s. induction its as [|it its IH]; intros f dir sz buf s Hs Hp Hn Hf;
    (apply lasts_turn in Hf as (k & -> & Hf); [|cbn [length]; lia]); cbn [entries_loop]; rewrite Hl.
  - destruct (try_exact fs X false _ _ s _ (sim_dir_next fs X false dir true) Hs (dir_next_end fs dir true Hp))
      as (s1 & E & Hs1).
    run_m. rewrite E. exists s1. cbn. by rewrite app_nil_r.
  - apply Forall_cons in Hn as [Hname Hn].
    destruct (dir_next_item fs Hfs dir it its Hp) as (dir' & En & Hp' & Ho & Hb & Hi).
    destruct (try_exact fs X false _ _ s _ (sim_dir_next fs X false dir true) Hs (En true)) as (s1 & E & Hs1).
    run_m. rewrite E. cbn beta iota zeta. cbn [listing map fitting].
    unfold sqfs_ll_add_direntry, with_name, sqfs_dentry_name. cbn [e_name item_entry default id dn_name].
    rewrite c_str_ok by done. set (h := default (d_header dir) (it_header it)) in *.
    cbn [entry_dirent item_entry e_name default id dn_name].
    destruct (Z.leb_spec (dirent_size (it_name it)) sz) as [Hle|Hgt].
    + rewrite (proj2 (Z.ltb_ge _ _)) by done.
      destruct (IH (k tt) dir' (sz - dirent_size (it_name it))
        (buf ++ [entry_dirent ll (item_entry h (d_offset dir) it)]) s1 Hs1 Hp' Hn) as (s2 & Hs2 & E2).
      { eapply lasts_le; [|exact Hf]. cbn [length]. lia. }
      exists s2. split; [done|]. rewrite <- app_assoc, Ho, (listing_header _ h) in E2 by done. exact E2.
    + rewrite (proj2 (Z.ltb_lt _ _)) by done. exists s1. by rewrite app_nil_r.
Qed.

(** The dots take what room they need; ".." needs no more than any name. *)
Context (Hdots : forall name, name <> [] -> dirent_size [x2e; x2e] <= dirent_size name).

Lemma fit_none sz es :
  Forall (fun e => e.(dn_name) <> []) es -> sz < dirent_size [x2e; x2e] -> fit sz es = [].
Proof.
  intros Hes Hsz. destruct Hes as [|e es He _]; [done|]. cbn [fitting].
  pose proof (Hdots _ He). by rewrite (proj2 (Z.leb_gt _ _)) by lia.
Qed.

Lemma dots_loop_done f o sz buf : 2 <= o -> dots_loop dirent_size f o sz buf = Ret (o, sz, buf).
Proof. intros Ho. destruct f; cbn [dots_loop]; by rewrite (proj2 (Z.ltb_ge _ _)). Qed.

Lemma dots_loop_last f sz buf es :
  lasts f 1 -> Forall (fun e => e.(dn_name) <> []) es ->
  exists sz' buf', dots_loop dirent_size f 1 sz buf = Ret (2, sz', buf') /\
    buf ++ fit sz (tail dot_dirents ++ es) = buf' ++ fit sz' es.
Proof.
  intros Hf Hes. apply lasts_turn in Hf as (k & -> & _); [|done]. cbn [dots_loop].
  change (1 <? 2) with true. change (1 =? 0) with false. cbv iota zeta. unfold sqfs_ll_add_direntry.
  cbn [dn_name tail dot_dirents app fitting].
  destruct (Z.leb_spec (dirent_size [x2e; x2e]) sz) as [Hle|Hgt].
  - rewrite (proj2 (Z.ltb_ge _ _)), dots_loop_done by done. eexists _, _. split; [done|].
    by rewrite <- app_assoc.
  - rewrite (proj2 (Z.ltb_lt _ _)) by done. eexists _, _. split; [done|]. by rewrite fit_none.
Qed.

Lemma dots_loop_at n sz es :
  n = 0 /\ dirent_size [x2e] <= sz \/ n = 1 -> Forall (fun e => e.(dn_name) <> []) es ->
  exists sz' buf, dots_loop dirent_size full_tank n sz [] = Ret (2, sz', buf) /\
    fit sz (drop (Z.to_nat n) dot_dirents ++ es) = buf ++ fit sz' es.
Proof.
  intros [[-> Hsz]| ->] Hes.
  - destruct (lasts_turn full_tank 2) as (k & -> & Hk); [by apply full_tank_lasts|done|].
    cbn [dots_loop]. change (0 <? 2) with true. change (0 =? 0) with true. cbv iota zeta.
    unfold sqfs_ll_add_direntry. cbn [dn_name]. rewrite (proj2 (Z.leb_le _ _)), (proj2 (Z.ltb_ge _ _)) by done.
    destruct (dots_loop_last (k tt) (sz - dirent_size [x2e]) [mk_dirent [x2e] 1 S_IFDIR 1] es Hk Hes)
      as (sz' & buf' & E & Ef).
    exists sz', buf'. split; [exact E|]. rewrite <- Ef.
    change (drop (Z.to_nat 0) dot_dirents) with dot_dirents. cbn [dot_dirents app tail fitting dn_name].
    by rewrite (proj2 (Z.leb_le (dirent_size [x2e]) sz)) by done.
  - apply (dots_loop_last full_tank sz [] es); [by apply full_tank_lasts|done].
Qed.

(** ** The place to go on at *)
Lemma listing_split h off its L1 L2 :
  listing h off its = L1 ++ L2 -> exists its1 its2, its = its1 ++ its2 /\ L1 = listing h off its1.
Proof.
  revert h off L1. induction its as [|it its IH]; intros h off L1 E.
  - exists [], []. split; [done|]. by apply (eq_sym) in E as [-> _]%app_nil.
  - destruct L1 as [|e L1]; [by exists [], (it :: its)|]. cbn [listing app] in E.
    injection E as <- (its1 & its2 & -> & ->)%IH. by exists (it :: its1), its2.
Qed.

Lemma listing_length h off its : length (listing h off its) = length its.
Proof. revert h off. induction its as [|it its IH]; intros h off; cbn; [done|by rewrite IH]. Qed.

Lemma resume_at ll its1 :
  resume (dot_dirents ++ map (entry_dirent ll) (listing no_header 0 its1)) = len (items_bytes its1) + 2.
Proof.
  unfold resume. induction its1 as [|it its1 _] using rev_ind; [done|].
  rewrite listing_app, map_app, app_assoc. cbn [listing map]. rewrite last_snoc.
  cbn [entry_dirent dn_off item_entry e_next_offset]. rewrite items_bytes_app, length_app.
  assert (len (items_bytes [it]) = len (item_bytes it)) by (unfold items_bytes; cbn; by rewrite app_nil_r). lia.
Qed.

(** The place to go on at is before ".." or before an item. *)
Lemma resume_cases ll its read rest :
  read ++ rest = dir_dirents ll its ->
  let es := map (entry_dirent ll) (listing no_header 0 its) in
  (exists n, 0 <= n < 2 /\ (n = 0 -> read = []) /\ resume read = n /\
     rest = drop (Z.to_nat n) dot_dirents ++ es) \/
  exists its1 its2, its = its1 ++ its2 /\ resume read = len (items_bytes its1) + 2 /\
     rest = drop (length its1) es.
Proof.
  intros Hsplit es. unfold dir_dirents in Hsplit. fold es in Hsplit.
  destruct read as [|e1 read]; [left; exists 0; by eauto 6|].
  destruct read as [|e2 read].
  { left. exists 1. injection Hsplit as -> ?. split; [done|]. by split. }
  right. injection Hsplit as -> -> Hsplit.
  assert (exists L1 L2, read = map (entry_dirent ll) L1 /\ rest = map (entry_dirent ll) L2 /\
    listing no_header 0 its = L1 ++ L2) as (L1 & L2 & -> & -> & E).
  { symmetry in Hsplit. apply map_eq_app in Hsplit as (L1 & L2 & E & <- & <-). by exists L1, L2. }
  destruct (listing_split _ _ _ _ _ E) as (its1 & its2 & -> & ->). exists its1, its2.
  split; [done|]. split; [exact (resume_at ll its1)|].
  unfold es. rewrite E, map_app, drop_app_length'; [done|].
  by rewrite length_map, listing_length.
Qed.

Lemma listing_names n its h off ll :
  items_ok n its -> Forall (fun e => e.(dn_name) <> []) (map (entry_dirent ll) (listing h off its)).
Proof.
  intros Hok. assert (forall it, item_fits it -> it_name it <> []) as Hne.
  { intros it (Hf & Hl & _) E. rewrite E in Hl. apply fits_dir_entry in Hf. cbn in Hl. lia. }
  revert h off. induction Hok as [|n e nm its Hf _ IH|n hd e nm its Hf _ _ _ _ IH]; intros h off;
    cbn [listing map]; constructor; auto; exact (Hne _ Hf).
Qed.

(** The directory of the request. *)
Record reads_dir (d : driver) (fh : positive) (inode : sqfs_inode) (x : xtra_dir)
    (its : list dir_item) (index : list (squashfs_dir_index * list byte)) : Prop := {
  rd_fs : d.(d_ll).(ll_fs) = fs;
  rd_handle : d.(handles) !! fh = Some (DirHandle inode);
  rd_disk : dir_on_disk fs inode x its index;
  rd_names : names_ok its
}.

(** The tail of the handler: from the entries on. *)
Lemma readdir_entries d inode x its1 its2 index sz buf s :
  d.(d_ll).(ll_fs) = fs -> dir_on_disk fs inode x (its1 ++ its2) index -> names_ok its2 -> good fs X s ->
  exists s', good fs X s' /\
    (r ← try (sqfs_dir_open fs inode (len (items_bytes its1)));
     match r with
     | Failure _ => mret (d, ReplyErr EINVAL)
     | Success dir =>
         '(err, buf) ← entries_loop dirent_size full_tank d.(d_ll) dir sz buf;
         mret (d, if err =? 0 then ReplyDir buf else ReplyErr err)
     end) s =
    Ret (s', Success (d, ReplyDir (buf ++ fit sz
      (drop (length its1) (map (entry_dirent d.(d_ll)) (listing no_header 0 (its1 ++ its2))))))).
Proof.
  intros Hl Hd Hn Hs. destruct (dir_open_at fs Hfs inode x its1 its2 index Hd) as (dir & E & Hp & Ho & El).
  destruct (try_exact fs X false _ _ s _ (sim_dir_open fs X false _ _) Hs E) as (s1 & E1 & Hs1).
  destruct (entries_loop_at full_tank d.(d_ll) dir its2 sz buf s1 Hl Hs1 Hp Hn) as (s2 & Hs2 & E2).
  { apply full_tank_lasts. pose proof (items_count _ _ (pos_items _ _ _ Hp)).
    destruct Hp as [_ _ Ht [? ?] _]. lia. }
  exists s2. split; [done|]. run_m. rewrite E1. cbn beta iota. rewrite E2. cbn. do 6 f_equal.
  rewrite El, map_app, drop_app_length'; [done|].
  by rewrite length_map, listing_length.
Qed.

Lemma readdir_run now d fh inode x its index read rest sz s :
  good fs X s -> reads_dir d fh inode x its index ->
  read ++ rest = dir_dirents d.(d_ll) its -> (read = [] -> dirent_size [x2e] <= sz) ->
  exists s', good fs X s' /\
    sqfs_ll_op_readdir dirent_size mt now d (Some fh) sz (resume read) s =
    Ret (s', Success (update_access_time mt now d, ReplyDir (fit sz rest))).
Proof.
  intros Hs [Hl Hh Hd Hn] Hsplit Hroom. unfold sqfs_ll_op_readdir. cbv zeta. run_m.
  rewrite malloc_ok_run, (proj2 Hs). cbn [malloc fst snd negb].
  assert (good fs X (set_mem s [])) as Hs0 by (by apply good_set_mem).
  assert (handles (update_access_time mt now d) = handles d /\
          d_ll (update_access_time mt now d) = d_ll d) as [Eh Ed].
  { unfold update_access_time. by destruct (_ && _). }
  assert (dir_handle (update_access_time mt now d) (Some fh) = Ret inode) as Hdir.
  { unfold dir_handle. cbn. by rewrite Eh, Hh. }
  set (d1 := update_access_time mt now d) in *.
  assert (d1.(d_ll).(ll_fs) = fs) as Hl1 by (by rewrite Ed).
  set (es := map (entry_dirent d.(d_ll)) (listing no_header 0 its)) in *.
  assert (Forall (fun e => e.(dn_name) <> []) es) as Hes.
  { eapply listing_names, pos_items, dd_items, Hd. }
  destruct (resume_cases _ _ _ _ Hsplit) as [(n & Hn2 & Hz & -> & Er)|(its1 & its2 & -> & -> & Er)];
    fold es in Er.
  - assert (n = 0 /\ dirent_size [x2e] <= sz \/ n = 1) as Hcase.
    { destruct (Z.eq_dec n 0) as [->|]; [left; auto|right; lia]. }
    destruct (dots_loop_at n sz es Hcase Hes) as (sz' & buf & El & Ef). unfold lift at 1.
    rewrite El. cbn beta iota. unfold lift. rewrite Hdir. cbn beta iota.
    change (2 - 2) with (len (items_bytes [])).
    destruct (readdir_entries d1 inode x [] its index sz' buf (set_mem s []) Hl1 Hd Hn Hs0) as (s' & Hs' & E).
    exists s'. split; [done|]. rewrite Er, Ef, Hl1. unfold es. rewrite <- Ed.
    revert E. run_m. intros E. exact E.
  - unfold lift at 1. rewrite dots_loop_done by lia. cbn beta iota. unfold lift. rewrite Hdir. cbn beta iota.
    rewrite Z.add_simpl_r. apply Forall_app in Hn as [_ Hn2].
    destruct (readdir_entries d1 inode x its1 its2 index sz [] (set_mem s []) Hl1 Hd Hn2 Hs0)
      as (s' & Hs' & E).
    exists s'. split; [done|]. rewrite Er, Hl1. unfold es. rewrite <- Ed.
    revert E. run_m. intros E. exact E.
Qed.

(** a request to read an open directory, at the start or at the offset of an entry got
    before, is answered with the entries from there on that fit in the buffer: ".", "..",
    then the items of the directory, each under its name, with its inode number and its
    mode. *)
Theorem sqfs_ll_op_readdir_correct (s : sqfs_state) (now : Z) (d : driver) (fh : positive)
    (inode : sqfs_inode) (x : xtra_dir) (its : list dir_item)
    (index : list (squashfs_dir_index * list byte)) (read rest : list dirent) (sz : Z) :
  inv fs X s [] None -> s.(mem) = [] -> reads_dir d fh inode x its index ->
  read ++ rest = dir_dirents d.(d_ll) its -> (read = [] -> dirent_size [x2e] <= sz) ->
  exists s', inv fs X s' [] None /\
    sqfs_ll_op_readdir dirent_size mt now d (Some fh) sz (resume read) s =
    Ret (s', Success (update_access_time mt now d, ReplyDir (fit sz rest))).
Proof.
  intros Hi Hm Hd Hsplit Hroom.
  destruct (readdir_run now d fh inode x its index read rest sz s (conj Hi Hm) Hd Hsplit Hroom)
    as (s' & [? _] & E). by exists s'.
Qed.

(** What readdir(3) does: it asks for more, from the last entry it got, until there is
    none. *)
Fixpoint read_directory (n : nat) (now : Z) (d : driver) (fh : positive) (sz off : Z)
    : M (option (list dirent)) :=
  match n with
  | 0%nat => mret None
  | S n =>
      '(d, rep) ← sqfs_ll_op_readdir dirent_size mt now d (Some fh) sz off;
      match rep with
      | ReplyDir [] => mret (Some [])
      | ReplyDir ds =>
          more ← read_directory n now d fh sz (resume ds);
          mret (app ds <$> more)
      | _ => mret None
      end
  end.

Lemma access_reads now d fh inode x its index :
  reads_dir d fh inode x its index -> reads_dir (update_access_time mt now d) fh inode x its index.
Proof. intros [? ? ? ?]. unfold update_access_time. by destruct (_ && _). Qed.

Lemma resume_app a b : b <> [] -> resume (a ++ b) = resume b.
Proof. intros Hb. unfold resume. rewrite last_app. destruct (last b) eqn:E; [done|by apply last_None in E]. Qed.

Lemma read_directory_from n now d fh inode x its index read rest sz s :
  good fs X s -> reads_dir d fh inode x its index -> read ++ rest = dir_dirents d.(d_ll) its ->
  (forall e, e ∈ dir_dirents d.(d_ll) its -> dirent_size e.(dn_name) <= sz) -> (length rest < n)%nat ->
  exists s', good fs X s' /\
    read_directory n now d fh sz (resume read) s = Ret (s', Success (Some rest)).
Proof.
  revert d read rest s. induction n as [|n IH]; intros d read rest s Hs Hd Hsplit Hfit Hn; [lia|].
  cbn [read_directory]. destruct (readdir_run now d fh inode x its index read rest sz s Hs Hd Hsplit)
    as (s1 & Hs1 & E).
  { intros _. apply (Hfit (mk_dirent [x2e] 1 S_IFDIR 1)). by left. }
  run_m. rewrite E. cbn beta iota. destruct rest as [|e rest]; [by exists s1|].
  assert (dirent_size (dn_name e) <= sz) as He.
  { apply Hfit. rewrite <- Hsplit. apply elem_of_app. right. by left. }
  destruct (fitting_prefix dirent_size (sz - dirent_size (dn_name e)) rest) as [more Em].
  cbn [fitting]. rewrite (proj2 (Z.leb_le _ _)) by done.
  set (got := fit (sz - dirent_size (dn_name e)) rest) in *.
  assert (d_ll (update_access_time mt now d) = d_ll d) as Ed.
  { unfold update_access_time. by destruct (_ && _). }
  destruct (IH (update_access_time mt now d) (read ++ e :: got) more s1 Hs1 (access_reads now _ _ _ _ _ _ Hd))
    as (s2 & Hs2 & E2); rewrite ?Ed; [by rewrite <- app_assoc; cbn; rewrite <- Em|done|..].
  { apply (f_equal length) in Em. rewrite length_app in Em. cbn [length] in Hn. lia. }
  rewrite resume_app in E2 by done. rewrite E2. exists s2. split; [done|]. cbn. by rewrite <- Em.
Qed.

(** C21: reading an open directory request by request, with a buffer that any one of its
    entries fits in, gives ".", ".." and every item exactly once, in the order of the
    archive, and comes to an end. *)
Theorem sqfs_ll_op_readdir_complete (s : sqfs_state) (now : Z) (d : driver) (fh : positive)
    (inode : sqfs_inode) (x : xtra_dir) (its : list dir_item)
    (index : list (squashfs_dir_index * list byte)) (sz : Z) :
  inv fs X s [] None -> s.(mem) = [] -> reads_dir d fh inode x its index ->
  (forall e, e ∈ dir_dirents d.(d_ll) its -> dirent_size e.(dn_name) <= sz) ->
  exists s', inv fs X s' [] None /\
    read_directory (length its + 3) now d fh sz 0 s =
    Ret (s', Success (Some (dir_dirents d.(d_ll) its))).
Proof.
  intros Hi Hm Hd Hfit.
  destruct (read_directory_from (length its + 3) now d fh inode x its index []
    (dir_dirents d.(d_ll) its) sz s (conj Hi Hm) Hd eq_refl Hfit) as (s' & [? _] & E).
  { unfold dir_dirents. rewrite length_app, length_map, listing_length. cbn. lia. }
  by exists s'.
Qed.
End readdir.

(** ** Sample *)

(** Room for the fields and the name, in units of eight bytes. *)
Definition sample_dirent_size (name : list byte) : Z := (24 + len name + 7) / 8 * 8.

Lemma sample_dots name : name <> [] -> sample_dirent_size [x2e; x2e] <= sample_dirent_size name.
Proof.
  intros Hn. unfold sample_dirent_size. apply Z.mul_le_mono_nonneg_r; [lia|].
  change ((24 + len [x2e; x2e] + 7) / 8) with (32 / 8).
  apply Z.div_le_mono; [lia|]. destruct name; [done|]. cbn [length]. lia.
Qed.

Definition sample_dir_driver : driver :=
  mk_driver (mk_ll tree_fs Ino64) {[ 1%positive := DirHandle tree_root ]} 1 0 0 true.

Lemma sample_reads_dir :
  reads_dir tree_fs sample_dir_driver 1 tree_root (tree_xdir tree_root_inode) tree_root_items [].
Proof.
  split; [reflexivity|reflexivity|exact tree_root_on_disk|].
  repeat constructor; vm_compute; congruence.
Qed.

(** ".", "..", "a", "d", one or two at a time; "d" has the number of its place, 32. *)
Lemma sqfs_ll_op_readdir_correct_witness :
  exists s' d', sqfs_ll_op_readdir (CI := sample_cache) sample_dirent_size false 0 sample_dir_driver
      (Some 1%positive) 70 2 (sample_state []) =
    Ret (s', Success (d', ReplyDir [mk_dirent [x61] 64 S_IFREG 23; mk_dirent [x64] 32 S_IFDIR 32])).
Proof.
  destruct (sqfs_ll_op_readdir_correct tree_fs tree_fs_ok (CL := sample_laws) no_expectations
    sample_dirent_size false sample_dots (sample_state []) 0 sample_dir_driver 1 tree_root _ _ _
    dot_dirents (drop 2 (dir_dirents sample_dir_driver.(d_ll) tree_root_items)) 70
    (sample_inv _ _ _) eq_refl sample_reads_dir eq_refl ltac:(done)) as (s' & _ & E).
  exists s'. eexists. exact E.
Defined.

Lemma sqfs_ll_op_readdir_complete_witness :
  exists s', read_directory (CI := sample_cache) sample_dirent_size false 5 0 sample_dir_driver 1 70 0
      (sample_state []) =
    Ret (s', Success (Some [mk_dirent [x2e] 1 S_IFDIR 1; mk_dirent [x2e; x2e] 1 S_IFDIR 2;
      mk_dirent [x61] 64 S_IFREG 23; mk_dirent [x64] 32 S_IFDIR 32])).
Proof.
  destruct (sqfs_ll_op_readdir_complete tree_fs tree_fs_ok (CL := sample_laws) no_expectations
    sample_dirent_size false sample_dots (sample_state []) 0 sample_dir_driver 1 tree_root _ _ _ 70
    (sample_inv _ _ _) eq_refl sample_reads_dir) as (s' & _ & E).
  { intros e He. unfold dir_dirents in He. cbn in He.
    repeat (apply elem_of_cons in He as [->|He]); [vm_compute; congruence..|by apply not_elem_of_nil in He]. }
  exists s'. exact E.
Defined.
