(* ===== verification/LlReply.v ===== *)
(** * LlReply: what the low-level driver replies

    On an archive that is in order, and with memory: the attributes, the look-up of a
    name and the number that comes of it, the bytes of an open file, the target of a
    link, the extended attributes.  What the handlers need of the numbers of inodes is
    [leads]: [numbered] says for each of the three numberings which entries have a number
    that leads to their inode. *)
From S2P Require Import Prelude Swap Hash Cache CacheST Decompress FsState Block BlockOk Sample MdRead Stream Table Xattr Inode Dir Ends Stat SampleTree LlInode File FileOk Fuse Ll.

Section replies.
Context (fs : sqfs) (Hfs : fs_ok fs) {CI : CacheImpl} {CL : CacheLaws CI} (X : expectations).
Context (makedev : Z -> Z -> Z) (mt : bool).

#[local] Abbreviation good := (good fs X).

(** ** Numbers of inodes *)

(** The number [i] leads to the inode at [id]. *)
Definition leads (ll : sqfs_ll) (i id : Z) : Prop :=
  forall s, good s -> exists s', good s' /\ ino_sqfs ll i s = Ret (s', Success id).

Lemma ino64_leads ll i :
  ll.(ll_ino) = Ino64 -> i <> 1 -> i <> 2 -> leads ll (sqfs_ll_ino64_fuse ll.(ll_fs) i) i.
Proof.
  intros Hl H1 H2 s Hs. exists s. split; [done|]. unfold ino_sqfs. rewrite Hl.
  unfold sqfs_ll_ino64_sqfs, sqfs_ll_ino64_fuse, FUSE_ROOT_ID.
  destruct (Z.eqb_spec i (sqfs_inode_root (ll_fs ll))) as [->|Hr]; [done|].
  destruct (Z.eqb_spec i 0) as [->|H0]; [done|].
  by rewrite (proj2 (Z.eqb_neq _ _) H1), (proj2 (Z.eqb_neq _ _) H2).
Qed.

(** What the entry has to be for its number to lead back to it.  With 64-bit numbers it is
    not at place 1 or 2.  With an export table, that has its inode, and its inode number is
    not the last of 32 bits.  With a table of references [ids] and [cnt] are the places and
    the references the kernel holds, by inode number: the entry is the inode that [ids] has,
    and there is room for one reference more. *)
Definition numbered (ids cnt : Z -> Z) (ll : sqfs_ll) (e : sqfs_dir_entry) : Prop :=
  let n := e.(e_inode_number) in
  match ll.(ll_ino) with
  | Ino64 => e.(e_inode) <> 1 /\ e.(e_inode) <> 2
  | Ino32exp root =>
      0 <= root < 2 ^ 32 - 1 /\ 0 <= n < 2 ^ 32 - 1 /\
      if n =? root then e.(e_inode) = sqfs_inode_root ll.(ll_fs)
      else sqfs_export_inode (m := O) ll.(ll_fs) n = Ret (Success e.(e_inode))
  | Ino32 root icache =>
      0 <= root < 2 ^ 32 - 1 /\ 0 <= n < 2 ^ 32 - 1 /\
      tracks icache ids cnt /\ cnt n + 1 < 2 ^ 32 /\ icache.(capacity) < 2 ^ 62 /\
      ids n = e.(e_inode) /\ 0 <= e.(e_inode) < 2 ^ 48 /\
      (n = root -> e.(e_inode) = sqfs_inode_root ll.(ll_fs))
  end.

(** The kernel holds one reference more to the entry: only a table of references changes. *)
Definition one_more (ids cnt : Z -> Z) (ll ll' : sqfs_ll) (e : sqfs_dir_entry) : Prop :=
  match ll.(ll_ino) with
  | Ino32 root _ => exists icache', ll' = mk_ll ll.(ll_fs) (Ino32 root icache') /\
      tracks icache' ids (count_add cnt e.(e_inode_number) 1)
  | _ => ll' = ll
  end.

Lemma one_more_fs ids cnt ll ll' e : one_more ids cnt ll ll' e -> ll'.(ll_fs) = ll.(ll_fs).
Proof. unfold one_more. destruct (ll_ino ll); [by intros ->|by intros (h & -> & _)|by intros ->]. Qed.

(** The number of a numbered entry is not the reserved one and leads to its inode. *)
Lemma register_numbered ids cnt ll e s :
  ll.(ll_fs) = fs -> numbered ids cnt ll e -> good s ->
  exists ll', ino_register ll e s = Ret (s, Success (ll', ino_fuse_num ll e)) /\
    ino_fuse_num ll e <> 0 /\ one_more ids cnt ll ll' e /\ leads ll' (ino_fuse_num ll e) e.(e_inode).
Proof.
  destruct ll as [f m]. cbn [ll_fs]. intros -> Hn Hs. unfold numbered, one_more in *. cbn [ll_ino ll_fs] in *.
  destruct m as [|root icache|root].
  - destruct Hn as [H1 H2]. exists (mk_ll fs Ino64). split; [done|]. split; [|split; [done|by apply ino64_leads]].
    unfold ino_fuse_num, sqfs_ll_ino64_fuse, sqfs_dentry_inode, FUSE_ROOT_ID. cbn [ll_ino ll_fs].
    destruct (_ =? _); [done|]. by destruct (Z.eqb_spec (e_inode e) 0).
  - destruct Hn as (Hr & Hn & Ht & Hmax & Hcap & Hid & Hi & Hroot).
    destruct (register_tracks fs root ids cnt icache e s Ht (proj2 Hs) (eq_sym Hid) Hmax Hcap)
      as (icache' & i & E & -> & Ht' & _).
    destruct (num2fuse_spec root _ Hr Hn) as (Hback & Hpos & Hone).
    eexists. split; [exact E|]. unfold ino_fuse_num, sqfs_dentry_inode_num. cbn [ll_ino].
    split; [lia|]. split; [by exists icache'|]. intros s1 Hs1. exists s1. split; [done|].
    unfold ino_sqfs. cbn [ll_ino ll_fs]. destruct (Z.eqb_spec (e_inode_number e) root) as [Er|Hne].
    + unfold sqfs_ll_ino32_sqfs. rewrite (proj2 (Z.eqb_eq _ _) (proj2 Hone Er)). by rewrite Hroot.
    + rewrite (tracked_sqfs fs root icache' ids _ _ Ht' Hr Hn Hne) by (by rewrite Hid).
      unfold count_add. rewrite Z.eqb_refl. destruct Ht as [_ Ht]. destruct (Ht (e_inode_number e)) as [H0 _].
      rewrite (proj2 (Z.ltb_lt _ _)) by lia. by rewrite Hid.
  - destruct Hn as (Hr & Hn & Hex). destruct (num2fuse_spec root _ Hr Hn) as (Hback & Hpos & Hroot).
    exists (mk_ll fs (Ino32exp root)). split; [done|]. unfold ino_fuse_num, sqfs_dentry_inode_num. cbn [ll_ino].
    split; [lia|]. split; [done|]. intros s1 Hs1. unfold ino_sqfs, sqfs_ll_ino32exp_sqfs. cbn [ll_ino ll_fs].
    rewrite Hback. destruct (Z.eqb_spec (e_inode_number e) root) as [Er|Hne].
    + rewrite (proj2 (Z.eqb_eq _ _) (proj2 Hroot Er)), Hex. by exists s1.
    + rewrite (proj2 (Z.eqb_neq _ _)) by tauto.
      destruct (try_exact fs X false _ _ s1 _ (sim_export_inode fs X false _) Hs1 Hex) as (s2 & E & Hs2).
      exists s2. split; [done|]. run_m. by rewrite E.
Qed.

(** ** An inode by its number *)
Record reached (d : driver) (i : Z) (inode : sqfs_inode) : Prop := {
  re_fs : d.(d_ll).(ll_fs) = fs;
  re_inode : exists id, leads d.(d_ll) i id /\ sqfs_inode_get (m := O) fs id = Ret (Success inode)
}.

Lemma access_ll now d : d_ll (update_access_time mt now d) = d_ll d.
Proof. unfold update_access_time. by destruct (_ && _). Qed.
Lemma access_handles' now d : handles (update_access_time mt now d) = handles d.
Proof. unfold update_access_time. by destruct (_ && _). Qed.

Lemma access_reached now d i inode : reached d i inode -> reached (update_access_time mt now d) i inode.
Proof. intros [? ?]. by split; rewrite access_ll. Qed.

Lemma ll_inode_run d i inode s :
  reached d i inode -> good s ->
  exists s', good s' /\ try (sqfs_ll_inode d.(d_ll) i) s = Ret (s', Success (Success inode)).
Proof.
  intros [Hf (id & Hlead & E)] Hs. destruct (Hlead s Hs) as (s1 & Hs1 & E1).
  destruct (sim_exact fs X false _ _ s1 _ (sim_inode_get fs X false id) (proj1 Hs1) (proj2 Hs1) E)
    as (s2 & E2 & Hi2 & Hm2).
  exists s2. split; [by split|]. unfold try, sqfs_ll_inode. run_m. by rewrite E1, Hf, E2.
Qed.

Lemma with_inode_run d i inode k s :
  reached d i inode -> i <> 0 -> good s ->
  exists s', good s' /\ with_inode d i k s = k inode s'.
Proof.
  intros Hr Hi Hs. destruct (ll_inode_run d i inode s Hr Hs) as (s1 & Hs1 & E).
  exists s1. split; [done|]. unfold with_inode, sqfs_ll_iget, SQFS_FUSE_INODE_NONE.
  rewrite (proj2 (Z.eqb_neq _ _)) by done. run_m. by rewrite E.
Qed.

(** ** Attributes and names *)
Lemma getattr_run now d i inode st s :
  good s -> reached d i inode -> i <> 0 -> sqfs_stat makedev (m := O) fs inode = Ret (Success st) ->
  exists s', good s' /\ sqfs_ll_op_getattr makedev mt now d i s =
    Ret (s', Success (update_access_time mt now d, ReplyAttr (with_ino st i))).
Proof.
  intros Hs Hr Hi Est. unfold sqfs_ll_op_getattr. cbv zeta.
  apply (access_reached now) in Hr. destruct (with_inode_run _ i inode (fun inode =>
    r ← try (sqfs_stat makedev (ll_fs (d_ll (update_access_time mt now d))) inode);
    mret (update_access_time mt now d, match r with Success st => ReplyAttr (with_ino st i)
      | Failure _ => ReplyErr ENOENT end)) s Hr Hi Hs) as (s1 & Hs1 & E).
  rewrite E, (re_fs _ _ _ Hr). run_m.
  destruct (try_exact fs X false _ _ s1 _ (sim_stat makedev fs X false inode) Hs1 Est) as (s2 & E2 & Hs2).
  exists s2. by rewrite E2.
Qed.

(** C22: a look-up in a sorted directory, in each of the three numberings, when no allocation
    fails and the inode that the entry names can be read: the reply for a name that is there
    has the attributes of its inode and the number of the entry, which is not the reserved 0
    and by which [sqfs_ll_op_getattr] then gives the same attributes; where references are
    counted the kernel holds one more to the inode, and nothing else has changed. For a name
    that is not there the reply is the empty entry. The entry is to be one that its numbering
    can carry: a place other than 1 and 2 for 64-bit numbers; else an inode number below 2^32 -
    1, an export table that has it, or a table of references that is in order, with the number
    for this inode alone and its count not full. *)
Theorem sqfs_ll_op_lookup_correct (s : sqfs_state) (now : Z) (d : driver) (parent : Z)
    (dir : sqfs_inode) (x : xtra_dir) (its : list dir_item)
    (index : list (squashfs_dir_index * list byte)) (name : list byte) (ids cnt : Z -> Z) :
  inv fs X s [] None -> s.(mem) = [] -> reached d parent dir -> parent <> 0 ->
  dir_on_disk fs dir x its index -> sorted_items its -> names_ok its -> name_ok name ->
  let d1 := update_access_time mt now d in
  match find_entry name (listing no_header 0 its) with
  | None => exists s', inv fs X s' [] None /\
      sqfs_ll_op_lookup makedev mt now d parent name s = Ret (s', Success (d1, ReplyEntry 0 stat_zero))
  | Some e => forall inode st, numbered ids cnt d.(d_ll) e ->
      sqfs_inode_get (m := O) fs e.(e_inode) = Ret (Success inode) ->
      sqfs_stat makedev (m := O) fs inode = Ret (Success st) ->
      let i := ino_fuse_num d.(d_ll) e in
      exists s' ll, i <> 0 /\ one_more ids cnt d.(d_ll) ll e /\ inv fs X s' [] None /\
        sqfs_ll_op_lookup makedev mt now d parent name s =
          Ret (s', Success (with_ll d1 ll, ReplyEntry i (with_ino st i))) /\
        forall now', exists s2, inv fs X s2 [] None /\
          sqfs_ll_op_getattr makedev mt now' (with_ll d1 ll) i s' =
          Ret (s2, Success (update_access_time mt now' (with_ll d1 ll), ReplyAttr (with_ino st i)))
  end.
Proof.
  intros Hi Hm Hr Hp Hd Hsort Hn Hname d1.
  apply (access_reached now) in Hr. fold d1 in Hr. pose proof (re_fs _ _ _ Hr) as Hf.
  unfold sqfs_ll_op_lookup. cbv zeta. fold d1.
  match goal with |- context [with_inode d1 parent ?k] =>
    destruct (with_inode_run d1 parent dir k s Hr Hp (conj Hi Hm)) as (s1 & Hs1 & ->) end.
  rewrite (dd_mode _ _ _ _ _ Hd), Hf. cbn [negb].
  pose proof (dir_lookup_ref fs Hfs dir x its index name [] Hd Hsort Hn Hname) as El.
  rewrite app_nil_r in El.
  destruct (try_exact fs X false _ _ s1 _ (sim_dir_lookup fs X false dir name (len name)) Hs1 El)
    as (s2 & E2 & Hs2).
  run_m. rewrite E2. cbn beta iota.
  destruct (find_entry name (listing no_header 0 its)) as [e|]; [|exists s2; split; [apply Hs2|done]].
  intros inode st Hnum Eg Est. unfold sqfs_dentry_inode.
  destruct (try_exact fs X false _ _ s2 _ (sim_inode_get fs X false _) Hs2 Eg) as (s3 & E3 & Hs3).
  destruct (try_exact fs X false _ _ s3 _ (sim_stat makedev fs X false inode) Hs3 Est) as (s4 & E4 & Hs4).
  rewrite E3. cbn beta iota. rewrite E4. cbn beta iota.
  assert (d_ll d1 = d_ll d) as Ed by apply access_ll. rewrite Ed in *.
  destruct (register_numbered ids cnt _ e s4 Hf Hnum Hs4) as (ll & E5 & Hi0 & Hmore & Hlead).
  rewrite E5. cbn beta iota zeta. exists s4, ll. split; [done|]. split; [done|]. split; [apply Hs4|].
  split; [done|]. intros now'.
  destruct (getattr_run now' (with_ll d1 ll) (ino_fuse_num (d_ll d) e) inode st s4 Hs4)
    as (s6 & [? _] & E6); [|done|done|by exists s6].
  split; [cbn; by rewrite (one_more_fs _ _ _ _ _ Hmore)|]. by exists e.(e_inode).
Qed.

(** ** Open files *)
Section file.
Context (inode : sqfs_inode) (x : xtra_reg).
Context (mds : list (Z * list byte)) (hs : list Z) (bs : list (list byte)) (tail : list byte).
Context (Hfile : file_on_disk fs inode x mds hs bs tail) (Hco : coherent fs inode x X hs).

Lemma op_read_end size s :
  0 < size -> sqfs_read_range (m := M) fs inode x.(xr_file_size) size s = Ret (s, Success []).
Proof.
  intros Hsz. pose proof (fo_size Hfile). unfold sqfs_read_range. rewrite (fo_mode Hfile), (fo_reg Hfile).
  cbn [negb]. run_m. unfold lift. cbn beta iota zeta. rewrite (swrap_small 64 (xr_file_size x)) by lia.
  by rewrite (proj2 (Z.ltb_ge size 0)), (proj2 (Z.ltb_ge _ _)), Z.eqb_refl by lia.
Qed.

(** Where the index of the block list is short. *)
Definition unreadable (off : Z) : bool := (off <? x.(xr_file_size)) && index_short fs inode hs off.

Lemma op_read_run (now : Z) (d : driver) (fh : positive) (size off : Z) (s : sqfs_state) :
  good s -> d.(d_ll).(ll_fs) = fs -> d.(handles) !! fh = Some (FileHandle inode) ->
  0 <= off <= x.(xr_file_size) -> 0 < size < 2 ^ 63 ->
  let run := sqfs_ll_op_read mt now d (Some fh) size off s in
  if unreadable off then run = Crash MemFault
  else exists s', good s' /\
    run = Ret (s', Success (update_access_time mt now d, ReplyBuf (slice (file_contents bs tail) off size))).
Proof.
  intros Hs Hf Hh Hoff Hsz run. subst run. unfold unreadable, sqfs_ll_op_read. cbv zeta. run_m.
  rewrite malloc_ok_run, (proj2 Hs). cbn [malloc fst snd negb].
  assert (good (set_mem s [])) as Hs0 by by apply good_set_mem.
  unfold lift, file_handle. cbn. rewrite access_handles', Hh. cbn beta iota. rewrite access_ll, Hf.
  rewrite (swrap_small 64 size) by lia. destruct (_ && _) eqn:Et.
  { apply andb_true_iff in Et as [Hlt%Z.ltb_lt Et].
    pose proof (sim_crash fs X true _ _ _ MemFault (sim_read_range fs Hfs inode x mds hs bs tail Hfile X Hco off size
      ltac:(lia)) (proj1 Hs0) (proj2 Hs0)) as E.
    unfold try. rewrite E; [done|]. apply (read_range_overrun_ref fs Hfs inode x mds hs bs tail Hfile); [lia|lia|done]. }
  assert (off < x.(xr_file_size) -> index_short fs inode hs off = false) as Ht.
  { intros Hlt%Z.ltb_lt. by rewrite Hlt in Et. }
  assert (exists s', try (sqfs_read_range fs inode off size) (set_mem s []) =
    Ret (s', Success (Success (slice (file_contents bs tail) off size))) /\ good s') as (s' & E & Hs').
  { destruct (Z.eq_dec off x.(xr_file_size)) as [Heq|Hne].
    - exists (set_mem s []). split; [|done]. rewrite slice_past by (rewrite (contents_length _ _ _ _ _ _ _ Hfile); lia).
      unfold try. rewrite Heq, op_read_end by lia. done.
    - apply (try_exact fs X true _ _ _ _ (sim_read_range fs Hfs inode x mds hs bs tail Hfile X Hco off size ltac:(lia)) Hs0).
      apply (read_range_ref fs Hfs inode x mds hs bs tail Hfile off size); [lia|lia|apply Ht; lia]. }
  rewrite E. exists s'. split; [done|]. cbn beta iota.
  destruct (Z.eqb_spec (len (slice (file_contents bs tail) off size)) 0) as [Ez|]; [|done].
  by destruct (slice (file_contents bs tail) off size).
Qed.

(** C24: when no allocation fails, a file is opened for reading, read, and closed: the replies
    are an address that was free, the bytes of the file from the given place on, as many as
    were asked for and there are, and success; afterwards the open files are those from before.
    The places where the index of the block list is short (C1: in the fragment of a file whose
    list of 2048 blocks or more ends with a metadata block) are the exception: there the read
    kills the driver, by a read outside the index. *)
Theorem sqfs_ll_op_open_read_release (s : sqfs_state) (now : Z) (d : driver) (ino flags off size : Z) :
  inv fs X s [] None -> s.(mem) = [] -> reached d ino inode -> (flags &&& O_WRONLY_RDWR) = 0 ->
  0 <= off <= x.(xr_file_size) -> 0 < size < 2 ^ 63 ->
  exists s1 d1 fh, sqfs_ll_op_open mt now d ino flags s = Ret (s1, Success (d1, ReplyOpen fh true)) /\
    d.(handles) !! fh = None /\
    let run := sqfs_ll_op_read mt now d1 (Some fh) size off s1 in
    if unreadable off then run = Crash MemFault
    else exists s2 d2, run = Ret (s2, Success (d2, ReplyBuf (slice (file_contents bs tail) off size))) /\
      exists s3 d3, sqfs_ll_op_release mt now d2 (Some fh) s2 = Ret (s3, Success (d3, ReplyErr 0)) /\
      inv fs X s3 [] None /\ d3.(handles) = d.(handles).
Proof.
  intros Hi Hm Hr Hfl Hoff Hsz. apply (access_reached now) in Hr.
  unfold sqfs_ll_op_open. cbv zeta. rewrite Hfl. cbn [Z.eqb negb]. run_m. rewrite malloc_ok_run, Hm.
  cbn [malloc fst snd negb]. assert (good (set_mem s [])) as Hs0 by (by apply good_set_mem).
  destruct (ll_inode_run _ ino inode (set_mem s []) Hr Hs0) as (s1 & Hs1 & E1). rewrite E1. cbn beta iota.
  rewrite (fo_mode Hfile). cbn [negb]. unfold new_handle. cbv zeta. rewrite access_handles'.
  set (fh := fresh (dom (handles d))). assert (handles d !! fh = None) as Hn.
  { apply not_elem_of_dom, is_fresh. }
  eexists s1, _, fh. split; [reflexivity|]. split; [done|].
  match goal with |- context [sqfs_ll_op_read mt now ?d1] => set (d1' := d1) end.
  pose proof (op_read_run now d1' fh size off s1 Hs1 (re_fs _ _ _ Hr)
    ltac:(cbn; by rewrite lookup_insert_eq) Hoff Hsz) as H. cbv zeta in *.
  destruct (unreadable off); [exact H|]. destruct H as (s2 & Hs2 & E2).
  exists s2. eexists. split; [exact E2|]. unfold sqfs_ll_op_release, free_handle. run_m.
  rewrite access_handles'. cbn [handles d1' update_open_refcount]. rewrite lookup_insert_eq. unfold lift.
  cbn beta iota. eexists s2, _. split; [reflexivity|]. split; [apply Hs2|].
  cbn [handles update_open_refcount]. rewrite access_handles'. cbn. by rewrite delete_insert_id.
Qed.
End file.

(** ** Links and extended attributes *)

(** the target of a symbolic link comes back as the archive has it, up to a NUL; the
    buffer for it is large enough. *)
Theorem sqfs_ll_op_readlink_correct (s : sqfs_state) (now : Z) (d : driver) (ino : Z)
    (i : sqfs_inode) (target : list byte) (cur' : sqfs_md_cursor) :
  inv fs X s [] None -> s.(mem) = [] -> reached d ino i -> ino <> 0 ->
  S_ISLNK (mode i) = true -> i.(xtra) = XtraSymlink (len target) ->
  in_size i.(next).(cur_offset) -> in_size (i.(next).(cur_offset) + len target) ->
  sqfs_md_read (m := O) fs i.(next) true (len target) = Ret (Success (cur', target)) ->
  exists s', inv fs X s' [] None /\
    sqfs_ll_op_readlink mt now d ino s =
    Ret (s', Success (update_access_time mt now d, ReplyReadlink (c_str target))).
Proof.
  intros Hi Hm Hr Hino Hl Hx Ho Ho' E. apply (access_reached now) in Hr. pose proof (re_fs _ _ _ Hr) as Hf.
  unfold sqfs_ll_op_readlink. cbv zeta. set (d1 := update_access_time mt now d) in *.
  match goal with |- context [with_inode d1 ino ?k] =>
    destruct (with_inode_run d1 ino i k s Hr Hino (conj Hi Hm)) as (s1 & Hs1 & ->) end.
  rewrite Hl, Hf. cbn [negb]. unfold in_size in *.
  destruct (try_exact fs X false _ _ s1 _ (sim_readlink fs X false i None) Hs1
    (readlink_ref fs Hfs i target cur' None Hl Hx Ho Ho' E ltac:(done))) as (s2 & E2 & Hs2).
  run_m. rewrite E2. cbn beta iota. rewrite malloc_ok_run, (proj2 Hs2). cbn [malloc fst snd negb].
  assert (good (set_mem s2 [])) as Hs2' by (by apply good_set_mem).
  destruct (try_exact fs X false _ _ _ _ (sim_readlink fs X false i (Some (len target + 1))) Hs2'
    (readlink_ref fs Hfs i target cur' (Some (len target + 1)) Hl Hx Ho Ho' E ltac:(intros ? [= <-]; lia)))
    as (s3 & E3 & Hs3).
  rewrite E3. cbn beta iota. exists s3. split; [apply Hs3|].
  rewrite take_ge by lia. by rewrite c_str_app.
Qed.

(** What [sqfs_ll_op_getxattr] answers from the attributes of the archive. *)
Definition getxattr_reply (items : list xattr_item) (name : list byte) (size : Z) : reply :=
  match it_value <$> xattr_find_spec items name with
  | None | Some [] => ReplyErr sqfs_enoattr
  | Some v =>
      if size =? 0 then ReplyXattr (len v)
      else if size <? len v then ReplyErr ERANGE else ReplyBuf v
  end.

(** C27: the value of an extended attribute, or its size for a request without room, or
    [ERANGE] for too little; an attribute that is not there is [ENODATA], and so is one
    with an empty value.  The list of the names comes whole, or its size, or [ERANGE]. *)
Theorem sqfs_ll_op_xattr_correct (s : sqfs_state) (now : Z) (d : driver) (x : sqfs_xattr) (ino : Z)
    (inode : sqfs_inode) (items : list xattr_item) (name : list byte) (size : Z) :
  inv fs X s [] None -> s.(mem) = [] -> reached d ino inode -> ino <> 0 ->
  inode_xattrs fs inode items -> x00 ∉ name -> 0 <= size ->
  let d1 := update_access_time mt now d in
  (exists s', inv fs X s' [] None /\
    sqfs_ll_op_getxattr mt now d x ino name size s = Ret (s', Success (d1, getxattr_reply items name size))) /\
  (exists s', inv fs X s' [] None /\
    sqfs_ll_op_listxattr mt now d x ino size s = Ret (s', Success (d1,
      match listxattr_answer items (if size =? 0 then None else Some size) with
      | inl e => ReplyErr e
      | inr (n, names) => if size =? 0 then ReplyXattr n else ReplyBuf names
      end))).
Proof.
  intros Hi Hm Hr Hino Hx Hn Hsz d1. apply (access_reached now) in Hr. pose proof (re_fs _ _ _ Hr) as Hf.
  split.
  - unfold sqfs_ll_op_getxattr. cbv zeta. fold d1. fold d1 in Hr, Hf.
    match goal with |- context [with_inode d1 ino ?k] =>
      destruct (with_inode_run d1 ino inode k s Hr Hino (conj Hi Hm)) as (s1 & Hs1 & ->) end.
    run_m. rewrite malloc_ok_run, (proj2 Hs1). cbn [malloc fst snd negb].
    assert (good (set_mem s1 [])) as Hs1' by (by apply good_set_mem).
    destruct (try_exact fs X false _ _ _ _ (sim_xattr_lookup fs X false inode x name (Some size)) Hs1'
      (xattr_lookup_ref fs Hfs inode x name items (Some size) (proj1 Hx) Hn
        (fun it => find_spec_all _ items name it (proj2 Hx)))) as (s2 & E2 & Hs2).
    rewrite Hf, E2. cbn beta iota. exists s2. split; [apply Hs2|].
    unfold lookup_answer, getxattr_reply. destruct (xattr_find_spec items name) as [it|]; [|done].
    cbn [fmap option_fmap option_map]. destruct (it_value it) as [|v vs]; [done|].
    destruct (Z.eqb_spec (len (v :: vs)) 0); [done|]. destruct (Z.eqb_spec size 0); [done|].
    destruct (Z.ltb_spec size (len (v :: vs))); [done|]. by rewrite (proj2 (Z.leb_le _ _)) by lia.
  - unfold sqfs_ll_op_listxattr. cbv zeta. fold d1. fold d1 in Hr, Hf.
    match goal with |- context [with_inode d1 ino ?k] =>
      destruct (with_inode_run d1 ino inode k s Hr Hino (conj Hi Hm)) as (s1 & Hs1 & ->) end.
    assert (exists s2, good s2 /\ (if size =? 0 then mret true else malloc_ok) s1 = Ret (s2, Success true))
      as (s2 & Hs2 & E2).
    { destruct (size =? 0); [by exists s1|]. exists (set_mem s1 []). split; [by apply good_set_mem|].
      by rewrite malloc_ok_run, (proj2 Hs1). }
    unfold mbind at 1, M_bind at 1. rewrite E2. cbn beta iota. cbn [negb]. rewrite Hf. run_m.
    destruct (listxattr_good fs Hfs X s2 inode x items (if size =? 0 then None else Some size) Hs2 (proj1 Hx))
      as (s3 & Hs3 & E3); [intros ?; destruct (size =? 0); by intros [= <-]|].
    rewrite E3. cbn beta iota. exists s3. split; [apply Hs3|].
    destruct (listxattr_answer _ _) as [e|[n names]]; [done|]. by destruct (size =? 0).
Qed.
End replies.

(** ** Samples *)
#[local] Existing Instance sample_cache.
#[local] Existing Instance sample_laws.

Definition sample_driver (fs : sqfs) : driver := mk_driver (mk_ll fs Ino64) ∅ 0 0 0 true.

Lemma sample_reached fs X inode :
  fs.(sb).(sb_root_inode) = 0 -> sqfs_inode_get (m := O) fs 0 = Ret (Success inode) ->
  reached fs X (sample_driver fs) 1 inode.
Proof.
  intros Hr E. split; [done|]. exists 0. split; [|done].
  pose proof (ino64_leads fs X (mk_ll fs Ino64) 0 eq_refl ltac:(done) ltac:(done)) as H.
  unfold sqfs_ll_ino64_fuse, sqfs_inode_root in H. cbn [ll_fs] in H. by rewrite Hr in H.
Qed.

Lemma tree_sorted : sorted_items tree_root_items.
Proof. repeat constructor. Qed.
Lemma tree_names : names_ok tree_root_items.
Proof. repeat constructor; vm_compute; congruence. Qed.

(** A driver that counts references, at its start. *)
Definition sample_counting (fs : sqfs) (root : Z) : driver :=
  mk_driver (mk_ll fs (Ino32 root (snd (fst (sqfs_hash_init sizeof_ientry SQFS_ICACHE_INITIAL []))))) ∅ 0 0 0 true.

Lemma sample_tracks ids :
  tracks (snd (fst (sqfs_hash_init sizeof_ientry SQFS_ICACHE_INITIAL []))) ids (fun _ => 0).
Proof.
  destruct (hash_init_ok (V := sqfs_ll_inode_entry) sizeof_ientry 5 [] ltac:(lia) eq_refl)
    as (h & Eh & Hok & Hmap & _). change SQFS_ICACHE_INITIAL with (2 ^ 5). rewrite Eh.
  split; [exact Hok|]. intros n. split; [done|]. cbn [fst snd]. by rewrite Hmap, lookup_empty.
Qed.

Lemma sample_counting_reached fs X n inode :
  sqfs_inode_get (m := O) fs (sqfs_inode_root fs) = Ret (Success inode) ->
  reached fs X (sample_counting fs n) 1 inode.
Proof. intros E. split; [done|]. exists (sqfs_inode_root fs). split; [|done]. intros s Hs. by exists s. Qed.

(** "/d": its 64-bit number is 32, and its number where references are counted 3. *)
Lemma sqfs_ll_op_lookup_correct_witness :
  let gets d i := exists s' ll st,
    sqfs_ll_op_lookup (CI := sample_cache) sample_makedev false 0 d 1 [x64] (sample_state []) =
      Ret (s', Success (with_ll d ll, ReplyEntry i st)) /\
    exists s2 d2, sqfs_ll_op_getattr sample_makedev false 9 (with_ll d ll) i s' =
      Ret (s2, Success (d2, ReplyAttr st)) in
  gets (sample_driver tree_fs) 32 /\ gets (sample_counting tree_fs 1) 3.
Proof.
  assert (exists st, sqfs_stat sample_makedev (m := O) tree_fs tree_sub = Ret (Success st)) as [st Est]
    by (eexists; vm_compute; reflexivity).
  intros gets.
  pose proof (fun d Hr => sqfs_ll_op_lookup_correct tree_fs tree_fs_ok (CL := sample_laws) no_expectations
    sample_makedev false (sample_state []) 0 d 1 tree_root
    (tree_xdir tree_root_inode) tree_root_items [] [x64] (fun _ => 32) (fun _ => 0) (sample_inv _ _ _) eq_refl
    Hr ltac:(done) tree_root_on_disk tree_sorted
    tree_names ltac:(repeat constructor; vm_compute; congruence)) as H.
  destruct (find_entry [x64] (listing no_header 0 tree_root_items)) as [e|] eqn:Ee;
    [|vm_compute in Ee; congruence].
  assert (e_inode e = 32 /\ e_inode_number e = 2) as [He Hn] by (vm_compute in Ee; injection Ee as <-; done).
  assert (forall d, reached tree_fs no_expectations d 1 tree_root -> update_access_time false 0 d = d ->
    numbered (fun _ => 32) (fun _ => 0) (d_ll d) e -> gets d (ino_fuse_num (d_ll d) e)) as Hgets.
  { intros d Hr Ed Hnum. destruct (H d Hr tree_sub st Hnum) as (s' & ll & _ & _ & _ & E & Hget).
    - rewrite He. exact tree_sub_get.
    - exact Est.
    - rewrite Ed in *. destruct (Hget 9) as (s2 & _ & E2). eexists s', ll, _. split; [exact E|].
      exists s2. eexists. exact E2. }
  split.
  - replace 32 with (ino_fuse_num (d_ll (sample_driver tree_fs)) e)
      by (unfold ino_fuse_num, sqfs_dentry_inode; cbn; by rewrite He).
    apply Hgets; [by apply (sample_reached tree_fs _ _ eq_refl tree_root_get)|done|].
    unfold numbered. cbn [ll_ino sample_driver d_ll]. by rewrite He.
  - replace 3 with (ino_fuse_num (d_ll (sample_counting tree_fs 1)) e)
      by (unfold ino_fuse_num, sqfs_dentry_inode_num; cbn [ll_ino sample_counting d_ll]; by rewrite Hn).
    apply Hgets; [by apply sample_counting_reached, tree_root_get|done|].
    unfold numbered. cbn [ll_ino sample_counting d_ll]. rewrite Hn, He.
    repeat split; try lia; try apply sample_tracks; try done.
Defined.

Lemma sqfs_ll_op_readlink_correct_witness :
  exists s' d', sqfs_ll_op_readlink (CI := sample_cache) false 0 (sample_driver sample_inode_fs) 1 (sample_state []) =
    Ret (s', Success (d', ReplyReadlink sample_target)).
Proof.
  destruct (sqfs_ll_op_readlink_correct sample_inode_fs sample_inode_fs_ok (CL := sample_laws)
    no_expectations false (sample_state []) 0 (sample_driver sample_inode_fs) 1 sample_link
    sample_target (mk_cursor 22 9) (sample_inv _ _ _) eq_refl
    (sample_reached sample_inode_fs _ _ eq_refl ltac:(vm_compute; reflexivity)) ltac:(done)
    eq_refl eq_refl ltac:(vm_compute; intuition congruence)
    ltac:(vm_compute; intuition congruence) ltac:(vm_compute; reflexivity)) as (s' & _ & E).
  exists s'. eexists. exact E.
Defined.

(** A file of six bytes in blocks of four, with the two attributes of [sample_xattrs]. *)
Definition node_inode : squashfs_lreg_inode :=
  Build_squashfs_lreg_inode (sample_base SQUASHFS_LREG_TYPE 0x1a4 7) 66 6 0 1 SQUASHFS_INVALID_FRAG 0 0.
Definition node_headers : list Z := [stored_data + 4; stored_data + 2].
Definition node_md : list byte := to_disk node_inode ++ concat (le_encode 4 <$> node_headers).
Definition node_image : list byte :=
  stored_md node_md ++ [x61; x62; x63; x64] ++ [x65; x66] ++ stored_md sample_xattr_md ++
  stored_md (to_disk sample_xattr_id).
Definition node_fs : sqfs :=
  mk_sqfs node_image 0 1000 1000 (sample_file_sb 4) table_zero table_zero table_zero None
    (Build_squashfs_xattr_id_table 72 1 0) (mk_table 16 1 (Some [74 + len sample_xattr_md])).
Definition node_xtra : xtra_reg := mk_xreg 66 6 SQUASHFS_INVALID_FRAG 0.
Definition node : sqfs_inode := decode_inode (DLreg node_inode) (mk_cursor 0 56).
Definition node_expectations : expectations := {|
  data_hdr key h := h = if key =? 66 then stored_data + 4 else stored_data + 2;
  frag_hdr _ h := h = 0;
  index_of _ index := sqfs_blockidx_add node_fs node = Ret (Success index)
|}.

Lemma node_fs_ok : fs_ok node_fs.
Proof. split; [vm_compute; congruence|done]. Qed.

Lemma node_get : sqfs_inode_get (m := O) node_fs 0 = Ret (Success node).
Proof. vm_compute. reflexivity. Qed.

Lemma node_on_disk :
  file_on_disk node_fs node node_xtra [(66, node_md)] node_headers [[x61; x62; x63; x64]; [x65; x66]] [].
Proof.
  split.
  - reflexivity.
  - reflexivity.
  - vm_compute. done.
  - vm_compute. intuition congruence.
  - vm_compute. intuition congruence.
  - vm_compute. reflexivity.
  - repeat constructor; vm_compute; intuition congruence.
  - split; [vm_compute; reflexivity|]. split; [done|]. split; [done|]. split; [|done].
    vm_compute. congruence.
  - vm_compute. intuition congruence.
  - vm_compute. congruence.
  - vm_compute. reflexivity.
  - intros i Hi. cbn in Hi. lia.
  - reflexivity.
  - intros [|[|k]] h data Hh Hd; [| |done]; injection Hh as <-; injection Hd as <-;
      (split; vm_compute; reflexivity).
  - reflexivity.
Qed.

Lemma node_coherent : coherent node_fs node node_xtra node_expectations node_headers.
Proof.
  split; [| |done].
  - intros [|[|k]] h Hh Hne; [| |done]; injection Hh as <-; done.
  - intros fe Hfe. vm_compute in Hfe. congruence.
Qed.

(** Four bytes from the third on, over the end of a block. *)
Lemma sqfs_ll_op_open_read_release_witness :
  exists s1 d1 fh, sqfs_ll_op_open (CI := sample_cache) false 0 (sample_driver node_fs) 1 0 (sample_state []) =
      Ret (s1, Success (d1, ReplyOpen fh true)) /\
    exists s2 d2, sqfs_ll_op_read false 0 d1 (Some fh) 4 3 s1 = Ret (s2, Success (d2, ReplyBuf [x64; x65; x66])) /\
    exists s3 d3, sqfs_ll_op_release false 0 d2 (Some fh) s2 = Ret (s3, Success (d3, ReplyErr 0)) /\
      d3.(handles) = ∅.
Proof.
  destruct (sqfs_ll_op_open_read_release node_fs node_fs_ok (CL := sample_laws) node_expectations false
    node node_xtra _ _ _ _ node_on_disk node_coherent (sample_state []) 0 (sample_driver node_fs) 1 0 3 4
    (sample_inv _ _ _) eq_refl (sample_reached node_fs _ _ eq_refl node_get) eq_refl
    ltac:(vm_compute; intuition congruence) ltac:(done))
    as (s1 & d1 & fh & E1 & _ & s2 & d2 & E2 & s3 & d3 & E3 & _ & Hh).
  exists s1, d1, fh. split; [exact E1|]. exists s2, d2. split; [exact E2|]. exists s3, d3.
  split; [exact E3|exact Hh].
Defined.

Lemma node_xattrs : inode_xattrs node_fs node sample_xattrs.
Proof.
  assert (Forall (item_there node_fs) sample_xattrs) as Hall.
  { apply Forall_forall. intros it Hin.
    repeat (apply elem_of_cons in Hin as [->|Hin]); [| |by apply not_elem_of_nil in Hin];
      (split; [split; cbn; [vm_compute; intuition congruence|lia|lia|intros r [=]; lia]|]);
      intros r; [done|]. intros [= <-].
    apply (cursor_holds _ _ _ _ (mk_cursor (74 + len sample_xattr_md) 0)); [vm_compute; intuition congruence|].
    vm_compute. reflexivity. }
  split; [|done].
  exists sample_xattr_id, (mk_cursor 72 0). split; [vm_compute; reflexivity|].
  split; [repeat constructor; cbn; lia|]. split; [done|]. split; [done|]. split.
  - apply (cursor_holds _ 0 72 _ (mk_cursor 72 28)); [vm_compute; intuition congruence|].
    vm_compute. reflexivity.
  - eapply Forall_impl; [exact Hall|]. by intros it [].
Qed.

(** "trusted.b" with room for three bytes; the names in fourteen bytes are too many. *)
Lemma sqfs_ll_op_xattr_correct_witness :
  (exists s' d', sqfs_ll_op_getxattr (CI := sample_cache) false 0 (sample_driver node_fs) sample_xattr 1 sample_trusted_b 14
      (sample_state []) = Ret (s', Success (d', ReplyBuf [x78; x79; x7a]))) /\
  (exists s' d', sqfs_ll_op_listxattr (CI := sample_cache) false 0 (sample_driver node_fs) sample_xattr 1 14
      (sample_state []) = Ret (s', Success (d', ReplyErr ERANGE))).
Proof.
  assert (x00 ∉ sample_trusted_b) as Hn by (apply (bool_decide_unpack _); by vm_compute).
  destruct (sqfs_ll_op_xattr_correct node_fs node_fs_ok (CL := sample_laws) no_expectations false
    (sample_state []) 0 (sample_driver node_fs) sample_xattr 1 node sample_xattrs sample_trusted_b 14
    (sample_inv _ _ _) eq_refl (sample_reached node_fs _ _ eq_refl node_get) ltac:(done) node_xattrs Hn
    ltac:(lia)) as [(s1 & _ & E1) (s2 & _ & E2)].
  split; [exists s1|exists s2]; eexists; [exact E1|exact E2].
Defined.
