(* ===== verification/LlMain.v ===== *)
(** * LlMain: the program squashfuse_ll (ll_main.c)

    main takes the command line, opens the archive, mounts it with libfuse, serves what the
    kernel sends and cleans up.  [libfuse] is what libfuse gives: the arguments it hands to
    [sqfs_opt_proc], the values of the options, its own part of the command line, and the
    [event]s of the session in their order, of the kernel and of signals.  [sigterm] is
    SQFS_SIGTERM_HANDLER; [release] is what sscanf reads in the release that uname gives,
    and [KERNEL_VERSION] is Linux's.  [new_root] is the variable of
    [sqfs_init_with_subdir]; [now] is the time of the mount. *)
From Stdlib Require Import Strings.String.
From S2P Require Import Prelude Swap Hash Cache CacheST Decompress FsState Block BlockOk Sample Xattr Stat LlInode Fuse Init SampleArchive System Util Mount Disk Ll LlOk.

(** NULL for the directory is the empty string here. *)
Record options := mk_options {
  opt_offset : Z;
  opt_timeout : Z;
  opt_uid : Z;
  opt_gid : Z;
  opt_subdir : list byte;
  opt_notify_pipe : option (list byte)
}.

Record fuse_cmdline_opts := mk_cmdline {
  co_mountpoint : option (list byte);
  co_foreground : bool;
  co_singlethread : bool
}.

Inductive event :=
  | EvInit
  | EvRequest (x : sqfs_xattr) (now : Z) (r : request)
  | EvAlarm (now : Z)
  | EvSigterm.

Record libfuse := mk_libfuse {
  lf_args : list (list byte * Z);
  lf_parsed : bool;                       (* no option has a bad value *)
  lf_options : options;
  lf_cmdline : option fuse_cmdline_opts;  (* [None]: it is refused *)
  lf_events : list event
}.

Section main.
Context {CI : CacheImpl} (h : host) (libs : codec_libs) (ino_size : Z).
Context (makedev : Z -> Z -> Z) (dirent_size : list byte -> Z).
Context (package version : list byte) (mt help sigterm : bool).
Context (release : option (Z * Z * Z)) (KERNEL_VERSION : Z -> Z -> Z -> Z).

(** ** SIGTERM *)
Definition kernel_version_at_least (required_major required_minor required_micro : Z) : P bool :=
  ok ← sys h Uname;
  mret (if (ok : bool) then
          match release with
          | Some (major, minor, micro) =>
              KERNEL_VERSION required_major required_minor required_micro <=?
              KERNEL_VERSION major minor micro
          | None => false
          end
        else false).

(** The process becomes another program, or nothing happens. *)
Definition exec (file : list byte) (args : list (list byte)) : P unit :=
  ok ← sys h (Exec file args);
  if (ok : bool) then exit 0 else mret tt.

Definition sigterm_handler (g_mount_point : option (list byte)) : P unit :=
  let brutally := tell (Kill false SIGINT) in
  match g_mount_point with
  | None => brutally
  | Some mountpoint =>
      new ← kernel_version_at_least 5 2 0;
      if (new : bool) then
        pid ← ask h Fork;
        if pid =? 0 then
          let args := text <$> ["-u"; "-q"; "-z"; "--"]%string in
          _ ← tell Setsid;
          _ ← exec (text "/bin/fusermount3") (args ++ [mountpoint]);
          _ ← exec (text "fusermount3") (args ++ [mountpoint]);
          _ ← tell (Kill true SIGINT);
          exit 0
        else if 0 <? pid then mret tt
        else brutally
      else brutally
  end.

Definition set_sigterm_handler : P unit :=
  ok ← sys h (Sigaction SIGTERM);
  if (ok : bool) then mret tt else tell (Perror (text "sigaction(SIGTERM)")).

(** ** The session *)
Section session.
Context (notify_pipe : option (list byte)) (mountpoint : list byte).

(** A handler gives a reply, and nothing fails. *)
Definition on_event (d : driver) (e : event) : P driver :=
  match e with
  | EvInit => _ ← sqfs_ll_op_init h notify_pipe; mret d
  | EvRequest x now r =>
      answer ← reader (sqfs_ll_ops makedev dirent_size mt x now d r);
      mret (match answer with Success (d, _) => d | Failure _ => d end)
  | EvAlarm now =>
      match alarm_tick now d with
      | TickIgnored => mret d
      | TickInterrupt => _ ← tell (Kill false SIGINT); mret d
      | TickAgain => _ ← tell (Alarm 1); mret d
      end
  | EvSigterm => _ ← (if sigterm then sigterm_handler (Some mountpoint) else mret tt); mret d
  end.

Fixpoint fuse_session (d : driver) (events : list event) : P driver :=
  match events with
  | [] => mret d
  | e :: events => d ← on_event d e; fuse_session d events
  end.

Definition fuse_session_loop (threads : bool) (d : driver) (events : list event) : P (driver * Z) :=
  err ← ask h (Fuse (SessionLoop threads));
  d ← fuse_session d events;
  mret (d, err).

(** What main does with a mounted file system. *)
Definition serve (cmdline : fuse_cmdline_opts) (timeout now : Z) (ll : sqfs_ll) (events : list event)
    : P (driver * Z) :=
  let d := mk_driver ll ∅ 0 0 0 false in
  r ← sqfs_ll_daemonize h cmdline.(co_foreground);
  if r =? -1 then mret (d, -1)
  else
    ok ← sys h (Fuse SetSignalHandlers);
    if negb ok then mret (d, -1)
    else
      _ ← (if sigterm then set_sigterm_handler else mret tt);
      d ← (if timeout =? 0 then mret d else setup_idle_timeout mt h now timeout d);
      '(d, err) ← fuse_session_loop (mt && negb cmdline.(co_singlethread)) d events;
      d ← teardown_idle_timeout d;
      _ ← tell (Fuse RemoveSignalHandlers);
      mret (d, err).
End session.

(** ** main *)

(** Descriptors 0 to 2 are taken. *)
Fixpoint null_loop (f : fuel) : P unit :=
  match f with
  | NoFuel => run (Crash OutOfFuel)
  | More k =>
      fd ← ask h OpenNull;
      if fd =? -1 then mret tt
      else if 2 <? fd then tell CloseNull
      else null_loop (k tt)
  end.

Definition fuse_opt_parse (lib : libfuse) : P (option sqfs_opts) :=
  _ ← tell (Fuse OptParse);
  mret (if lib.(lf_parsed) then fst <$> opt_calls (mk_opts None false) lib.(lf_args) else None).

Definition fuse_parse_cmdline (lib : libfuse) : P (option fuse_cmdline_opts) :=
  _ ← tell (Fuse ParseCmdline);
  mret lib.(lf_cmdline).

Definition cleanup (notify_pipe : option (list byte)) (err : Z) : P unit :=
  _ ← (if err =? 0 then mret tt
       else match notify_pipe with
            | Some notify_pipe => notify_mount_ready h notify_pipe NOTIFY_FAILURE
            | None => mret tt
            end);
  tell (Fuse OptFreeArgs).

Definition out (notify_pipe : option (list byte)) (err : Z) : P Z :=
  _ ← cleanup notify_pipe err;
  mret (- err).

(** No image is NULL, which open refuses as it does an empty path. *)
Definition main (argv0 : option (list byte)) (lib : libfuse) (new_root now : Z) : P Z :=
  let opts := lib.(lf_options) in
  let out := out opts.(opt_notify_pipe) in
  let usage := err ← sqfs_usage package version mt help argv0 true true; out err in
  parsed ← fuse_opt_parse lib;
  match parsed with
  | None => usage
  | Some args =>
      cmdline ← fuse_parse_cmdline lib;
      match cmdline with
      | None | Some (mk_cmdline None _ _) => usage
      | Some (mk_cmdline (Some mountpoint) _ _ as cmdline) =>
          _ ← null_loop full_tank;
          ll ← sqfs_ll_open_with_subdir h libs ino_size (default [] args.(image)) opts.(opt_offset)
                 opts.(opt_subdir) new_root;
          match ll with
          | None => out 1
          | Some ll =>
              let ll := set_ids opts.(opt_uid) opts.(opt_gid) ll in
              err ← sqfs_ll_mount h mountpoint;
              if decide (err <> SQFS_OK) then out (-1)
              else
                '(d, err) ← serve opts.(opt_notify_pipe) mountpoint cmdline opts.(opt_timeout) now ll
                              lib.(lf_events);
                _ ← sqfs_ll_destroy d.(d_ll);
                _ ← sqfs_ll_unmount;
                out err
          end
      end
  end.
End main.

(** ** What libfuse has mounted

    The session, its mount and its signal handlers; [None] after a call that libfuse does
    not allow. *)
Record mount_state := mk_mount { ms_session : bool; ms_mounted : bool; ms_signals : bool }.
Definition not_mounted : mount_state := mk_mount false false false.

Definition mount_step (ok : bool) (s : option mount_state) (c : call) : option mount_state :=
  '(mk_mount session mounted signals) ← s;
  match c with
  | Fuse SessionNew => if session then None else Some (mk_mount ok false false)
  | Fuse (SessionMount _) =>
      if session && negb mounted then Some (mk_mount true ok signals) else None
  | Fuse SetSignalHandlers =>
      if session && negb signals then Some (mk_mount session mounted ok) else None
  | Fuse (SessionLoop _) =>
      if mounted && signals then Some (mk_mount session mounted signals) else None
  | Fuse RemoveSignalHandlers =>
      if signals then Some (mk_mount session mounted false) else None
  | Fuse SessionUnmount =>
      if mounted && negb signals then Some (mk_mount session false signals) else None
  | Fuse SessionDestroy =>
      if session && negb mounted && negb signals then Some not_mounted else None
  | _ => Some (mk_mount session mounted signals)
  end.

Definition mount_after (h : host) (calls : list call) : option mount_state :=
  after mount_step h (Some not_mounted) calls.

Section mounts.
Context (h : host).

(** The state of the mount, and nothing was told of a failure. *)
Definition mounts (m : mount_state) (calls : list call) : Prop :=
  mount_after h calls = Some m /\ WritePipe [NOTIFY_FAILURE] ∉ calls.

Lemma mounts_snoc m m' calls c :
  mounts m calls -> mount_step (h.(answers) calls c) (Some m) c = Some m' ->
  c <> WritePipe [NOTIFY_FAILURE] -> mounts m' (calls ++ [c]).
Proof.
  intros [E Hn] Hs Hc. split; [|rewrite elem_of_app, list_elem_of_singleton; intuition].
  unfold mount_after in *. by rewrite after_snoc, E.
Qed.

Lemma mount_step_same ok m c : calm c \/ c = WritePipe [NOTIFY_FAILURE] -> mount_step ok (Some m) c = Some m.
Proof. destruct m, c as [| | | | | | | | | | | | | | | | | | | | | | | | | |[]]; cbn; intros [H|H]; done. Qed.

Lemma mount_after_same m calls extra :
  Forall (fun c => calm c \/ c = WritePipe [NOTIFY_FAILURE]) extra ->
  mount_after h calls = Some m -> mount_after h (calls ++ extra) = Some m.
Proof.
  revert calls. induction extra as [|c extra IH]; intros calls Hx E; [by rewrite app_nil_r|].
  apply Forall_cons in Hx as [Hc Hx]. change (c :: extra) with ([c] ++ extra). rewrite app_assoc. apply IH; [done|].
  unfold mount_after in *. rewrite after_snoc, E. by apply mount_step_same.
Qed.

Lemma mounts_more m calls calls' : mounts m calls -> more calls calls' -> mounts m calls'.
Proof.
  intros [E Hn] (x & -> & Hx). split.
  - apply mount_after_same; [|done]. eapply Forall_impl; [exact Hx|]. by left.
  - rewrite elem_of_app. intros [?|Hin]; [done|]. rewrite Forall_forall in Hx. by apply (Hx _ Hin).
Qed.
End mounts.

(** ** The end *)
Section cleanup.
Context {CI : CacheImpl} (h : host).

(** The failure is told on the pipe, if that can be written to. *)
Definition failure_told (p : list byte) (calls : list call) : Prop :=
  exists before rest, calls = before ++ StatFile p :: rest /\
    (pipe_ready h before p <-> WritePipe [NOTIFY_FAILURE] ∈ rest).

Lemma cleanup_does np err w :
  mounts h not_mounted w.(w_calls) ->
  does (cleanup h np err) (fun _ w' =>
      mount_after h w'.(w_calls) = Some not_mounted /\ w'.(w_fs) = w.(w_fs) /\
      (exists rest, w'.(w_calls) = w.(w_calls) ++ rest) /\
      if err =? 0 then WritePipe [NOTIFY_FAILURE] ∉ w'.(w_calls)
      else forall p, np = Some p -> failure_told p w'.(w_calls))
    (fun _ _ => False) w.
Proof.
  intros Hm. unfold cleanup.
  apply (does_bind _ _ (fun _ w' => mount_after h w'.(w_calls) = Some not_mounted /\ w'.(w_fs) = w.(w_fs) /\
    (exists rest, w'.(w_calls) = w.(w_calls) ++ rest) /\
    if err =? 0 then WritePipe [NOTIFY_FAILURE] ∉ w'.(w_calls)
    else forall p, np = Some p -> failure_told p w'.(w_calls))).
  - destruct (err =? 0).
    { apply does_ret. destruct Hm. split; [done|]. split; [done|]. split; [|done]. exists []. by rewrite app_nil_r. }
    destruct np as [p|].
    2: { apply does_ret. destruct Hm. split; [done|]. split; [done|]. split; [|done]. exists []. by rewrite app_nil_r. }
    destruct (notify_runs h p NOTIFY_FAILURE w) as (rest & E & Hr & Hc). unfold does. rewrite E. cbn [w_calls w_fs].
    split; [apply mount_after_same; [|apply Hm]; by apply Forall_cons; split; [left|]|].
    split; [done|]. split; [by eexists|]. intros p' [= <-]. by exists w.(w_calls), rest.
  - intros ? w1 (E & Hf & (rest & Ec) & Hn). unfold does, tell. cbn [asked w_calls w_fs].
    split; [by apply mount_after_same; [repeat constructor|]|]. split; [done|].
    split; [exists (rest ++ [Fuse OptFreeArgs]); by rewrite Ec, app_assoc|].
    destruct (err =? 0).
    + rewrite elem_of_app, list_elem_of_singleton. by intros [?|?].
    + intros p Hp. destruct (Hn p Hp) as (b & r & E' & Hr). exists b, (r ++ [Fuse OptFreeArgs]).
      split; [by rewrite E', <- app_assoc|]. rewrite elem_of_app, list_elem_of_singleton. rewrite Hr. intuition done.
Qed.
End cleanup.

Section correct.
Context {CI : CacheImpl} {CL : CacheLaws CI} (h : host) (libs : codec_libs) (ino_size : Z).
Context (Hlibs : codec_laws libs).
Context (Hsize : forall calls path fd, h.(images) calls path = Some fd -> len fd <= 2 ^ 62).
Context (makedev : Z -> Z -> Z) (dirent_size : list byte -> Z).
Context (package version : list byte) (mt help sigterm : bool).
Context (release : option (Z * Z * Z)) (KERNEL_VERSION : Z -> Z -> Z -> Z).

#[local] Abbreviation ops := (sqfs_ll_ops makedev dirent_size mt).

(** The kernel releases what it opened. *)
Fixpoint wanted_events (d : driver) (s : sqfs_state) (events : list event) : Prop :=
  match events with
  | [] => True
  | EvRequest x now r :: events =>
      wanted d r /\
      forall s' d' rep, ops x now d r s = Ret (s', Success (d', rep)) -> wanted_events d' s' events
  | _ :: events => wanted_events d s events
  end.

(** ** The signals and the session *)
Lemma exec_calm file args w :
  forked h w.(w_calls) -> does (exec h file args) (fun _ w' => follows w w') (fun _ w' => forked h w'.(w_calls)) w.
Proof.
  intros Hw. apply does_sys. pose proof (follows_asked w (Exec file args) I) as Hf.
  destruct (answers h _ _); [|by apply does_ret]. apply does_exit. exact (forked_more _ _ _ Hw (proj1 Hf)).
Qed.

Lemma sigterm_calm g : calmly h (sigterm_handler h release KERNEL_VERSION g).
Proof.
  unfold sigterm_handler. destruct g as [mp|]; [|auto with calm].
  unfold kernel_version_at_least.
  apply calmly_bind; [apply calmly_bind; [auto with calm|intros ok; apply calmly_ret]|].
  intros [|]; [|auto with calm]. intros w. apply does_ask. pose proof (follows_asked w Fork I) as Hw.
  destruct (Z.eqb_spec (numbers h (w_calls w) Fork) 0) as [Hz|Hz].
  - assert (forked h (asked w Fork).(w_calls)) as Hk by by exists w.(w_calls), [].
    apply does_tell. set (w1 := asked (asked w Fork) Setsid).
    assert (forked h w1.(w_calls)) as Hk1 by (apply (forked_more _ _ _ Hk), more_snoc, I).
    eapply does_bind; [by apply exec_calm|]. intros ? w2 [H2 _].
    eapply does_bind; [apply exec_calm; by eapply forked_more|]. intros ? w3 [H3 _].
    apply does_tell, does_exit. apply (forked_more _ w3.(w_calls)); [|by apply more_snoc].
    eapply forked_more; [|done]. by eapply forked_more.
  - destruct (_ <? _); [by apply does_ret|]. apply (follows_trans _ _ _ Hw), follows_asked, I.
Qed.

Lemma event_serves np mp fs d e events w :
  session_inv fs d w.(w_fs) -> wanted_events d w.(w_fs) (e :: events) ->
  does (on_event h makedev dirent_size mt sigterm release KERNEL_VERSION np mp d e)
    (fun d' w' => session_inv fs d' w'.(w_fs) /\ wanted_events d' w'.(w_fs) events /\
                  more w.(w_calls) w'.(w_calls))
    (fun _ w' => forked h w'.(w_calls)) w.
Proof.
  intros Hi Hw.
  assert (forall m : P unit, calmly h m -> wanted_events d w.(w_fs) events ->
    does (_ ← m; mret d) (fun d' w' => session_inv fs d' w'.(w_fs) /\ wanted_events d' w'.(w_fs) events /\
      more w.(w_calls) w'.(w_calls)) (fun _ w' => forked h w'.(w_calls)) w) as Hcalm.
  { intros m Hm He. eapply does_bind; [apply Hm|]. intros ? w' [Hc Hf]. apply does_ret. by rewrite Hf. }
  destruct e as [|x now r|now|]; cbn [on_event wanted_events] in *.
  - apply Hcalm; [|done]. by apply notify_async_calm.
  - destruct Hw as [Hr Hnext].
    pose proof (session_serves makedev dirent_size mt fs d w.(w_fs) x now r Hi Hr) as H.
    unfold does, reader. run_p. destruct (ops x now d r (w_fs w)) as [[s' [[d' rep]|]]|]; [|done..].
    destruct H as [H _]. split; [done|]. split; [by eapply Hnext|apply more_refl].
  - destruct (alarm_tick now d); [|apply Hcalm; [auto with calm|done]..].
    apply does_ret. split; [done|]. split; [done|apply more_refl].
  - apply Hcalm; [|done]. destruct sigterm; [apply sigterm_calm|apply calmly_ret].
Qed.

Lemma session_serves_all np mp fs events d w :
  session_inv fs d w.(w_fs) -> wanted_events d w.(w_fs) events ->
  does (fuse_session h makedev dirent_size mt sigterm release KERNEL_VERSION np mp d events)
    (fun d' w' => session_inv fs d' w'.(w_fs) /\ more w.(w_calls) w'.(w_calls))
    (fun _ w' => forked h w'.(w_calls)) w.
Proof.
  revert d w. induction events as [|e events IH]; intros d w Hi Hw; cbn [fuse_session].
  { apply does_ret. split; [done|apply more_refl]. }
  eapply does_bind; [by apply event_serves|]. intros d' w' (Hi' & Hw' & Hc).
  eapply does_mono; [by apply IH| |done]. intros d2 w2 [H2 Hc2]. split; [done|]. by eapply more_trans.
Qed.

(** ** Before the mount *)

(** open gives the lowest descriptor that is free: after as many openings, one at least as
    large. *)
Context (Hnull : forall calls k, let n := h.(numbers) (calls ++ replicate k OpenNull) OpenNull in
  n = -1 \/ Z.of_nat k <= n).

Lemma null_loop_does calls k f w :
  w.(w_calls) = calls ++ replicate k OpenNull -> (k <= 3)%nat -> lasts f (4 - Z.of_nat k) ->
  does (null_loop h f) (fun _ w' => follows w w') (fun _ _ => False) w.
Proof.
  revert k w. induction f as [|f IH]; intros k w E Hk Hf; [destruct Hf; lia|].
  destruct Hf as [?|Hf]; [lia|]. cbn [null_loop]. apply does_ask.
  pose proof (Hnull calls k) as Hn. cbv zeta in Hn. rewrite <- E in Hn.
  pose proof (follows_asked w OpenNull I) as Hw.
  destruct (Z.eqb_spec (numbers h (w_calls w) OpenNull) (-1)); [by apply does_ret|].
  destruct (Z.ltb_spec 2 (numbers h (w_calls w) OpenNull)).
  { exact (follows_trans _ _ _ Hw (follows_asked _ CloseNull I)). }
  eapply does_mono; [apply (IH tt (S k))| |done].
  - cbn [asked w_calls]. by rewrite E, <- app_assoc, replicate_S_end.
  - lia.
  - replace (4 - Z.of_nat (S k)) with (4 - Z.of_nat k - 1) by lia. exact Hf.
  - intros ? w' H'. exact (follows_trans _ _ _ Hw H').
Qed.

(** The loop has returned 0. *)
Definition served (calls : list call) : Prop :=
  exists before threads rest, calls = before ++ Fuse (SessionLoop threads) :: rest /\
    h.(numbers) before (Fuse (SessionLoop threads)) = 0.

(** libfuse refuses the session or the mount. *)
Definition mount_refused (calls : list call) : Prop :=
  exists before c rest, calls = before ++ c :: rest /\
    (c = Fuse SessionNew \/ exists mp, c = Fuse (SessionMount mp)) /\ h.(answers) before c = false.

Lemma mount_does mp w :
  mounts h not_mounted w.(w_calls) ->
  does (sqfs_ll_mount h mp) (fun err w' => w'.(w_fs) = w.(w_fs) /\
      if decide (err = SQFS_OK) then mounts h (mk_mount true true false) w'.(w_calls)
      else mounts h not_mounted w'.(w_calls) /\ mount_refused w'.(w_calls))
    (fun _ _ => False) w.
Proof.
  intros Hm. unfold sqfs_ll_mount. apply does_sys.
  pose proof (fun m => mounts_snoc h not_mounted m w.(w_calls) (Fuse SessionNew) Hm) as H1.
  destruct (answers h (w_calls w) (Fuse SessionNew)) eqn:E1; cbn [negb].
  2: { apply does_ret. split; [done|]. split; [by apply H1|].
       exists w.(w_calls), (Fuse SessionNew), []. split; [done|]. split; [by left|done]. }
  set (w1 := asked w (Fuse SessionNew)). specialize (H1 (mk_mount true false false) eq_refl ltac:(done)).
  apply does_sys.
  pose proof (fun m => mounts_snoc h _ m w1.(w_calls) (Fuse (SessionMount mp)) H1) as H2.
  destruct (answers h (w_calls w1) (Fuse (SessionMount mp))) eqn:E2; cbn [negb].
  - apply does_ret. split; [done|]. by apply H2.
  - specialize (H2 (mk_mount true false false) eq_refl ltac:(done)).
    apply does_tell, does_ret. split; [done|]. split.
    + by apply (mounts_snoc h (mk_mount true false false)).
    + exists w1.(w_calls), (Fuse (SessionMount mp)), [Fuse SessionDestroy].
      split; [by cbn; rewrite <- !app_assoc|]. split; [right; by eexists|done].
Qed.

Lemma served_more calls calls' : served calls -> (exists rest, calls' = calls ++ rest) -> served calls'.
Proof. intros (b & n & r & -> & Hn) [x ->]. exists b, n, (r ++ x). by rewrite <- app_assoc. Qed.

Lemma setup_does ll timeout now w :
  does (let d := mk_driver ll ∅ 0 0 0 false in
        if timeout =? 0 then mret d else setup_idle_timeout mt h now timeout d)
    (fun d w' => d = mounted_driver mt ll 0 now timeout /\ follows w w') (fun _ _ => False) w.
Proof.
  unfold mounted_driver. cbv zeta. destruct (timeout =? 0).
  { apply does_ret. split; [done|apply follows_refl]. }
  apply does_sys. pose proof (follows_asked w (Sigaction SIGALRM) I) as Hw.
  destruct (answers h _ _); apply does_tell, does_ret; (split; [done|]);
    by apply (follows_trans _ _ _ Hw), follows_asked.
Qed.

(** The handlers for signals are there for as long as the loop runs. *)
Lemma loop_does np mp threads fs d events w :
  session_inv fs d w.(w_fs) -> wanted_events d w.(w_fs) events ->
  mounts h (mk_mount true true true) w.(w_calls) ->
  does ('(d, err) ← fuse_session_loop h makedev dirent_size mt sigterm release KERNEL_VERSION np mp threads d events;
        d ← teardown_idle_timeout d;
        _ ← tell (Fuse RemoveSignalHandlers);
        mret (d, err))
    (fun r w' => session_inv fs r.1 w'.(w_fs) /\ mounts h (mk_mount true true false) w'.(w_calls) /\
                 (r.2 = 0 -> served w'.(w_calls)))
    (fun _ w' => forked h w'.(w_calls)) w.
Proof.
  intros Hi Hw Hm.
  apply (does_bind _ _ (fun r w' => session_inv fs r.1 w'.(w_fs) /\ mounts h (mk_mount true true true) w'.(w_calls) /\
                 (r.2 = 0 -> served w'.(w_calls)))).
  - apply does_ask. set (err := numbers h (w_calls w) (Fuse (SessionLoop threads))).
    set (w1 := asked w (Fuse (SessionLoop threads))).
    assert (mounts h (mk_mount true true true) w1.(w_calls)) as Hm1 by by eapply mounts_snoc.
    eapply does_bind; [by apply session_serves_all|]. intros d1 w2 [H2 Hc]. apply does_ret.
    split; [done|]. split; [by eapply mounts_more|]. intros He. cbn in He.
    destruct Hc as (x & E & _). exists w.(w_calls), threads, x. split; [|done].
    rewrite E. unfold w1. cbn [asked w_calls]. by rewrite <- app_assoc.
  - intros [d1 err] w1 (H1 & Hm1 & Hs). apply does_tell, does_value, does_ret.
    split; [by destruct H1 as [? ? ? ? []]|]. split.
    + apply (mounts_snoc h (mk_mount true true true)); [|done..]. by apply (mounts_more h _ _ _ Hm1), more_snoc.
    + intros He. eapply served_more; [by apply Hs|]. cbn. rewrite <- app_assoc. by eexists.
Qed.

(** Everything that was set up for the session is undone. *)
Lemma serve_does np mp cmdline timeout now ll events w :
  ll_open_ok ll w.(w_fs) -> mounts h (mk_mount true true false) w.(w_calls) ->
  (forall s, s = w.(w_fs) -> wanted_events (mounted_driver mt ll 0 now timeout) s events) ->
  does (serve h makedev dirent_size mt sigterm release KERNEL_VERSION np mp cmdline timeout now ll events)
    (fun r w' => session_inv ll.(ll_fs) r.1 w'.(w_fs) /\ mounts h (mk_mount true true false) w'.(w_calls) /\
                 (r.2 = 0 -> served w'.(w_calls)))
    (fun _ w' => forked h w'.(w_calls)) w.
Proof.
  intros Hll Hm Hw. pose proof (mounted_driver_ok mt ll 0 now 0 _ Hll) as Hi0. cbn in Hi0.
  pose proof (mounted_driver_ok mt ll 0 now timeout _ Hll) as Hi.
  assert (forall w', w'.(w_fs) = w.(w_fs) -> mounts h (mk_mount true true false) w'.(w_calls) ->
    does (mret (mk_driver ll ∅ 0 0 0 false, -1)) (fun r w' => session_inv ll.(ll_fs) r.1 w'.(w_fs) /\
      mounts h (mk_mount true true false) w'.(w_calls) /\ (r.2 = 0 -> served w'.(w_calls)))
      (fun _ w' => forked h w'.(w_calls)) w') as Hret.
  { intros w' Hf Hm'. apply does_ret. by rewrite Hf. }
  apply does_ask. set (w1 := asked w _).
  assert (mounts h (mk_mount true true false) w1.(w_calls)) as Hm1 by by apply (mounts_more h _ _ _ Hm), more_snoc.
  destruct (_ =? -1); [by apply Hret|]. apply does_sys. set (w2 := asked w1 (Fuse SetSignalHandlers)).
  pose proof (fun m => mounts_snoc h _ m w1.(w_calls) (Fuse SetSignalHandlers) Hm1) as Hm2.
  destruct (answers h (w_calls w1) (Fuse SetSignalHandlers)); cbn [negb]; [|by apply Hret; [|apply Hm2]].
  specialize (Hm2 _ eq_refl ltac:(done)).
  apply (does_bind _ _ (fun _ w' => follows w2 w')).
  { destruct sigterm; [|by apply does_ret, follows_refl]. apply does_sys.
    pose proof (follows_asked w2 (Sigaction SIGTERM) I) as H2. destruct (answers h _ _); [by apply does_ret|].
    exact (follows_trans _ _ _ H2 (follows_asked _ (Perror _) I)). }
  intros ? w3 H3. eapply does_bind; [eapply does_mono; [apply setup_does|exact (fun _ _ H => H)|done]|].
  intros d w4 [-> H4]. destruct (follows_trans _ _ _ H3 H4) as [Hc Hf].
  assert (w4.(w_fs) = w.(w_fs)) as Ef by exact Hf.
  apply loop_does; [by rewrite Ef|by apply Hw|by eapply mounts_more].
Qed.

(** ** The whole program *)

(** No block and no cache is left; or the mount was refused, and the archive is open. *)
Definition left_over (w : world) : Prop :=
  released w.(w_fs) \/ mount_refused w.(w_calls) /\ exists ll, ll_open_ok ll w.(w_fs).

(** How main ends: whatever was set up with libfuse is undone, and the archive is as above;
    the status is 0 only after a loop that has returned 0, and then no failure was told;
    any other status was told on the pipe. *)
Definition ended (np : option (list byte)) (status : Z) (w : world) : Prop :=
  mount_after h w.(w_calls) = Some not_mounted /\
  left_over w /\
  if decide (status = 0) then served w.(w_calls) /\ WritePipe [NOTIFY_FAILURE] ∉ w.(w_calls)
  else forall p, np = Some p -> failure_told h p w.(w_calls).

Lemma refused_more calls calls' : mount_refused calls -> (exists rest, calls' = calls ++ rest) -> mount_refused calls'.
Proof. intros (b & c & r & -> & Hc) [x ->]. exists b, c, (r ++ x). by rewrite <- app_assoc. Qed.

Lemma out_ends np err w :
  mounts h not_mounted w.(w_calls) -> left_over w ->
  (err = 0 -> served w.(w_calls)) -> does (out h np err) (ended np) (fun _ _ => False) w.
Proof.
  intros Hm Hr Hs. eapply does_bind; [eapply does_mono; [by apply (cleanup_does h np err)|exact (fun _ _ H => H)|done]|].
  intros ? w' (Hm' & Hf & Hx & Ht). apply does_ret. split; [done|]. split.
  - unfold left_over. rewrite Hf. destruct Hr as [?|[? ?]]; [by left|right]. split; [by eapply refused_more|done].
  - destruct (Z.eqb_spec err 0) as [->|Hne].
    + rewrite decide_True by done. split; [|done]. eapply served_more; [by apply Hs|done].
    + rewrite decide_False by lia. done.
Qed.

Lemma usage_ends argv0 np w :
  mounts h not_mounted w.(w_calls) -> released w.(w_fs) ->
  does (err ← sqfs_usage package version mt help argv0 true true; out h np err) (ended np)
    (fun _ w' => forked h w'.(w_calls)) w.
Proof.
  intros Hm Hr. eapply does_bind; [apply (usage_does h)|]. intros err w1 [-> [Hc Hf]].
  eapply does_mono; [apply out_ends| |]; [by eapply mounts_more|left; by rewrite Hf|done|done|done].
Qed.

(** The mounted file system, to the end. *)
Lemma mounted_ends np mp cmdline timeout now ll events w :
  ll_open_ok ll w.(w_fs) -> mounts h (mk_mount true true false) w.(w_calls) ->
  wanted_events (mounted_driver mt ll 0 now timeout) w.(w_fs) events ->
  does ('(d, err) ← serve h makedev dirent_size mt sigterm release KERNEL_VERSION np mp cmdline timeout now ll events;
        _ ← sqfs_ll_destroy d.(d_ll);
        _ ← sqfs_ll_unmount;
        out h np err) (ended np) (fun _ w' => forked h w'.(w_calls)) w.
Proof.
  intros Hll Hm Hw. eapply does_bind; [by apply serve_does; [..|intros ? ->]|].
  intros [d err] w1 (Hi & Hm1 & Hs). cbn [fst snd] in *.
  apply (does_bind _ _ (fun _ w' => w'.(w_calls) = w1.(w_calls) /\ released w'.(w_fs))).
  { apply (does_bind _ _ (fun _ w' => w'.(w_calls) = w1.(w_calls) /\ released w'.(w_fs)));
      [|intros fs' w2 H2; by apply does_ret].
    eapply does_mono; [eapply (destroy_image_does _ _ _ (fun _ w' => w'.(w_calls) = w1.(w_calls) /\ released w'.(w_fs)))| |].
    - rewrite (do_fs _ _ (se_driver _ _ _ Hi)). apply Hi.
    - done.
    - done.
    - done. }
  intros ? w2 [Ec Hr]. apply does_tell.
  eapply does_mono; [apply out_ends| |done].
  - cbn [asked w_calls]. apply (mounts_snoc h (mk_mount true false false)); [|done..].
    apply (mounts_snoc h (mk_mount true true false)); [by rewrite Ec|done..].
  - by left.
  - intros He. cbn [asked w_calls]. rewrite <- app_assoc, Ec.
    eapply served_more; [by apply Hs|by eexists].
  - done.
Qed.

(** With the archive open. *)
Lemma opened_ends np mp cmdline timeout now ll events w :
  ll_open_ok ll w.(w_fs) ->
  wanted_events (mounted_driver mt ll 0 now timeout) w.(w_fs) events ->
  mounts h not_mounted w.(w_calls) ->
  does (err ← sqfs_ll_mount h mp;
        if decide (err <> SQFS_OK) then out h np (-1)
        else
          '(d, err) ← serve h makedev dirent_size mt sigterm release KERNEL_VERSION np mp cmdline timeout now ll events;
          _ ← sqfs_ll_destroy d.(d_ll);
          _ ← sqfs_ll_unmount;
          out h np err) (ended np) (fun _ w' => forked h w'.(w_calls)) w.
Proof.
  intros Hll Hw Hm. eapply does_bind; [eapply does_mono; [by apply mount_does|exact (fun _ _ H => H)|done]|].
  intros err w1 [Hf H1]. cbn in H1. destruct (decide (err = SQFS_OK)) as [->|Hne].
  - rewrite decide_False by tauto. apply mounted_ends; [by rewrite Hf|done|by rewrite Hf].
  - rewrite decide_True by done. destruct H1 as [Hm1 Hr1].
    eapply does_mono; [apply out_ends| |]; [done|right; split; [done|exists ll; by rewrite Hf]|done|done|done].
Qed.

Lemma does_parse {B} lib (k : option sqfs_opts -> P B) Q E w :
  does (k (if lib.(lf_parsed) then fst <$> opt_calls (mk_opts None false) lib.(lf_args) else None)) Q E
    (asked w (Fuse OptParse)) -> does (fuse_opt_parse lib ≫= k) Q E w.
Proof. done. Qed.

Lemma does_cmdline {B} lib (k : option fuse_cmdline_opts -> P B) Q E w :
  does (k lib.(lf_cmdline)) Q E (asked w (Fuse ParseCmdline)) -> does (fuse_parse_cmdline lib ≫= k) Q E w.
Proof. done. Qed.

(** C12: the program squashfuse_ll ends, whatever its arguments and the archive are, unless
    it dies of what it reads, and however it ends libfuse's session, mount and signal handlers
    are undone, each in its turn, and no block and no cache of the archive is left, but for
    one way out, a refused mount, which leaves it open.  (Only that is said of the archive: the
    memory of the inode numbers is not followed, and the table of its extended attributes and
    its descriptor are not given back by any way out, as C37 and the findings have it.)  The status is 0 only when the session loop has returned
    0, and then no failure was told on the named pipe; any other status is told there if
    it can be written to.  The kernel is to release only what it has opened.  Only a child process,
    which tells the success or runs fusermount, ends early.  With a subdirectory memory must
    not be short, since its look-up uses the caches before the code knows that it has
    them. *)
Theorem squashfuse_ll_correct (argv0 : option (list byte)) (lib : libfuse) (new_root now : Z) (ms : mallocs) :
  let opts := lib.(lf_options) in
  opts.(opt_subdir) = [] \/ ms = [] ->
  (forall path w ll w', w.(w_fs) = null_state ms ->
    sqfs_ll_open_with_subdir h libs ino_size path opts.(opt_offset) opts.(opt_subdir) new_root w =
      Ret (w', inl (Some ll)) ->
    wanted_events (mounted_driver mt (set_ids opts.(opt_uid) opts.(opt_gid) ll) 0 now opts.(opt_timeout))
      w'.(w_fs) lib.(lf_events)) ->
  match main h libs ino_size makedev dirent_size package version mt help sigterm release KERNEL_VERSION
          argv0 lib new_root now (mk_world [] (null_state ms)) with
  | Ret (w, inl status) => ended opts.(opt_notify_pipe) status w
  | Ret (w, inr _) => forked h w.(w_calls)
  | Crash c => c <> OutOfFuel
  end.
Proof.
  intros opts Hms Hw. set (w0 := mk_world [] (null_state ms)).
  assert (mounts h not_mounted w0.(w_calls)) as Hm0 by (split; [done|apply not_elem_of_nil]).
  assert (released w0.(w_fs)) as Hr0 by (split; [done|split; [done|by intros []]]).
  enough (does (main h libs ino_size makedev dirent_size package version mt help sigterm release KERNEL_VERSION
    argv0 lib new_root now) (ended opts.(opt_notify_pipe)) (fun _ w => forked h w.(w_calls)) w0) as H by exact H.
  unfold main. fold opts. apply does_parse. set (w1 := asked w0 _).
  assert (mounts h not_mounted w1.(w_calls)) as Hm1 by by apply (mounts_more h _ _ _ Hm0), more_snoc.
  destruct (if lf_parsed lib then _ else _) as [args|]; [|by apply usage_ends].
  apply does_cmdline. set (w2 := asked w1 _).
  assert (mounts h not_mounted w2.(w_calls)) as Hm2 by by apply (mounts_more h _ _ _ Hm1), more_snoc.
  destruct (lf_cmdline lib) as [[[mp|] fg st]|]; [|by apply usage_ends..].
  apply (does_bind _ _ (fun _ w' => follows w2 w')).
  { eapply does_mono; [apply (null_loop_does w2.(w_calls) 0)| |]; [by rewrite app_nil_r|lia|
      apply full_tank_lasts; lia|done|done]. }
  intros ? w3 [Hc3 Hf3].
  assert (mounts h not_mounted w3.(w_calls)) as Hm3 by by apply (mounts_more h _ _ _ Hm2).
  eapply does_bind; [eapply (does_mono _ (fun r w' => since w3.(w_calls) w'.(w_calls) /\
    match r with
    | Some ll => ll_open_ok ll w'.(w_fs) /\
        wanted_events (mounted_driver mt (set_ids opts.(opt_uid) opts.(opt_gid) ll) 0 now opts.(opt_timeout))
          w'.(w_fs) lib.(lf_events)
    | None => released w'.(w_fs)
    end) _ (fun _ _ => False)); [|exact (fun _ _ H => H)|done]|].
  - specialize (Hw (default [] (image args)) w3).
    pose proof (ll_open_does libs Hlibs h Hsize ino_size (default [] (image args)) (opt_offset opts)
      (opt_subdir opts) new_root w3) as H.
    rewrite Hf3 in H. specialize (H Hms Hr0). unfold does in *.
    destruct (sqfs_ll_open_with_subdir _ _ _ _ _ _ _ w3) as [[w4 [[ll|]|]]|]; [|done..].
    destruct H. split; [done|]. split; [done|]. by apply Hw.
  - intros [ll|] w4 [Hs4 H4]; [|eapply does_mono; [apply out_ends| |]; [|by left|done|done|done]].
    + destruct H4 as [Hll Hwe]. apply opened_ends; [by apply set_ids_ok|done|].
      by apply (mounts_more h _ _ _ Hm3), more_since.
    + by apply (mounts_more h _ _ _ Hm3), more_since.
Qed.
End correct.

(** ** FUSE 2

    Whether something is mounted, and whether there is a session. *)
Definition mount_2_step (ok : bool) (s : bool * bool) (c : call) : bool * bool :=
  let (mounted, session) := s in
  match c with
  | Fuse (Mount _) => (ok, session)
  | Fuse LowlevelNew => (mounted, ok)
  | Fuse SessionDestroy => (mounted, false)
  | Fuse (Unmount _) => (false, session)
  | _ => s
  end.

(** With FUSE 2 a mount that is reported is there with its session, and unmounting undoes
    both; a failure leaves nothing behind, but for one: without the new fuse_unmount, when
    the channel cannot be made, the file system stays mounted. *)
Theorem sqfs_ll_mount_2_correct {CI : CacheImpl} (h : host) (new remove : bool) (mountpoint : list byte) (w : world) :
  let now w := after mount_2_step h (false, false) w.(w_calls) in
  now w = (false, false) ->
  does (sqfs_ll_mount_2 h new remove mountpoint) (fun err w' =>
      if decide (err = SQFS_OK) then
        now w' = (true, true) /\
        does (sqfs_ll_unmount_2 new remove true mountpoint) (fun _ w'' => now w'' = (false, false)) (fun _ _ => False) w'
      else
        now w' = (false, false) \/
        (now w' = (true, false) /\ new = false /\ exists calls, w'.(w_calls) = calls ++ [Fuse KernChanNew; Fuse CloseChan] /\
           h.(answers) calls (Fuse KernChanNew) = false)) (fun _ _ => False) w.
Proof.
  intros now Hw.
  assert (forall w c s, now w = s -> now (asked w c) = mount_2_step (h.(answers) w.(w_calls) c) s c) as Hstep.
  { intros w' c s <-. apply after_snoc. }
  assert (forall w', now w' = (true, false) -> does (ok ← sys h (Fuse LowlevelNew);
      if negb ok then _ ← sqfs_ll_unmount_2 new remove false mountpoint; mret SQFS_ERR
      else _ ← tell (Fuse SessionAddChan); mret SQFS_OK) (fun err w' =>
      if decide (err = SQFS_OK) then
        now w' = (true, true) /\
        does (sqfs_ll_unmount_2 new remove true mountpoint) (fun _ w'' => now w'' = (false, false)) (fun _ _ => False) w'
      else now w' = (false, false)) (fun _ _ => False) w') as Hadd.
  { intros w' Hw'. apply does_sys. pose proof (Hstep w' (Fuse LowlevelNew) _ Hw') as H1. cbn in H1.
    destruct (answers h (w_calls w') (Fuse LowlevelNew)); cbn [negb].
    - apply does_tell, does_ret. rewrite decide_True by done. pose proof (Hstep _ (Fuse SessionAddChan) _ H1) as H2.
      split; [exact H2|]. cbn in H2. set (w2 := asked (asked w' _) _) in *.
      apply (does_bind _ _ (fun _ w'' => now w'' = (true, false))).
      + apply (does_bind _ _ (fun _ w'' => now w'' = (true, true))).
        * destruct remove; [exact (Hstep _ (Fuse SessionRemoveChan) _ H2)|by apply does_ret].
        * intros ? w3 H3. exact (Hstep _ (Fuse SessionDestroy) _ H3).
      + intros ? w3 H3. destruct new; [exact (Hstep _ (Fuse (Unmount mountpoint)) _ H3)|].
        apply does_tell. exact (Hstep _ (Fuse (Unmount mountpoint)) _ (Hstep _ (Fuse CloseChan) _ H3)).
    - apply (does_bind _ _ (fun _ w'' => now w'' = (false, false))); [|intros ? w3 H3; by apply does_ret].
      apply does_value. destruct new; [exact (Hstep _ (Fuse (Unmount mountpoint)) _ H1)|].
      apply does_tell. exact (Hstep _ (Fuse (Unmount mountpoint)) _ (Hstep _ (Fuse CloseChan) _ H1)). }
  apply does_sys. pose proof (Hstep w (Fuse (Mount mountpoint)) _ Hw) as H1. cbn in H1.
  destruct (answers h (w_calls w) (Fuse (Mount mountpoint))); cbn [negb]; 
    [|apply does_ret; rewrite decide_False by done; by left].
  set (w1 := asked w _) in *.
  destruct new.
  { eapply does_mono; [by apply Hadd| |done]. intros err w2 H2. cbn beta in H2.
    destruct (decide (err = SQFS_OK)); [exact H2|left; exact H2]. }
  apply does_sys. pose proof (Hstep w1 (Fuse KernChanNew) _ H1) as H2. cbn in H2.
  destruct (answers h (w_calls w1) (Fuse KernChanNew)) eqn:Ea; cbn [negb].
  { eapply does_mono; [by apply Hadd| |done]. intros err w2 H3. cbn beta in H3.
    destruct (decide (err = SQFS_OK)); [exact H3|left; exact H3]. }
  apply does_tell, does_ret. rewrite decide_False by done. right.
  split; [exact (Hstep _ (Fuse CloseChan) _ H2)|]. split; [done|].
  exists w1.(w_calls). split; [|done]. cbn [asked w_calls]. by rewrite <- app_assoc.
Qed.

(** ** Sample

    The sample archive is mounted, its root is opened and closed, and there is an alarm; the
    word goes to the pipe "p". *)
#[local] Existing Instance sample_cache.

Definition mount_host : host := {|
  images := arch_host.(images);
  answers _ _ := true;
  numbers calls c :=
    match c with
    | OpenNull => len calls
    | Fork => 7
    | StatFile _ => S_IFIFO
    | _ => 0
    end;
  errno _ := 0
|}.

Definition mount_lib : libfuse := {|
  lf_args := [([x69], FUSE_OPT_KEY_NONOPT); ([x6d], FUSE_OPT_KEY_NONOPT)];
  lf_parsed := true;
  lf_options := mk_options 0 60 0 0 [] (Some [x70]);
  lf_cmdline := Some (mk_cmdline (Some [x6d]) false false);
  lf_events := [EvInit; EvRequest sample_xattr 101 (Opendir 1);
                EvRequest sample_xattr 102 (Releasedir (Some 1%positive)); EvAlarm 103]
|}.

#[local] Abbreviation sample_main := (main mount_host sample_libs 8 sample_makedev (fun name => 24 + len name)
  [] [] true true true None (fun a b c => a * 65536 + b * 256 + c) (Some [x73]) mount_lib 0 100).

Lemma mount_host_size calls path fd : images mount_host calls path = Some fd -> len fd <= 2 ^ 62.
Proof. cbn. case_decide; [|done]. intros [= <-]. vm_compute. congruence. Qed.

Lemma mount_null calls k :
  let n := numbers mount_host (calls ++ replicate k OpenNull) OpenNull in n = -1 \/ Z.of_nat k <= n.
Proof. right. cbn. rewrite length_app, length_replicate. lia. Qed.

Lemma mount_open path w ll w' :
  w.(w_fs) = null_state [] ->
  sqfs_ll_open_with_subdir mount_host sample_libs 8 path 0 [] 0 w = Ret (w', inl (Some ll)) ->
  ll = mk_ll arch_fs Ino64 /\ w'.(w_fs) = arch_state.
Proof.
  intros Hw. unfold sqfs_ll_open_with_subdir, alloc. run_p. rewrite Hw. cbn [malloc mem null_state negb].
  set (w1 := mk_world _ _).
  destruct (sqfs_open_image_with_subdir _ _ _ _ _ _ _ w1) as [[w2 [[err fs]|]]|] eqn:E; [|done..].
  destruct (decide (err = SQFS_OK)) as [->|]; [|done].
  destruct (open_image_inv _ _ _ _ _ _ _ _ _ _ E) as (fd & Hfd & Ei & _).
  change ((if decide (path = [x69]) then Some arch_image else None) = Some fd) in Hfd.
  destruct (decide _); [|done]. assert (fd = arch_image) as -> by congruence.
  pose proof arch_init_ok as Ea. revert Ea. generalize arch_fs arch_state. intros F S Ea.
  unfold arch_init, sqfs_init in Ea. unfold w1 in Ei.
  cbn [w_fs] in Ei. change (mem (set_mem (null_state []) [])) with (@nil bool) in Ei.
  rewrite Ea in Ei. injection Ei as <- Es. unfold reader, sqfs_ll_init. run_m.
  intros [= <- <-]. split; [reflexivity|]. rewrite Es. reflexivity.
Qed.

Lemma squashfuse_ll_correct_witness :
  exists w, sample_main (mk_world [] (null_state [])) = Ret (w, inl 0) /\ ended mount_host (Some [x70]) 0 w.
Proof.
  pose proof (squashfuse_ll_correct (CL := sample_laws) mount_host sample_libs 8 sample_libs_ok mount_host_size
    sample_makedev (fun name => 24 + len name) [] [] true true true None (fun a b c => a * 65536 + b * 256 + c)
    mount_null (Some [x73]) mount_lib 0 100 [] ltac:(by left)) as H.
  assert (match sample_main (mk_world [] (null_state [])) with Ret (_, inl 0) => true | _ => false end = true) as Hc
    by (vm_compute; reflexivity).
  destruct (sample_main _) as [[w [status|]]|]; try done. destruct status; try done.
  exists w. split; [reflexivity|]. apply H. clear.
  intros path w ll w' Hw E. destruct (mount_open path w ll w' Hw E) as [-> ->].
  cbn [mount_lib lf_events wanted_events lf_options opt_timeout opt_uid opt_gid]. split; [exact I|].
  intros s' d' rep Eo. split; [|intros; exact I]. exists 1%positive. split; [reflexivity|].
  assert (match sqfs_ll_ops sample_makedev (fun name => 24 + len name) true sample_xattr 101
    (mounted_driver true (set_ids 0 0 (mk_ll arch_fs Ino64)) 0 100 60) (Opendir 1) arch_state with
    | Ret (_, Success (d, _)) => bool_decide (is_Some (handles d !! 1%positive)) | _ => false end = true) as Hh
    by (vm_compute; reflexivity).
  rewrite Eo in Hh. exact (bool_decide_eq_true_1 _ Hh).
Defined.
