(* ===== verification/Hl.v ===== *)
(** * Hl: the high-level FUSE driver (hl.c)

    libfuse gives the handlers paths, and takes numbers: 0 or a size, or an error number
    with a minus sign.  [hl_driver] is the private data of the file system (the archive
    and its root) and the inodes behind [fi->fh], by address.  [makedev] is the C
    library's; [filler] is libfuse's, which takes an entry and says whether it is full. *)
From Stdlib Require Import Strings.String.
From S2P Require Import Prelude Swap Cache Decompress FsState Block BlockOk MdRead Table Xattr Inode Dir Stat File Fuse Init System Util Mount Ll.

Record sqfs_hl := mk_hl { hl_fs : sqfs; hl_root : sqfs_inode }.
Record hl_driver := mk_hld { hd_hl : sqfs_hl; hd_handles : gmap positive sqfs_inode }.

Section hl.
Context {CI : CacheImpl} (makedev : Z -> Z -> Z).

(** [path] is [None] for NULL. *)
Definition sqfs_hl_lookup (hl : sqfs_hl) (path : option (list byte)) : M sqfs_inode :=
  match path with
  | None => mret hl.(hl_root)
  | Some path =>
      '(found, inode) ← sqfs_lookup_path hl.(hl_fs) hl.(hl_root) path;
      if negb found then fail SQFS_ERR else mret inode
  end.

(** The code returned, and the attributes. *)
Definition sqfs_hl_op_getattr (d : hl_driver) (path : option (list byte)) : M (Z * option stat) :=
  r ← try (sqfs_hl_lookup d.(hd_hl) path);
  match r with
  | Failure _ => mret (- ENOENT, None)
  | Success inode =>
      r ← try (sqfs_stat makedev d.(hd_hl).(hl_fs) inode);
      mret (match r with Failure _ => (- ENOENT, None) | Success st => (0, Some st) end)
  end.

(** ** What is open *)
Definition hl_new_handle (d : hl_driver) (inode : sqfs_inode) : hl_driver * positive :=
  let fh := fresh (dom d.(hd_handles)) in
  (mk_hld d.(hd_hl) (<[fh := inode]> d.(hd_handles)), fh).

Definition hl_free (d : hl_driver) (fh : option positive) : outcome hl_driver :=
  match fh with
  | None => Ret d
  | Some fh =>
      match d.(hd_handles) !! fh with
      | None => Crash MemFault
      | Some _ => Ret (mk_hld d.(hd_hl) (delete fh d.(hd_handles)))
      end
  end.

Definition hl_handle (d : hl_driver) (fh : option positive) : outcome sqfs_inode :=
  match fh ≫= fun fh => d.(hd_handles) !! fh with Some i => Ret i | None => Crash MemFault end.

(** The code returned and [fi->fh]. *)
Definition sqfs_hl_op_opendir (d : hl_driver) (path : option (list byte))
    : M (hl_driver * (Z * option positive)) :=
  ok ← malloc_ok;
  if negb ok then mret (d, (- ENOMEM, None))
  else
    r ← try (sqfs_hl_lookup d.(hd_hl) path);
    match r with
    | Failure _ => mret (d, (- ENOENT, None))
    | Success inode =>
        if negb (S_ISDIR (mode inode)) then mret (d, (- ENOTDIR, None))
        else let (d, fh) := hl_new_handle d inode in mret (d, (0, Some fh))
    end.

Definition sqfs_hl_op_open (d : hl_driver) (path : option (list byte)) (flags : Z)
    : M (hl_driver * (Z * option positive)) :=
  if negb ((flags &&& O_WRONLY_RDWR) =? 0) then mret (d, (- EROFS, None))
  else
    ok ← malloc_ok;
    if negb ok then mret (d, (- ENOMEM, None))
    else
      r ← try (sqfs_hl_lookup d.(hd_hl) path);
      match r with
      | Failure _ => mret (d, (- ENOENT, None))
      | Success inode =>
          if negb (S_ISREG (mode inode)) then mret (d, (- EISDIR, None))
          else let (d, fh) := hl_new_handle d inode in mret (d, (0, Some fh))
      end.

Definition sqfs_hl_op_create : Z := - EROFS.

Definition sqfs_hl_op_releasedir (d : hl_driver) (fh : option positive) : M (hl_driver * Z) :=
  d ← lift (hl_free d fh);
  mret (d, 0).

Definition sqfs_hl_op_release (d : hl_driver) (fh : option positive) : M (hl_driver * Z) :=
  d ← lift (hl_free d fh);
  mret (d, 0).

(** ** Directories *)
Section readdir.
Context {B : Type} (filler : B -> dirent -> bool * B).

(** ".", for offset 0, and ".."; [None] for the offset when the filler was full. *)
Fixpoint hl_dots_loop (f : fuel) (offset : Z) (buf : B) : outcome (option Z * B) :=
  if offset <? 2 then
    match f with
    | NoFuel => Crash OutOfFuel
    | More k =>
        let name := if offset =? 0 then [x2e] else [x2e; x2e] in
        let offset := offset + 1 in
        let (full, buf) := filler buf (mk_dirent name 0 S_IFDIR offset) in
        if (full : bool) then Ret (None, buf) else hl_dots_loop (k tt) offset buf
    end
  else Ret (Some offset, buf).

Fixpoint hl_entries_loop (f : fuel) (fs : sqfs) (dir : sqfs_dir) (buf : B) : M (Z * B) :=
  match f with
  | NoFuel => lift (Crash OutOfFuel)
  | More k =>
      r ← try (sqfs_dir_next fs dir true);
      match r with
      | Failure _ => mret (- EIO, buf)
      | Success (_, None) => mret (0, buf)
      | Success (dir, Some entry) =>
          let doff := sqfs_dentry_next_offset entry + 2 in
          let (full, buf) := filler buf (mk_dirent (c_str (default [] (sqfs_dentry_name entry))) 0
                                           (sqfs_dentry_mode entry) doff) in
          if (full : bool) then mret (0, buf) else hl_entries_loop (k tt) fs dir buf
      end
  end.

(** Without SQFS_BROKEN_DIR_OFFSETS. *)
Definition sqfs_hl_op_readdir (d : hl_driver) (buf : B) (offset : Z) (fh : option positive)
    : M (Z * B) :=
  '(offset, buf) ← lift (hl_dots_loop full_tank offset buf);
  match offset with
  | None => mret (0, buf)
  | Some offset =>
      inode ← lift (hl_handle d fh);
      r ← try (sqfs_dir_open d.(hd_hl).(hl_fs) inode (offset - 2));
      match r with
      | Failure _ => mret (- EINVAL, buf)
      | Success dir => hl_entries_loop full_tank d.(hd_hl).(hl_fs) dir buf
      end
  end.
End readdir.

(** ** Contents; a result is an [int]. *)
Definition sqfs_hl_op_read (d : hl_driver) (size off : Z) (fh : option positive)
    : M (Z * list byte) :=
  inode ← lift (hl_handle d fh);
  r ← try (sqfs_read_range d.(hd_hl).(hl_fs) inode off (s64 size));
  mret (match r with
        | Failure _ => (- EIO, [])
        | Success bs => (s32 (len bs), bs)
        end).

Definition sqfs_hl_op_readlink (d : hl_driver) (path : option (list byte)) (size : Z)
    : M (Z * list byte) :=
  r ← try (sqfs_hl_lookup d.(hd_hl) path);
  match r with
  | Failure _ => mret (- ENOENT, [])
  | Success inode =>
      if negb (S_ISLNK (mode inode)) then mret (- EINVAL, [])
      else
        r ← try (sqfs_readlink d.(hd_hl).(hl_fs) inode (Some size));
        mret (match r with Failure _ => (- EIO, []) | Success (_, buf) => (0, buf) end)
  end.

(** [buf] is the size of the buffer, if there is one; [x] is the iterator on the stack. *)
Definition sqfs_hl_op_listxattr (d : hl_driver) (x : sqfs_xattr) (path : option (list byte))
    (buf : option Z) : M (Z * list byte) :=
  r ← try (sqfs_hl_lookup d.(hd_hl) path);
  match r with
  | Failure _ => mret (- ENOENT, [])
  | Success inode =>
      r ← sqfs_listxattr d.(hd_hl).(hl_fs) inode x buf;
      mret (match r with inl ferr => (- ferr, []) | inr (size, bs) => (s32 size, bs) end)
  end.

(** [value] tells whether there is a buffer.  Without FUSE_XATTR_POSITION. *)
Definition sqfs_hl_op_getxattr (d : hl_driver) (x : sqfs_xattr) (path : option (list byte))
    (name : list byte) (value : bool) (size : Z) : M (Z * option (list byte)) :=
  r ← try (sqfs_hl_lookup d.(hd_hl) path);
  match r with
  | Failure _ => mret (- ENOENT, None)
  | Success inode =>
      r ← try (sqfs_xattr_lookup d.(hd_hl).(hl_fs) inode x name (if value then Some size else None));
      mret (match r with
            | Failure _ => (- EIO, None)
            | Success (real, bs) =>
                if real =? 0 then (- sqfs_enoattr, bs)
                else if negb (size =? 0) && (size <? real) then (- ERANGE, bs)
                else (s32 real, bs)
            end)
  end.

Definition sqfs_hl_op_statfs (d : hl_driver) : outcome (Z * statvfs) :=
  st ← sqfs_statfs d.(hd_hl).(hl_fs);
  Ret (0, st).

(** ** Start and end *)

(** [new_root] is the variable of [sqfs_init_with_subdir]; NULL is [None]. *)
Definition sqfs_hl_open (h : host) (libs : codec_libs) (path : list byte) (offset : Z)
    (subdir : list byte) (new_root : Z) : P (option hl_driver) :=
  ok ← alloc;
  if negb ok then
    _ ← tell (Perror (text "Can't allocate memory"));
    mret None
  else
    '(err, fs) ← sqfs_open_image_with_subdir h libs fs_zero path offset subdir new_root;
    if decide (err = SQFS_OK) then
      r ← reader (sqfs_inode_get fs (sqfs_inode_root fs));
      match r with
      | Failure _ =>
          _ ← eprintln "Can't find the root of this filesystem!";
          _ ← destroy_image fs;
          mret None
      | Success root => mret (Some (mk_hld (mk_hl fs root) ∅))
      end
    else mret None.

Definition sqfs_hl_op_init (h : host) (notify_pipe : option (list byte)) : P unit :=
  notify_mount_ready_async h notify_pipe NOTIFY_SUCCESS.

Definition sqfs_hl_op_destroy (d : hl_driver) : P unit :=
  _ ← destroy_image d.(hd_hl).(hl_fs);
  mret tt.
End hl.
