(* ===== verification/HlOk.v ===== *)
(** * HlOk: the high-level driver is right

    Over any archive and with any failure of an allocation every request returns
    ([sqfs_hl_ops_serves]); on an archive in order the attributes are those of the inode
    that the path leads to, a directory is listed as the low-level driver lists it, and a
    read gives the bytes of the file. *)
From S2P Require Import Prelude Swap Hash Cache CacheST Decompress FsState Block BlockOk Sample MdRead Stream Table Xattr Inode Dir Ends Stat SampleTree LlInode File FileOk Fuse Serve Init System Util Disk Ll LlOk LlDir Hl.

(** ** Every request returns *)
Inductive hl_request :=
  | HlGetattr (path : option (list byte))
  | HlOpendir (path : option (list byte))
  | HlReaddir (offset : Z) (fh : option positive)
  | HlReleasedir (fh : option positive)
  | HlOpen (path : option (list byte)) (flags : Z)
  | HlCreate
  | HlRelease (fh : option positive)
  | HlRead (size off : Z) (fh : option positive)
  | HlReadlink (path : option (list byte)) (size : Z)
  | HlListxattr (path : option (list byte)) (buf : option Z)
  | HlGetxattr (path : option (list byte)) (name : list byte) (value : bool) (size : Z)
  | HlStatfs.

(** The table of operations that main gives to libfuse; the code returned and the new
    [fi->fh]. *)
Definition sqfs_hl_ops {CI : CacheImpl} (makedev : Z -> Z -> Z) {B : Type}
    (filler : B -> dirent -> bool * B) (buf : B) (x : sqfs_xattr) (d : hl_driver) (r : hl_request)
    : M (hl_driver * (Z * option positive)) :=
  match r with
  | HlGetattr path => '(e, _) ← sqfs_hl_op_getattr makedev d path; mret (d, (e, None))
  | HlOpendir path => sqfs_hl_op_opendir d path
  | HlReaddir offset fh => '(e, _) ← sqfs_hl_op_readdir filler d buf offset fh; mret (d, (e, fh))
  | HlReleasedir fh => '(d, e) ← sqfs_hl_op_releasedir d fh; mret (d, (e, None))
  | HlOpen path flags => sqfs_hl_op_open d path flags
  | HlCreate => mret (d, (sqfs_hl_op_create, None))
  | HlRelease fh => '(d, e) ← sqfs_hl_op_release d fh; mret (d, (e, None))
  | HlRead size off fh => '(e, _) ← sqfs_hl_op_read d size off fh; mret (d, (e, fh))
  | HlReadlink path size => '(e, _) ← sqfs_hl_op_readlink d path size; mret (d, (e, None))
  | HlListxattr path buf => '(e, _) ← sqfs_hl_op_listxattr d x path buf; mret (d, (e, None))
  | HlGetxattr path name value size =>
      '(e, _) ← sqfs_hl_op_getxattr d x path name value size; mret (d, (e, None))
  | HlStatfs => '(e, _) ← lift (sqfs_hl_op_statfs d); mret (d, (e, None))
  end.

Section any_archive.
Context (fs : sqfs) (Hfs : fs_ok fs) {CI : CacheImpl} {CL : CacheLaws CI}.
Context (Hbs : 0 <= fs.(sb).(sb_block_size) < 2 ^ 32).
Context (Heach : fs.(xattr_table).(tbl_each) = 16 \/ fs.(xattr_info).(xt_xattr_ids) = 0).
Context (makedev : Z -> Z -> Z) {B : Type} (filler : B -> dirent -> bool * B).

#[local] Abbreviation serves := (serves fs).
#[local] Abbreviation in_order s := (inv fs any_expectations s [] None).

Record hl_driver_ok (d : hl_driver) : Prop := {
  ho_fs : d.(hd_hl).(hl_fs) = fs;
  ho_root : inode_sound d.(hd_hl).(hl_root);
  ho_handles fh i : d.(hd_handles) !! fh = Some i -> inode_sound i
}.

(** The kernel releases what it opened; sizes and offsets are of their types. *)
Definition hl_wanted (d : hl_driver) (r : hl_request) : Prop :=
  match r with
  | HlReaddir off _ => - 2 ^ 63 <= off
  | HlReadlink _ size => 0 <= size < 2 ^ 64
  | HlRelease fh | HlReleasedir fh => exists fh', fh = Some fh' /\ is_Some (d.(hd_handles) !! fh')
  | _ => True
  end.

(** A file or directory is open from the return of 0 to the release. *)
Definition hl_effect (d : hl_driver) (r : hl_request) (rep : Z * option positive) (d' : hl_driver) : Prop :=
  d'.(hd_hl) = d.(hd_hl) /\
  match r with
  | HlOpen _ _ | HlOpendir _ =>
      match rep with
      | (0, Some fh) => d.(hd_handles) !! fh = None /\ exists i, d'.(hd_handles) = <[fh := i]> d.(hd_handles)
      | (e, _) => e < 0 /\ d'.(hd_handles) = d.(hd_handles)
      end
  | HlRelease (Some fh) | HlReleasedir (Some fh) => rep.1 = 0 /\ d'.(hd_handles) = delete fh d.(hd_handles)
  | _ => d'.(hd_handles) = d.(hd_handles)
  end.

Definition hl_serves (d : hl_driver) (r : hl_request) (m : M (hl_driver * (Z * option positive))) : Prop :=
  serves m (fun p => hl_driver_ok (fst p) /\ hl_effect d r (snd p) (fst p)).

Lemma serves_hl_lookup d path :
  hl_driver_ok d -> serves (try (sqfs_hl_lookup d.(hd_hl) path)) (on_success inode_sound).
Proof.
  intros [Hf Hr _]. unfold sqfs_hl_lookup. destruct path as [path|].
  2: { intros s Hs. by split. }
  rewrite Hf. intros s Hs. pose proof (serves_lookup_path fs Hfs _ path Hr s Hs) as H.
  unfold try in *. run_m. destruct (sqfs_lookup_path (m := M) fs (hl_root (hd_hl d)) path s) as [[s' [[[] i]|e]]|]; [..|done];
    (destruct H; by split).
Qed.

Lemma hl_dots_loop_end f o buf :
  lasts f (2 - o) -> match hl_dots_loop filler f o buf with Ret _ => True | Crash c => c <> OutOfFuel end.
Proof.
  revert o buf. induction f as [|f IH]; intros o buf Hf; cbn [hl_dots_loop];
    (destruct (Z.ltb_spec o 2); [|done]); destruct Hf as [?|Hf]; try lia; try done.
  cbv zeta. destruct (filler _ _) as [[|] buf']; [done|].
  apply IH. by replace (2 - (o + 1)) with (2 - o - 1) by lia.
Qed.

Lemma serves_hl_entries f dir buf :
  dir_ok dir -> lasts f (dir_measure dir + 1) -> serves (hl_entries_loop filler f fs dir buf) (fun _ => True).
Proof.
  revert dir buf. induction f as [|f IH]; intros dir buf Hd Hf; cbn [hl_entries_loop].
  { destruct Hf as [Hf|[]]. destruct Hd. unfold dir_measure in Hf. lia. }
  destruct Hf as [Hf|Hf]; [destruct Hd; unfold dir_measure in Hf; lia|].
  eapply serves_bind; [eapply serves_sim; [apply (sim_dir_next fs any_expectations false)|by apply ends_dir_next]|].
  intros [[dir' [e|]]|e] Hr; [|by apply serves_ret..]. destruct Hr as [Hd' Hm]. cbv zeta.
  destruct (filler _ _) as [[|] buf']; [by apply serves_ret|].
  apply IH; [done|]. eapply lasts_le; [|exact Hf]. lia.
Qed.

Lemma serves_hl_handle d fh : hl_driver_ok d -> serves (lift (hl_handle d fh)) inode_sound.
Proof.
  intros Hd. apply serves_lift. unfold hl_handle. destruct fh as [fh|]; [|done]. cbn.
  destruct (hd_handles d !! fh) as [i|] eqn:E; [|done]. exact (ho_handles _ Hd fh i E).
Qed.

Lemma hl_opened d inode r d' fh :
  hl_driver_ok d -> inode_sound inode -> match r with HlOpen _ _ | HlOpendir _ => True | _ => False end ->
  hl_new_handle d inode = (d', fh) -> hl_driver_ok d' /\ hl_effect d r (0, Some fh) d'.
Proof.
  intros [Hf Hr Hh] Hi Hreq [= <- <-].
  assert (hd_handles d !! fresh (dom (hd_handles d)) = None) as Hn by apply not_elem_of_dom, is_fresh.
  split; [split; [done..|]|].
  - intros fh' i. cbn. rewrite lookup_insert. case_decide; [by intros [= <-]|apply Hh].
  - split; [done|]. destruct r; try done; (split; [done|by eexists]).
Qed.

Lemma serves_hl_free d fh r :
  hl_driver_ok d -> hl_wanted d r ->
  match r with HlRelease fh' | HlReleasedir fh' => fh' = fh | _ => False end ->
  hl_serves d r ('(d, e) ← (d ← lift (hl_free d fh); mret (d, 0)); mret (d, (e, None))).
Proof.
  intros [Hf Hr Hh] Hw Hreq. assert (exists fh', fh = Some fh' /\ is_Some (hd_handles d !! fh')) as (fh' & -> & i & Hi)
    by (destruct r; try done; subst; exact Hw).
  unfold hl_free. rewrite Hi. apply (serves_bind fs _ _ (fun p => p = (mk_hld (hd_hl d) (delete fh' (hd_handles d)), 0))).
  { apply (serves_bind fs _ _ (eq (mk_hld (hd_hl d) (delete fh' (hd_handles d))))); [by apply serves_lift|].
    intros d' <-. by apply serves_ret. }
  intros [d' e] [= -> ->]. apply serves_ret. split; [split; [done..|]|].
  - intros fh i' Hl. cbn in Hl. apply lookup_delete_Some in Hl as [_ ?]. by eapply Hh.
  - split; [done|]. by destruct r; subst.
Qed.

#[local] Ltac same :=
  apply serves_ret; split; [done|]; split; done.

Lemma serves_hl_ops buf x d r :
  hl_driver_ok d -> hl_wanted d r -> hl_serves d r (sqfs_hl_ops makedev filler buf x d r).
Proof.
  intros Hd Hw. pose proof (ho_fs _ Hd) as Hf. destruct r; cbn [sqfs_hl_ops].
  - apply (serves_bind fs _ _ (fun _ => True)); [|intros [e st] _; same].
    unfold sqfs_hl_op_getattr. eapply serves_bind; [by apply serves_hl_lookup|].
    intros [i|e] Hi; [|by apply serves_ret]. rewrite Hf.
    apply (serves_bind fs _ _ _ _ (serves_stat fs Hfs makedev i)). intros r _. by apply serves_ret.
  - unfold sqfs_hl_op_opendir. apply (serves_bind fs _ _ _ _ (serves_malloc fs)).
    intros [|] _; cbn [negb]; [|same]. eapply serves_bind; [by apply serves_hl_lookup|].
    intros [i|e] Hi; [|same]. destruct (negb _); [same|].
    destruct (hl_new_handle d i) as [d' fh] eqn:En. apply serves_ret. by eapply hl_opened.
  - apply (serves_bind fs _ _ (fun _ => True)); [|intros [e b] _; same].
    unfold sqfs_hl_op_readdir. apply (serves_bind fs _ _ (fun _ => True)).
    { apply serves_lift, hl_dots_loop_end, full_tank_lasts. cbn in Hw. lia. }
    intros [[o|] b] _; [|by apply serves_ret].
    eapply serves_bind; [by apply serves_hl_handle|]. intros i Hi. rewrite Hf.
    eapply serves_bind.
    { eapply serves_sim; [apply (sim_dir_open fs any_expectations false)|by apply ends_dir_open]. }
    intros [dir|e] Hdir; [|by apply serves_ret]. apply serves_hl_entries; [done|by apply measure_lasts].
  - by apply serves_hl_free.
  - unfold sqfs_hl_op_open. destruct (negb _); [same|]. apply (serves_bind fs _ _ _ _ (serves_malloc fs)).
    intros [|] _; cbn [negb]; [|same]. eapply serves_bind; [by apply serves_hl_lookup|].
    intros [i|e] Hi; [|same]. destruct (negb _); [same|].
    destruct (hl_new_handle d i) as [d' fh] eqn:En. apply serves_ret. by eapply hl_opened.
  - same.
  - by apply serves_hl_free.
  - apply (serves_bind fs _ _ (fun _ => True)); [|intros [e b] _; same].
    unfold sqfs_hl_op_read. eapply serves_bind; [by apply serves_hl_handle|]. intros i Hi. rewrite Hf.
    apply (serves_bind fs _ _ _ _ (serves_read fs Hfs i off (s64 size) Hbs Hi)). intros r _. by apply serves_ret.
  - apply (serves_bind fs _ _ (fun _ => True)); [|intros [e b] _; same].
    unfold sqfs_hl_op_readlink. eapply serves_bind; [by apply serves_hl_lookup|].
    intros [i|e] Hi; [|by apply serves_ret]. destruct (negb _); [by apply serves_ret|]. rewrite Hf.
    eapply serves_bind; [apply (serves_readlink fs Hfs i (Some size)); [done|by intros ? [= <-]]|].
    intros r _. by apply serves_ret.
  - apply (serves_bind fs _ _ (fun _ => True)); [|intros [e b] _; same].
    unfold sqfs_hl_op_listxattr. eapply serves_bind; [by apply serves_hl_lookup|].
    intros [i|e] Hi; [|by apply serves_ret]. rewrite Hf.
    apply (serves_bind fs _ _ _ _ (serves_listxattr fs Hfs Heach i x _)). intros r _. by apply serves_ret.
  - apply (serves_bind fs _ _ (fun _ => True)); [|intros [e b] _; same].
    unfold sqfs_hl_op_getxattr. eapply serves_bind; [by apply serves_hl_lookup|].
    intros [i|e] Hi; [|by apply serves_ret]. rewrite Hf. eapply serves_bind.
    { eapply serves_sim; [apply (sim_xattr_lookup fs any_expectations false)|by apply ends_xattr_lookup]. }
    intros [[real bs]|e] _; by apply serves_ret.
  - apply (serves_bind fs _ _ (fun _ => True)); [|intros [e b] _; same].
    apply serves_lift. unfold sqfs_hl_op_statfs, sqfs_statfs. by destruct (_ <=? _).
Qed.

End any_archive.

Section session.
Context {CI : CacheImpl} {CL : CacheLaws CI} (makedev : Z -> Z -> Z) {B : Type} (filler : B -> dirent -> bool * B).
Context (libs : codec_libs) (Hlibs : codec_laws libs) (h : host).
(** No file is larger than 2^62 bytes. *)
Context (Hsize : forall calls path fd, h.(images) calls path = Some fd -> len fd <= 2 ^ 62).

(** An archive that was opened, at its root or at a directory in it, and any requests
    since. *)
Inductive hl_session : hl_driver -> sqfs_state -> Prop :=
  | hl_session_opened path offset subdir new_root w d w' :
      sqfs_hl_open h libs path offset subdir new_root w = Ret (w', inl (Some d)) ->
      hl_session d w'.(w_fs)
  | hl_session_step d s buf x r d' rep s' :
      hl_session d s -> hl_wanted d r ->
      sqfs_hl_ops makedev filler buf x d r s = Ret (s', Success (d', rep)) -> hl_session d' s'.

Record hl_session_inv (d : hl_driver) (s : sqfs_state) : Prop := {
  hs_fs : fs_ok d.(hd_hl).(hl_fs);
  hs_bsize : 0 <= d.(hd_hl).(hl_fs).(sb).(sb_block_size) < 2 ^ 32;
  hs_xattrs : d.(hd_hl).(hl_fs).(xattr_table).(tbl_each) = 16 \/ d.(hd_hl).(hl_fs).(xattr_info).(xt_xattr_ids) = 0;
  hs_state : inv d.(hd_hl).(hl_fs) any_expectations s [] None;
  hs_driver : hl_driver_ok d.(hd_hl).(hl_fs) d
}.

Lemma hl_session_serves d s buf x r :
  hl_session_inv d s -> hl_wanted d r ->
  match sqfs_hl_ops makedev filler buf x d r s with
  | Ret (s', Success (d', rep)) => hl_session_inv d' s' /\ hl_effect d r rep d'
  | Ret (_, Failure _) => False
  | Crash c => c <> OutOfFuel
  end.
Proof.
  intros [Hf Hb Hx Hs Hd] Hw.
  pose proof (serves_hl_ops _ Hf Hb Hx makedev filler buf x d r Hd Hw s Hs) as H.
  destruct (sqfs_hl_ops _ _ _ _ _ _ _) as [[s' [[d' rep]|]]|]; [|done..].
  destruct H as (Hi & Hd' & He). cbn [fst snd] in *. split; [|done]. destruct He as [Eq _].
  by split; rewrite Eq.
Qed.

Lemma hl_open_ok path offset subdir new_root w d w' :
  sqfs_hl_open h libs path offset subdir new_root w = Ret (w', inl (Some d)) -> hl_session_inv d w'.(w_fs).
Proof.
  unfold sqfs_hl_open, alloc, reader. run_p. destruct (malloc (mem (w_fs w))) as [ok ms].
  destruct ok; cbn [negb]; [|done]. set (w1 := mk_world _ _).
  destruct (sqfs_open_image_with_subdir _ _ _ _ _ _ _ w1) as [[w2 [[err fs]|]]|] eqn:E; [|done..].
  destruct (decide (err = SQFS_OK)) as [->|]; [|done].
  destruct (open_image_inv _ _ _ _ _ _ _ _ _ _ E) as (fd & Hfd & Ei & _).
  destruct (init_subdir_opened _ _ _ _ _ _ _ _ Hlibs (Hsize _ _ _ Hfd) Ei) as [Hf Hb Hx Hi].
  pose proof (serves_sim fs false _ _ _ (sim_inode_get fs any_expectations false (sqfs_inode_root fs))
    (ends_inode_get fs Hf _) w2.(w_fs) (Hi _)) as H.
  unfold try in H. destruct (sqfs_inode_get (m := M) fs (sqfs_inode_root fs) (w_fs w2)) as [[s1 [root|e]]|];
    [| |done].
  - destruct H as [Hs Hr]. intros [= <- <-]. split; cbn; try done.
  - unfold eprintln, tell, destroy_image, asked. cbn [w_fs].
    by destruct (sqfs_destroy fs s1) as [[]|].
Qed.

(** The archive is opened, or no block and no cache of it is left. *)
Lemma hl_open_does path offset subdir new_root w :
  subdir = [] \/ w.(w_fs).(mem) = [] -> released w.(w_fs) ->
  does (sqfs_hl_open h libs path offset subdir new_root)
    (fun r w' => since w.(w_calls) w'.(w_calls) /\
       match r with Some d => hl_session_inv d w'.(w_fs) | None => released w'.(w_fs) end) (fun _ _ => False) w.
Proof.
  intros Hms Hr. unfold sqfs_hl_open. eapply does_bind; [by apply alloc_does|].
  intros ok w1 (Ec & Hr1 & Hm). rewrite <- Ec. destruct ok; cbn [negb].
  2: { apply does_tell, does_ret. split; [by apply since_snoc|done]. }
  eapply does_bind; [apply open_image_does; [done..| |done]|].
  { destruct Hms as [->|Hms]; [by left|right; by apply Hm]. }
  intros [err fs] w2 [Hc H2]. cbn [fst snd] in H2. destruct (decide (err = SQFS_OK)); [|by apply does_ret].
  apply (does_bind _ _ (fun r w' => w'.(w_calls) = w2.(w_calls) /\ inv fs any_expectations w'.(w_fs) [] None /\
    on_success inode_sound r)).
  { pose proof (serves_sim fs false _ _ _ (sim_inode_get fs any_expectations false (sqfs_inode_root fs))
      (ends_inode_get fs (op_fs _ _ H2) _) w2.(w_fs) (op_state _ _ H2 _)) as H.
    unfold does, reader, try in *. by destruct (sqfs_inode_get (m := M) _ _ (w_fs w2)) as [[s [r|]]|]. }
  intros [root|err'] w3 (Ec3 & Hi3 & H3).
  { apply does_ret. rewrite Ec3. split; [done|]. destruct H2. by split. }
  apply does_tell. eapply does_bind; [|intros fs' w5 H5; apply does_ret; exact H5].
  eapply destroy_image_does; [exact Hi3|]. intros _ s' Hr'. split; [|done]. cbn [w_calls asked].
  rewrite Ec3. eapply since_trans; [done|by apply since_snoc].
Qed.

Lemma hl_session_ok d s : hl_session d s -> hl_session_inv d s.
Proof.
  induction 1 as [path offset subdir new_root w d w' E|d s buf x r d' rep s' _ IH Hw E]; [by eapply hl_open_ok|].
  pose proof (hl_session_serves d s buf x r IH Hw) as H. rewrite E in H. apply H.
Qed.

(** C25: from the opening of any archive, and with any failure of an allocation, every request
    that libfuse may pass on returns, or the process dies of what was read; the caches and
    blocks stay in order, what is open is what [open] and [opendir] returned 0 for and was not
    released, and every other request leaves it alone. *)
Theorem sqfs_hl_ops_serves (s : sqfs_state) (buf : B) (x : sqfs_xattr) (d : hl_driver) (r : hl_request) :
  hl_session d s -> hl_wanted d r ->
  match sqfs_hl_ops makedev filler buf x d r s with
  | Ret (s', Success (d', rep)) => hl_session_inv d' s' /\ hl_effect d r rep d'
  | Ret (_, Failure _) => False
  | Crash c => c <> OutOfFuel
  end.
Proof. intros Hs Hw. by apply hl_session_serves; [apply hl_session_ok|]. Qed.
End session.

(** ** The answers on an archive in order *)
Section replies.
Context (fs : sqfs) (Hfs : fs_ok fs) {CI : CacheImpl} {CL : CacheLaws CI} (X : expectations).
Context (makedev : Z -> Z -> Z).

(** What a path leads to from the root of the driver. *)
Definition hl_walk (d : hl_driver) (path : list byte) : O (bool * sqfs_inode * option Z) :=
  walk d.(hd_hl).(hl_fs) d.(hd_hl).(hl_root) (components path) None.

Lemma hl_lookup_run d path s :
  d.(hd_hl).(hl_fs) = fs -> good fs X s ->
  match hl_walk d path with
  | Crash c => try (sqfs_hl_lookup d.(hd_hl) (Some path)) s = Crash c
  | Ret r => exists s', good fs X s' /\ try (sqfs_hl_lookup d.(hd_hl) (Some path)) s =
      Ret (s', Success match r with
        | Success (true, inode, _) => Success inode
        | Success (false, _, _) => Failure SQFS_ERR
        | Failure e => Failure e
        end)
  end.
Proof.
  intros Hf [Hi Hm]. unfold hl_walk. rewrite Hf. set (root := d.(hd_hl).(hl_root)).
  pose proof (sim_lookup_path fs X false root path) as Hsim.
  assert (sqfs_lookup_path_with_id (m := O) fs root path = walk fs root (components path) None)
    as E by (by apply lookup_path_walk).
  rewrite E in Hsim. unfold sqfs_hl_lookup, sqfs_lookup_path, try. rewrite Hf. fold root. run_m.
  destruct (walk fs root (components path) None) as [r|c].
  - destruct (sim_exact fs X false _ _ s _ Hsim Hi Hm eq_refl) as (s' & E' & Hi' & Hm').
    rewrite E'. exists s'. split; [by split|]. by destruct r as [[[[] i] id]|e].
  - specialize (Hsim s [] None ltac:(done) Hi).
    destruct (sqfs_lookup_path_with_id (m := M) fs root path s) as [[s' r]|c'].
    + by destruct Hsim as (_ & [?|[? _]] & _).
    + congruence.
Qed.

(** C26: the attributes of a path are those of the inode it leads to from the root, name by
    name; a path that leads nowhere, or to an inode whose owner is not in the archive, is
    [ENOENT]. *)
Theorem sqfs_hl_op_getattr_correct (s : sqfs_state) (d : hl_driver) (path : list byte) :
  d.(hd_hl).(hl_fs) = fs -> inv fs X s [] None -> s.(mem) = [] ->
  match hl_walk d path with
  | Crash c => sqfs_hl_op_getattr makedev d (Some path) s = Crash c
  | Ret (Success (true, inode, _)) =>
      match sqfs_stat makedev (m := O) fs inode with
      | Crash c => sqfs_hl_op_getattr makedev d (Some path) s = Crash c
      | Ret r => exists s', inv fs X s' [] None /\ sqfs_hl_op_getattr makedev d (Some path) s =
          Ret (s', Success match r with Success st => (0, Some st) | Failure _ => (- ENOENT, None) end)
      end
  | Ret _ => exists s', inv fs X s' [] None /\
      sqfs_hl_op_getattr makedev d (Some path) s = Ret (s', Success (- ENOENT, None))
  end.
Proof.
  intros Hf Hi Hm. pose proof (hl_lookup_run d path s Hf (conj Hi Hm)) as H.
  unfold sqfs_hl_op_getattr. run_m. destruct (hl_walk d path) as [r|c]; [|by rewrite H].
  destruct H as (s1 & Hs1 & E). rewrite E. cbn beta iota.
  destruct r as [[[[] inode] id]|e]; [|by exists s1; split; [apply Hs1|]..].
  rewrite Hf. pose proof (sim_stat makedev fs X false inode) as Hsim. unfold try.
  destruct (sqfs_stat makedev (m := O) fs inode) as [r|c].
  - destruct (sim_exact fs X false _ _ s1 _ Hsim (proj1 Hs1) (proj2 Hs1) eq_refl) as (s2 & E2 & Hi2 & _).
    rewrite E2. exists s2. split; [done|]. by destruct r.
  - specialize (Hsim s1 [] None ltac:(done) (proj1 Hs1)).
    destruct (sqfs_stat makedev (m := M) fs inode s1) as [[s' r]|c'].
    + destruct Hsim as (_ & [?|[Hne _]] & _); [done|by destruct Hne; apply Hs1].
    + congruence.
Qed.

(** ** Directories *)

(** An entry as the high-level driver passes it: the numbers are left to libfuse. *)
Definition hl_dirent (e : dirent) : dirent := mk_dirent e.(dn_name) 0 e.(dn_mode) e.(dn_off).

Section readdir.
Context {B : Type} (filler : B -> dirent -> bool * B).

(** The entries go to the filler until it is full. *)
Fixpoint fill (buf : B) (ds : list dirent) : B :=
  match ds with
  | [] => buf
  | e :: ds => let (full, buf) := filler buf e in if (full : bool) then buf else fill buf ds
  end.

Lemma hl_entries_at f dir its buf s ll :
  good fs X s -> positioned fs dir its -> names_ok its -> lasts f (len its + 1) ->
  exists s', good fs X s' /\ hl_entries_loop filler f fs dir buf s = Ret (s', Success (0,
    fill buf (map hl_dirent (map (entry_dirent ll) (listing dir.(d_header) dir.(d_offset) its))))).
Proof.
  revert f dir buf s. induction its as [|it its IH]; intros f dir buf s Hs Hp Hn Hf;
    (apply lasts_turn in Hf as (k & -> & Hf); [|cbn [length]; lia]); cbn [hl_entries_loop].
  - destruct (try_exact fs X false _ _ s _ (sim_dir_next fs X false dir true) Hs (dir_next_end fs dir true Hp))
      as (s1 & E & Hs1).
    run_m. rewrite E. by exists s1.
  - apply Forall_cons in Hn as [Hname Hn].
    destruct (dir_next_item fs Hfs dir it its Hp) as (dir' & En & Hp' & Ho & Hb & Hi).
    destruct (try_exact fs X false _ _ s _ (sim_dir_next fs X false dir true) Hs (En true)) as (s1 & E & Hs1).
    run_m. rewrite E. cbn beta iota zeta. cbn [listing map fill].
    unfold with_name, sqfs_dentry_name. cbn [e_name item_entry default id].
    rewrite c_str_ok by done. set (h := default (d_header dir) (it_header it)) in *.
    unfold hl_dirent at 1. cbn [entry_dirent item_entry e_name default id dn_name dn_mode dn_off].
    match goal with |- context [filler buf ?e] => destruct (filler buf e) as [full buf'] eqn:Ef end.
    unfold sqfs_dentry_next_offset, sqfs_dentry_mode, sqfs_dentry_type in *.
    cbn [item_entry e_next_offset e_type] in *. rewrite Ef. destruct full; [by exists s1|].
    destruct (IH (k tt) dir' buf' s1 Hs1 Hp' Hn) as (s2 & Hs2 & E2).
    { eapply lasts_le; [|exact Hf]. cbn [length]. lia. }
    exists s2. split; [done|]. by rewrite Ho, (listing_header _ h) in E2 by done.
Qed.

Lemma hl_dots_at f n buf es :
  lasts f (2 - n) -> 0 <= n <= 2 ->
  exists o buf', hl_dots_loop filler f n buf = Ret (o, buf') /\
    match o with
    | None => forall es, fill buf (map hl_dirent (drop (Z.to_nat n) dot_dirents) ++ es) = buf'
    | Some o => o = 2 /\ fill buf (map hl_dirent (drop (Z.to_nat n) dot_dirents) ++ es) = fill buf' es
    end.
Proof.
  intros Hf Hn. assert (n = 0 \/ n = 1 \/ n = 2) as [->|[->| ->]] by lia.
  - apply lasts_turn in Hf as (k & -> & Hf); [|done]. apply lasts_turn in Hf as (k' & Ek & _); [|done].
    cbn [hl_dots_loop]. change (0 <? 2) with true. change (0 =? 0) with true. cbv iota zeta.
    change (drop (Z.to_nat 0) dot_dirents) with dot_dirents. cbn [map dot_dirents app fill].
    unfold hl_dirent. cbn [dn_name dn_mode dn_off].
    destruct (filler buf _) as [[|] buf1] eqn:E1; [by exists None, buf1|].
    rewrite Ek. cbn [hl_dots_loop]. change (0 + 1 <? 2) with true. change (0 + 1 =? 0) with false. cbv iota zeta.
    change (0 + 1 + 1) with 2.
    destruct (filler buf1 _) as [[|] buf2] eqn:E2; [by exists None, buf2|].
    exists (Some 2), buf2. split; [by destruct (k' tt)|done].
  - apply lasts_turn in Hf as (k & -> & _); [|done].
    cbn [hl_dots_loop]. change (1 <? 2) with true. change (1 =? 0) with false. cbv iota zeta.
    change (drop (Z.to_nat 1) dot_dirents) with [mk_dirent [x2e; x2e] 1 S_IFDIR 2]. cbn [map app fill].
    unfold hl_dirent. cbn [dn_name dn_mode dn_off]. change (1 + 1) with 2.
    destruct (filler buf _) as [[|] buf1] eqn:E1; [by exists None, buf1|].
    exists (Some 2), buf1. split; [by destruct (k tt)|done].
  - exists (Some 2), buf. split; [by destruct f|done].
Qed.

(** C23: a directory is listed as by the low-level driver: from the start, or from the offset of
    an entry, libfuse's function gets ".", ".." and the items, in order and with their modes and
    offsets, until it is full. *)
Theorem sqfs_hl_op_readdir_correct (s : sqfs_state) (d : hl_driver) (ll : sqfs_ll) (fh : positive)
    (inode : sqfs_inode) (x : xtra_dir) (its : list dir_item)
    (index : list (squashfs_dir_index * list byte)) (read rest : list dirent) (buf : B) :
  d.(hd_hl).(hl_fs) = fs -> inv fs X s [] None -> s.(mem) = [] -> d.(hd_handles) !! fh = Some inode ->
  dir_on_disk fs inode x its index -> names_ok its -> read ++ rest = dir_dirents ll its ->
  exists s', inv fs X s' [] None /\
    sqfs_hl_op_readdir filler d buf (resume read) (Some fh) s =
    Ret (s', Success (0, fill buf (map hl_dirent rest))).
Proof.
  intros Hf Hi Hm Hh Hd Hn Hsplit.
  assert (forall its1 its2 buf', its = its1 ++ its2 -> exists s', inv fs X s' [] None /\
    (inode ← lift (hl_handle d (Some fh));
     r ← try (sqfs_dir_open fs inode (len (items_bytes its1)));
     match r with
     | Failure _ => mret (- EINVAL, buf')
     | Success dir => hl_entries_loop filler full_tank fs dir buf'
     end) s = Ret (s', Success (0, fill buf'
       (map hl_dirent (drop (length its1) (map (entry_dirent ll) (listing no_header 0 its))))))) as Hrun.
  { intros its1 its2 buf' ->. destruct (dir_open_at fs Hfs inode x its1 its2 index Hd) as (dir & E & Hp & Ho & El).
    destruct (try_exact fs X false _ _ s _ (sim_dir_open fs X false _ _) (conj Hi Hm) E) as (s1 & E1 & Hs1).
    apply Forall_app in Hn as [_ Hn].
    destruct (hl_entries_at full_tank dir its2 buf' s1 ll Hs1 Hp Hn) as (s2 & [Hi2 _] & E2).
    { apply full_tank_lasts. pose proof (items_count _ _ (pos_items _ _ _ Hp)).
      destruct Hp as [_ _ Ht [? ?] _]. lia. }
    exists s2. split; [done|]. run_m. unfold lift, hl_handle. cbn [mbind option_bind]. rewrite Hh.
    cbn beta iota. rewrite E1. cbn beta iota. rewrite E2, El, map_app, drop_app_length'; [done|].
    by rewrite length_map, listing_length. }
  unfold sqfs_hl_op_readdir. rewrite Hf. unfold mbind at 1, M_bind at 1. unfold lift at 1.
  destruct (resume_cases _ _ _ _ Hsplit) as [(n & Hn2 & _ & -> & ->)|(its1 & its2 & Eits & -> & ->)].
  - destruct (hl_dots_at full_tank n buf
      (map hl_dirent (map (entry_dirent ll) (listing no_header 0 its)))) as (o & buf' & -> & Ho);
      [apply full_tank_lasts; lia|lia|].
    rewrite map_app. cbn beta iota. destruct o as [o|]; [|exists s; split; [done|]; by rewrite Ho].
    destruct Ho as [-> ->]. change (2 - 2) with (len (items_bytes [])). by apply (Hrun [] its).
  - assert (hl_dots_loop filler full_tank (len (items_bytes its1) + 2) buf =
      Ret (Some (len (items_bytes its1) + 2), buf)) as ->.
    { destruct full_tank; cbn [hl_dots_loop]; by rewrite (proj2 (Z.ltb_ge _ _)) by lia. }
    cbn beta iota. rewrite Z.add_simpl_r. by apply (Hrun its1 its2).
Qed.
End readdir.

(** ** Contents *)

(** the bytes of an open file from any place on, with their number. *)
Theorem sqfs_hl_op_read_correct (s : sqfs_state) (d : hl_driver) (fh : positive) (inode : sqfs_inode)
    (x : xtra_reg) (mds : list (Z * list byte)) (hs : list Z) (bs : list (list byte)) (tail : list byte)
    (size off : Z) :
  d.(hd_hl).(hl_fs) = fs -> inv fs X s [] None -> s.(mem) = [] -> d.(hd_handles) !! fh = Some inode ->
  file_on_disk fs inode x mds hs bs tail -> coherent fs inode x X hs ->
  0 <= off < x.(xr_file_size) -> 0 < size < 2 ^ 31 -> index_short fs inode hs off = false ->
  let got := slice (file_contents bs tail) off size in
  exists s', inv fs X s' [] None /\
    sqfs_hl_op_read d size off (Some fh) s = Ret (s', Success (len got, got)).
Proof.
  intros Hf Hi Hm Hh Hfile Hco Hoff Hsz Ht got. unfold sqfs_hl_op_read, lift, hl_handle. run_m.
  cbn [mbind option_bind]. rewrite Hh. cbn beta iota. rewrite Hf, (swrap_small 64 size) by lia.
  destruct (try_exact fs X true _ _ s _ (sim_read_range fs Hfs inode x mds hs bs tail Hfile X Hco off size Hoff)
    (conj Hi Hm) (read_range_ref fs Hfs inode x mds hs bs tail Hfile off size Hoff ltac:(lia) Ht))
    as (s1 & E & [Hi1 _]).
  rewrite E. exists s1. split; [done|]. fold got. rewrite swrap_small; [done|lia|].
  unfold got. rewrite slice_length by lia. lia.
Qed.

(** an inode whose attributes cannot be opened: the error goes through two signs, and
    what comes back, 5, is the size of a list for libfuse. *)
Theorem sqfs_hl_op_listxattr_open_failure (s : sqfs_state) (d : hl_driver) (x : sqfs_xattr)
    (path : list byte) (inode : sqfs_inode) (id : option Z) (e : sqfs_err) (buf : option Z) :
  d.(hd_hl).(hl_fs) = fs -> inv fs X s [] None -> s.(mem) = [] ->
  hl_walk d path = Ret (Success (true, inode, id)) ->
  sqfs_xattr_open (m := O) fs inode x = Ret (Failure e) ->
  exists s', sqfs_hl_op_listxattr d x (Some path) buf s = Ret (s', Success (EIO, [])).
Proof.
  intros Hf Hi Hm Hw Eo. pose proof (hl_lookup_run d path s Hf (conj Hi Hm)) as H. rewrite Hw in H.
  destruct H as (s1 & Hs1 & E). unfold sqfs_hl_op_listxattr. run_m. rewrite E. cbn beta iota.
  destruct (try_exact fs X false _ _ s1 _ (sim_xattr_open fs X false inode x) Hs1 Eo) as (s2 & E2 & _).
  unfold sqfs_listxattr. run_m. rewrite Hf, E2. by exists s2.
Qed.
End replies.

(** ** Samples *)
#[local] Existing Instance sample_cache.

Definition tree_hl : hl_driver := mk_hld (mk_hl tree_fs tree_root) {[ 1%positive := tree_root ]}.

(** A buffer for three entries. *)
Definition three (buf : list dirent) (e : dirent) : bool * list dirent :=
  if len buf <? 3 then (false, buf ++ [e]) else (true, buf).

(** "/d/" is a directory. *)
Lemma sqfs_hl_op_getattr_correct_witness :
  exists s' st, sqfs_hl_op_getattr sample_makedev tree_hl (Some [x2f; x64; x2f]) (sample_state []) =
    Ret (s', Success (0, Some st)) /\ st.(st_mode) = 0x41ed.
Proof.
  pose proof (sqfs_hl_op_getattr_correct tree_fs (CL := sample_laws) no_expectations sample_makedev
    (sample_state []) tree_hl [x2f; x64; x2f] eq_refl (sample_inv _ _ _) eq_refl) as H.
  assert (hl_walk tree_hl [x2f; x64; x2f] = Ret (Success (true, tree_sub, Some 32))) as Ew
    by (vm_compute; reflexivity).
  rewrite Ew in H. destruct (sqfs_stat sample_makedev (m := O) tree_fs tree_sub) as [[st|e]|c] eqn:Es;
    [|vm_compute in Es; congruence..].
  destruct H as (s' & _ & E). exists s', st. split; [exact E|].
  apply (f_equal (fun o => match o with Ret (Success st) => st.(st_mode) | _ => 0 end)) in Es.
  rewrite <- Es. vm_compute. reflexivity.
Defined.

Lemma sqfs_hl_op_readdir_correct_witness :
  exists s', sqfs_hl_op_readdir three tree_hl [] 1 (Some 1%positive) (sample_state []) =
    Ret (s', Success (0, [mk_dirent [x2e; x2e] 0 S_IFDIR 2; mk_dirent [x61] 0 S_IFREG 23;
                          mk_dirent [x64] 0 S_IFDIR 32])).
Proof.
  destruct (sqfs_hl_op_readdir_correct tree_fs tree_fs_ok (CL := sample_laws) no_expectations three
    (sample_state []) tree_hl (mk_ll tree_fs Ino64) 1 tree_root _ tree_root_items _ (take 1 dot_dirents)
    (drop 1 (dir_dirents (mk_ll tree_fs Ino64) tree_root_items)) [] eq_refl (sample_inv _ _ _) eq_refl
    eq_refl tree_root_on_disk ltac:(repeat constructor; vm_compute; congruence) eq_refl) as (s' & _ & E).
  exists s'. exact E.
Defined.

Definition file_hl : hl_driver :=
  mk_hld (mk_hl sample_file_fs sample_file) {[ 1%positive := sample_file ]}.

Lemma sqfs_hl_op_read_correct_witness :
  exists s', sqfs_hl_op_read file_hl 3 2 (Some 1%positive) (sample_state []) = Ret (s', Success (3, [x63; x64; x00])).
Proof.
  destruct (sqfs_hl_op_read_correct sample_file_fs sample_file_fs_ok (CL := sample_laws) _ (sample_state [])
    file_hl 1 sample_file sample_file_xtra _ _ _ _ 3 2 eq_refl (sample_inv _ _ _) eq_refl
    (lookup_singleton_eq 1%positive sample_file) sample_file_on_disk
    sample_file_coherent ltac:(vm_compute; intuition congruence) ltac:(done) ltac:(done)) as (s' & _ & E).
  exists s'. exact E.
Defined.

(** An inode with attributes in an archive that has the table of them, but no entry. *)
Definition no_xattr_fs : sqfs :=
  mk_sqfs [] 0 0 0 sample_sb table_zero table_zero table_zero None (Build_squashfs_xattr_id_table 0 1 0) table_zero.

Lemma sqfs_hl_op_listxattr_open_failure_witness :
  exists s', sqfs_hl_op_listxattr (mk_hld (mk_hl no_xattr_fs sample_xattr_inode) ∅) sample_xattr (Some [x2f])
      (Some 100) (sample_state []) = Ret (s', Success (5, [])).
Proof.
  destruct (sqfs_hl_op_listxattr_open_failure no_xattr_fs (CL := sample_laws) no_expectations
    (sample_state []) (mk_hld (mk_hl no_xattr_fs sample_xattr_inode) ∅) sample_xattr [x2f]
    sample_xattr_inode None SQFS_ERR (Some 100) eq_refl (sample_inv _ _ _) eq_refl
    ltac:(vm_compute; reflexivity) ltac:(vm_compute; reflexivity)) as (s' & E).
  exists s'. exact E.
Defined.

(** The sample tree is opened, then its root. *)
Definition tree_hl_open : outcome (world * (option hl_driver + Z)) :=
  sqfs_hl_open tree_host sample_libs [x69] 0 [] 0 (mk_world [] (null_state [])).

Definition opened (run : outcome (sqfs_state * result (hl_driver * (Z * option positive)))) : bool :=
  match run with Ret (_, Success (_, (0, Some _))) => true | _ => false end.
Lemma opened_spec run : opened run = true -> exists s' d' fh, run = Ret (s', Success (d', (0, Some fh))).
Proof. destruct run as [[s' [[d' [[] [fh|]]]|]]|]; try done. by eexists _, _, _. Qed.

Definition driver_of (run : outcome (world * (option hl_driver + Z))) : option (world * hl_driver) :=
  match run with Ret (w, inl (Some d)) => Some (w, d) | _ => None end.
Lemma driver_of_spec run w d : driver_of run = Some (w, d) -> run = Ret (w, inl (Some d)).
Proof. destruct run as [[w' [[d'|]|]]|]; try done. by intros [= -> ->]. Qed.

Lemma sqfs_hl_ops_serves_witness :
  exists d w s' d' fh, tree_hl_open = Ret (w, inl (Some d)) /\
    sqfs_hl_ops sample_makedev three [] sample_xattr d (HlOpendir (Some [x2f])) w.(w_fs) =
      Ret (s', Success (d', (0, Some fh))) /\
    hl_effect d (HlOpendir (Some [x2f])) (0, Some fh) d'.
Proof.
  assert (match driver_of tree_hl_open with
          | Some (w, d) => opened (sqfs_hl_ops sample_makedev three [] sample_xattr d (HlOpendir (Some [x2f])) w.(w_fs))
          | None => false
          end = true) as Hc by (vm_compute; reflexivity).
  destruct (driver_of tree_hl_open) as [[w d]|] eqn:Eo; [|done]. apply driver_of_spec in Eo.
  pose proof (sqfs_hl_ops_serves (CL := sample_laws) sample_makedev three sample_libs sample_libs_ok tree_host
    tree_host_size w.(w_fs) [] sample_xattr d (HlOpendir (Some [x2f]))
    (hl_session_opened _ _ _ _ _ _ _ _ _ _ _ Eo) I) as H.
  destruct (opened_spec _ Hc) as (s' & d' & fh & E).
  rewrite E in H. exists d, w, s', d', fh. split; [exact Eo|]. split; [exact E|exact (proj2 H)].
Defined.
