(* ===== verification/HlMain.v ===== *)
(** * HlMain: the program squashfuse (main of hl.c)

    main takes the command line, opens the archive and leaves the rest to fuse_main, which
    mounts, calls the table of operations and gives a status.  [hl_libfuse] is what libfuse
    gives; [hf_session] are the requests of the session from the one that starts it to the
    one that ends it, [None] when it never starts. *)
From Stdlib Require Import Strings.String.
From S2P Require Import Prelude Swap Hash Cache CacheST Decompress FsState Block BlockOk Sample Xattr Inode Stat LlInode Fuse Init SampleArchive System Util Mount Disk Ll LlOk LlMain Hl HlOk.

Record hl_libfuse {B : Type} := mk_hl_libfuse {
  hf_args : list (list byte * Z);
  hf_parsed : bool;
  hf_options : options;
  hf_session : option (list (B * sqfs_xattr * hl_request))
}.
Arguments hl_libfuse : clear implicits.
Arguments mk_hl_libfuse {B}.

Section main.
Context {CI : CacheImpl} (h : host) (libs : codec_libs) (makedev : Z -> Z -> Z).
Context {B : Type} (filler : B -> dirent -> bool * B).
Context (package version : list byte) (mt help : bool).

(** A handler gives a number, and nothing fails. *)
Fixpoint hl_requests (d : hl_driver) (reqs : list (B * sqfs_xattr * hl_request)) : P hl_driver :=
  match reqs with
  | [] => mret d
  | (buf, x, r) :: reqs =>
      answer ← reader (sqfs_hl_ops makedev filler buf x d r);
      hl_requests (match answer with Success (d, _) => d | Failure _ => d end) reqs
  end.

(** The requests come between [sqfs_hl_op_init] and [sqfs_hl_op_destroy]. *)
Definition fuse_main (notify_pipe : option (list byte)) (d : hl_driver)
    (session : option (list (B * sqfs_xattr * hl_request))) : P Z :=
  ret ← ask h (Fuse FuseMain);
  _ ← match session with
      | None => mret tt
      | Some reqs =>
          _ ← sqfs_hl_op_init h notify_pipe;
          d ← hl_requests d reqs;
          sqfs_hl_op_destroy d
      end;
  mret ret.

Definition hl_out (notify_pipe : option (list byte)) (ret : Z) : P Z :=
  _ ← cleanup h notify_pipe ret;
  mret ret.

Definition main (argv0 : option (list byte)) (lib : hl_libfuse B) (new_root : Z) : P Z :=
  let opts := lib.(hf_options) in
  let out := hl_out opts.(opt_notify_pipe) in
  let usage := ret ← sqfs_usage package version mt help argv0 true false; out ret in
  _ ← tell (Fuse OptParse);
  match (if lib.(hf_parsed) then fst <$> opt_calls (mk_opts None false) lib.(hf_args) else None) with
  | None | Some (mk_opts None _) => usage
  | Some (mk_opts (Some image) _) =>
      hl ← sqfs_hl_open h libs image opts.(opt_offset) opts.(opt_subdir) new_root;
      match hl with
      | None => out (-1)
      | Some hl =>
          _ ← tell (Fuse (OptAddArg (text "-s")));
          ret ← fuse_main opts.(opt_notify_pipe) hl lib.(hf_session);
          out ret
      end
  end.
End main.

Section correct.
Context {CI : CacheImpl} {CL : CacheLaws CI} (h : host) (libs : codec_libs) (Hlibs : codec_laws libs).
Context (Hsize : forall calls path fd, h.(images) calls path = Some fd -> len fd <= 2 ^ 62).
Context (makedev : Z -> Z -> Z) {B : Type} (filler : B -> dirent -> bool * B).
Context (package version : list byte) (mt help : bool).

#[local] Abbreviation ops := (sqfs_hl_ops makedev filler).

(** libfuse releases what it opened. *)
Fixpoint wanted_requests (d : hl_driver) (s : sqfs_state) (reqs : list (B * sqfs_xattr * hl_request)) : Prop :=
  match reqs with
  | [] => True
  | (buf, x, r) :: reqs =>
      hl_wanted d r /\
      forall s' d' rep, ops buf x d r s = Ret (s', Success (d', rep)) -> wanted_requests d' s' reqs
  end.

Lemma requests_serve reqs d w :
  hl_session_inv d w.(w_fs) -> wanted_requests d w.(w_fs) reqs ->
  does (hl_requests makedev filler d reqs)
    (fun d' w' => hl_session_inv d' w'.(w_fs) /\ w'.(w_calls) = w.(w_calls)) (fun _ _ => False) w.
Proof.
  revert d w. induction reqs as [|[[buf x] r] reqs IH]; intros d w Hi Hw; cbn [hl_requests]; [by apply does_ret|].
  destruct Hw as [Hr Hnext]. pose proof (hl_session_serves makedev filler d w.(w_fs) buf x r Hi Hr) as H.
  eapply (does_bind _ _ (fun answer w' => w'.(w_calls) = w.(w_calls) /\
    exists d' rep, answer = Success (d', rep) /\ hl_session_inv d' w'.(w_fs) /\ wanted_requests d' w'.(w_fs) reqs)).
  - unfold does, reader. destruct (ops buf x d r (w_fs w)) as [[s' [[d' rep]|]]|]; [|done..].
    split; [done|]. exists d', rep. split; [done|]. split; [apply H|by eapply Hnext].
  - intros ? w1 (Ec & d' & rep & -> & Hi1 & Hw1).
    eapply does_mono; [by apply IH| |done]. intros d2 w2 [H2 Ec2]. split; [done|congruence].
Qed.

(** fuse_main has returned 0. *)
Definition hl_served (calls : list call) : Prop :=
  exists before rest, calls = before ++ Fuse FuseMain :: rest /\ h.(numbers) before (Fuse FuseMain) = 0.

(** No block and no cache is left; or the session never started, and the archive is open. *)
Definition hl_left (lib : hl_libfuse B) (s : sqfs_state) : Prop :=
  released s \/ lib.(hf_session) = None /\ exists d, hl_session_inv d s.

(** How main ends: so, and the status is 0 only when fuse_main has returned 0, and then no
    failure was told; any other status was told on the pipe. *)
Definition hl_ended (lib : hl_libfuse B) (status : Z) (w : world) : Prop :=
  hl_left lib w.(w_fs) /\
  if decide (status = 0) then hl_served w.(w_calls) /\ WritePipe [NOTIFY_FAILURE] ∉ w.(w_calls)
  else forall p, lib.(hf_options).(opt_notify_pipe) = Some p -> failure_told h p w.(w_calls).

Lemma hl_out_ends lib ret w :
  mounts h not_mounted w.(w_calls) -> hl_left lib w.(w_fs) ->
  (ret = 0 -> hl_served w.(w_calls)) ->
  does (hl_out h lib.(hf_options).(opt_notify_pipe) ret) (hl_ended lib) (fun _ w' => forked h w'.(w_calls)) w.
Proof.
  intros Hm Hr Hs. eapply does_bind; [eapply does_mono; [by apply (cleanup_does h _ ret)|exact (fun _ _ H => H)|done]|].
  intros ? w' (_ & Hf & (x & Ec) & Ht). apply does_ret. split; [by rewrite Hf|].
  destruct (Z.eqb_spec ret 0) as [->|Hne]; [rewrite decide_True by done|by rewrite decide_False by done].
  split; [|done]. destruct (Hs eq_refl) as (b & r & E & Hn). exists b, (r ++ x).
  split; [by rewrite Ec, E, <- app_assoc|done].
Qed.

Lemma hl_usage_ends argv0 lib w :
  mounts h not_mounted w.(w_calls) -> released w.(w_fs) ->
  does (ret ← sqfs_usage package version mt help argv0 true false; hl_out h lib.(hf_options).(opt_notify_pipe) ret)
    (hl_ended lib) (fun _ w' => forked h w'.(w_calls)) w.
Proof.
  intros Hm Hr. eapply does_bind; [apply (usage_does h)|]. intros err w1 [-> [Hc Hf]].
  apply hl_out_ends; [by eapply mounts_more|left; by rewrite Hf|done].
Qed.

(** With the archive open. *)
Lemma fuse_main_ends lib d w :
  hl_session_inv d w.(w_fs) -> mounts h not_mounted w.(w_calls) ->
  (forall reqs, lib.(hf_session) = Some reqs -> wanted_requests d w.(w_fs) reqs) ->
  does (ret ← fuse_main h makedev filler lib.(hf_options).(opt_notify_pipe) d lib.(hf_session);
        hl_out h lib.(hf_options).(opt_notify_pipe) ret) (hl_ended lib) (fun _ w' => forked h w'.(w_calls)) w.
Proof.
  intros Hi Hm Hw. set (n := h.(numbers) w.(w_calls) (Fuse FuseMain)). set (w1 := asked w (Fuse FuseMain)).
  assert (mounts h not_mounted w1.(w_calls)) as Hm1 by by apply (mounts_snoc h not_mounted).
  apply (does_bind _ _ (fun ret w' => ret = n /\ more w1.(w_calls) w'.(w_calls) /\
    hl_left lib w'.(w_fs))).
  - apply does_ask. apply (does_bind _ _ (fun _ w' => more w1.(w_calls) w'.(w_calls) /\
      hl_left lib w'.(w_fs))); [|intros ? w' H'; by apply does_ret].
    unfold hl_left. destruct (hf_session lib) as [reqs|];
      [|apply does_ret; split; [apply more_refl|right; split; [done|by exists d]]].
    eapply does_bind; [by apply notify_async_calm|]. intros ? w2 [Hc2 Hf2]. cbn [w1 asked w_fs] in Hf2.
    eapply does_bind; [eapply does_mono; [apply requests_serve|exact (fun _ _ H => H)|done]|].
    { by rewrite Hf2. }
    { rewrite Hf2. by apply Hw. }
    intros d' w3 [Hi3 Ec3]. unfold sqfs_hl_op_destroy.
    eapply (does_bind _ _ (fun _ w' => w'.(w_calls) = w3.(w_calls) /\ released w'.(w_fs))).
    + eapply does_mono; [eapply (destroy_image_does _ _ _ (fun _ w' => w'.(w_calls) = w3.(w_calls) /\ released w'.(w_fs)))| |];
        [apply Hi3|done..].
    + intros ? w4 [Ec4 H4]. apply does_ret. rewrite Ec4, Ec3. split; [done|by left].
  - intros ret w' (-> & Hc & Hr). apply hl_out_ends; [by eapply mounts_more|done|].
    intros Hn. destruct Hc as (x & E & _). exists w.(w_calls), x. split; [|done].
    rewrite E. unfold w1. cbn [asked w_calls]. by rewrite <- app_assoc.
Qed.

(** C13: the program squashfuse ends as well, whatever its arguments and the archive are,
    unless it dies of what it reads.  When fuse_main has called init and the requests are
    over, no block and no cache of the archive is left; when fuse_main ends before that,
    nothing calls destroy, and an archive that was opened stays open.  (The table of the extended
    attributes and the descriptor are given back in neither case.)  The status is 0 only when
    fuse_main has returned 0, and then no failure was told on the named pipe; any other is
    told there if it can be written to.  The kernel is to release only what it has opened.  Only a
    child that tells the success ends early.  With a subdirectory memory must not be short, as
    for squashfuse_ll. *)
Theorem squashfuse_hl_correct (argv0 : option (list byte)) (lib : hl_libfuse B) (new_root : Z) (ms : mallocs) :
  let opts := lib.(hf_options) in
  opts.(opt_subdir) = [] \/ ms = [] ->
  (forall path w d w' reqs, w.(w_fs) = null_state ms -> lib.(hf_session) = Some reqs ->
    sqfs_hl_open h libs path opts.(opt_offset) opts.(opt_subdir) new_root w = Ret (w', inl (Some d)) ->
    wanted_requests d w'.(w_fs) reqs) ->
  match main h libs makedev filler package version mt help argv0 lib new_root (mk_world [] (null_state ms)) with
  | Ret (w, inl status) => hl_ended lib status w
  | Ret (w, inr _) => forked h w.(w_calls)
  | Crash c => c <> OutOfFuel
  end.
Proof.
  intros opts Hms Hw. set (w0 := mk_world [] (null_state ms)).
  assert (mounts h not_mounted w0.(w_calls)) as Hm0 by (split; [done|apply not_elem_of_nil]).
  assert (released w0.(w_fs)) as Hr0 by (split; [done|split; [done|by intros []]]).
  enough (does (main h libs makedev filler package version mt help argv0 lib new_root) (hl_ended lib)
    (fun _ w => forked h w.(w_calls)) w0) as H by exact H.
  unfold main. fold opts. apply does_tell. set (w1 := asked w0 _).
  assert (mounts h not_mounted w1.(w_calls)) as Hm1 by by apply (mounts_more h _ _ _ Hm0), more_snoc.
  destruct (if hf_parsed lib then _ else _) as [[[image|] mp]|]; [|by apply hl_usage_ends..].
  eapply (does_bind _ _ (fun r w' => since w1.(w_calls) w'.(w_calls) /\
    match r with
    | Some d => hl_session_inv d w'.(w_fs) /\
        forall reqs, lib.(hf_session) = Some reqs -> wanted_requests d w'.(w_fs) reqs
    | None => released w'.(w_fs)
    end)).
  - pose proof (hl_open_does libs Hlibs h Hsize image (opt_offset opts) (opt_subdir opts) new_root w1 Hms Hr0) as H.
    specialize (Hw image w1). unfold does in *.
    destruct (sqfs_hl_open _ _ _ _ _ _ w1) as [[w2 [[d|]|]]|]; [|done..].
    destruct H. split; [done|]. split; [done|]. intros reqs Hq. by apply Hw.
  - intros [d|] w2 [Hs2 H2].
    + apply does_tell. set (w3 := asked w2 _).
      assert (mounts h not_mounted w3.(w_calls)) as Hm3
        by (apply (mounts_more h _ _ _ Hm1); eapply more_trans; [by apply more_since|by apply more_snoc]).
      destruct H2 as [Hi2 Hq2]. by apply fuse_main_ends.
    + apply hl_out_ends; [|by left|done]. by apply (mounts_more h _ _ _ Hm1), more_since.
Qed.
End correct.

(** ** Sample: the sample archive is mounted, and "/d" is looked at. *)
#[local] Existing Instance sample_cache.

Definition hl_lib : hl_libfuse (list dirent) :=
  mk_hl_libfuse [([x69], FUSE_OPT_KEY_NONOPT); ([x6d], FUSE_OPT_KEY_NONOPT)] true
    (mk_options 0 0 0 0 [] (Some [x70])) (Some [([], sample_xattr, HlGetattr (Some [x2f; x64]))]).

#[local] Abbreviation sample_main := (main mount_host sample_libs sample_makedev three [] [] true true (Some [x73]) hl_lib 0).

Lemma squashfuse_hl_correct_witness :
  exists w, sample_main (mk_world [] (null_state [])) = Ret (w, inl 0) /\
    hl_ended mount_host hl_lib 0 w.
Proof.
  pose proof (squashfuse_hl_correct (CL := sample_laws) mount_host sample_libs sample_libs_ok mount_host_size
    sample_makedev three [] [] true true (Some [x73]) hl_lib 0 [] ltac:(by left)) as H.
  assert (match sample_main (mk_world [] (null_state [])) with Ret (_, inl 0) => true | _ => false end = true) as Hc
    by (vm_compute; reflexivity).
  destruct (sample_main _) as [[w [status|]]|]; try done. destruct status; try done.
  exists w. split; [reflexivity|]. apply H. clear.
  intros path w d w' reqs _ [= <-] _. split; [exact I|]. intros; exact I.
Defined.
