(* ===== verification/Bits.v ===== *)
(** * Bits: lists of bits and the numbers they stand for

    Shared by the reference of the zlib format (Inflate) and by the proofs on the inflate of
    the Windows port. *)
From S2P Require Import Prelude.

(** The bits of a byte come least significant first. *)
Definition byte_bits (b : byte) : list bool := map (Z.testbit (byte_val b)) (seqZ 0 8).
Definition bits_of (bs : list byte) : list bool := concat (map byte_bits bs).

(** The number whose bits are [l], the least significant first. *)
Fixpoint bits_val (l : list bool) : Z :=
  match l with [] => 0 | b :: l => Z.b2z b + 2 * bits_val l end.

(** The [n] low bits of [z], the most significant first. *)
Fixpoint msb_bits (n : nat) (z : Z) : list bool :=
  match n with O => [] | S n => Z.testbit z (Z.of_nat n) :: msb_bits n z end.

(** ** [bits_val] *)

Lemma b2z_range b : 0 <= Z.b2z b < 2.
Proof. by destruct b. Qed.

Lemma pow2_succ (n : nat) : 2 ^ Z.of_nat (S n) = 2 * 2 ^ Z.of_nat n.
Proof. rewrite Nat2Z.inj_succ, Z.pow_succ_r; lia. Qed.

Lemma pow2_pos n : 0 <= n -> 0 < 2 ^ n.
Proof. intros. apply Z.pow_pos_nonneg; lia. Qed.

Lemma bits_val_range l : 0 <= bits_val l < 2 ^ len l.
Proof.
  induction l as [|b l IH]; cbn [bits_val length]; [done|]. rewrite pow2_succ.
  pose proof (b2z_range b). lia.
Qed.

Lemma bits_val_app l l' : bits_val (l ++ l') = bits_val l + 2 ^ len l * bits_val l'.
Proof.
  induction l as [|b l IH]; cbn [bits_val app length].
  - change (2 ^ Z.of_nat 0) with 1. lia.
  - rewrite IH, pow2_succ. lia.
Qed.

Lemma bits_val_inj l l' : length l = length l' -> bits_val l = bits_val l' -> l = l'.
Proof.
  revert l'. induction l as [|b l IH]; intros [|b' l'] Hl H; try done; cbn in *.
  assert (Z.b2z b = Z.b2z b' /\ bits_val l = bits_val l') as [Hb Hv]
    by (pose proof (b2z_range b); pose proof (b2z_range b'); lia).
  f_equal; [by destruct b, b'|apply IH; [lia|done]].
Qed.

Lemma bits_val_replicate_false n : bits_val (replicate n false) = 0.
Proof. induction n; cbn; lia. Qed.

(** Zeros after the last bit do not count. *)
Lemma bits_val_pad l n : bits_val (l ++ replicate n false) = bits_val l.
Proof. rewrite bits_val_app, bits_val_replicate_false. lia. Qed.

Lemma bits_val_take_drop l k :
  bits_val l = bits_val (take k l) + 2 ^ Z.of_nat (Nat.min k (length l)) * bits_val (drop k l).
Proof. rewrite <- (take_drop k l) at 1. rewrite bits_val_app, length_take. done. Qed.

Lemma bits_val_mod l (k : nat) : bits_val l mod 2 ^ Z.of_nat k = bits_val (take k l).
Proof.
  destruct (Nat.le_gt_cases (length l) k).
  - rewrite take_ge by done. apply Z.mod_small. pose proof (bits_val_range l).
    pose proof (Z.pow_le_mono_r 2 (len l) (Z.of_nat k)). lia.
  - rewrite (bits_val_take_drop l k), Nat.min_l by lia.
    rewrite Z.mul_comm, Z_mod_plus_full. apply Z.mod_small.
    pose proof (bits_val_range (take k l)) as H1. rewrite length_take, Nat.min_l in H1 by lia. lia.
Qed.

Lemma bits_val_land l (k : nat) : (bits_val l &&& (2 ^ Z.of_nat k - 1)) = bits_val (take k l).
Proof. rewrite land_ones_wrap by lia. apply bits_val_mod. Qed.

Lemma bits_val_shiftr l (k : nat) : Z.shiftr (bits_val l) (Z.of_nat k) = bits_val (drop k l).
Proof.
  rewrite Z.shiftr_div_pow2 by lia. pose proof (pow2_pos (Z.of_nat k)).
  destruct (Nat.le_gt_cases (length l) k).
  - rewrite drop_ge by done. apply Z.div_small. pose proof (bits_val_range l).
    pose proof (Z.pow_le_mono_r 2 (len l) (Z.of_nat k)). lia.
  - rewrite (bits_val_take_drop l k), Nat.min_l by lia.
    rewrite Z.mul_comm, Z.div_add by lia. rewrite Z.div_small; [lia|].
    pose proof (bits_val_range (take k l)) as H1. rewrite length_take, Nat.min_l in H1 by lia. lia.
Qed.

(** The bit at [k], 0 past the end. *)
Lemma bits_val_bit l (k : nat) : (Z.shiftr (bits_val l) (Z.of_nat k) &&& 1) = Z.b2z (nth k l false).
Proof.
  rewrite bits_val_shiftr. change 1 with (2 ^ Z.of_nat 1 - 1). rewrite bits_val_land.
  revert l. induction k as [|k IH]; intros [|b l]; cbn [drop nth]; try done.
  by destruct b.
Qed.

(** Or-ing in what lies beyond the last bit appends it. *)
Lemma lor_disjoint a b (n : nat) : 0 <= a < 2 ^ Z.of_nat n -> (a ||| Z.shiftl b (Z.of_nat n)) = a + 2 ^ Z.of_nat n * b.
Proof.
  intros Ha. rewrite Z.shiftl_mul_pow2 by lia.
  rewrite Z.mul_comm. symmetry. rewrite <- Z.lxor_lor, Z.add_nocarry_lxor; try done.
  all: apply Z.bits_inj'; intros i Hi; rewrite Z.land_spec, Z.bits_0, Z.mul_comm.
  all: destruct (Z.lt_ge_cases i (Z.of_nat n)).
  all: try (rewrite Z.mul_pow2_bits_low by lia; apply andb_false_r).
  all: rewrite <- (Z.mod_small a (2 ^ Z.of_nat n)), Z.mod_pow2_bits_high by lia; done.
Qed.

Lemma bits_val_push w l l' :
  len l + len l' <= w -> (bits_val l ||| wrap w (Z.shiftl (bits_val l') (len l))) = bits_val (l ++ l').
Proof.
  intros Hw. pose proof (bits_val_range l). pose proof (bits_val_range l').
  pose proof (Z.pow_le_mono_r 2 (len l + len l') w ltac:(lia) Hw) as Hp.
  rewrite Z.pow_add_r in Hp by lia. pose proof (pow2_pos (len l)). pose proof (pow2_pos (len l')).
  rewrite wrap_small by (rewrite Z.shiftl_mul_pow2 by lia; nia).
  by rewrite lor_disjoint, bits_val_app.
Qed.

(** ** Bytes *)
Lemma byte_bits_length b : length (byte_bits b) = 8%nat.
Proof. done. Qed.

Lemma bits_val_byte b : bits_val (byte_bits b) = byte_val b.
Proof. by destruct b. Qed.

Lemma bits_of_app l l' : bits_of (l ++ l') = bits_of l ++ bits_of l'.
Proof. unfold bits_of. by rewrite map_app, concat_app. Qed.

Lemma bits_of_length bs : length (bits_of bs) = (8 * length bs)%nat.
Proof. induction bs as [|b bs IH]; [done|]. unfold bits_of in *. cbn [map concat]. rewrite length_app, IH, byte_bits_length. cbn. lia. Qed.

Lemma bits_val_bits_of bs : bits_val (bits_of bs) = le_decode bs.
Proof.
  induction bs as [|b bs IH]; [done|]. unfold bits_of in *. cbn [map concat le_decode].
  by rewrite bits_val_app, IH, bits_val_byte.
Qed.

(** ** [msb_bits] *)
Lemma msb_bits_length n z : length (msb_bits n z) = n.
Proof. induction n; cbn; auto. Qed.

Lemma msb_bits_snoc n z : msb_bits (S n) z = msb_bits n (Z.shiftr z 1) ++ [Z.odd z].
Proof.
  induction n as [|n IH].
  - cbn. by rewrite Z.bit0_odd.
  - change (msb_bits (S (S n)) z) with (Z.testbit z (Z.of_nat (S n)) :: msb_bits (S n) z).
    rewrite IH. cbn [msb_bits app]. f_equal. rewrite Z.shiftr_spec by lia. f_equal. lia.
Qed.

Lemma msb_bits_take n k z : msb_bits (n + k) z = msb_bits n (Z.shiftr z (Z.of_nat k)) ++ msb_bits k z.
Proof.
  induction n as [|n IH]; [done|]. cbn [Nat.add msb_bits app]. rewrite IH. f_equal.
  rewrite Z.shiftr_spec by lia. f_equal. lia.
Qed.

Lemma msb_bits_inj n y z : 0 <= y < 2 ^ Z.of_nat n -> 0 <= z < 2 ^ Z.of_nat n ->
  msb_bits n y = msb_bits n z -> y = z.
Proof.
  revert y z. induction n as [|n IH]; intros y z Hy Hz.
  - cbn in *. lia.
  - rewrite !msb_bits_snoc. intros [E1 E2]%app_inj_2; [|done]. injection E2 as E2.
    rewrite pow2_succ in *.
    rewrite (Z.div2_odd y), (Z.div2_odd z), E2, !Z.div2_spec. f_equal. f_equal.
    apply IH; [rewrite Z.shiftr_div_pow2 by lia; change (2 ^ 1) with 2; dlia..|done].
Qed.

(** Any list of bits is one of them. *)
Lemma msb_bits_surj l : exists z, 0 <= z < 2 ^ len l /\ l = msb_bits (length l) z.
Proof.
  induction l as [|b l (z & Hz & IH)] using rev_ind; [by exists 0|].
  exists (Z.b2z b + 2 * z). pose proof (b2z_range b). rewrite length_app, Nat.add_1_r, pow2_succ.
  split; [lia|]. rewrite msb_bits_snoc. f_equal.
  - rewrite Z.shiftr_div_pow2 by lia. change (2 ^ 1) with 2.
    replace ((Z.b2z b + 2 * z) / 2) with z by dlia. done.
  - f_equal. rewrite Z.odd_add_mul_2. by destruct b.
Qed.

(** ** Lists *)
Lemma nth_take_drop {A} (l : list A) k d : (k < length l)%nat -> take (S k) l = take k l ++ [nth k l d].
Proof.
  intros Hk. destruct (lookup_lt_is_Some_2 l k Hk) as [x Hx].
  rewrite (take_S_r _ _ x Hx). f_equal. f_equal. symmetry. by apply nth_lookup_Some.
Qed.
