(* ===== verification/Inflate.v ===== *)
(** * Inflate: the format of zlib streams (RFC 1950, RFC 1951)

    The reference that the inflate of the Windows port is proved against: a stream is a list
    of bits, and a decoder takes what it reads from its front.  It is written after the
    RFCs, with no tables, no buffers and no look-ahead; it gives [None] on what is not a
    stream. *)
From S2P Require Import Prelude Bits.

(** ** Decoders *)
Definition D (A : Type) : Type := list bool -> option (A * list bool).

#[export] Instance D_ret : MRet D := fun A a bits => Some (a, bits).
#[export] Instance D_bind : MBind D := fun A B k m bits =>
  match m bits with Some (a, rest) => k a rest | None => None end.

Definition bad {A} : D A := fun _ => None.

Definition take_bits (n : nat) : D Z := fun bits =>
  if decide (n <= length bits)%nat then Some (bits_val (take n bits), drop n bits) else None.

(** To the next byte. *)
Definition align : D unit := fun bits => Some (tt, drop (length bits mod 8)%nat bits).

(** ** Codes (RFC 1951, 3.2.2)

    A code is given by the sizes of its words, in bits; a size of 0 is that of a symbol
    without a word. *)
Definition count (sizes : list Z) (l : Z) : Z := len (filter (fun k => k = l) sizes).

(** The first word of [l] bits, as a number. *)
Fixpoint first_code (sizes : list Z) (l : nat) : Z :=
  match l with
  | O => 0
  | S l => 2 * (first_code sizes l + match l with O => 0 | _ => count sizes (Z.of_nat l) end)
  end.

(** The words of a size follow each other in the order of their symbols. *)
Definition code_num (sizes : list Z) (sym : nat) (l : Z) : Z :=
  first_code sizes (Z.to_nat l) + count (take sym sizes) l.

Definition code_of (sizes : list Z) (sym : nat) : list bool :=
  match sizes !! sym with
  | Some l => msb_bits (Z.to_nat l) (code_num sizes sym l)
  | None => []
  end.

Definition used (sizes : list Z) (sym : nat) : Prop :=
  match sizes !! sym with Some l => l <> 0 | None => False end.
#[export] Instance used_dec sizes sym : Decision (used sizes sym).
Proof. unfold used. destruct (sizes !! sym); apply _. Defined.

(** The symbol whose word the bits start with. *)
Definition decode_sym (sizes : list Z) : D Z := fun bits =>
  match list_find (fun sym => used sizes sym /\ code_of sizes sym `prefix_of` bits)
                  (seq 0 (length sizes)) with
  | Some (_, sym) => Some (Z.of_nat sym, drop (length (code_of sizes sym)) bits)
  | None => None
  end.

(** The share of the words of 15 bits that start with a word. *)
Definition kraft (sizes : list Z) : Z :=
  foldr (fun l k => (if decide (l = 0) then 0 else 2 ^ (15 - l)) + k) 0 sizes.

(** The words leave nothing out, or there is one at most. *)
Definition valid_sizes (sizes : list Z) : Prop :=
  Forall (fun l => 0 <= l <= 15) sizes /\
  (kraft sizes = 2 ^ 15 \/ len (filter (fun l => l <> 0) sizes) <= 1).
#[export] Instance valid_sizes_dec sizes : Decision (valid_sizes sizes).
Proof. apply _. Defined.

(** ** Lengths and distances (RFC 1951, 3.2.5) *)

(** The base and the number of extra bits. *)
Definition length_code (sym : Z) : option (Z * nat) :=
  if sym <? 257 then None
  else if sym <? 265 then Some (sym - 254, 0%nat)
  else if sym <? 285 then
    let extra := (sym - 261) / 4 in Some ((4 + (sym - 265) mod 4) * 2 ^ extra + 3, Z.to_nat extra)
  else if sym =? 285 then Some (258, 0%nat)
  else None.

Definition dist_code (sym : Z) : option (Z * nat) :=
  if sym <? 4 then Some (sym + 1, 0%nat)
  else if sym <? 30 then
    let extra := sym / 2 - 1 in Some ((2 + sym mod 2) * 2 ^ extra + 1, Z.to_nat extra)
  else None.

Definition number (c : option (Z * nat)) : D Z :=
  match c with
  | Some (base, extra) => n ← take_bits extra; mret (base + n)
  | None => bad
  end.

(** [n] bytes, each the one [d] before it. *)
Fixpoint copy_back (n : nat) (d : Z) (out : list byte) : list byte :=
  match n with
  | O => out
  | S n => copy_back n d (out ++ [out !!! Z.to_nat (len out - d)])
  end.

(** ** Blocks (RFC 1951, 3.2.3 to 3.2.7) *)

(** After a symbol that is not a literal: the end, or a match and what [go_on] makes of the
    rest. *)
Definition inflate_match (go_on : list byte -> D (list byte)) (dist : list Z) (sym : Z)
    (out : list byte) : D (list byte) :=
  if sym =? 256 then mret out
  else
    l ← number (length_code sym);
    dsym ← decode_sym dist;
    d ← number (dist_code dsym);
    if len out <? d then bad else go_on (copy_back (Z.to_nat l) d out).

(** Symbols up to the end of the block; a symbol has a bit at least. *)
Fixpoint inflate_symbols (n : nat) (lit dist : list Z) (out : list byte) : D (list byte) :=
  match n with
  | O => bad
  | S n =>
      sym ← decode_sym lit;
      if sym <? 256 then inflate_symbols n lit dist (out ++ [byte_of sym])
      else inflate_match (inflate_symbols n lit dist) dist sym out
  end.

Definition inflate_compressed (lit dist : list Z) (out : list byte) : D (list byte) := fun bits =>
  if decide (valid_sizes lit /\ valid_sizes dist)
  then inflate_symbols (S (length bits)) lit dist out bits else None.

Fixpoint take_bytes (n : nat) : D (list byte) :=
  match n with
  | O => mret []
  | S n => b ← take_bits 8; rest ← take_bytes n; mret (byte_of b :: rest)
  end.

Definition inflate_stored (out : list byte) : D (list byte) :=
  _ ← align;
  n ← take_bits 16;
  m ← take_bits 16;
  if n + m =? 65535 then data ← take_bytes (Z.to_nat n); mret (out ++ data) else bad.

Definition fixed_lit : list Z :=
  replicate 144 8 ++ replicate 112 9 ++ replicate 24 7 ++ replicate 8 8.
Definition fixed_dist : list Z := replicate 32 5.

Fixpoint take_sizes (n : nat) : D (list Z) :=
  match n with
  | O => mret []
  | S n => l ← take_bits 3; rest ← take_sizes n; mret (l :: rest)
  end.

Definition size_order : list Z := [16;17;18;0;8;7;9;6;10;5;11;4;12;3;13;2;14;1;15].

(** The sizes in the order of their symbols. *)
Definition ordered (sizes : list Z) : list Z :=
  foldl (fun l '(i, k) => zinsert i k l) (replicate 19 0) (zip size_order sizes).

(** [total] sizes, in a code of their own; a size adds one at least. *)
Fixpoint code_sizes (n : nat) (cl : list Z) (total : Z) (sizes : list Z) : D (list Z) :=
  if len sizes =? total then mret sizes
  else if total <? len sizes then bad
  else match n with
  | O => bad
  | S n =>
      sym ← decode_sym cl;
      if sym <? 16 then code_sizes n cl total (sizes ++ [sym])
      else if sym =? 16 then
        match last sizes with
        | None => bad
        | Some l => k ← take_bits 2; code_sizes n cl total (sizes ++ replicate (Z.to_nat (3 + k)) l)
        end
      else if sym =? 17 then
        k ← take_bits 3; code_sizes n cl total (sizes ++ replicate (Z.to_nat (3 + k)) 0)
      else
        k ← take_bits 7; code_sizes n cl total (sizes ++ replicate (Z.to_nat (11 + k)) 0)
  end.

Definition inflate_dynamic (out : list byte) : D (list byte) :=
  hlit ← take_bits 5;
  hdist ← take_bits 5;
  hclen ← take_bits 4;
  cl ← take_sizes (Z.to_nat (hclen + 4));
  let total := (hlit + 257) + (hdist + 1) in
  if decide (valid_sizes (ordered cl)) then
    sizes ← code_sizes (Z.to_nat total) (ordered cl) total [];
    inflate_compressed (take (Z.to_nat (hlit + 257)) sizes) (drop (Z.to_nat (hlit + 257)) sizes) out
  else bad.

(** Blocks up to the last; a block has three bits at least. *)
Fixpoint inflate_deflated (n : nat) (out : list byte) : D (list byte) :=
  match n with
  | O => bad
  | S n =>
      final ← take_bits 1;
      type ← take_bits 2;
      out ← (if type =? 0 then inflate_stored out
             else if type =? 1 then inflate_compressed fixed_lit fixed_dist out
             else if type =? 2 then inflate_dynamic out
             else bad);
      if final =? 1 then mret out else inflate_deflated n out
  end.

(** ** The stream (RFC 1950) *)

Definition adler32 (data : list byte) : Z :=
  let '(a, b) := foldl (fun '(a, b) x => let a := (a + byte_val x) mod 65521 in (a, (b + a) mod 65521))
                       (1, 0) data in
  b * 65536 + a.

(** The most significant byte first. *)
Definition be_val (bs : list byte) : Z := foldl (fun z b => z * 256 + byte_val b) 0 bs.

Definition zlib_stream : D (list byte) := fun bits =>
  (cmf ← take_bits 8;
   flg ← take_bits 8;
   if ((cmf * 256 + flg) mod 31 =? 0) && (cmf mod 16 =? 8) && negb (Z.testbit flg 5) then
     out ← inflate_deflated (length bits) [];
     _ ← align;
     check ← take_bytes 4;
     if be_val check =? adler32 out then mret out else bad
   else bad) bits.

(** The data of a stream; what follows the stream is left alone. *)
Definition zlib_decode (input : list byte) : option (list byte) := fst <$> zlib_stream (bits_of input).
