(* ===== verification/Tinfl.v ===== *)
(** * Tinfl: the inflate of the Windows port (win/tinfl.c, win/win_decompress.c.inc)

    On Windows there is no zlib: squashfuse has its own inflate, a coroutine that is called
    with what input and what room there is.  squashfuse calls it through
    [tinfl_decompress_mem_to_mem] alone, on a fresh decompressor with the whole input, and
    drops it after: the coroutine is entered at its start and left at its first return.  It
    is modelled up to there, for any flags; [Return] is a TINFL_CR_RETURN, with the label it
    leaves in [m_state].  What the C code keeps in [r] between calls are arguments and
    results here.

    The two choices of the preprocessor are parameters: the width of the bit buffer, and
    whether words are copied as such. *)
From S2P Require Import Prelude Decompress.

Inductive tinfl_status :=
  | TINFL_STATUS_BAD_PARAM | TINFL_STATUS_ADLER32_MISMATCH | TINFL_STATUS_FAILED
  | TINFL_STATUS_DONE | TINFL_STATUS_NEEDS_MORE_INPUT | TINFL_STATUS_HAS_MORE_OUTPUT.
#[export] Instance tinfl_status_eq_dec : EqDecision tinfl_status.
Proof. solve_decision. Defined.

Definition TINFL_FLAG_PARSE_ZLIB_HEADER : Z := 1.
Definition TINFL_FLAG_HAS_MORE_INPUT : Z := 2.
Definition TINFL_FLAG_USING_NON_WRAPPING_OUTPUT_BUF : Z := 4.
Definition TINFL_FLAG_COMPUTE_ADLER32 : Z := 8.

Definition TINFL_FAST_LOOKUP_BITS : Z := 10.
Definition TINFL_FAST_LOOKUP_SIZE : Z := 1024.
Definition TINFL_MAX_HUFF_SYMBOLS_0 : Z := 288.

(** ** Arrays *)
Definition arr {A} (l : list A) (i : Z) : outcome A :=
  match zlookup l i with Some x => Ret x | None => Crash MemFault end.

Definition arr_set {A} (l : list A) (i : Z) (x : A) : outcome (list A) :=
  if (0 <=? i) && (i <? len l) then Ret (zinsert i x l) else Crash MemFault.

Fixpoint fold_outcome {A B} (f : A -> B -> outcome A) (a : A) (l : list B) : outcome A :=
  match l with
  | [] => Ret a
  | b :: l => a ← f a b; fold_outcome f a l
  end.

(** ** The coroutine *)

(** What of its variables outlives a step: the bit buffer, the input from [pIn_buf_cur] to
    its end, the output from [pOut_buf_start] to [pOut_buf_end] and [pOut_buf_cur] in it. *)
Record io := mk_io {
  num_bits : Z;
  bit_buf : Z;
  pIn_buf : list byte;
  pOut_buf : list byte;
  pOut_buf_cur : Z
}.

Inductive step (A : Type) :=
  | Next (a : A) (s : io)
  | Return (state_index : Z) (status : tinfl_status) (s : io).
Arguments Next {A} a s.
Arguments Return {A} state_index status s.

Definition T (A : Type) : Type := io -> outcome (step A).

#[export] Instance T_ret : MRet T := fun A a s => Ret (Next a s).
#[export] Instance T_bind : MBind T := fun A B k m s =>
  match m s with
  | Ret (Next a s) => k a s
  | Ret (Return i st s) => Ret (Return i st s)
  | Crash c => Crash c
  end.

Definition TINFL_CR_RETURN {A} (state_index : Z) (status : tinfl_status) : T A :=
  fun s => Ret (Return state_index status s).
Definition get_io : T io := fun s => Ret (Next s s).
Definition t_lift {A} (o : outcome A) : T A := fun s =>
  match o with Ret a => Ret (Next a s) | Crash c => Crash c end.

Definition set_bits (n b : Z) (s : io) : io :=
  mk_io n b s.(pIn_buf) s.(pOut_buf) s.(pOut_buf_cur).
Definition set_in (l : list byte) (s : io) : io :=
  mk_io s.(num_bits) s.(bit_buf) l s.(pOut_buf) s.(pOut_buf_cur).
Definition set_out (l : list byte) (cur : Z) (s : io) : io :=
  mk_io s.(num_bits) s.(bit_buf) s.(pIn_buf) l cur.

(** [*pOut_buf_cur++ = b]. *)
Definition put (b : byte) : T unit := fun s =>
  match arr_set s.(pOut_buf) s.(pOut_buf_cur) b with
  | Ret l => Ret (Next tt (set_out l (s.(pOut_buf_cur) + 1) s))
  | Crash c => Crash c
  end.

Record tinfl_huff_table := mk_table {
  m_look_up : list Z;
  m_tree : list Z
}.

(** ** The tables of a set of codes *)

Definition count_sizes (code_size : list Z) : outcome (list Z) :=
  fold_outcome (fun total_syms l => n ← arr total_syms l; arr_set total_syms l (n + 1))
    (replicate 16 0) code_size.

(** [used_syms], [total] and [next_code]. *)
Definition next_codes (total_syms : list Z) : outcome (Z * Z * list Z) :=
  fold_outcome (fun '(used_syms, total, next_code) i =>
      n ← arr total_syms i;
      let total := u32 (Z.shiftl (total + n) 1) in
      next_code ← arr_set next_code (i + 1) total;
      Ret (used_syms + n, total, next_code))
    (0, 0, replicate 17 0) (seqZ 1 15).

(** [l] turns of [rev_code = (rev_code << 1) | (cur_code & 1)]. *)
Fixpoint reverse_code (l : nat) (rev_code cur_code : Z) : Z :=
  match l with
  | O => rev_code
  | S l => reverse_code l (Z.shiftl rev_code 1 ||| (cur_code &&& 1)) (Z.shiftr cur_code 1)
  end.

(** The entries of [m_look_up] that start with a short code. *)
Fixpoint fill_look_up (turns : nat) (look_up : list Z) (rev_code code_size k : Z)
    : outcome (list Z) :=
  if rev_code <? TINFL_FAST_LOOKUP_SIZE then
    match turns with
    | O => Crash OutOfFuel
    | S turns =>
        look_up ← arr_set look_up rev_code k;
        fill_look_up turns look_up (rev_code + Z.shiftl 1 code_size) code_size k
    end
  else Ret look_up.

(** The nodes of [m_tree] on the way to a long code, [j] of them to go: [tree_next],
    [m_tree], [tree_cur] and [rev_code] after. *)
Fixpoint grow_tree (j : nat) (tree_next : Z) (tree : list Z) (tree_cur rev_code : Z)
    : outcome (Z * list Z * Z * Z) :=
  match j with
  | O => Ret (tree_next, tree, tree_cur, rev_code)
  | S j =>
      let rev_code := Z.shiftr rev_code 1 in
      let tree_cur := tree_cur - (rev_code &&& 1) in
      e ← arr tree (- tree_cur - 1);
      if e =? 0 then
        tree ← arr_set tree (- tree_cur - 1) (s16 tree_next);
        grow_tree j (tree_next - 2) tree tree_next rev_code
      else grow_tree j tree_next tree e rev_code
  end.

Definition place_long (tree_next : Z) (t : tinfl_huff_table) (code_size sym_index rev_code : Z)
    : outcome (Z * tinfl_huff_table) :=
  let i := rev_code &&& (TINFL_FAST_LOOKUP_SIZE - 1) in
  tree_cur ← arr t.(m_look_up) i;
  '(look_up, tree_cur, tree_next) ←
    (if tree_cur =? 0 then
       look_up ← arr_set t.(m_look_up) i (s16 tree_next);
       Ret (look_up, tree_next, tree_next - 2)
     else Ret (t.(m_look_up), tree_cur, tree_next));
  let rev_code := Z.shiftr rev_code (TINFL_FAST_LOOKUP_BITS - 1) in
  '(tree_next, tree, tree_cur, rev_code) ←
    grow_tree (Z.to_nat (code_size - (TINFL_FAST_LOOKUP_BITS + 1))) tree_next t.(m_tree)
      tree_cur rev_code;
  let rev_code := Z.shiftr rev_code 1 in
  let tree_cur := tree_cur - (rev_code &&& 1) in
  tree ← arr_set tree (- tree_cur - 1) (s16 sym_index);
  Ret (tree_next, mk_table look_up tree).

(** The symbols from [sym_index] on, with the sizes of their codes. *)
Fixpoint place_symbols (sizes : list Z) (sym_index : Z) (next_code : list Z) (tree_next : Z)
    (t : tinfl_huff_table) : outcome tinfl_huff_table :=
  match sizes with
  | [] => Ret t
  | code_size :: sizes =>
      if code_size =? 0 then place_symbols sizes (sym_index + 1) next_code tree_next t
      else
        cur_code ← arr next_code code_size;
        next_code ← arr_set next_code code_size (cur_code + 1);
        let rev_code := reverse_code (Z.to_nat code_size) 0 cur_code in
        if code_size <=? TINFL_FAST_LOOKUP_BITS then
          let k := s16 (Z.shiftl code_size 9 ||| sym_index) in
          look_up ← fill_look_up (Z.to_nat TINFL_FAST_LOOKUP_SIZE) t.(m_look_up) rev_code code_size k;
          place_symbols sizes (sym_index + 1) next_code tree_next (mk_table look_up t.(m_tree))
        else
          '(tree_next, t) ← place_long tree_next t code_size sym_index rev_code;
          place_symbols sizes (sym_index + 1) next_code tree_next t
  end.

(** [None] when the sizes are those of no code. *)
Definition build_table (code_size : list Z) : outcome (option tinfl_huff_table) :=
  total_syms ← count_sizes code_size;
  '(used_syms, total, next_code) ← next_codes total_syms;
  if negb (65536 =? total) && (1 <? used_syms) then Ret None
  else
    t ← place_symbols code_size 0 next_code (-1)
          (mk_table (replicate (Z.to_nat TINFL_FAST_LOOKUP_SIZE) 0)
             (replicate (Z.to_nat (TINFL_MAX_HUFF_SYMBOLS_0 * 2)) 0));
    Ret (Some t).

Definition init_table (code_size : list Z) : T tinfl_huff_table :=
  t ← t_lift (build_table code_size);
  match t with
  | Some t => mret t
  | None => TINFL_CR_RETURN 35 TINFL_STATUS_FAILED
  end.

(** The walk through [m_tree] from the entry [temp] of [m_look_up]: the symbol and the size of
    its code.  A code has 15 bits at most. *)
Fixpoint walk_tree (turns : nat) (t : tinfl_huff_table) (bits temp code_len : Z)
    : outcome (Z * Z) :=
  match turns with
  | O => Crash OutOfFuel
  | S turns =>
      temp ← arr t.(m_tree) (Z.lnot temp + (Z.shiftr bits code_len &&& 1));
      if temp <? 0 then walk_tree turns t bits temp (code_len + 1)
      else Ret (temp, code_len + 1)
  end.

(** The walk of TINFL_HUFF_BITBUF_FILL, which stops where the bits do. *)
Fixpoint walk_bits (turns : nat) (t : tinfl_huff_table) (bits n temp code_len : Z) : outcome Z :=
  match turns with
  | O => Crash OutOfFuel
  | S turns =>
      temp ← arr t.(m_tree) (Z.lnot temp + (Z.shiftr bits code_len &&& 1));
      if (temp <? 0) && (code_len + 2 <=? n) then walk_bits turns t bits n temp (code_len + 1)
      else Ret temp
  end.

Definition s_length_base : list Z :=
  [3;4;5;6;7;8;9;10;11;13; 15;17;19;23;27;31;35;43;51;59; 67;83;99;115;131;163;195;227;258;0;0].
Definition s_length_extra : list Z :=
  [0;0;0;0;0;0;0;0;1;1;1;1;2;2;2;2;3;3;3;3;4;4;4;4;5;5;5;5;0;0;0].
Definition s_dist_base : list Z :=
  [1;2;3;4;5;7;9;13;17;25;33;49;65;97;129;193; 257;385;513;769;1025;1537;2049;3073;4097;6145;
   8193;12289;16385;24577;0;0].
Definition s_dist_extra : list Z :=
  [0;0;0;0;1;1;2;2;3;3;4;4;5;5;6;6;7;7;8;8;9;9;10;10;11;11;12;12;13;13;0;0].
Definition s_length_dezigzag : list Z := [16;17;18;0;8;7;9;6;10;5;11;4;12;3;13;2;14;1;15].

Section tinfl.
Context (TINFL_USE_64BIT_BITBUF MINIZ_USE_UNALIGNED_LOADS_AND_STORES : bool).
Context (decomp_flags out_buf_size_mask : Z).

Definition TINFL_BITBUF_SIZE : Z := if TINFL_USE_64BIT_BITBUF then 64 else 32.
Definition flag (f : Z) : bool := negb (decomp_flags &&& f =? 0).

(** ** Bits *)

Definition TINFL_GET_BYTE (state_index : Z) : T Z := fun s =>
  match s.(pIn_buf) with
  | c :: rest => Ret (Next (byte_val c) (set_in rest s))
  | [] =>
      if flag TINFL_FLAG_HAS_MORE_INPUT
      then Ret (Return state_index TINFL_STATUS_NEEDS_MORE_INPUT s)
      else Ret (Next 0 s)
  end.

(** [bit_buf |= c << num_bits; num_bits += n]. *)
Definition push_bits (c n : Z) : T unit := fun s =>
  if s.(num_bits) <? TINFL_BITBUF_SIZE then
    Ret (Next tt (set_bits (u32 (s.(num_bits) + n))
      (s.(bit_buf) ||| wrap TINFL_BITBUF_SIZE (Z.shiftl c s.(num_bits))) s))
  else Crash BadShift.

(** [bit_buf >>= n; num_bits -= n]. *)
Definition drop_bits (n : Z) : T unit := fun s =>
  if n <? TINFL_BITBUF_SIZE then
    Ret (Next tt (set_bits (u32 (s.(num_bits) - n)) (Z.shiftr s.(bit_buf) n) s))
  else Crash BadShift.

(** A turn adds eight bits to none at least. *)
Fixpoint need_bits (turns : nat) (state_index n : Z) : T unit :=
  match turns with
  | O => t_lift (Crash OutOfFuel)
  | S turns =>
      c ← TINFL_GET_BYTE state_index;
      _ ← push_bits c 8;
      s ← get_io;
      if s.(num_bits) <? n then need_bits turns state_index n else mret tt
  end.
Definition TINFL_NEED_BITS (state_index n : Z) : T unit := need_bits (Z.to_nat n) state_index n.

Definition TINFL_SKIP_BITS (state_index n : Z) : T unit :=
  s ← get_io;
  _ ← (if s.(num_bits) <? n then TINFL_NEED_BITS state_index n else mret tt);
  drop_bits n.

Definition TINFL_GET_BITS (state_index n : Z) : T Z :=
  s ← get_io;
  _ ← (if s.(num_bits) <? n then TINFL_NEED_BITS state_index n else mret tt);
  s ← get_io;
  _ ← drop_bits n;
  mret (s.(bit_buf) &&& (Z.shiftl 1 n - 1)).

(** ** Codes *)

(** Whether the bits that are there hold a whole code. *)
Definition code_complete (t : tinfl_huff_table) (bits n : Z) : outcome bool :=
  temp ← arr t.(m_look_up) (bits &&& (TINFL_FAST_LOOKUP_SIZE - 1));
  if 0 <=? temp then
    let code_len := Z.shiftr temp 9 in
    Ret (negb (code_len =? 0) && (code_len <=? n))
  else if TINFL_FAST_LOOKUP_BITS <? n then
    temp ← walk_bits 16 t bits n temp TINFL_FAST_LOOKUP_BITS;
    Ret (0 <=? temp)
  else Ret false.

Fixpoint huff_bitbuf_fill (turns : nat) (state_index : Z) (t : tinfl_huff_table) : T unit :=
  match turns with
  | O => t_lift (Crash OutOfFuel)
  | S turns =>
      s ← get_io;
      whole ← t_lift (code_complete t s.(bit_buf) s.(num_bits));
      if (whole : bool) then mret tt
      else
        c ← TINFL_GET_BYTE state_index;
        _ ← push_bits c 8;
        s ← get_io;
        if s.(num_bits) <? 15 then huff_bitbuf_fill turns state_index t else mret tt
  end.
Definition TINFL_HUFF_BITBUF_FILL (state_index : Z) (t : tinfl_huff_table) : T unit :=
  huff_bitbuf_fill 15 state_index t.

(** [n] bytes of the input at once, as MZ_READ_LE16 and MZ_READ_LE32 read them. *)
Definition read_le (n : Z) : T unit := fun s =>
  match mem_read s.(pIn_buf) 0 n with
  | Ret bs => push_bits (le_decode bs) (8 * n) (set_in (drop (Z.to_nat n) s.(pIn_buf)) s)
  | Crash c => Crash c
  end.

Definition TINFL_HUFF_DECODE (state_index : Z) (t : tinfl_huff_table) : T Z :=
  s ← get_io;
  _ ← (if s.(num_bits) <? 15 then
         if len s.(pIn_buf) <? 2 then TINFL_HUFF_BITBUF_FILL state_index t
         else read_le 2
       else mret tt);
  s ← get_io;
  temp ← t_lift (arr t.(m_look_up) (s.(bit_buf) &&& (TINFL_FAST_LOOKUP_SIZE - 1)));
  '(sym, code_len) ← t_lift (
    if 0 <=? temp then Ret (temp &&& 511, Z.shiftr temp 9)
    else walk_tree 16 t s.(bit_buf) temp TINFL_FAST_LOOKUP_BITS);
  _ ← drop_bits code_len;
  mret sym.

(** The same in the fast loop: no byte is read, and the size stays in [sym2]. *)
Definition decode_fast (t : tinfl_huff_table) : T Z :=
  s ← get_io;
  sym2 ← t_lift (arr t.(m_look_up) (s.(bit_buf) &&& (TINFL_FAST_LOOKUP_SIZE - 1)));
  '(sym2, code_len) ← t_lift (
    if 0 <=? sym2 then Ret (sym2, Z.shiftr sym2 9)
    else walk_tree 16 t s.(bit_buf) sym2 TINFL_FAST_LOOKUP_BITS);
  _ ← drop_bits code_len;
  mret sym2.

(** ** The header *)
Definition zlib_header : T unit :=
  if flag TINFL_FLAG_PARSE_ZLIB_HEADER then
    m_zhdr0 ← TINFL_GET_BYTE 1;
    m_zhdr1 ← TINFL_GET_BYTE 2;
    let window := Z.shiftl 1 (8 + Z.shiftr m_zhdr0 4) in
    let counter :=
      negb ((m_zhdr0 * 256 + m_zhdr1) mod 31 =? 0) || negb (m_zhdr1 &&& 32 =? 0) ||
      negb (m_zhdr0 &&& 15 =? 8) ||
      (negb (flag TINFL_FLAG_USING_NON_WRAPPING_OUTPUT_BUF) &&
       ((32768 <? window) || (u64 (out_buf_size_mask + 1) <? window))) in
    if counter then TINFL_CR_RETURN 36 TINFL_STATUS_FAILED else mret tt
  else mret tt.

(** ** Stored blocks *)

Fixpoint raw_header (n : nat) : T (list Z) :=
  match n with
  | O => mret []
  | S n =>
      s ← get_io;
      b ← (if s.(num_bits) =? 0 then TINFL_GET_BYTE 7 else TINFL_GET_BITS 6 8);
      rest ← raw_header n;
      mret (b :: rest)
  end.

Definition room (state_index : Z) : T unit :=
  s ← get_io;
  if len s.(pOut_buf) <=? s.(pOut_buf_cur)
  then TINFL_CR_RETURN state_index TINFL_STATUS_HAS_MORE_OUTPUT else mret tt.

(** What of the block is in the bit buffer; [counter] afterwards. *)
Fixpoint stored_bits (turns : nat) (counter : Z) : T Z :=
  s ← get_io;
  if (counter =? 0) || (s.(num_bits) =? 0) then mret counter
  else match turns with
  | O => t_lift (Crash OutOfFuel)
  | S turns =>
      dist ← TINFL_GET_BITS 51 8;
      _ ← room 52;
      _ ← put (byte_of dist);
      stored_bits turns (counter - 1)
  end.

(** [memcpy(pOut_buf_cur, pIn_buf_cur, n)], and both go on. *)
Definition copy_in (n : Z) : T unit := fun s =>
  match mem_read s.(pIn_buf) 0 n with
  | Ret bs =>
      if s.(pOut_buf_cur) + n <=? len s.(pOut_buf) then
        Ret (Next tt (set_in (drop (Z.to_nat n) s.(pIn_buf))
          (set_out (take (Z.to_nat s.(pOut_buf_cur)) s.(pOut_buf) ++ bs ++
                    drop (Z.to_nat (s.(pOut_buf_cur) + n)) s.(pOut_buf))
             (s.(pOut_buf_cur) + n) s)))
      else Crash MemFault
  | Crash c => Crash c
  end.

Fixpoint stored_bytes (turns : nat) (counter : Z) : T unit :=
  if counter =? 0 then mret tt
  else match turns with
  | O => t_lift (Crash OutOfFuel)
  | S turns =>
      _ ← room 9;
      s ← get_io;
      if len s.(pIn_buf) =? 0 then
        if flag TINFL_FLAG_HAS_MORE_INPUT
        then TINFL_CR_RETURN 38 TINFL_STATUS_NEEDS_MORE_INPUT
        else TINFL_CR_RETURN 40 TINFL_STATUS_FAILED
      else
        let n := Z.min (Z.min (len s.(pOut_buf) - s.(pOut_buf_cur)) (len s.(pIn_buf))) counter in
        _ ← copy_in n;
        stored_bytes turns (counter - n)
  end.

Definition stored_block : T unit :=
  s ← get_io;
  _ ← TINFL_SKIP_BITS 5 (s.(num_bits) &&& 7);
  m_raw_header ← raw_header 4;
  h0 ← t_lift (arr m_raw_header 0); h1 ← t_lift (arr m_raw_header 1);
  h2 ← t_lift (arr m_raw_header 2); h3 ← t_lift (arr m_raw_header 3);
  let counter := h0 ||| Z.shiftl h1 8 in
  if negb (counter =? Z.lxor 65535 (h2 ||| Z.shiftl h3 8))
  then TINFL_CR_RETURN 39 TINFL_STATUS_FAILED
  else
    counter ← stored_bits (Z.to_nat counter) counter;
    stored_bytes (Z.to_nat counter) counter.

(** ** The codes of a block *)

Definition fixed_sizes_0 : list Z :=
  replicate 144 8 ++ replicate 112 9 ++ replicate 24 7 ++ replicate 8 8.
Definition fixed_sizes_1 : list Z := replicate 32 5.

(** The sizes of the codes of the code sizes, [counter] the next of them. *)
Fixpoint code_code_sizes (n : nat) (counter : Z) (sizes : list Z) : T (list Z) :=
  match n with
  | O => mret sizes
  | S n =>
      s ← TINFL_GET_BITS 14 3;
      i ← t_lift (arr s_length_dezigzag counter);
      sizes ← t_lift (arr_set sizes i s);
      code_code_sizes n (counter + 1) sizes
  end.

(** [m_len_codes] as far as it is written, up to [counter]. *)
Definition len_codes_room : Z := TINFL_MAX_HUFF_SYMBOLS_0 + 32 + 137.

Fixpoint read_sizes (turns : nat) (t : tinfl_huff_table) (n : Z) (codes : list Z) : T (list Z) :=
  if n <=? len codes then mret codes
  else match turns with
  | O => t_lift (Crash OutOfFuel)
  | S turns =>
      dist ← TINFL_HUFF_DECODE 16 t;
      if dist <? 16 then read_sizes turns t n (codes ++ [dist])
      else if (dist =? 16) && (len codes =? 0) then TINFL_CR_RETURN 17 TINFL_STATUS_FAILED
      else
        num_extra ← t_lift (arr [2; 3; 7] (dist - 16));
        s ← TINFL_GET_BITS 18 num_extra;
        base ← t_lift (arr [3; 3; 11] (dist - 16));
        let s := s + base in
        l ← t_lift (if dist =? 16 then arr codes (len codes - 1) else Ret 0);
        if len_codes_room <? len codes + s then t_lift (Crash MemFault)
        else read_sizes turns t n (codes ++ replicate (Z.to_nat s) l)
  end.

Definition dynamic_sizes : T (list Z * list Z) :=
  n0 ← TINFL_GET_BITS 11 5; let n0 := n0 + 257 in
  n1 ← TINFL_GET_BITS 11 5; let n1 := n1 + 1 in
  n2 ← TINFL_GET_BITS 11 4; let n2 := n2 + 4 in
  sizes ← code_code_sizes (Z.to_nat n2) 0 (replicate 19 0);
  t ← init_table sizes;
  codes ← read_sizes (Z.to_nat (n0 + n1)) t (n0 + n1) [];
  if negb (n0 + n1 =? len codes) then TINFL_CR_RETURN 21 TINFL_STATUS_FAILED
  else mret (take (Z.to_nat n0) codes, drop (Z.to_nat n0) codes).

(** The tables of literals and lengths, and of distances; the latter is made first. *)
Definition block_tables (m_type : Z) : T (tinfl_huff_table * tinfl_huff_table) :=
  '(sizes0, sizes1) ←
    (if m_type =? 1 then mret (fixed_sizes_0, fixed_sizes_1) else dynamic_sizes);
  t1 ← init_table sizes1;
  t0 ← init_table sizes0;
  mret (t0, t1).

(** ** Literals *)

(** [pOut_buf_cur[i] = (mz_uint8)c]. *)
Definition poke (i c : Z) : T unit := fun s =>
  match arr_set s.(pOut_buf) (s.(pOut_buf_cur) + i) (byte_of c) with
  | Ret l => Ret (Next tt (set_out l s.(pOut_buf_cur) s))
  | Crash c => Crash c
  end.
Definition advance (n : Z) : T unit := fun s =>
  Ret (Next tt (set_out s.(pOut_buf) (s.(pOut_buf_cur) + n) s)).

Definition refill_fast (always : bool) : T unit :=
  s ← get_io;
  if TINFL_USE_64BIT_BITBUF then
    if always && (s.(num_bits) <? 30) then read_le 4 else mret tt
  else
    if s.(num_bits) <? 15 then read_le 2 else mret tt.

(** One turn of the inner loop: [counter] when it breaks, one literal or two otherwise. *)
Definition literal_turn (t : tinfl_huff_table) : T (option Z) :=
  s ← get_io;
  if (len s.(pIn_buf) <? 4) || (len s.(pOut_buf) - s.(pOut_buf_cur) <? 2) then
    counter ← TINFL_HUFF_DECODE 23 t;
    if 256 <=? counter then mret (Some counter)
    else
      _ ← room 24;
      _ ← put (byte_of counter);
      mret None
  else
    _ ← refill_fast true;
    counter ← decode_fast t;
    if negb (counter &&& 256 =? 0) then mret (Some counter)
    else
      _ ← refill_fast false;
      sym2 ← decode_fast t;
      _ ← poke 0 counter;
      if negb (sym2 &&& 256 =? 0) then
        _ ← advance 1;
        mret (Some sym2)
      else
        _ ← poke 1 sym2;
        _ ← advance 2;
        mret None.

(** ** Matches *)

(** [pOut_buf_cur[i] = pSrc[i]]. *)
Definition copy_byte (pSrc i : Z) : T unit := fun s =>
  match arr s.(pOut_buf) (pSrc + i) with
  | Ret b => poke i (byte_val b) s
  | Crash c => Crash c
  end.

(** Byte by byte, when the room is short. *)
Fixpoint copy_slow (counter : nat) (dist dist_from_out_buf_start : Z) : T unit :=
  match counter with
  | O => mret tt
  | S counter =>
      _ ← room 53;
      s ← get_io;
      b ← t_lift (arr s.(pOut_buf) (u64 (dist_from_out_buf_start - dist) &&& out_buf_size_mask));
      _ ← put b;
      copy_slow counter dist (dist_from_out_buf_start + 1)
  end.

(** [((mz_uint32 * )pOut_buf_cur)[i] = ((const mz_uint32 * )pSrc)[i]]: the word is read whole
    before it is written. *)
Definition copy_word (pSrc i : Z) : T unit := fun s =>
  match mem_read s.(pOut_buf) (pSrc + 4 * i) 4 with
  | Ret bs =>
      let at_ := s.(pOut_buf_cur) + 4 * i in
      if at_ + 4 <=? len s.(pOut_buf) then
        Ret (Next tt (set_out (take (Z.to_nat at_) s.(pOut_buf) ++ bs ++
                               drop (Z.to_nat (at_ + 4)) s.(pOut_buf)) s.(pOut_buf_cur) s))
      else Crash MemFault
  | Crash c => Crash c
  end.

(** [pSrc] up to [pSrc_end]. *)
Fixpoint copy_words (turns : nat) (pSrc pSrc_end : Z) : T Z :=
  match turns with
  | O => t_lift (Crash OutOfFuel)
  | S turns =>
      _ ← copy_word pSrc 0;
      _ ← copy_word pSrc 1;
      _ ← advance 8;
      if pSrc + 8 <? pSrc_end then copy_words turns (pSrc + 8) pSrc_end else mret (pSrc + 8)
  end.

(** The last bytes, one or two. *)
Definition copy_tail (pSrc counter : Z) : T unit :=
  if 0 <? counter then
    _ ← copy_byte pSrc 0;
    _ ← (if 1 <? counter then copy_byte pSrc 1 else mret tt);
    advance counter
  else mret tt.

(** Three bytes a turn, and one turn at least. *)
Fixpoint copy_triples (turns : nat) (pSrc counter : Z) : T unit :=
  match turns with
  | O => t_lift (Crash OutOfFuel)
  | S turns =>
      _ ← copy_byte pSrc 0;
      _ ← copy_byte pSrc 1;
      _ ← copy_byte pSrc 2;
      _ ← advance 3;
      let counter := counter - 3 in
      if 2 <? counter then copy_triples turns (pSrc + 3) counter
      else copy_tail (pSrc + 3) counter
  end.

Definition copy_fast (pSrc counter dist : Z) : T unit :=
  if MINIZ_USE_UNALIGNED_LOADS_AND_STORES && (9 <=? counter) && (counter <=? dist) then
    pSrc ← copy_words (Z.to_nat counter) pSrc (pSrc + Z.land counter (Z.lnot 7));
    let counter := counter &&& 7 in
    if counter <? 3 then copy_tail pSrc counter
    else copy_triples (Z.to_nat counter) pSrc counter
  else copy_triples (S (Z.to_nat counter)) pSrc counter.

Definition copy_match (t : tinfl_huff_table) (counter : Z) : T unit :=
  num_extra ← t_lift (arr s_length_extra (counter - 257));
  counter ← t_lift (arr s_length_base (counter - 257));
  extra_bits ← (if num_extra =? 0 then mret 0 else TINFL_GET_BITS 25 num_extra);
  let counter := counter + extra_bits in
  dist ← TINFL_HUFF_DECODE 26 t;
  num_extra ← t_lift (arr s_dist_extra dist);
  dist ← t_lift (arr s_dist_base dist);
  extra_bits ← (if num_extra =? 0 then mret 0 else TINFL_GET_BITS 27 num_extra);
  let dist := dist + extra_bits in
  s ← get_io;
  let dist_from_out_buf_start := s.(pOut_buf_cur) in
  if (dist_from_out_buf_start <? dist) && flag TINFL_FLAG_USING_NON_WRAPPING_OUTPUT_BUF
  then TINFL_CR_RETURN 37 TINFL_STATUS_FAILED
  else
    let pSrc := u64 (dist_from_out_buf_start - dist) &&& out_buf_size_mask in
    if len s.(pOut_buf) <? Z.max s.(pOut_buf_cur) pSrc + counter
    then copy_slow (Z.to_nat counter) dist dist_from_out_buf_start
    else copy_fast pSrc counter dist.

(** The two nested loops: a turn of the inner one, and what the outer one does where it
    breaks. *)
Fixpoint inflate_codes (f : fuel) (t0 t1 : tinfl_huff_table) : T unit :=
  match f with
  | NoFuel => t_lift (Crash OutOfFuel)
  | More k =>
      lit ← literal_turn t0;
      match lit with
      | None => inflate_codes (k tt) t0 t1
      | Some counter =>
          let counter := counter &&& 511 in
          if counter =? 256 then mret tt
          else
            _ ← copy_match t1 counter;
            inflate_codes (k tt) t0 t1
      end
  end.

(** ** The whole *)
Definition inflate_block (m_type : Z) : T unit :=
  if m_type =? 0 then stored_block
  else if m_type =? 3 then TINFL_CR_RETURN 10 TINFL_STATUS_FAILED
  else
    '(t0, t1) ← block_tables m_type;
    inflate_codes full_tank t0 t1.

Fixpoint inflate_blocks (f : fuel) : T unit :=
  match f with
  | NoFuel => t_lift (Crash OutOfFuel)
  | More k =>
      m_final ← TINFL_GET_BITS 3 3;
      _ ← inflate_block (Z.shiftr m_final 1);
      if m_final &&& 1 =? 0 then inflate_blocks (k tt) else mret tt
  end.

Fixpoint read_adler32 (n : nat) (m_z_adler32 : Z) : T Z :=
  match n with
  | O => mret m_z_adler32
  | S n =>
      s ← get_io;
      b ← (if s.(num_bits) =? 0 then TINFL_GET_BYTE 42 else TINFL_GET_BITS 41 8);
      read_adler32 n (u32 (Z.shiftl m_z_adler32 8) ||| b)
  end.

Definition zlib_trailer : T Z :=
  if flag TINFL_FLAG_PARSE_ZLIB_HEADER then
    s ← get_io;
    _ ← TINFL_SKIP_BITS 32 (s.(num_bits) &&& 7);
    read_adler32 4 1
  else mret 1.

(** The body of the coroutine up to TINFL_CR_RETURN_FOREVER(34, TINFL_STATUS_DONE); it gives
    [m_z_adler32]. *)
Definition tinfl_body : T Z :=
  _ ← zlib_header;
  _ ← inflate_blocks full_tank;
  zlib_trailer.

End tinfl.

(** ** The checksum *)

Definition adler_byte (s : Z * Z) (b : byte) : Z * Z :=
  let s1 := u32 (s.1 + byte_val b) in (s1, u32 (s.2 + s1)).

(** The loop over blocks; its inner loops take eight bytes a turn, then one. *)
Fixpoint adler_blocks (turns : nat) (s1 s2 block_len : Z) (ptr : list byte) : outcome (Z * Z) :=
  match ptr with
  | [] => Ret (s1, s2)
  | _ =>
      match turns with
      | O => Crash OutOfFuel
      | S turns =>
          let '(s1, s2) := foldl adler_byte (s1, s2) (take (Z.to_nat block_len) ptr) in
          adler_blocks turns (s1 mod 65521) (s2 mod 65521) 5552 (drop (Z.to_nat block_len) ptr)
      end
  end.

Definition adler_update (check : Z) (ptr : list byte) : outcome Z :=
  '(s1, s2) ← adler_blocks (S (length ptr)) (check &&& 65535) (Z.shiftr check 16) (len ptr mod 5552) ptr;
  Ret (u32 (Z.shiftl s2 16 + s1)).

(** ** One call *)

(** What a call on a fresh decompressor gives: its status, [*pIn_buf_size], [*pOut_buf_size],
    [m_check_adler32] (1 where no sum is made) and the output buffer.  [next] is
    [pOut_buf_next - pOut_buf_start]. *)
Definition tinfl_decompress (bitbuf64 unaligned : bool) (input out : list byte) (next flags : Z)
    : outcome (tinfl_status * Z * Z * Z * list byte) :=
  let mask := if negb (flags &&& TINFL_FLAG_USING_NON_WRAPPING_OUTPUT_BUF =? 0) then 2 ^ 64 - 1
              else u64 (len out - 1) in
  if negb (u64 (mask + 1) &&& mask =? 0) || (next <? 0)
  then Ret (TINFL_STATUS_BAD_PARAM, 0, 0, 1, out)
  else
    r ← tinfl_body bitbuf64 unaligned flags mask (mk_io 0 0 input out next);
    let '(status, m_z_adler32, s) :=
      match r with
      | Next m_z_adler32 s => (TINFL_STATUS_DONE, m_z_adler32, s)
      | Return _ status s => (status, 1, s)
      end in
    let in_size := len input - len s.(pIn_buf) in
    let out_size := s.(pOut_buf_cur) - next in
    let failed := match status with
      | TINFL_STATUS_BAD_PARAM | TINFL_STATUS_ADLER32_MISMATCH | TINFL_STATUS_FAILED => true
      | _ => false end in
    if negb (flags &&& (TINFL_FLAG_PARSE_ZLIB_HEADER ||| TINFL_FLAG_COMPUTE_ADLER32) =? 0) &&
       negb failed
    then
      check ← adler_update 1 (slice s.(pOut_buf) next out_size);
      let status :=
        if bool_decide (status = TINFL_STATUS_DONE) &&
           negb (flags &&& TINFL_FLAG_PARSE_ZLIB_HEADER =? 0) && negb (check =? m_z_adler32)
        then TINFL_STATUS_ADLER32_MISMATCH else status in
      Ret (status, in_size, out_size, check, s.(pOut_buf))
    else Ret (status, in_size, out_size, 1, s.(pOut_buf)).

(** [None] is TINFL_DECOMPRESS_MEM_TO_MEM_FAILED; the buffer as the call leaves it. *)
Definition tinfl_decompress_mem_to_mem (bitbuf64 unaligned : bool) (out src : list byte) (flags : Z)
    : outcome (option Z * list byte) :=
  '(status, _, out_size, _, out) ←
    tinfl_decompress bitbuf64 unaligned src out 0
      (Z.land flags (Z.lnot TINFL_FLAG_HAS_MORE_INPUT) ||| TINFL_FLAG_USING_NON_WRAPPING_OUTPUT_BUF);
  Ret (if bool_decide (status = TINFL_STATUS_DONE) then Some out_size else None, out).

(** [out n] is what a buffer of [n] bytes holds before. *)
Definition win_decompressor_zlib (bitbuf64 unaligned : bool) (out : Z -> list byte)
    : sqfs_decompressor := fun input outsz =>
  '(bytes, buf) ← tinfl_decompress_mem_to_mem bitbuf64 unaligned (out outsz) input
    (TINFL_FLAG_PARSE_ZLIB_HEADER ||| TINFL_FLAG_USING_NON_WRAPPING_OUTPUT_BUF);
  Ret (match bytes with
       | Some n => Success (slice buf 0 n)
       | None => Failure SQFS_ERR
       end).
