(* ===== verification/Huffman.v ===== *)
(** * Huffman: the codes of RFC 1951, and the tables that tinfl.c builds for them

    First the reference's codes: the words of a set of sizes are no prefixes of each other,
    and the words that others start with are counted.  Then [build_table]: it takes exactly
    the sets of sizes that the reference takes, never leaves its arrays, and gives a table
    in which each symbol is found by its word ([table_for]). *)
From S2P Require Import Prelude Bits Inflate Tinfl.

(** ** Counting *)

Lemma count_cons k sizes l : count (k :: sizes) l = (if decide (k = l) then 1 else 0) + count sizes l.
Proof. unfold count. rewrite filter_cons. case_decide; cbn [length]; lia. Qed.

Lemma count_nonneg sizes l : 0 <= count sizes l.
Proof. unfold count. lia. Qed.

Lemma count_app s s' l : count (s ++ s') l = count s l + count s' l.
Proof. unfold count. rewrite filter_app, length_app. lia. Qed.

Lemma count_take_S sizes sym l :
  sizes !! sym = Some l -> count (take (S sym) sizes) l = count (take sym sizes) l + 1.
Proof.
  intros H. rewrite (take_S_r _ _ l H), count_app, count_cons, decide_True by done.
  unfold count at 2. cbn. lia.
Qed.

Lemma count_take_le sizes i j l : (i <= j)%nat -> count (take i sizes) l <= count (take j sizes) l.
Proof.
  intros Hij. replace (take i sizes) with (take i (take j sizes)) by (rewrite take_take; f_equal; lia).
  rewrite <- (take_drop i (take j sizes)) at 2. rewrite count_app. pose proof (count_nonneg (drop i (take j sizes)) l). lia.
Qed.

Lemma count_take_lt sizes sym l :
  sizes !! sym = Some l -> count (take sym sizes) l + 1 <= count sizes l.
Proof.
  intros H. rewrite <- (count_take_S _ _ _ H). apply lookup_lt_Some in H.
  rewrite <- (take_ge sizes (length sizes)) at 2 by lia. apply count_take_le. lia.
Qed.

(** The share of the words of at most [l] bits, in words of 15 bits. *)
Definition kraft_upto (sizes : list Z) (l : Z) : Z :=
  foldr (fun k s => (if decide (1 <= k <= l) then 2 ^ (15 - k) else 0) + s) 0 sizes.

Lemma kraft_upto_step sizes l :
  0 <= l -> kraft_upto sizes (l + 1) = kraft_upto sizes l + count sizes (l + 1) * 2 ^ (15 - (l + 1)).
Proof.
  intros Hl. induction sizes as [|k sizes IH]; [done|]. unfold kraft_upto in *. cbn [foldr].
  rewrite IH, count_cons. repeat case_decide; subst; lia.
Qed.

Lemma kraft_upto_mono sizes l m : l <= m -> kraft_upto sizes l <= kraft_upto sizes m.
Proof.
  intros Hl. induction sizes as [|k sizes IH]; [done|]. unfold kraft_upto in *. cbn [foldr].
  assert (0 <= 2 ^ (15 - k)) by (apply Z.pow_nonneg; lia). repeat case_decide; lia.
Qed.

Abbreviation sizes_ok sizes := (Forall (fun l => 0 <= l <= 15) sizes).

Lemma kraft_upto_all sizes : sizes_ok sizes -> kraft_upto sizes 15 = kraft sizes.
Proof.
  induction 1 as [|k sizes Hk _ IH]; [done|]. unfold kraft_upto, kraft in *. cbn [foldr].
  rewrite IH. repeat case_decide; subst; lia.
Qed.

Lemma first_code_kraft sizes l : (l <= 15)%nat ->
  first_code sizes (S l) * 2 ^ (15 - Z.of_nat l) = 2 * kraft_upto sizes (Z.of_nat l).
Proof.
  induction l as [|l IH]; intros Hl.
  - cbn [first_code]. change (Z.of_nat 0) with 0. enough (kraft_upto sizes 0 = 0) by lia.
    clear. induction sizes as [|k sizes IH]; [done|]. unfold kraft_upto in *. cbn [foldr].
    rewrite decide_False; lia.
  - change (first_code sizes (S (S l))) with (2 * (first_code sizes (S l) + count sizes (Z.of_nat (S l)))).
    rewrite Nat2Z.inj_succ, <- Z.add_1_r, kraft_upto_step by lia.
    specialize (IH ltac:(lia)).
    replace (15 - Z.of_nat l) with (1 + (15 - (Z.of_nat l + 1))) in IH by lia.
    rewrite Z.pow_add_r in IH by lia. lia.
Qed.

Lemma first_code_end sizes l : (1 <= l)%nat ->
  first_code sizes (S l) = 2 * (first_code sizes l + count sizes (Z.of_nat l)).
Proof. destruct l; [lia|]. done. Qed.

(** With words of [l] bits there is room for all of them. *)
Definition code_end (sizes : list Z) (l : nat) : Z := first_code sizes l + count sizes (Z.of_nat l).

Lemma code_end_room sizes l : sizes_ok sizes -> kraft sizes <= 2 ^ 15 -> (1 <= l <= 15)%nat ->
  code_end sizes l <= 2 ^ Z.of_nat l.
Proof.
  intros Hs Hk Hl. pose proof (first_code_kraft sizes l ltac:(lia)) as H.
  rewrite first_code_end in H by lia. unfold code_end.
  pose proof (kraft_upto_mono sizes (Z.of_nat l) 15 ltac:(lia)) as Hm.
  rewrite kraft_upto_all in Hm by done.
  assert (2 ^ 15 = 2 ^ Z.of_nat l * 2 ^ (15 - Z.of_nat l)) as E
    by (rewrite <- Z.pow_add_r by lia; f_equal; lia).
  pose proof (pow2_pos (15 - Z.of_nat l) ltac:(lia)). nia.
Qed.

(** The longer words come after. *)
Lemma first_code_after sizes l d : (1 <= l)%nat -> (1 <= d)%nat ->
  code_end sizes l * 2 ^ Z.of_nat d <= first_code sizes (l + d).
Proof.
  intros Hl Hd. induction d as [|d IH]; [lia|]. rewrite Nat.add_succ_r, first_code_end, pow2_succ by lia.
  pose proof (count_nonneg sizes (Z.of_nat (l + d))). destruct d as [|d].
  - rewrite Nat.add_0_r. unfold code_end. change (2 ^ Z.of_nat 0) with 1. lia.
  - specialize (IH ltac:(lia)). lia.
Qed.

Lemma first_code_nonneg sizes l : 0 <= first_code sizes l.
Proof.
  induction l as [|l IH]; [done|]. cbn [first_code].
  destruct l; [lia|]. pose proof (count_nonneg sizes (Z.of_nat (S l))). lia.
Qed.

(** ** Words *)

Lemma valid_kraft sizes : valid_sizes sizes -> kraft sizes <= 2 ^ 15.
Proof.
  intros [Hs [->|Hu]]; [done|].
  enough (kraft sizes <= 2 ^ 15 * len (filter (fun l => l <> 0) sizes)) by lia.
  clear Hu. induction Hs as [|k sizes Hk _ IH]; [done|]. unfold kraft in *. cbn [foldr].
  rewrite filter_cons. pose proof (Z.pow_le_mono_r 2 (15 - k) 15 ltac:(lia) ltac:(lia)).
  repeat case_decide; try done; cbn [length] in *; lia.
Qed.

Section words.
Context (sizes : list Z) (Hv : valid_sizes sizes).

Lemma used_size sym : used sizes sym -> exists l, sizes !! sym = Some (Z.of_nat l) /\ (1 <= l <= 15)%nat.
Proof.
  unfold used. destruct (sizes !! sym) as [l|] eqn:E; [|done]. intros Hl.
  pose proof (Forall_lookup_1 _ _ _ _ (proj1 Hv) E) as Hr. cbn in Hr.
  exists (Z.to_nat l). rewrite Z2Nat.id by lia. split; [done|lia].
Qed.

(** A word as a number. *)
Lemma code_of_num sym l : sizes !! sym = Some (Z.of_nat l) -> (1 <= l <= 15)%nat ->
  exists c, code_of sizes sym = msb_bits l c /\ c = first_code sizes l + count (take sym sizes) (Z.of_nat l) /\
            first_code sizes l <= c < code_end sizes l /\ 0 <= c < 2 ^ Z.of_nat l.
Proof.
  intros E Hl. eexists. split; [|split; [reflexivity|]].
  - unfold code_of, code_num. by rewrite E, Nat2Z.id.
  - pose proof (count_take_lt _ _ _ E). pose proof (count_nonneg (take sym sizes) (Z.of_nat l)).
    pose proof (code_end_room sizes l (proj1 Hv) (valid_kraft _ Hv) Hl).
    pose proof (first_code_nonneg sizes l). unfold code_end in *. lia.
Qed.

Lemma code_of_length sym l : sizes !! sym = Some l -> 0 <= l -> length (code_of sizes sym) = Z.to_nat l.
Proof. intros E ?. unfold code_of. by rewrite E, msb_bits_length. Qed.

(** A word cut to [d] bits lies at or after the words of [d] bits. *)
Lemma code_cut sym l d : sizes !! sym = Some (Z.of_nat l) -> (l <= 15)%nat -> (1 <= d < l)%nat ->
  exists v, take d (code_of sizes sym) = msb_bits d v /\ code_end sizes d <= v < 2 ^ Z.of_nat d.
Proof.
  intros E Hl Hd. destruct (code_of_num sym l E ltac:(lia)) as (c & -> & _ & Hc & Hc2).
  exists (Z.shiftr c (Z.of_nat (l - d))). split.
  - replace l with (d + (l - d))%nat at 1 by lia. rewrite msb_bits_take.
    apply take_app_length'. by rewrite msb_bits_length.
  - pose proof (first_code_after sizes d (l - d) ltac:(lia) ltac:(lia)) as Ha.
    replace (d + (l - d))%nat with l in Ha by lia.
    rewrite Z.shiftr_div_pow2 by lia. pose proof (pow2_pos (Z.of_nat (l - d)) ltac:(lia)).
    assert (2 ^ Z.of_nat l = 2 ^ Z.of_nat d * 2 ^ Z.of_nat (l - d)) as E2
      by (rewrite <- Z.pow_add_r by lia; f_equal; lia).
    split; [apply Z.div_le_lower_bound; lia|apply Z.div_lt_upper_bound; lia].
Qed.

Lemma code_prefix_free sym sym' :
  used sizes sym -> used sizes sym' -> code_of sizes sym `prefix_of` code_of sizes sym' -> sym = sym'.
Proof.
  intros (l & E & Hl)%used_size (l' & E' & Hl')%used_size Hp.
  pose proof (prefix_length _ _ Hp) as Hle.
  rewrite (code_of_length _ _ E), (code_of_length _ _ E') in Hle by lia. rewrite !Nat2Z.id in Hle.
  destruct Hp as [k Hk].
  destruct (code_of_num _ _ E Hl) as (c & Ec & Hc & Hc1 & Hc2).
  destruct (decide (l = l')) as [<-|Hne].
  - destruct (code_of_num _ _ E' Hl) as (c' & Ec' & Hc' & _ & Hc2').
    rewrite Ec, Ec' in Hk.
    assert (k = []) as -> by (apply length_zero_iff_nil; apply (f_equal length) in Hk; rewrite length_app, !msb_bits_length in Hk; lia).
    rewrite app_nil_r in Hk. apply msb_bits_inj in Hk; [|done..].
    destruct (Nat.lt_trichotomy sym sym') as [H|[H|H]]; [exfalso|done|exfalso].
    + pose proof (count_take_S _ _ _ E). pose proof (count_take_le sizes (S sym) sym' (Z.of_nat l) H). lia.
    + pose proof (count_take_S _ _ _ E'). pose proof (count_take_le sizes (S sym') sym (Z.of_nat l) H). lia.
  - destruct (code_cut _ _ l E' ltac:(lia) ltac:(lia)) as (v & Hv1 & Hv2). exfalso.
    rewrite Hk, take_app_length' in Hv1 by (by rewrite Ec, msb_bits_length).
    rewrite Ec in Hv1. apply msb_bits_inj in Hv1; [lia|lia|].
    pose proof (first_code_nonneg sizes l). unfold code_end in *.
    pose proof (count_nonneg sizes (Z.of_nat l)). lia.
Qed.

(** Two words that a list starts with are one. *)
Lemma code_unique sym sym' bits :
  used sizes sym -> used sizes sym' ->
  code_of sizes sym `prefix_of` bits -> code_of sizes sym' `prefix_of` bits -> sym = sym'.
Proof.
  intros Hu Hu' Hp Hp'. destruct (prefix_weak_total _ _ _ Hp Hp').
  - by apply code_prefix_free.
  - symmetry. by apply code_prefix_free.
Qed.

Lemma decode_sym_inv bits z rest :
  decode_sym sizes bits = Some (z, rest) ->
  exists sym, z = Z.of_nat sym /\ used sizes sym /\ bits = code_of sizes sym ++ rest.
Proof.
  unfold decode_sym. destruct (list_find _ _) as [[i sym]|] eqn:E; [|done]. intros [= <- <-].
  apply list_find_Some in E as (_ & [Hu [k ->]] & _). exists sym.
  split_and!; [done..|]. by rewrite drop_app_length.
Qed.
End words.

(** ** Arrays *)
Lemma arr_ok {A} (l : list A) i x : zlookup l i = Some x -> arr l i = Ret x.
Proof. unfold arr. by intros ->. Qed.

Lemma arr_set_ok {A} (l : list A) i x : 0 <= i < len l -> arr_set l i x = Ret (zinsert i x l).
Proof. intros. unfold arr_set. zbool; done || lia. Qed.

Lemma zlookup_zinsert_ne {A} (l : list A) i j x : i <> j -> zlookup (zinsert i x l) j = zlookup l j.
Proof.
  intros. unfold zinsert. destruct ((0 <=? i) && (i <? len l)) eqn:Ei; [|done].
  unfold zlookup. rewrite length_insert. destruct ((0 <=? j) && (j <? len l)) eqn:Ej; [|done].
  apply list_lookup_insert_ne. zbool; lia || done.
Qed.

Lemma zlookup_replicate {A} (n : nat) (x : A) i : 0 <= i < Z.of_nat n -> zlookup (replicate n x) i = Some x.
Proof. intros. rewrite zlookup_lookup by lia. apply lookup_replicate_2. lia. Qed.

Lemma fold_outcome_app {A B} (f : A -> B -> outcome A) a l l' :
  fold_outcome f a (l ++ l') = (a ← fold_outcome f a l; fold_outcome f a l').
Proof. revert a. induction l as [|b l IH]; intros a; [done|]. cbn [app fold_outcome]. by destruct (f a b); cbn; rewrite ?IH. Qed.

(** ** The sizes counted *)

Lemma count_sizes_ok sizes : sizes_ok sizes ->
  exists tot, count_sizes sizes = Ret tot /\ forall l, 0 <= l <= 15 -> zlookup tot l = Some (count sizes l).
Proof.
  intros Hs. unfold count_sizes.
  enough (forall acc, length acc = 16%nat ->
    exists tot, fold_outcome (fun total_syms l => n ← arr total_syms l; arr_set total_syms l (n + 1)) acc sizes = Ret tot /\
      forall l v, 0 <= l <= 15 -> zlookup acc l = Some v -> zlookup tot l = Some (v + count sizes l)) as H.
  { destruct (H (replicate 16 0) eq_refl) as (tot & -> & Ht). exists tot. split; [done|].
    intros l Hl. apply (Ht l 0 Hl). apply zlookup_replicate; lia. }
  induction Hs as [|k sizes Hk _ IH]; intros acc Hacc; cbn [fold_outcome].
  - exists acc. split; [done|]. intros. by rewrite Z.add_0_r.
  - destruct (proj2 (zlookup_is_Some acc k)) as [n Hn]; [lia|].
    rewrite (arr_ok _ _ _ Hn). cbn. rewrite arr_set_ok by lia. cbn.
    destruct (IH (zinsert k (n + 1) acc)) as (tot & -> & Ht); [by rewrite zinsert_length|].
    exists tot. split; [done|]. intros l v Hl Hv. rewrite count_cons.
    destruct (decide (k = l)) as [->|Hne].
    + rewrite Hv in Hn. injection Hn as ->.
      rewrite (Ht l (n + 1)); [f_equal; lia|done|apply zlookup_zinsert_eq; lia].
    + rewrite (Ht l v); [done..|by rewrite zlookup_zinsert_ne].
Qed.

Definition used_upto (sizes : list Z) (l : Z) : Z :=
  foldr (fun k s => (if decide (1 <= k <= l) then 1 else 0) + s) 0 sizes.

Lemma used_upto_step sizes l : 0 <= l -> used_upto sizes (l + 1) = used_upto sizes l + count sizes (l + 1).
Proof.
  intros Hl. induction sizes as [|k sizes IH]; [done|]. unfold used_upto in *. cbn [foldr].
  rewrite IH, count_cons. repeat case_decide; subst; lia.
Qed.

Lemma used_upto_all sizes : sizes_ok sizes -> used_upto sizes 15 = len (filter (fun l => l <> 0) sizes).
Proof.
  induction 1 as [|k sizes Hk _ IH]; [done|]. unfold used_upto in *. cbn [foldr].
  rewrite IH, filter_cons. repeat case_decide; subst; cbn [length]; lia.
Qed.

Lemma used_upto_zero sizes : used_upto sizes 0 = 0.
Proof. induction sizes as [|k sizes IH]; [done|]. unfold used_upto in *. cbn [foldr]. rewrite decide_False; lia. Qed.

Lemma first_code_bound sizes l : (l <= 15)%nat -> (length sizes <= 288)%nat ->
  0 <= first_code sizes (S l) < 2 ^ 32.
Proof.
  intros Hl Hn. split; [apply first_code_nonneg|].
  pose proof (first_code_kraft sizes l Hl) as H.
  assert (kraft_upto sizes (Z.of_nat l) <= 2 ^ 14 * len sizes) as Hk.
  { clear. induction sizes as [|k sizes IH]; [done|]. unfold kraft_upto in *. cbn [foldr length].
    pose proof (Z.pow_le_mono_r 2 (15 - k) 14) as Hp. case_decide; lia. }
  pose proof (pow2_pos (15 - Z.of_nat l) ltac:(lia)). nia.
Qed.

Lemma next_codes_ok sizes tot : sizes_ok sizes -> (length sizes <= 288)%nat ->
  (forall l, 0 <= l <= 15 -> zlookup tot l = Some (count sizes l)) ->
  exists nc, next_codes tot = Ret (len (filter (fun l => l <> 0) sizes), first_code sizes 16, nc) /\
             length nc = 17%nat /\
             forall l : nat, (1 <= l <= 16)%nat -> zlookup nc (Z.of_nat l) = Some (first_code sizes l).
Proof.
  intros Hs Hn Ht. unfold next_codes. rewrite <- (used_upto_all _ Hs).
  enough (forall n : nat, (n <= 15)%nat -> exists nc,
    fold_outcome (fun '(used_syms, total, next_code) i =>
      n ← arr tot i; let total := u32 (Z.shiftl (total + n) 1) in
      next_code ← arr_set next_code (i + 1) total; Ret (used_syms + n, total, next_code))
      (0, 0, replicate 17 0) (seqZ 1 (Z.of_nat n))
    = Ret (used_upto sizes (Z.of_nat n), first_code sizes (S n), nc) /\ length nc = 17%nat /\
      forall l : nat, (1 <= l <= S n)%nat -> zlookup nc (Z.of_nat l) = Some (first_code sizes l)) as H
    by exact (H 15%nat (le_n _)).
  induction n as [|n IH]; intros Hle.
  - exists (replicate 17 0). split; [|split; [done|]].
    + change (Z.of_nat 0) with 0. by rewrite used_upto_zero.
    + intros l Hl. assert (l = 1%nat) as -> by lia. done.
  - destruct (IH ltac:(lia)) as (nc & E & Hlen & Hnc).
    exists (zinsert (Z.of_nat (S (S n))) (first_code sizes (S (S n))) nc).
    split; [|split; [by rewrite zinsert_length|]].
    + replace (Z.of_nat (S n)) with (Z.of_nat n + 1) by lia.
      rewrite seqZ_app, fold_outcome_app, E by lia. change (seqZ (1 + Z.of_nat n) 1) with [1 + Z.of_nat n].
      cbn [fold_outcome mbind outcome_bind]. rewrite (arr_ok _ _ _ (Ht (1 + Z.of_nat n) ltac:(lia))). cbn [mbind outcome_bind].
      rewrite used_upto_step by lia.
      replace (Z.of_nat n + 1) with (1 + Z.of_nat n) by lia.
      assert (u32 (Z.shiftl (first_code sizes (S n) + count sizes (1 + Z.of_nat n)) 1) = first_code sizes (S (S n))) as ->.
      { rewrite Z.shiftl_mul_pow2, (first_code_end sizes (S n)) by lia.
        replace (Z.of_nat (S n)) with (1 + Z.of_nat n) by lia.
        pose proof (first_code_bound sizes (S n) Hle Hn) as Hb. rewrite (first_code_end sizes (S n)) in Hb by lia.
        replace (Z.of_nat (S n)) with (1 + Z.of_nat n) in Hb by lia.
        rewrite wrap_small; lia. }
      cbn [mbind outcome_bind]. rewrite arr_set_ok by lia. cbn [mbind outcome_bind].
      do 3 f_equal. f_equal. lia.
    + intros l Hl. destruct (decide (l = S (S n))) as [->|Hne].
      * apply zlookup_zinsert_eq. lia.
      * rewrite zlookup_zinsert_ne by lia. apply Hnc. lia.
Qed.

(** ** The tables *)
Section tables.
Context (sizes : list Z) (Hv : valid_sizes sizes).
Abbreviation code := (code_of sizes).

(** What some word starts with, the word itself apart. *)
Definition internal (q : list bool) : Prop :=
  exists sym, used sizes sym /\ q `prefix_of` code sym /\ (length q < length (code sym))%nat.

Lemma code_length sym : used sizes sym -> (1 <= length (code sym) <= 15)%nat.
Proof.
  intros (l & E & Hl)%used_size; [|done]. rewrite (code_of_length _ _ _ E) by lia. by rewrite Nat2Z.id.
Qed.

Lemma internal_no_code q sym : internal q -> used sizes sym -> ~ code sym `prefix_of` q.
Proof.
  intros (sym' & Hu' & Hp & Hl) Hu Hq.
  assert (sym = sym') as -> by (eapply (code_prefix_free sizes Hv); [done..|by etrans]).
  apply prefix_length in Hq. lia.
Qed.

Lemma internal_prefix p q : internal q -> p `prefix_of` q -> internal p.
Proof.
  intros (sym & Hu & Hp & Hl) Hpq. exists sym. split_and!; [done|by etrans|].
  apply prefix_length in Hpq. lia.
Qed.

Lemma internal_take sym j : used sizes sym -> (j < length (code sym))%nat -> internal (take j (code sym)).
Proof. intros Hu Hj. exists sym. split_and!; [done|apply prefix_take|rewrite length_take; lia]. Qed.

Lemma prefix_take_eq {A} (q l : list A) : q `prefix_of` l -> q = take (length q) l.
Proof. intros [k ->]. by rewrite take_app_length. Qed.

(** At most as many words start others as there are words. *)
Lemma single_code s s' : len (filter (fun l => l <> 0) sizes) <= 1 ->
  used sizes s -> used sizes s' -> s = s'.
Proof.
  assert (forall i j, (i < j)%nat -> used sizes i -> used sizes j ->
    2 <= len (filter (fun l => l <> 0) sizes)) as H.
  { unfold used. intros i j Hij. destruct (sizes !! i) as [k|] eqn:Ei, (sizes !! j) as [l|] eqn:Ej; try done.
    intros Hk Hl. rewrite <- (take_drop_middle sizes i k Ei), filter_app, filter_cons, decide_True by done.
    assert (l ∈ filter (fun l => l <> 0) (drop (S i) sizes)) as Hf.
    { apply list_elem_of_filter. split; [done|]. apply list_elem_of_lookup_2 with (j - S i)%nat.
      rewrite lookup_drop, <- Ej. f_equal. lia. }
    rewrite length_app. cbn [length]. destruct (filter _ (drop _ _)); [by apply not_elem_of_nil in Hf|]. cbn. lia. }
  intros Hle Hs Hs'. destruct (Nat.lt_trichotomy s s') as [L|[L|L]]; [|done|];
    apply H in L; try done; lia.
Qed.

Context (Hn : (length sizes <= 288)%nat).

Definition internals (d : nat) : list (list bool) :=
  map (msb_bits d) (seqZ (code_end sizes d) (2 ^ Z.of_nat d - code_end sizes d)).

Lemma internals_length : kraft sizes = 2 ^ 15 -> (length (concat (map internals (seq 10 5))) <= 288)%nat.
Proof.
  intros Hk. pose proof (fun l => code_end_room sizes l (proj1 Hv) (valid_kraft _ Hv)) as Hroom.
  assert (code_end sizes 15 = 2 ^ 15) as H15.
  { pose proof (first_code_kraft sizes 15 (le_n _)) as H. rewrite first_code_end in H by lia.
    change (Z.of_nat 15) with 15 in H. rewrite kraft_upto_all, Hk in H by apply Hv. unfold code_end.
    change (Z.of_nat 15) with 15. change (2 ^ (15 - 15)) with 1 in H. lia. }
  assert (forall d, (1 <= d)%nat -> code_end sizes (S d) = 2 * code_end sizes d + count sizes (Z.of_nat (S d))) as Hs
    by (intros d Hd; unfold code_end; by rewrite (first_code_end _ d)).
  assert (count sizes 11 + count sizes 12 + count sizes 13 + count sizes 14 + count sizes 15 <= len sizes) as Hc.
  { clear. induction sizes as [|k l IH]; [done|]. rewrite !count_cons. cbn [length].
    repeat case_decide; subst; try done; lia. }
  pose proof (Hs 10%nat ltac:(lia)). pose proof (Hs 11%nat ltac:(lia)).
  pose proof (Hs 12%nat ltac:(lia)). pose proof (Hs 13%nat ltac:(lia)). pose proof (Hs 14%nat ltac:(lia)).
  pose proof (Hroom 10%nat ltac:(lia)). pose proof (Hroom 11%nat ltac:(lia)). pose proof (Hroom 12%nat ltac:(lia)).
  pose proof (Hroom 13%nat ltac:(lia)). pose proof (Hroom 14%nat ltac:(lia)).
  cbn [seq map concat]. unfold internals. rewrite !length_app, !length_map, !length_seqZ. cbn [length].
  change (Z.of_nat 10) with 10 in *. change (Z.of_nat 11) with 11 in *. change (Z.of_nat 12) with 12 in *.
  change (Z.of_nat 13) with 13 in *. change (Z.of_nat 14) with 14 in *. change (Z.of_nat 15) with 15 in *.
  lia.
Qed.

Lemma nodes_bound nodes : NoDup nodes -> (forall q, q ∈ nodes -> internal q /\ (10 <= length q)%nat) ->
  (length nodes <= 288)%nat.
Proof.
  intros Hd Hq. destruct (proj2 Hv) as [Hk|Hs].
  - etransitivity; [|apply (internals_length Hk)].
    apply submseteq_length, NoDup_submseteq; [done|]. intros q Hin. destruct (Hq q Hin) as [(sym & Hu & Hp & Hl) H10].
    apply list_elem_of_In, in_concat. pose proof (code_length sym Hu).
    exists (internals (length q)). split; [apply in_map, in_seq; lia|].
    destruct (used_size sizes Hv sym Hu) as (l & E & ?).
    rewrite (code_of_length _ _ _ E), Nat2Z.id in Hl by lia.
    destruct (code_cut sizes Hv sym l (length q) E ltac:(lia) ltac:(lia)) as (v & Hc & Hv').
    apply in_map_iff. exists v. split; [rewrite <- Hc; symmetry; by apply prefix_take_eq|].
    apply list_elem_of_In, elem_of_seqZ. lia.
  - destruct nodes as [|q0 nodes]; [cbn; lia|].
    destruct (Hq q0 ltac:(left)) as [(sym & Hu & _) _].
    transitivity (length (map (fun j => take j (code sym)) (seq 10 5))); [|cbn; lia].
    apply submseteq_length, NoDup_submseteq; [done|]. intros q Hin.
    destruct (Hq q Hin) as [(sym' & Hu' & Hp & Hl) H10].
    assert (sym' = sym) as -> by (by eapply single_code). pose proof (code_length sym Hu).
    apply list_elem_of_In, in_map_iff. exists (length q). split; [symmetry; by apply prefix_take_eq|].
    apply in_seq. lia.
Qed.
End tables.
