(* ===== verification/HuffTable.v ===== *)
(** * HuffTable: the tables that tinfl.c builds are those of the code

    A table has 1024 entries for the first ten bits, and pairs of entries, the nodes, for the
    bits after them.  [table_inv] gives each entry its meaning by the bits that lead to it,
    while the symbols are placed one by one; [build_table_ok] is what comes out. *)
From S2P Require Import Prelude Bits Inflate Tinfl Huffman.

(** How the entries refer to node [i]. *)
Definition ptr (i : nat) : Z := -1 - 2 * Z.of_nat i.

Section invariant.
Context (sizes : list Z) (Hv : valid_sizes sizes) (Hn : (length sizes <= 288)%nat).
Abbreviation code := (code_of sizes).

Definition placed (n sym : nat) : Prop := used sizes sym /\ (sym < n)%nat.

Definition look_entry (n : nat) (nodes : list (list bool)) (p : list bool) (v : Z) : Prop :=
  (exists sym, placed n sym /\ (length (code sym) <= 10)%nat /\ code sym `prefix_of` p /\
               v = len (code sym) * 512 + Z.of_nat sym) \/
  (exists i, nodes !! i = Some p /\ v = ptr i) \/
  (v = 0 /\ (p ∉ nodes) /\
   forall sym, placed n sym -> (length (code sym) <= 10)%nat -> ~ code sym `prefix_of` p).

Definition tree_entry (n : nat) (nodes : list (list bool)) (q : list bool) (v : Z) : Prop :=
  (exists sym, placed n sym /\ code sym = q /\ v = Z.of_nat sym) \/
  (exists i, nodes !! i = Some q /\ v = ptr i) \/
  (v = 0 /\ (q ∉ nodes) /\ forall sym, placed n sym -> code sym <> q).

(** With the first [n] symbols placed; [nodes] are the bits that lead to each node. *)
Record table_inv (n : nat) (nodes : list (list bool)) (t : tinfl_huff_table) : Prop := {
  ti_look_len : len t.(m_look_up) = 1024;
  ti_tree_len : len t.(m_tree) = 576;
  ti_nodup : NoDup nodes;
  ti_nodes : forall q, q ∈ nodes -> internal sizes q /\ (10 <= length q)%nat;
  ti_parent : forall q b, q ++ [b] ∈ nodes -> (10 <= length q)%nat -> q ∈ nodes;
  ti_closed : forall sym j, placed n sym -> (10 <= j < length (code sym))%nat -> take j (code sym) ∈ nodes;
  ti_look : forall p, length p = 10%nat ->
    exists v, zlookup t.(m_look_up) (bits_val p) = Some v /\ look_entry n nodes p v;
  ti_tree : forall i q b, nodes !! i = Some q ->
    exists v, zlookup t.(m_tree) (2 * Z.of_nat i + Z.b2z b) = Some v /\ tree_entry n nodes (q ++ [b]) v;
  ti_fresh : forall k, 2 * len nodes <= k < 576 -> zlookup t.(m_tree) k = Some 0
}.

Lemma table_inv_bound n nodes t : table_inv n nodes t -> (length nodes <= 288)%nat.
Proof. intros H. apply (nodes_bound sizes Hv Hn nodes); apply H. Qed.

(** ** A new node *)

Lemma look_entry_more n nodes r p v : p <> r -> look_entry n nodes p v -> look_entry n (nodes ++ [r]) p v.
Proof.
  intros Hne [H|[(i & H & ->)|(-> & Hni & H)]]; [by left|right; left|right; right].
  - exists i. split; [by apply lookup_app_l_Some|done].
  - split_and!; [done| |done]. by intros [?|?%list_elem_of_singleton]%elem_of_app.
Qed.

Lemma tree_entry_more n nodes r q v : q <> r -> tree_entry n nodes q v -> tree_entry n (nodes ++ [r]) q v.
Proof.
  intros Hne [H|[(i & H & ->)|(-> & Hni & H)]]; [by left|right; left|right; right].
  - exists i. split; [by apply lookup_app_l_Some|done].
  - split_and!; [done| |done]. by intros [?|?%list_elem_of_singleton]%elem_of_app.
Qed.

(** What a new node [r] needs, but for the entry that refers to it. *)
Lemma fresh_children n nodes t r b :
  table_inv n nodes t -> (length nodes < 288)%nat -> r ∉ nodes -> (10 <= length r)%nat ->
  zlookup t.(m_tree) (2 * len nodes + Z.b2z b) = Some 0 /\ tree_entry n (nodes ++ [r]) (r ++ [b]) 0.
Proof.
  intros Ht Hroom Hr H10. split.
  - apply (ti_fresh _ _ _ Ht). pose proof (b2z_range b). lia.
  - right; right. split_and!; [done| |].
    + intros [Hin|Heq%list_elem_of_singleton]%elem_of_app.
      * apply Hr. by apply (ti_parent _ _ _ Ht) with b.
      * apply (f_equal length) in Heq. rewrite length_app in Heq. cbn in Heq. lia.
    + intros sym Hp Hc. apply Hr. pose proof (ti_closed _ _ _ Ht sym (length r) Hp) as Hcl.
      rewrite Hc, length_app, take_app_length in Hcl. apply Hcl. cbn. lia.
Qed.

Lemma new_node_room n nodes t r : table_inv n nodes t -> r ∉ nodes -> internal sizes r -> (10 <= length r)%nat ->
  NoDup (nodes ++ [r]) /\ (length nodes < 288)%nat /\
  forall q, q ∈ nodes ++ [r] -> internal sizes q /\ (10 <= length q)%nat.
Proof.
  intros Ht Hr Hi H10.
  assert (NoDup (nodes ++ [r])) as Hd.
  { apply NoDup_app. split_and!; [apply Ht| |apply NoDup_singleton].
    intros q Hq ->%list_elem_of_singleton. done. }
  assert (forall q, q ∈ nodes ++ [r] -> internal sizes q /\ (10 <= length q)%nat) as Hq.
  { intros q [Hq| ->%list_elem_of_singleton]%elem_of_app; [by apply (ti_nodes _ _ _ Ht)|done]. }
  pose proof (nodes_bound sizes Hv Hn _ Hd Hq) as Hb. rewrite length_app in Hb. cbn in Hb.
  split_and!; [done|lia|done].
Qed.

Lemma lookup_snoc_inv {A} (l : list A) x i y : (l ++ [x]) !! i = Some y -> l !! i = Some y \/ (i = length l /\ y = x).
Proof.
  intros [H|[H1 H2]]%lookup_app_Some; [by left|right].
  apply list_lookup_singleton_Some in H2 as [? <-]. split; [lia|done].
Qed.

Lemma look_node n nodes t p :
  table_inv n nodes t -> length p = 10%nat -> internal sizes p -> p ∉ nodes ->
  table_inv n (nodes ++ [p]) (mk_table (zinsert (bits_val p) (ptr (length nodes)) t.(m_look_up)) t.(m_tree)).
Proof.
  intros Ht Hp Hi Hni. destruct (new_node_room n nodes t p Ht Hni Hi ltac:(lia)) as (Hd & Hroom & Hq).
  split; cbn [m_look_up m_tree]; [|apply Ht|done|done| | | | |].
  - rewrite zinsert_length. apply Ht.
  - intros q b [Hq'| E%list_elem_of_singleton]%elem_of_app Hq10; apply elem_of_app.
    + left. by apply (ti_parent _ _ _ Ht) with b.
    + rewrite <- E, length_app in Hp. cbn in Hp. lia.
  - intros sym j Hs Hj. apply elem_of_app. left. by apply (ti_closed _ _ _ Ht).
  - intros p' Hp'. destruct (decide (p' = p)) as [->|Hne].
    + exists (ptr (length nodes)). split.
      * apply zlookup_zinsert_eq. rewrite (ti_look_len _ _ _ Ht).
        pose proof (bits_val_range p) as H. rewrite Hp in H. exact H.
      * right; left. exists (length nodes). split; [by apply list_lookup_middle|done].
    + destruct (ti_look _ _ _ Ht p' Hp') as (v & Hl & He). exists v. split; [|by apply look_entry_more].
      rewrite zlookup_zinsert_ne; [done|]. intros E. apply Hne. symmetry. apply bits_val_inj; [congruence|done].
  - intros i q b [Hiq|[-> ->]]%lookup_snoc_inv.
    + destruct (ti_tree _ _ _ Ht i q b Hiq) as (v & Hl & He). exists v. split; [done|].
      apply tree_entry_more; [|done]. intros E. apply (f_equal length) in E. rewrite length_app in E. cbn in E.
      pose proof (proj2 (ti_nodes _ _ _ Ht q (list_elem_of_lookup_2 _ _ _ Hiq))). lia.
    + exists 0. apply (fresh_children n nodes t); auto. lia.
  - intros k Hk. rewrite length_app in Hk. cbn in Hk. apply (ti_fresh _ _ _ Ht). lia.
Qed.

(** The entry at bit [b] of node [i]: within the tree, and no other's. *)
Lemma tree_index n nodes t i q b : table_inv n nodes t -> nodes !! i = Some q ->
  0 <= 2 * Z.of_nat i + Z.b2z b < 2 * len nodes /\ 2 * len nodes <= 576.
Proof.
  intros Ht Hi. apply lookup_lt_Some in Hi. pose proof (table_inv_bound _ _ _ Ht).
  pose proof (b2z_range b). lia.
Qed.

Lemma tree_index_inj i j b c : 2 * Z.of_nat i + Z.b2z b = 2 * Z.of_nat j + Z.b2z c -> i = j /\ b = c.
Proof. intros H. pose proof (b2z_range b). pose proof (b2z_range c). split; [lia|]. destruct b, c; cbn in *; lia || done. Qed.

(** An entry of the tree is changed, and nothing else of its meaning. *)
Lemma tree_set n nodes t i q b v (P : nat -> list bool -> Z -> Prop) :
  table_inv n nodes t -> nodes !! i = Some q -> P i (q ++ [b]) v ->
  (forall j q' c w, nodes !! j = Some q' -> q' ++ [c] <> q ++ [b] ->
     zlookup t.(m_tree) (2 * Z.of_nat j + Z.b2z c) = Some w -> tree_entry n nodes (q' ++ [c]) w -> P j (q' ++ [c]) w) ->
  forall j q' c, nodes !! j = Some q' -> exists w,
    zlookup (zinsert (2 * Z.of_nat i + Z.b2z b) v t.(m_tree)) (2 * Z.of_nat j + Z.b2z c) = Some w /\ P j (q' ++ [c]) w.
Proof.
  intros Ht Hi Hnew Hold j q' c Hj. pose proof (tree_index n nodes t i q b Ht Hi).
  destruct (decide (q' ++ [c] = q ++ [b])) as [E|Hne].
  - apply app_inj_2 in E as [-> [= ->]]; [|done].
    assert (j = i) as -> by (eapply NoDup_lookup; [apply Ht|done..]).
    exists v. split; [|done]. apply zlookup_zinsert_eq. rewrite (ti_tree_len _ _ _ Ht). lia.
  - destruct (ti_tree _ _ _ Ht j q' c Hj) as (w & Hl & He). exists w. split; [|by apply (Hold j q' c w)].
    rewrite zlookup_zinsert_ne; [done|]. intros E. apply tree_index_inj in E as [<- <-].
    rewrite Hi in Hj. injection Hj as <-. done.
Qed.

Lemma tree_node n nodes t i q b :
  table_inv n nodes t -> nodes !! i = Some q -> internal sizes (q ++ [b]) -> (q ++ [b]) ∉ nodes ->
  table_inv n (nodes ++ [q ++ [b]])
    (mk_table t.(m_look_up) (zinsert (2 * Z.of_nat i + Z.b2z b) (ptr (length nodes)) t.(m_tree))).
Proof.
  intros Ht Hi Hint Hni. set (r := q ++ [b]) in *.
  assert (10 <= length q)%nat as Hq10 by (apply (ti_nodes _ _ _ Ht), (list_elem_of_lookup_2 _ _ _ Hi)).
  assert (10 < length r)%nat as Hr10 by (subst r; rewrite length_app; cbn; lia).
  destruct (new_node_room n nodes t r Ht Hni Hint ltac:(lia)) as (Hd & Hroom & Hq).
  pose proof (tree_index n nodes t i q b Ht Hi).
  split; cbn [m_look_up m_tree]; [apply Ht| |done|done| | | | |].
  - rewrite zinsert_length. apply Ht.
  - intros q' b' [Hq'| E%list_elem_of_singleton]%elem_of_app Hq10'; apply elem_of_app; left.
    + by apply (ti_parent _ _ _ Ht) with b'.
    + subst r. apply app_inj_2 in E as [-> _]; [|done]. by apply list_elem_of_lookup_2 in Hi.
  - intros sym j Hs Hj. apply elem_of_app. left. by apply (ti_closed _ _ _ Ht).
  - intros p Hp. destruct (ti_look _ _ _ Ht p Hp) as (v & Hl & He). exists v. split; [done|].
    apply look_entry_more; [|done]. intros ->. lia.
  - intros j q' c [Hj|[-> ->]]%lookup_snoc_inv.
    + apply (tree_set n nodes t i q b _ (fun _ => tree_entry n (nodes ++ [r]))); [done..| | |done].
      * right; left. exists (length nodes). split; [by apply list_lookup_middle|done].
      * intros j' q'' c' w Hj' Hne Hl He. by apply tree_entry_more.
    + exists 0. destruct (fresh_children n nodes t r c Ht Hroom Hni ltac:(lia)) as [Hf He].
      split; [|done]. rewrite zlookup_zinsert_ne; [done|]. pose proof (b2z_range c). lia.
  - intros k Hk. rewrite length_app in Hk. cbn in Hk.
    rewrite zlookup_zinsert_ne by lia. apply (ti_fresh _ _ _ Ht). lia.
Qed.

(** ** A symbol placed *)

Lemma placed_S n sym : placed (S n) sym <-> placed n sym \/ (used sizes n /\ sym = n).
Proof.
  unfold placed. split.
  - intros [Hu Hl]. destruct (decide (sym = n)) as [->|]; [by right|left; split; [done|lia]].
  - intros [[Hu Hl]|[Hu ->]]; (split; [done|lia]).
Qed.

Lemma place_none n nodes t : ~ used sizes n -> table_inv n nodes t -> table_inv (S n) nodes t.
Proof.
  intros Hu Ht. assert (forall sym, placed (S n) sym -> placed n sym) as Hs
    by (intros sym [H|[? _]]%placed_S; done).
  split; try apply Ht.
  - intros sym j H. apply (ti_closed _ _ _ Ht), Hs, H.
  - intros p Hp. destruct (ti_look _ _ _ Ht p Hp) as (v & Hl & [(sym & [H1 H2] & H)|[H|(H1 & H2 & H3)]]);
      exists v; (split; [done|]); [left; exists sym|by right; left|right; right].
    + split; [split; [done|lia]|done].
    + eauto.
  - intros i q b Hi. destruct (ti_tree _ _ _ Ht i q b Hi) as (v & Hl & [(sym & [H1 H2] & H)|[H|(H1 & H2 & H3)]]);
      exists v; (split; [done|]); [left; exists sym|by right; left|right; right].
    + split; [split; [done|lia]|done].
    + eauto.
Qed.

Lemma look_entry_place n nodes p v :
  look_entry n nodes p v ->
  (used sizes n -> (length (code n) <= 10)%nat -> ~ code n `prefix_of` p) -> look_entry (S n) nodes p v.
Proof.
  intros [(sym & Hp & H)|[H|(H1 & H2 & H3)]] Hno; [left|by right; left|right; right].
  - exists sym. split; [|done]. apply placed_S. by left.
  - split_and!; [done..|]. intros sym [Hp|[Hu ->]]%placed_S; [by apply H3|by apply Hno].
Qed.

Lemma tree_entry_place n nodes q v :
  tree_entry n nodes q v -> (used sizes n -> code n <> q) -> tree_entry (S n) nodes q v.
Proof.
  intros [(sym & Hp & H)|[H|(H1 & H2 & H3)]] Hno; [left|by right; left|right; right].
  - exists sym. split; [|done]. apply placed_S. by left.
  - split_and!; [done..|]. intros sym [Hp|[Hu ->]]%placed_S; [by apply H3|by apply Hno].
Qed.

Lemma place_short n nodes t look_up :
  table_inv n nodes t -> used sizes n -> (length (code n) <= 10)%nat -> len look_up = 1024 ->
  (forall p, length p = 10%nat -> zlookup look_up (bits_val p) =
     if decide (code n `prefix_of` p) then Some (len (code n) * 512 + Z.of_nat n)
     else zlookup t.(m_look_up) (bits_val p)) ->
  table_inv (S n) nodes (mk_table look_up t.(m_tree)).
Proof.
  intros Ht Hu Hl Hlen Hlk. split; cbn [m_look_up m_tree]; try apply Ht; [done| | |].
  - intros sym j [Hp|[_ ->]]%placed_S Hj; [by apply (ti_closed _ _ _ Ht)|lia].
  - intros p Hp. rewrite (Hlk p Hp). case_decide as Hpre.
    + eexists. split; [done|]. left. exists n. split_and!; [apply placed_S; by right|done..].
    + destruct (ti_look _ _ _ Ht p Hp) as (v & Hv' & He). exists v. split; [done|]. by apply look_entry_place.
  - intros i q b Hi. destruct (ti_tree _ _ _ Ht i q b Hi) as (v & Hv' & He). exists v. split; [done|].
    apply tree_entry_place; [done|]. intros _ Hc.
    pose proof (proj2 (ti_nodes _ _ _ Ht q (list_elem_of_lookup_2 _ _ _ Hi))).
    rewrite Hc, length_app in Hl. cbn in Hl. lia.
Qed.

Lemma place_leaf n nodes t i q b :
  table_inv n nodes t -> used sizes n -> nodes !! i = Some q -> code n = q ++ [b] ->
  (forall j, (10 <= j < length (code n))%nat -> take j (code n) ∈ nodes) ->
  table_inv (S n) nodes
    (mk_table t.(m_look_up) (zinsert (2 * Z.of_nat i + Z.b2z b) (Z.of_nat n) t.(m_tree))).
Proof.
  intros Ht Hu Hi Hc Hcl. pose proof (tree_index n nodes t i q b Ht Hi).
  assert (10 <= length q)%nat as Hq10 by (apply (ti_nodes _ _ _ Ht), (list_elem_of_lookup_2 _ _ _ Hi)).
  split; cbn [m_look_up m_tree]; try apply Ht; [by rewrite zinsert_length; apply Ht| | | |].
  - intros sym j [Hp|[_ ->]]%placed_S Hj; [by apply (ti_closed _ _ _ Ht)|by apply Hcl].
  - intros p Hp. destruct (ti_look _ _ _ Ht p Hp) as (v & Hl & He). exists v. split; [done|].
    apply look_entry_place; [done|]. intros _ H10. rewrite Hc, length_app in H10. cbn in H10. lia.
  - intros j q' c Hj. apply (tree_set n nodes t i q b _ (fun _ => tree_entry (S n) nodes)); [done..| | |done].
    + left. exists n. split_and!; [apply placed_S; by right|done..].
    + intros j' q'' c' w Hj' Hne Hl He. apply tree_entry_place; [done|]. congruence.
  - intros k Hk. rewrite zlookup_zinsert_ne by lia. apply (ti_fresh _ _ _ Ht). lia.
Qed.

(** An entry on the way to a word not yet placed is a node or nothing. *)
Lemma look_internal n nodes p v : look_entry n nodes p v -> internal sizes p ->
  (v = 0 /\ p ∉ nodes) \/ (exists i, nodes !! i = Some p /\ v = ptr i).
Proof.
  intros [(sym & [Hu _] & _ & Hp & _)|[H|(H1 & H2 & _)]] Hi; [|by right|by left].
  by apply (internal_no_code sizes Hv p sym) in Hi.
Qed.

Lemma tree_internal n nodes q v : tree_entry n nodes q v -> internal sizes q ->
  (v = 0 /\ q ∉ nodes) \/ (exists i, nodes !! i = Some q /\ v = ptr i).
Proof.
  intros [(sym & [Hu _] & Hc & _)|[H|(H1 & H2 & _)]] Hi; [|by right|by left].
  apply (internal_no_code sizes Hv q sym) in Hi; [|done]. by rewrite Hc in Hi.
Qed.

Lemma s16_ptr i : (i <= 288)%nat -> s16 (ptr i) = ptr i.
Proof. intros. unfold ptr. rewrite swrap_small; change (2 ^ (16 - 1)) with 32768; lia. Qed.

(** The next bit of [rev_code]. *)
Lemma rev_bit (c : list bool) d : (1 <= d)%nat ->
  Z.shiftr (bits_val (drop (d - 1) c)) 1 = bits_val (drop d c) /\
  (bits_val (drop d c) &&& 1) = Z.b2z (nth d c false).
Proof.
  intros Hd. split.
  - change 1 with (Z.of_nat 1). rewrite bits_val_shiftr, drop_drop. do 2 f_equal. lia.
  - pose proof (bits_val_bit c d) as H. by rewrite bits_val_shiftr in H.
Qed.

Lemma grow_tree_ok sym n j : used sizes sym -> forall d i tree_next nodes t,
  table_inv n nodes t -> (10 <= d)%nat -> (d + j = length (code sym) - 1)%nat ->
  nodes !! i = Some (take d (code sym)) -> tree_next = ptr (length nodes) ->
  exists nodes' tree i',
    grow_tree j tree_next t.(m_tree) (ptr i) (bits_val (drop (d - 1) (code sym)))
      = Ret (ptr (length nodes'), tree, ptr i', bits_val (drop (d + j - 1) (code sym))) /\
    table_inv n nodes' (mk_table t.(m_look_up) tree) /\ nodes `prefix_of` nodes' /\
    nodes' !! i' = Some (take (d + j) (code sym)) /\
    forall k, (d <= k <= d + j)%nat -> take k (code sym) ∈ nodes'.
Proof.
  intros Hu. pose proof (code_length sizes Hv sym Hu) as HL. set (c := code sym) in *.
  induction j as [|j IH]; intros d i tree_next nodes t Ht Hd Hj Hi ->.
  - exists nodes, t.(m_tree), i. cbn [grow_tree]. rewrite Nat.add_0_r. split_and!; [done|by destruct t|done|done|].
    intros k Hk. assert (k = d) as -> by lia. by apply list_elem_of_lookup_2 in Hi.
  - assert (d < length c)%nat as Hdc by lia.
    assert (take (S d) c = take d c ++ [nth d c false]) as Hsn by (by apply nth_take_drop).
    assert (internal sizes (take d c ++ [nth d c false])) as Hint
      by (rewrite <- Hsn; apply internal_take; [done..|fold c; lia]).
    destruct (rev_bit c d ltac:(lia)) as [Hrev Hbit].
    cbn [grow_tree]. rewrite Hrev, Hbit. set (b := nth d c false) in *.
    replace (- (ptr i - Z.b2z b) - 1) with (2 * Z.of_nat i + Z.b2z b) by (unfold ptr; lia).
    destruct (ti_tree _ _ _ Ht i _ b Hi) as (v & Hl & He). rewrite (arr_ok _ _ _ Hl). cbn [mbind outcome_bind].
    pose proof (table_inv_bound _ _ _ Ht) as Hb. pose proof (tree_index _ _ _ _ _ b Ht Hi) as Hix.
    destruct (tree_internal _ _ _ _ He Hint) as [[-> Hni]|(i2 & Hi2 & ->)].
    + cbn [Z.eqb]. rewrite s16_ptr by done.
      rewrite arr_set_ok by (rewrite (ti_tree_len _ _ _ Ht); lia). cbn [mbind outcome_bind].
      pose proof (tree_node _ _ _ _ _ _ Ht Hi Hint Hni) as Ht'.
      replace (ptr (length nodes) - 2) with (ptr (length (nodes ++ [take d c ++ [b]])))
        by (unfold ptr; rewrite length_app; cbn; lia).
      destruct (IH (S d) (length nodes) _ _ _ Ht' ltac:(lia) ltac:(lia)
        ltac:(rewrite Hsn; by apply list_lookup_middle) eq_refl) as (nodes' & tree & i' & E & H1 & H2 & H3 & H4).
      cbn [m_tree m_look_up] in *. replace (S d - 1)%nat with d in E by lia.
      exists nodes', tree, i'. rewrite E. replace (d + S j)%nat with (S d + j)%nat by lia. split_and!; [done|done| |done|].
      * etrans; [|exact H2]. by apply prefix_app_r.
      * intros k Hk. destruct (decide (k = d)) as [->|]; [|apply H4; lia].
        eapply elem_of_prefix; [|exact H2]. apply elem_of_app. left. by apply list_elem_of_lookup_2 in Hi.
    + destruct (Z.eqb_spec (ptr i2) 0) as [E0|_]; [unfold ptr in E0; lia|].
      destruct (IH (S d) i2 (ptr (length nodes)) nodes t Ht ltac:(lia) ltac:(lia)
        ltac:(by rewrite Hsn) eq_refl) as (nodes' & tree & i' & E & H1 & H2 & H3 & H4).
      replace (S d - 1)%nat with d in E by lia.
      exists nodes', tree, i'. rewrite E. replace (d + S j)%nat with (S d + j)%nat by lia. split_and!; [done..|].
      intros k Hk. destruct (decide (k = d)) as [->|]; [|apply H4; lia].
      eapply elem_of_prefix; [|exact H2]. by apply list_elem_of_lookup_2 in Hi.
Qed.

Lemma place_long_ok n nodes t : table_inv n nodes t -> used sizes n -> (10 < length (code n))%nat ->
  exists nodes' t', place_long (ptr (length nodes)) t (len (code n)) (Z.of_nat n) (bits_val (code n))
                    = Ret (ptr (length nodes'), t') /\ table_inv (S n) nodes' t'.
Proof.
  intros Ht Hu HL. pose proof (code_length sizes Hv n Hu) as HL2. set (c := code n) in *.
  unfold place_long, TINFL_FAST_LOOKUP_SIZE, TINFL_FAST_LOOKUP_BITS.
  change (1024 - 1) with (2 ^ Z.of_nat 10 - 1). rewrite bits_val_land.
  assert (length (take 10 c) = 10%nat) as H10 by (rewrite length_take; lia).
  assert (internal sizes (take 10 c)) as Hint by (apply internal_take; done).
  destruct (ti_look _ _ _ Ht _ H10) as (v & Hl & He). rewrite (arr_ok _ _ _ Hl). cbn [mbind outcome_bind].
  pose proof (table_inv_bound _ _ _ Ht) as Hb.
  assert (exists nodes1 t1 i, table_inv n nodes1 t1 /\ nodes1 !! i = Some (take 10 c) /\
    (if v =? 0 then look_up ← arr_set t.(m_look_up) (bits_val (take 10 c)) (s16 (ptr (length nodes)));
                    Ret (look_up, ptr (length nodes), ptr (length nodes) - 2)
     else Ret (t.(m_look_up), v, ptr (length nodes))) = Ret (t1.(m_look_up), ptr i, ptr (length nodes1)) /\
    t1.(m_tree) = t.(m_tree)) as (nodes1 & t1 & i & Ht1 & Hi & -> & Htree).
  { destruct (look_internal _ _ _ _ He Hint) as [[-> Hni]|(i & Hi & ->)].
    - eexists _, _, (length nodes). split; [by apply look_node|]. split; [by apply list_lookup_middle|].
      split; [|done]. cbn [Z.eqb m_look_up]. rewrite s16_ptr by done.
      rewrite arr_set_ok; [cbn; do 2 f_equal; unfold ptr; rewrite length_app; cbn; lia|].
      rewrite (ti_look_len _ _ _ Ht). pose proof (bits_val_range (take 10 c)) as H. by rewrite H10 in H.
    - exists nodes, t, i. split_and!; [done..| |done]. destruct (Z.eqb_spec (ptr i) 0) as [E|]; [unfold ptr in E; lia|done]. }
  cbn [mbind outcome_bind]. change (10 - 1) with (Z.of_nat 9). rewrite bits_val_shiftr, <- Htree.
  replace (Z.to_nat (len c - (10 + 1))) with (length c - 11)%nat by lia.
  destruct (grow_tree_ok n n (length c - 11) Hu 10 i _ nodes1 t1 Ht1 (le_n _) ltac:(fold c; lia) Hi eq_refl)
    as (nodes' & tree & i' & E & Ht' & _ & Hi' & Hcl).
  fold c in E. change (10 - 1)%nat with 9%nat in E. rewrite E. cbn [mbind outcome_bind]. fold c in Hi', Hcl.
  replace (10 + (length c - 11))%nat with (length c - 1)%nat in * by lia.
  destruct (rev_bit c (length c - 1) ltac:(lia)) as [-> ->]. set (b := nth (length c - 1) c false) in *.
  replace (- (ptr i' - Z.b2z b) - 1) with (2 * Z.of_nat i' + Z.b2z b) by (unfold ptr; lia).
  pose proof (tree_index _ _ _ _ _ b Ht' Hi').
  rewrite arr_set_ok by (change tree with (m_tree (mk_table (m_look_up t1) tree)); rewrite (ti_tree_len _ _ _ Ht'); lia).
  cbn [mbind outcome_bind].
  assert (Z.of_nat n < 288) as Hn288.
  { destruct (used_size sizes Hv n Hu) as (? & El & _). apply lookup_lt_Some in El. lia. }
  rewrite swrap_small by (change (2 ^ (16 - 1)) with 32768; lia).
  eexists nodes', _. split; [done|].
  apply (place_leaf n nodes' _ i' _ b Ht' Hu Hi'); fold c.
  - rewrite <- (take_ge c (length c)) at 1 by lia.
    replace (length c) with (S (length c - 1)) at 1 by lia. apply nth_take_drop. lia.
  - intros j Hj. apply Hcl. lia.
Qed.

(** ** Short words *)

(** [rev_code] and what has the same low bits. *)
Lemma fill_look_up_ok m turns : forall look_up r k,
  (1 <= m)%nat -> len look_up = 1024 -> 0 <= r -> 1024 - r <= 2 ^ Z.of_nat m * Z.of_nat turns ->
  exists look_up', fill_look_up turns look_up r (Z.of_nat m) k = Ret look_up' /\ len look_up' = 1024 /\
    forall i, 0 <= i < 1024 ->
      zlookup look_up' i = if decide (r <= i /\ (i - r) mod 2 ^ Z.of_nat m = 0) then Some k else zlookup look_up i.
Proof.
  induction turns as [|turns IH]; intros look_up r k Hm Hlen Hr Hturns; unfold fill_look_up; fold fill_look_up;
    unfold TINFL_FAST_LOOKUP_SIZE; destruct (Z.ltb_spec r 1024) as [Hlt|Hge]; try lia.
  1,3: exists look_up; split_and!; [done..|]; intros i Hi; rewrite decide_False; [done|lia].
  rewrite arr_set_ok by lia. cbn [mbind outcome_bind].
  rewrite Z.shiftl_mul_pow2, Z.mul_1_l by lia. pose proof (pow2_pos (Z.of_nat m) ltac:(lia)) as Hp.
  destruct (IH (zinsert r k look_up) (r + 2 ^ Z.of_nat m) k Hm) as (look_up' & -> & Hl' & Hlk);
    [by rewrite zinsert_length|lia|nia|].
  exists look_up'. split_and!; [done..|]. intros i Hi. rewrite (Hlk i Hi).
  assert (r + 2 ^ Z.of_nat m <= i /\ (i - (r + 2 ^ Z.of_nat m)) mod 2 ^ Z.of_nat m = 0 <->
          (r <= i /\ (i - r) mod 2 ^ Z.of_nat m = 0) /\ i <> r) as Hiff.
  { replace (i - (r + 2 ^ Z.of_nat m)) with (i - r + (-1) * 2 ^ Z.of_nat m) by lia. rewrite Z_mod_plus_full.
    split; [intros [? ?]; split; [split; [lia|done]|lia]|]. intros [[? Hmod] ?]. split; [|done].
    destruct (Z.le_gt_cases (r + 2 ^ Z.of_nat m) i); [done|]. rewrite Z.mod_small in Hmod by lia. lia. }
  destruct (decide (r + 2 ^ Z.of_nat m <= i /\ _)) as [H1|H1].
  - rewrite decide_True; [done|]. by apply Hiff.
  - destruct (decide (i = r)) as [->|Hne].
    + rewrite zlookup_zinsert_eq by lia. rewrite decide_True; [done|]. split; [lia|]. by rewrite Z.sub_diag.
    + rewrite zlookup_zinsert_ne by done. rewrite decide_False; [done|]. tauto.
Qed.

Lemma prefix_mod (c p : list bool) : (length c <= length p)%nat ->
  c `prefix_of` p <-> bits_val c <= bits_val p /\ (bits_val p - bits_val c) mod 2 ^ len c = 0.
Proof.
  intros Hl. pose proof (bits_val_range c) as Hc. pose proof (bits_val_mod p (length c)) as Hm. split.
  - intros [k ->]. rewrite bits_val_app. pose proof (bits_val_range k). split; [nia|].
    replace (bits_val c + 2 ^ len c * bits_val k - bits_val c) with (bits_val k * 2 ^ len c) by lia.
    apply Z_mod_mult.
  - intros [Hle H0]. exists (drop (length c) p). rewrite <- (take_drop (length c) p) at 1. f_equal.
    apply bits_val_inj; [rewrite length_take; lia|]. rewrite <- Hm.
    assert (bits_val p mod 2 ^ len c = (bits_val p - bits_val c + bits_val c) mod 2 ^ len c) as -> by (f_equal; lia).
    rewrite <- Zplus_mod_idemp_l, H0, Z.mod_small; lia.
Qed.

(** ** All symbols *)

Lemma reverse_code_ok l rev c : reverse_code l rev c = bits_val (msb_bits l c) + 2 ^ Z.of_nat l * rev
  \/ ~ 0 <= rev.
Proof.
  destruct (Z.le_gt_cases 0 rev) as [Hr|]; [left|right; lia]. revert rev c Hr.
  induction l as [|l IH]; intros rev c Hr; cbn [reverse_code].
  - cbn [msb_bits bits_val]. change (2 ^ Z.of_nat 0) with 1. lia.
  - assert ((Z.shiftl rev 1 ||| (c &&& 1)) = Z.b2z (Z.odd c) + 2 * rev) as ->.
    { change 1 with (Z.ones 1) at 2. rewrite Z.land_ones, Zmod_odd by lia.
      replace (if Z.odd c then 1 else 0) with (Z.b2z (Z.odd c)) by done.
      rewrite Z.lor_comm. change 1 with (Z.of_nat 1). rewrite lor_disjoint; [done|]. apply b2z_range. }
    pose proof (b2z_range (Z.odd c)). rewrite IH by lia.
    rewrite msb_bits_snoc, bits_val_app, msb_bits_length, pow2_succ. cbn [bits_val]. lia.
Qed.

Lemma reverse_code_val l c : reverse_code l 0 c = bits_val (msb_bits l c).
Proof. destruct (reverse_code_ok l 0 c); lia. Qed.

Lemma initial_table :
  table_inv 0 [] (mk_table (replicate (Z.to_nat TINFL_FAST_LOOKUP_SIZE) 0)
                           (replicate (Z.to_nat (TINFL_MAX_HUFF_SYMBOLS_0 * 2)) 0)).
Proof.
  assert (forall sym, ~ placed 0 sym) as Hno by (intros sym [_ H]; lia).
  split; cbn [m_look_up m_tree].
  - by rewrite length_replicate.
  - by rewrite length_replicate.
  - apply NoDup_nil_2.
  - by intros q ?%not_elem_of_nil.
  - by intros q b ?%not_elem_of_nil.
  - intros sym j H. by apply Hno in H.
  - intros p Hp. exists 0. pose proof (bits_val_range p) as Hr. rewrite Hp in Hr.
    split; [apply zlookup_replicate; unfold TINFL_FAST_LOOKUP_SIZE; change (2 ^ Z.of_nat 10) with 1024 in Hr; lia|].
    right; right. split_and!; [done|apply not_elem_of_nil|]. intros sym H. by apply Hno in H.
  - done.
  - intros k Hk. apply zlookup_replicate. unfold TINFL_MAX_HUFF_SYMBOLS_0. cbn [length] in Hk. lia.
Qed.

Lemma place_short_ok n m nodes t : table_inv n nodes t -> used sizes n -> length (code n) = m -> (1 <= m <= 10)%nat ->
  exists look_up,
    fill_look_up (Z.to_nat TINFL_FAST_LOOKUP_SIZE) t.(m_look_up) (bits_val (code n)) (Z.of_nat m)
      (s16 (Z.shiftl (Z.of_nat m) 9 ||| Z.of_nat n)) = Ret look_up /\
    table_inv (S n) nodes (mk_table look_up t.(m_tree)).
Proof.
  intros Ht Hu Hlen Hm. assert (n < 288)%nat as Hn288.
  { unfold used in Hu. destruct (sizes !! n) eqn:E; [|done]. apply lookup_lt_Some in E. lia. }
  assert (s16 (Z.shiftl (Z.of_nat m) 9 ||| Z.of_nat n) = len (code n) * 512 + Z.of_nat n) as ->.
  { rewrite Z.lor_comm. change 9 with (Z.of_nat 9). rewrite lor_disjoint by (change (2 ^ Z.of_nat 9) with 512; lia).
    change (2 ^ Z.of_nat 9) with 512. rewrite swrap_small by (change (2 ^ (16 - 1)) with 32768; lia). lia. }
  pose proof (bits_val_range (code n)) as Hr. rewrite Hlen in Hr.
  pose proof (Z.pow_le_mono_r 2 1 (Z.of_nat m) ltac:(lia) ltac:(lia)) as Hp2. change (2 ^ 1) with 2 in Hp2.
  destruct (fill_look_up_ok m (Z.to_nat TINFL_FAST_LOOKUP_SIZE) t.(m_look_up) (bits_val (code n))
              (len (code n) * 512 + Z.of_nat n)) as (look_up & -> & Hll & Hlk);
    [lia|apply (ti_look_len _ _ _ Ht)|lia|unfold TINFL_FAST_LOOKUP_SIZE; nia|].
  exists look_up. split; [done|]. apply place_short; [done..|lia|done|].
  intros p Hp. pose proof (bits_val_range p) as Hpr. rewrite Hp in Hpr. change (2 ^ Z.of_nat 10) with 1024 in Hpr.
  rewrite (Hlk _ Hpr). pose proof (prefix_mod (code n) p ltac:(lia)) as Hpm. rewrite Hlen in Hpm.
  destruct (decide (code n `prefix_of` p)) as [Hpre|Hpre].
  - rewrite decide_True; [done|]. by apply Hpm.
  - rewrite decide_False; [done|]. intros Hm2. by apply Hpre, Hpm.
Qed.

Lemma place_symbols_ok rest : forall n nc nodes t,
  sizes = take n sizes ++ rest -> (n <= length sizes)%nat -> len nc = 17 ->
  (forall l : nat, (1 <= l <= 15)%nat ->
    zlookup nc (Z.of_nat l) = Some (first_code sizes l + count (take n sizes) (Z.of_nat l))) ->
  table_inv n nodes t ->
  exists nodes' t', place_symbols rest (Z.of_nat n) nc (ptr (length nodes)) t = Ret t' /\
                    table_inv (length sizes) nodes' t'.
Proof.
  induction rest as [|k rest IH]; intros n nc nodes t Hsz Hle Hnc Hl Ht; cbn [place_symbols].
  - exists nodes, t. split; [done|]. rewrite app_nil_r in Hsz. apply (f_equal length) in Hsz.
    rewrite length_take in Hsz. by replace (length sizes) with n by lia.
  - assert (sizes !! n = Some k) as Ek.
    { rewrite Hsz, lookup_app_r by (rewrite length_take; lia). rewrite length_take, Nat.min_l, Nat.sub_diag by lia. done. }
    assert (sizes = take (S n) sizes ++ rest) as Hsz'.
    { rewrite (take_S_r _ _ _ Ek), <- app_assoc. exact Hsz. }
    assert (S n <= length sizes)%nat as Hle' by (apply lookup_lt_Some in Ek; lia).
    replace (Z.of_nat n + 1) with (Z.of_nat (S n)) by lia.
    destruct (Z.eqb_spec k 0) as [->|Hk0].
    + apply IH; [done..| |].
      * intros l Hl15. rewrite (Hl l Hl15), (take_S_r _ _ _ Ek), count_app, count_cons, decide_False by lia.
        unfold count at 3. cbn [filter list_filter length]. f_equal. cbn. lia.
      * apply place_none; [|done]. unfold used. rewrite Ek. intros H. by apply H.
    + assert (used sizes n) as Hu by (unfold used; by rewrite Ek).
      destruct (used_size sizes Hv n Hu) as (m & Em & Hm). rewrite Ek in Em. injection Em as ->.
      rewrite (arr_ok _ _ _ (Hl m Hm)). cbn [mbind outcome_bind]. rewrite arr_set_ok by lia. cbn [mbind outcome_bind].
      destruct (code_of_num sizes Hv n m Ek Hm) as (c & Ec & Hc & Hc1 & Hc2).
      rewrite <- Hc, Nat2Z.id, reverse_code_val, <- Ec.
      assert (length (code n) = m) as Hlen by (by rewrite Ec, msb_bits_length).
      assert (forall l : nat, (1 <= l <= 15)%nat ->
        zlookup (zinsert (Z.of_nat m) (c + 1) nc) (Z.of_nat l)
        = Some (first_code sizes l + count (take (S n) sizes) (Z.of_nat l))) as Hl'.
      { intros l Hl15. destruct (decide (l = m)) as [->|Hne].
        - rewrite zlookup_zinsert_eq, (count_take_S _ _ _ Ek) by lia. f_equal. lia.
        - rewrite zlookup_zinsert_ne, (Hl l Hl15) by lia.
          rewrite (take_S_r _ _ _ Ek), count_app, count_cons, decide_False by lia.
          unfold count at 3. cbn. f_equal. lia. }
      assert (len (zinsert (Z.of_nat m) (c + 1) nc) = 17) as Hnc' by (by rewrite zinsert_length).
      unfold TINFL_FAST_LOOKUP_BITS. destruct (Z.leb_spec (Z.of_nat m) 10) as [H10|H10].
      * destruct (place_short_ok n m nodes t Ht Hu Hlen ltac:(lia)) as (look_up & E & Ht').
        unfold TINFL_FAST_LOOKUP_BITS in E. rewrite E. cbn [mbind outcome_bind]. by apply (IH (S n) _ nodes).
      * replace (Z.of_nat m) with (len (code n)) in Hl', Hnc' |- * by lia.
        destruct (place_long_ok n nodes t Ht Hu ltac:(lia)) as (nodes' & t' & -> & Ht').
        cbn [mbind outcome_bind]. by apply (IH (S n) _ nodes').
Qed.
End invariant.

(** A table in which the words of [sizes] are found. *)
Definition table_for (sizes : list Z) (t : tinfl_huff_table) : Prop :=
  exists nodes, table_inv sizes (length sizes) nodes t.

Theorem build_table_ok sizes : sizes_ok sizes -> (length sizes <= 288)%nat ->
  if decide (valid_sizes sizes)
  then exists t, build_table sizes = Ret (Some t) /\ table_for sizes t
  else build_table sizes = Ret None.
Proof.
  intros Hs Hn. unfold build_table.
  destruct (count_sizes_ok sizes Hs) as (tot & -> & Ht). cbn [mbind outcome_bind].
  destruct (next_codes_ok sizes tot Hs Hn Ht) as (nc & -> & Hlen & Hnc). cbn [mbind outcome_bind].
  assert (first_code sizes 16 = 2 * kraft sizes) as ->.
  { pose proof (first_code_kraft sizes 15 (le_n _)) as H. change (Z.of_nat 15) with 15 in H.
    rewrite kraft_upto_all in H by done. change (2 ^ (15 - 15)) with 1 in H. lia. }
  destruct (decide (valid_sizes sizes)) as [Hv|Hv].
  - replace (negb (65536 =? 2 * kraft sizes) && (1 <? len (filter (fun l => l <> 0) sizes))) with false
      by (destruct Hv as [_ [->|H]]; [done|]; zbool; done || lia).
    destruct (place_symbols_ok sizes Hv Hn sizes 0 nc [] _ eq_refl ltac:(lia) ltac:(lia)
      ltac:(intros l Hl; rewrite Hnc by lia; f_equal; unfold count; rewrite take_0; cbn; lia)
      (initial_table sizes Hn)) as (nodes & t & E & Hinv).
    change (Z.of_nat 0) with 0 in E. change (ptr (length [])) with (-1) in E. rewrite E.
    exists t. split; [done|]. by exists nodes.
  - replace (negb (65536 =? 2 * kraft sizes) && (1 <? len (filter (fun l => l <> 0) sizes))) with true; [done|].
    symmetry. apply andb_true_iff. rewrite negb_true_iff, Z.eqb_neq, Z.ltb_lt. unfold valid_sizes in Hv.
    change (2 ^ 15) with 32768 in Hv. split.
    + intros E. apply Hv. split; [done|]. left. lia.
    + destruct (Z.le_gt_cases (len (filter (fun l => l <> 0) sizes)) 1) as [H|]; [|done].
      exfalso. apply Hv. split; [done|]. by right.
Qed.
