(* ===== verification/TinflRead.v ===== *)
(** * TinflRead: what tinfl.c reads is a list of bits, and zeros after it

    The bit buffer and the input are one list of bits ([at_bits]); where they end tinfl.c
    goes on with zeros.  Each of the reading macros is a function of that list, whatever of
    it is in the buffer: TINFL_GET_BITS gives its first bits, TINFL_HUFF_DECODE what the
    table makes of them ([look_up_ok]).  All of it holds on any input. *)
From S2P Require Import Prelude Bits Inflate Tinfl Huffman HuffTable.

(** The first [k] bits, with zeros where there are none. *)
Definition pad (k : nat) (l : list bool) : list bool := map (fun i => nth i l false) (seq 0 k).

Lemma pad_length k l : length (pad k l) = k.
Proof. unfold pad. by rewrite length_map, length_seq. Qed.

Lemma pad_S k l : pad (S k) l = pad k l ++ [nth k l false].
Proof. unfold pad. by rewrite seq_S, map_app. Qed.

Lemma pad_take k l : (k <= length l)%nat -> pad k l = take k l.
Proof.
  induction k as [|k IH]; intros Hk; [by rewrite take_0|].
  rewrite pad_S, IH, (nth_take_drop l k false) by lia. done.
Qed.

Lemma pad_val k l : bits_val (pad k l) = bits_val (take k l).
Proof.
  induction k as [|k IH]; [by rewrite take_0|].
  rewrite pad_S, bits_val_app, IH, pad_length.
  destruct (Nat.lt_ge_cases k (length l)) as [Hk|Hk].
  - rewrite (nth_take_drop l k false), bits_val_app, length_take, Nat.min_l by lia. done.
  - rewrite nth_overflow, !take_ge by lia. cbn. lia.
Qed.

Lemma pad_prefix j k l : (j <= k)%nat -> pad j l `prefix_of` pad k l.
Proof.
  intros H. replace k with (j + (k - j))%nat by lia. unfold pad. rewrite seq_app, map_app. by apply prefix_app_r.
Qed.

Lemma nth_app_zeros l n i : nth i (l ++ replicate n false) false = nth i l false.
Proof.
  destruct (Nat.lt_ge_cases i (length l)); [by rewrite app_nth1|].
  rewrite app_nth2, (nth_overflow l) by lia. destruct (nth_in_or_default (i - length l) (replicate n false) false) as [H0|]; [|done].
  apply list_elem_of_In, elem_of_replicate in H0. tauto.
Qed.

(** Zeros after the end change nothing. *)
Lemma pad_app_zeros k l n : pad k (l ++ replicate n false) = pad k l.
Proof. unfold pad. apply map_ext. intros i. apply nth_app_zeros. Qed.

Lemma pad_app_l k l l' : (k <= length l)%nat -> pad k (l ++ l') = pad k l.
Proof. intros. rewrite (pad_take k l), pad_take, take_app_le by (rewrite ?length_app; lia). done. Qed.

(** ** A table on a list of bits *)
Section look.
Context (sizes : list Z) (Hv : valid_sizes sizes) (Hn : (length sizes <= 288)%nat).
Context (t : tinfl_huff_table) (Ht : table_for sizes t).
Abbreviation code := (code_of sizes).

(** The entry that some bits lead to, with the symbol in its low bits. *)
Definition look_up (bits : Z) : outcome (Z * Z) :=
  temp ← arr t.(m_look_up) (bits &&& (TINFL_FAST_LOOKUP_SIZE - 1));
  if 0 <=? temp then Ret (temp &&& 511, Z.shiftr temp 9)
  else walk_tree 16 t bits temp TINFL_FAST_LOOKUP_BITS.

(** A word that the bits start with is found, with its symbol; else the symbol is 0, and
    the first [j] bits tell that there is no word. *)
Definition found (l : list bool) (v : Z) (k : nat) : Prop :=
  (exists sym, used sizes sym /\ v = Z.of_nat sym /\ code sym = pad k l) \/
  (v = 0 /\ exists j, (j <= 15)%nat /\ (k <> 0 -> j <= k)%nat /\
     forall l' sym, pad j l' = pad j l -> used sizes sym -> ~ code sym `prefix_of` pad 15 l').

Lemma placed_all sym : used sizes sym -> placed sizes (length sizes) sym.
Proof.
  intros Hu. split; [done|]. unfold used in Hu. destruct (sizes !! sym) eqn:E; [|done].
  by apply lookup_lt_Some in E.
Qed.

Lemma placed_used n sym : placed sizes n sym -> used sizes sym.
Proof. by intros [H _]. Qed.

Lemma used_288 sym : used sizes sym -> Z.of_nat sym < 288.
Proof. intros [_ H]%placed_all. lia. Qed.

(** Where the table has no entry no word goes on. *)
Lemma no_entry nodes l k : table_inv sizes (length sizes) nodes t ->
  (10 <= k <= 15)%nat -> pad k l ∉ nodes ->
  (forall sym, used sizes sym -> (length (code sym) <= k)%nat -> ~ code sym `prefix_of` pad k l) ->
  forall sym, used sizes sym -> ~ code sym `prefix_of` pad 15 l.
Proof.
  intros Hi Hk Hni Hshort sym Hu Hp.
  pose proof (pad_prefix k 15 l ltac:(lia)) as Hk15.
  destruct (Nat.le_gt_cases (length (code sym)) k) as [Hle|Hgt].
  - apply (Hshort sym Hu Hle). destruct (prefix_weak_total _ _ _ Hp Hk15) as [H|H]; [done|].
    assert (length (pad k l) = length (code sym)) as E by (apply prefix_length in H; rewrite pad_length in *; lia).
    destruct H as [z Hz]. assert (z = []) as -> by (apply length_zero_iff_nil; apply (f_equal length) in Hz; rewrite length_app in Hz; lia).
    rewrite app_nil_r in Hz. by rewrite Hz.
  - apply Hni. destruct (prefix_weak_total _ _ _ Hp Hk15) as [H|H].
    + apply prefix_length in H. rewrite pad_length in H. lia.
    + apply prefix_take_eq in H. rewrite pad_length in H. rewrite H.
      apply (ti_closed _ _ _ _ Hi); [by apply placed_all|lia].
Qed.

(** The walk through the tree, and the one that stops after [n] bits. *)
Lemma walk_tree_ok nodes l turns : forall d i, table_inv sizes (length sizes) nodes t ->
  (10 <= d <= 14)%nat -> (15 - d <= turns)%nat -> nodes !! i = Some (pad d l) ->
  exists v k, walk_tree turns t (bits_val l) (ptr i) (Z.of_nat d) = Ret (v, Z.of_nat k) /\
    (d < k <= 15)%nat /\ 0 <= v /\ found l v k /\
    forall n, Z.of_nat d < n -> exists w, walk_bits turns t (bits_val l) n (ptr i) (Z.of_nat d) = Ret w /\
                                          (0 <=? w) = (Z.of_nat k <=? n).
Proof.
  induction turns as [|turns IH]; intros d i Hi Hd Hturns Hnode; [lia|]. cbn [walk_tree walk_bits].
  rewrite bits_val_bit. replace (Z.lnot (ptr i) + Z.b2z (nth d l false)) with (2 * Z.of_nat i + Z.b2z (nth d l false))
    by (unfold ptr, Z.lnot; lia).
  destruct (ti_tree _ _ _ _ Hi i _ (nth d l false) Hnode) as (v & Hl & He).
  rewrite (arr_ok _ _ _ Hl). cbn [mbind outcome_bind]. rewrite <- pad_S in He.
  assert (internal sizes (pad d l)) as Hint by (apply (ti_nodes _ _ _ _ Hi), (list_elem_of_lookup_2 _ _ _ Hnode)).
  assert (forall w, 0 <= w -> w = v -> found l v (S d) -> exists v0 k,
    (if v <? 0 then walk_tree turns t (bits_val l) v (Z.of_nat d + 1) else Ret (v, Z.of_nat d + 1)) = Ret (v0, Z.of_nat k) /\
    (d < k <= 15)%nat /\ 0 <= v0 /\ found l v0 k /\
    forall n, Z.of_nat d < n -> exists w, (if (v <? 0) && (Z.of_nat d + 2 <=? n)
        then walk_bits turns t (bits_val l) n v (Z.of_nat d + 1) else Ret v) = Ret w /\ (0 <=? w) = (Z.of_nat k <=? n)) as Hleaf.
  { intros w Hw -> Hf. exists v, (S d). destruct (Z.ltb_spec v 0); [lia|]. split_and!; [f_equal; f_equal; lia|lia|lia|lia|done|].
    intros n Hdn. exists v. split; [done|]. zbool; lia || done. }
  destruct He as [(sym & Hp & Hc & ->)|[(j & Hj & ->)|(-> & Hni & Hno)]].
  - apply (Hleaf (Z.of_nat sym) ltac:(lia) eq_refl). left. exists sym. split_and!; [by eapply placed_used|done..].
  - clear Hleaf. destruct (Z.ltb_spec (ptr j) 0) as [_|H]; [|unfold ptr in H; lia].
    assert (internal sizes (pad (S d) l)) as Hint2 by (apply (ti_nodes _ _ _ _ Hi), (list_elem_of_lookup_2 _ _ _ Hj)).
    assert (S d <= 14)%nat.
    { destruct Hint2 as (sym & Hu & _ & Hlt). pose proof (code_length sizes Hv sym Hu). rewrite pad_length in Hlt. lia. }
    destruct (IH (S d) j Hi ltac:(lia) ltac:(lia) Hj) as (v & k & E & Hk & Hv0 & Hf & Hb).
    replace (Z.of_nat d + 1) with (Z.of_nat (S d)) by lia.
    exists v, k. split_and!; [done|lia|lia|done|done|]. intros n Hdn. cbn [andb].
    destruct (Z.leb_spec (Z.of_nat d + 2) n).
    + apply Hb. lia.
    + exists (ptr j). split; [done|]. unfold ptr. zbool; lia || done.
  - apply (Hleaf 0 ltac:(lia) eq_refl). right. split; [done|]. exists (S d). split_and!; [lia|lia|].
    intros l' sym0 El. apply (no_entry nodes l' (S d)); rewrite ?El; [done|lia|done|]. intros sym Hu Hle Hp.
    destruct (Nat.eq_dec (length (code sym)) (S d)) as [E|].
    + apply (Hno sym); [by apply placed_all|]. apply prefix_take_eq in Hp. by rewrite E, take_ge in Hp by (by rewrite pad_length).
    + apply (internal_no_code sizes Hv (pad d l) sym Hint Hu).
      destruct (prefix_weak_total _ _ _ Hp (pad_prefix d (S d) l ltac:(lia))) as [H|H]; [done|].
      apply prefix_take_eq in H as E. rewrite pad_length in E. rewrite E, take_ge by lia. done.
Qed.

Lemma look_up_ok l : exists v k, look_up (bits_val l) = Ret (v, Z.of_nat k) /\ (k <= 15)%nat /\ 0 <= v /\ found l v k /\
  code_complete t (bits_val l) (len l) = Ret (negb (Z.of_nat k =? 0) && (Z.of_nat k <=? len l)).
Proof.
  destruct Ht as [nodes Hi]. unfold look_up, code_complete, TINFL_FAST_LOOKUP_SIZE, TINFL_FAST_LOOKUP_BITS.
  change (1024 - 1) with (2 ^ Z.of_nat 10 - 1). rewrite bits_val_land, <- pad_val.
  destruct (ti_look _ _ _ _ Hi (pad 10 l) (pad_length _ _)) as (v & Hl & He).
  rewrite (arr_ok _ _ _ Hl). cbn [mbind outcome_bind].
  destruct He as [(sym & Hp & H10 & Hpre & ->)|[(i & Hnode & ->)|(-> & Hni & Hno)]].
  - pose proof (placed_used _ _ Hp) as Hu. pose proof (used_288 _ Hu).
    destruct (Z.leb_spec 0 (len (code sym) * 512 + Z.of_nat sym)); [|lia].
    assert (((len (code sym) * 512 + Z.of_nat sym) &&& 511) = Z.of_nat sym) as ->.
    { change 511 with (2 ^ 9 - 1). rewrite land_ones_wrap by lia. unfold wrap. change (2 ^ 9) with 512.
      rewrite Z.add_comm, Z_mod_plus_full. apply Z.mod_small. lia. }
    assert (Z.shiftr (len (code sym) * 512 + Z.of_nat sym) 9 = len (code sym)) as ->.
    { rewrite Z.shiftr_div_pow2 by lia. change (2 ^ 9) with 512. rewrite Z.add_comm, Z.div_add, Z.div_small by lia. lia. }
    exists (Z.of_nat sym), (length (code sym)). split_and!; [done|lia|lia| |done].
    left. exists sym. split_and!; [done..|]. rewrite (prefix_take_eq _ _ Hpre).
    rewrite length_take, pad_length, Nat.min_l by lia.
    pose proof (pad_prefix (length (code sym)) 10 l H10) as Hq. apply prefix_take_eq in Hq. by rewrite pad_length in Hq.
  - destruct (Z.leb_spec 0 (ptr i)) as [H|_]; [unfold ptr in H; lia|]. change 10 with (Z.of_nat 10).
    destruct (walk_tree_ok nodes l 16 10 i Hi ltac:(lia) ltac:(lia) Hnode) as (v & k & E & Hk & Hv0 & Hf & Hb).
    exists v, k. split_and!; [done|lia|done|done|].
    destruct (Z.ltb_spec (Z.of_nat 10) (len l)) as [Hlt|Hge].
    + destruct (Hb (len l) Hlt) as (w & -> & Hw). cbn [mbind outcome_bind]. rewrite Hw. f_equal. zbool; lia || done.
    + f_equal. zbool; lia || done.
  - exists 0, 0%nat. cbn. split_and!; [done|lia|lia| |done].
    right. split; [done|]. exists 10%nat. split_and!; [lia|done|]. intros l' sym0 El.
    apply (no_entry nodes l' 10); rewrite ?El; [done|lia|done|]. intros sym Hu Hle. by apply Hno; [apply placed_all|].
Qed.

(** A word at the front is what is found. *)
Lemma found_code l v k sym : found l v k -> used sizes sym -> code sym `prefix_of` l ->
  v = Z.of_nat sym /\ k = length (code sym).
Proof.
  intros Hf Hu Hp.
  pose proof (code_length sizes Hv sym Hu) as Hlen. pose proof (prefix_length _ _ Hp).
  assert (code sym `prefix_of` pad 15 l) as Hp15.
  { etrans; [|apply (pad_prefix (length (code sym)) 15 l); lia]. rewrite pad_take by lia.
    apply prefix_take_eq in Hp. by rewrite <- Hp. }
  destruct Hf as [(sym' & Hu' & -> & Hc)|(_ & j & _ & _ & Hno)]; [|by apply (Hno l) in Hp15].
  assert (k = length (code sym')) as Ek by (by rewrite Hc, pad_length).
  pose proof (code_length sizes Hv sym' Hu').
  assert (sym' = sym) as ->.
  { eapply (code_unique sizes Hv); [done|done| |done]. rewrite Hc. apply pad_prefix. lia. }
  done.
Qed.

Lemma found_range l v k : found l v k -> 0 <= v < Z.max 1 (len sizes).
Proof.
  intros [(sym & [_ Hlt]%placed_all & -> & _)|(-> & _)]; lia.
Qed.

(** What the buffer tells holds of all the bits, when it has those of the word. *)
Lemma found_more l bits v k : found l v k ->
  (forall j, (j <= length l)%nat -> pad j bits = pad j l) ->
  (k <= length l)%nat -> (k = 0 -> 15 <= length l)%nat -> found bits v k.
Proof.
  intros [(sym & Hu & -> & Hc)|(-> & j & Hj & Hjk & Hno)] Hpad Hk H0.
  - left. exists sym. split_and!; [done..|]. by rewrite Hpad.
  - right. split; [done|]. exists j. split_and!; [done..|]. intros l' sym E. apply Hno. rewrite E. apply Hpad.
    destruct (decide (k = 0%nat)) as [->|]; [specialize (H0 eq_refl)|]; lia.
Qed.
End look.

(** ** Reading *)

(** The bits to come: those of the buffer, then those of the input.  Past the end of the
    input the buffer may hold zeros that are not among them. *)
Definition at_bits (s : io) (bits : list bool) : Prop :=
  exists l k, s.(num_bits) = len l /\ s.(bit_buf) = bits_val l /\ len l <= 64 /\
    l ++ bits_of s.(pIn_buf) = bits ++ replicate k false /\
    (s.(pIn_buf) <> [] -> k = 0%nat) /\ (bits <> [] -> k mod 8 = 0)%nat.

Definition same_out (s s' : io) : Prop :=
  s'.(pOut_buf) = s.(pOut_buf) /\ s'.(pOut_buf_cur) = s.(pOut_buf_cur).

Lemma same_out_trans s1 s2 s3 : same_out s1 s2 -> same_out s2 s3 -> same_out s1 s3.
Proof. intros [] []. split; congruence. Qed.

Lemma mod8_add k n : (k mod 8 = 0)%nat -> ((k + 8 * n) mod 8 = 0)%nat.
Proof. intros H. rewrite Nat.mul_comm, Nat.Div0.mod_add. done. Qed.

Lemma bind_next {A B} (c : T A) (f : A -> T B) s a s' : c s = Ret (Next a s') -> (c ≫= f) s = f a s'.
Proof. unfold mbind, T_bind. by intros ->. Qed.

(** [c] ends, without output, at [rest], with [a]. *)
Definition reads {A} (c : T A) (s : io) (a : A) (rest : list bool) : Prop :=
  exists s', c s = Ret (Next a s') /\ at_bits s' rest /\ same_out s s'.

Lemma reads_bind {A B} (c : T A) (f : A -> T B) s a rest b rest' :
  reads c s a rest -> (forall s', at_bits s' rest -> same_out s s' -> reads (f a) s' b rest') ->
  reads (c ≫= f) s b rest'.
Proof.
  intros (s1 & E & H1 & Ho) Hf. destruct (Hf s1 H1 Ho) as (s2 & E2 & H2 & Ho2).
  exists s2. split_and!; [|done|by eapply same_out_trans]. unfold mbind, T_bind. by rewrite E.
Qed.

Lemma reads_ret {A} (a : A) s rest : at_bits s rest -> reads (mret a) s a rest.
Proof. intros H. exists s. by split_and!. Qed.

Lemma reads_get_io {B} (f : io -> T B) s b rest : reads (f s) s b rest -> reads (s ← get_io; f s) s b rest.
Proof. done. Qed.

Section reading.
Context (bitbuf64 : bool) (decomp_flags : Z).
Context (Hflag : flag decomp_flags TINFL_FLAG_HAS_MORE_INPUT = false).
Abbreviation W := (TINFL_BITBUF_SIZE bitbuf64).

Lemma bitbuf_size : 32 <= W <= 64.
Proof. unfold TINFL_BITBUF_SIZE. destruct bitbuf64; lia. Qed.

(** Bits pushed onto a buffer that has room for them. *)
Lemma push_bits_val s l l' : s.(num_bits) = len l -> s.(bit_buf) = bits_val l -> len l + len l' <= W -> 1 <= len l' ->
  push_bits bitbuf64 (bits_val l') (len l') s = Ret (Next tt (set_bits (len (l ++ l')) (bits_val (l ++ l')) s)).
Proof.
  intros Hn Hb Hw H1. unfold push_bits. rewrite Hn, Hb. pose proof bitbuf_size.
  destruct (Z.ltb_spec (len l) W); [|lia]. rewrite bits_val_push, length_app by lia.
  rewrite wrap_small; [|change (2 ^ 32) with 4294967296; lia]. do 4 f_equal. lia.
Qed.

(** A byte read into the buffer, or a byte of zeros. *)
Lemma get_push_byte (idx : Z) s bits :
  at_bits s bits -> s.(num_bits) + 8 <= 32 ->
  exists s', (forall A (f : T A), (c ← TINFL_GET_BYTE decomp_flags idx; _ ← push_bits bitbuf64 c 8; f) s = f s') /\
    at_bits s' bits /\ same_out s s' /\ s'.(num_bits) = s.(num_bits) + 8 /\
    (s.(pIn_buf) <> [] -> len s'.(pIn_buf) < len s.(pIn_buf)).
Proof.
  intros (l & k & Hn & Hb & Hl & E & Hk & Hk8) H32. pose proof bitbuf_size.
  unfold mbind, T_bind, TINFL_GET_BYTE. destruct s.(pIn_buf) as [|b rest] eqn:Ein.
  - rewrite Hflag. change 0 with (bits_val (replicate 8 false)) at 1. change 8 with (len (replicate 8 false)) at 1.
    rewrite (push_bits_val s l _ Hn Hb) by (cbn [length replicate]; lia).
    eexists. split; [done|]. unfold set_bits, same_out. cbn. split_and!; [|done..|rewrite length_app; cbn; lia|done].
    exists (l ++ replicate 8 false), (k + 8)%nat. cbn [num_bits bit_buf pIn_buf]. split_and!; [done..|rewrite length_app; cbn; lia| | |].
    + rewrite Ein. change (bits_of []) with (@nil bool) in *. rewrite app_nil_r in *.
      by rewrite E, <- app_assoc, replicate_add.
    + by rewrite Ein.
    + intros Hne. apply (mod8_add k 1). auto.
  - rewrite <- bits_val_byte. change 8 with (len (byte_bits b)) at 1.
    rewrite (push_bits_val (set_in rest s) l _ Hn Hb) by (rewrite byte_bits_length; lia).
    eexists. split; [done|]. unfold set_bits, set_in, same_out. cbn [num_bits bit_buf pIn_buf pOut_buf pOut_buf_cur].
    split_and!; [|done..|rewrite length_app, byte_bits_length; lia|intros _; cbn; lia].
    exists (l ++ byte_bits b), k. cbn [num_bits bit_buf pIn_buf]. split_and!; [done..|rewrite length_app, byte_bits_length; lia| | |done].
    + rewrite <- app_assoc. exact E.
    + intros _. by apply Hk.
Qed.

(** Taken off the buffer. *)
Lemma drop_bits_at s bits l k (n : nat) :
  s.(num_bits) = len l -> s.(bit_buf) = bits_val l -> len l <= 64 ->
  l ++ bits_of s.(pIn_buf) = bits ++ replicate k false -> (s.(pIn_buf) <> [] -> k = 0%nat) ->
  (bits <> [] -> k mod 8 = 0)%nat -> (n <= length l)%nat -> Z.of_nat n < 32 ->
  exists s', drop_bits bitbuf64 (Z.of_nat n) s = Ret (Next tt s') /\ at_bits s' (drop n bits) /\ same_out s s' /\
    s'.(num_bits) = s.(num_bits) - Z.of_nat n /\ s'.(pIn_buf) = s.(pIn_buf).
Proof.
  intros Hn Hb Hl E Hk Hk8 Hle Hn32. unfold drop_bits. pose proof bitbuf_size.
  destruct (Z.ltb_spec (Z.of_nat n) W); [|lia]. rewrite Hn, Hb, bits_val_shiftr.
  rewrite wrap_small by (change (2 ^ 32) with 4294967296; lia).
  eexists. split; [done|]. unfold set_bits, same_out. cbn [num_bits bit_buf pIn_buf pOut_buf pOut_buf_cur].
  split_and!; [|done..].
  exists (drop n l), (k - (n - length bits))%nat. cbn [num_bits bit_buf pIn_buf].
  assert (drop n l ++ bits_of s.(pIn_buf) = drop n bits ++ replicate (k - (n - length bits)) false) as E'.
  { rewrite <- drop_app_le by done. rewrite E. destruct (Nat.le_gt_cases n (length bits)).
    - rewrite drop_app_le by done. by replace (k - (n - length bits))%nat with k by lia.
    - rewrite drop_app_ge, (drop_ge bits) by lia. by rewrite drop_replicate. }
  split_and!; [rewrite length_drop; lia|done|rewrite length_drop; lia|done| |].
  - intros Hin. rewrite (Hk Hin). lia.
  - intros Hne. assert (n < length bits)%nat.
    { destruct (Nat.le_gt_cases (length bits) n); [by rewrite drop_ge in Hne|done]. }
    replace (k - (n - length bits))%nat with k by lia. apply Hk8. intros ->. cbn in *. lia.
Qed.

(** The first bits of the buffer are the first bits of the list. *)
Lemma buffer_pad l k bits bs n : l ++ bs = bits ++ replicate k false -> (n <= length l)%nat -> bits_val (take n l) = bits_val (pad n bits).
Proof.
  intros E Hn. rewrite <- (pad_app_zeros n bits k), <- E, pad_app_l, pad_take by done. done.
Qed.

Lemma need_bits_ok turns idx n : forall s bits, at_bits s bits ->
  s.(num_bits) < n -> n <= 16 -> n - s.(num_bits) <= 8 * Z.of_nat turns ->
  exists s', need_bits bitbuf64 decomp_flags turns idx n s = Ret (Next tt s') /\ at_bits s' bits /\ same_out s s' /\
             n <= s'.(num_bits) /\ s'.(num_bits) <= 32.
Proof.
  induction turns as [|turns IH]; intros s bits Hs Hlt H16 Hturns; [lia|]. cbn [need_bits].
  assert (0 <= s.(num_bits)) by (destruct Hs as (l & ? & -> & _); lia).
  destruct (get_push_byte idx s bits Hs ltac:(lia)) as (s1 & E & H1 & Ho & Hn & _).
  rewrite E. clear E. unfold mbind at 1, T_bind at 1, get_io. cbn beta iota.
  destruct (Z.ltb_spec s1.(num_bits) n).
  - destruct (IH s1 bits H1 ltac:(lia) H16 ltac:(lia)) as (s2 & -> & H2 & Ho2 & Hb2 & Hc2).
    exists s2. split_and!; [done..|by eapply same_out_trans|done|done].
  - exists s1. split_and!; [done..|lia|lia].
Qed.

(** [n] bits in the buffer. *)
Lemma fill_ok idx n s bits : at_bits s bits -> 0 <= n <= 16 ->
  exists s', (if s.(num_bits) <? n then TINFL_NEED_BITS bitbuf64 decomp_flags idx n else mret tt) s = Ret (Next tt s') /\
    at_bits s' bits /\ same_out s s' /\ n <= s'.(num_bits).
Proof.
  intros Hs Hn. assert (0 <= s.(num_bits)) by (destruct Hs as (l & ? & -> & _); lia).
  destruct (Z.ltb_spec s.(num_bits) n) as [Hlt|Hge].
  - destruct (need_bits_ok (Z.to_nat n) idx n s bits Hs Hlt ltac:(lia) ltac:(lia)) as (s' & ? & ? & ? & ? & ?).
    by exists s'.
  - exists s. by split_and!.
Qed.

Lemma get_bits_ok idx (n : nat) s bits : at_bits s bits -> (n <= 16)%nat ->
  reads (TINFL_GET_BITS bitbuf64 decomp_flags idx (Z.of_nat n)) s (bits_val (pad n bits)) (drop n bits).
Proof.
  intros Hs Hn. unfold TINFL_GET_BITS, reads.
  destruct (fill_ok idx (Z.of_nat n) s bits Hs ltac:(lia)) as (s1 & E & Hs1 & Ho1 & Hn1).
  unfold mbind, T_bind, get_io. rewrite E. clear E.
  destruct Hs1 as (l & k & Hnb & Hb & Hl & E & Hk & Hk8).
  destruct (drop_bits_at s1 bits l k n Hnb Hb Hl E Hk Hk8 ltac:(lia) ltac:(lia)) as (s2 & -> & H2 & Ho2 & _).
  exists s2. split_and!; [|done|by eapply same_out_trans].
  unfold mret, T_ret. do 2 f_equal. rewrite Hb, Z.shiftl_mul_pow2, Z.mul_1_l, bits_val_land by lia.
  eapply buffer_pad; [exact E|lia].
Qed.

(** To the next byte. *)
Lemma skip_bits_ok idx s bits : at_bits s bits ->
  reads (TINFL_SKIP_BITS bitbuf64 decomp_flags idx (s.(num_bits) &&& 7)) s tt (drop (length bits mod 8) bits).
Proof.
  intros (l & k & Hn & Hb & Hl & E & Hk & Hk8). unfold TINFL_SKIP_BITS, reads, mbind, T_bind, get_io.
  rewrite Hn. change 7 with (2 ^ 3 - 1). rewrite land_ones_wrap by lia. unfold wrap. change (2 ^ 3) with (Z.of_nat 8).
  rewrite <- Nat2Z.inj_mod. pose proof (Nat.mod_upper_bound (length l) 8 ltac:(lia)).
  pose proof (Nat.Div0.mod_le (length l) 8).
  destruct (Z.ltb_spec (len l) (Z.of_nat (length l mod 8))); [lia|]. unfold mret, T_ret. cbn iota.
  destruct (drop_bits_at s bits l k (length l mod 8) Hn Hb Hl E Hk Hk8 ltac:(lia) ltac:(lia)) as (s' & -> & H' & Ho & _).
  exists s'. split_and!; [done| |done].
  destruct bits as [|b bits]; [by rewrite !drop_nil in *|].
  enough (length l mod 8 = length (b :: bits) mod 8)%nat as <- by done.
  apply (f_equal length) in E. rewrite !length_app, bits_of_length, length_replicate in E.
  specialize (Hk8 ltac:(done)). apply Nat.Div0.div_exact in Hk8.
  assert ((length l + 8 * length s.(pIn_buf)) mod 8 = (length (b :: bits) + 8 * (k / 8)) mod 8)%nat as Em by (f_equal; lia).
  by rewrite !(Nat.mul_comm 8), !Nat.Div0.mod_add in Em.
Qed.

(** A byte, from the input when the buffer is empty. *)
Lemma get_byte_ok idx1 idx2 s bits : at_bits s bits ->
  reads (if s.(num_bits) =? 0 then TINFL_GET_BYTE decomp_flags idx1 else TINFL_GET_BITS bitbuf64 decomp_flags idx2 8)
    s (bits_val (pad 8 bits)) (drop 8 bits).
Proof.
  intros Hs. destruct (Z.eqb_spec s.(num_bits) 0) as [H0|]; [|apply (get_bits_ok idx2 8); [done|lia]].
  destruct Hs as (l & k & Hn & Hb & Hl & E & Hk & Hk8).
  assert (l = []) as -> by (apply length_zero_iff_nil; lia). cbn [app] in E.
  unfold TINFL_GET_BYTE, reads. destruct s.(pIn_buf) as [|b rest] eqn:Ein.
  - rewrite Hflag. change (bits_of []) with (@nil bool) in E. destruct bits; [|done]. destruct k; [|done].
    exists s. split_and!; [done| |done]. exists [], 0%nat. rewrite Ein. by split_and!.
  - rewrite (Hk ltac:(done)), app_nil_r in E. subst bits.
    exists (set_in rest s). change (bits_of (b :: rest)) with (byte_bits b ++ bits_of rest).
    split_and!; [|exists [], 0%nat; split_and!; try done; by rewrite app_nil_r|done..].
    do 2 f_equal. rewrite pad_app_l, pad_take, take_ge by (rewrite byte_bits_length; lia). symmetry. apply bits_val_byte.
Qed.

(** ** Words *)

Lemma buffer_prefix s bits : at_bits s bits -> exists l,
  s.(num_bits) = len l /\ s.(bit_buf) = bits_val l /\ len l <= 64 /\
  (forall j, (j <= length l)%nat -> pad j bits = pad j l) /\
  forall n : nat, (n <= length l)%nat -> Z.of_nat n < 32 ->
    exists s', drop_bits bitbuf64 (Z.of_nat n) s = Ret (Next tt s') /\ at_bits s' (drop n bits) /\ same_out s s' /\
               s'.(num_bits) = s.(num_bits) - Z.of_nat n /\ s'.(pIn_buf) = s.(pIn_buf).
Proof.
  intros (l & k & Hn & Hb & Hl & E & Hk & Hk8). exists l. split_and!; [done..| |].
  - intros j Hj. by rewrite <- (pad_app_zeros j bits k), <- E, pad_app_l.
  - intros n Hn1 Hn2. by apply (drop_bits_at s bits l k).
Qed.

Lemma read_le_ok (n : nat) s bits : at_bits s bits -> (1 <= n <= 4)%nat -> Z.of_nat n <= len s.(pIn_buf) ->
  s.(num_bits) + 8 * Z.of_nat n <= W ->
  exists s', read_le bitbuf64 (Z.of_nat n) s = Ret (Next tt s') /\ at_bits s' bits /\ same_out s s' /\
             s'.(num_bits) = s.(num_bits) + 8 * Z.of_nat n /\ s'.(pIn_buf) = drop n s.(pIn_buf).
Proof.
  intros (l & k & Hn & Hb & Hl & E & Hk & Hk8) Hn4 Hin HW. pose proof bitbuf_size. unfold read_le.
  rewrite mem_read_ok by lia. unfold slice. rewrite (Z.min_l (Z.of_nat n)), Z.min_l by lia.
  change (Z.to_nat 0) with 0%nat. rewrite drop_0, Nat2Z.id, <- bits_val_bits_of.
  set (bs := take n s.(pIn_buf)).
  assert (len (bits_of bs) = 8 * Z.of_nat n) as Hlen
    by (rewrite bits_of_length; subst bs; rewrite length_take; lia).
  rewrite <- Hlen, (push_bits_val (set_in (drop n s.(pIn_buf)) s) l _ Hn Hb) by lia.
  eexists. split; [done|]. unfold set_bits, set_in, same_out. cbn [num_bits bit_buf pIn_buf pOut_buf pOut_buf_cur].
  split_and!; [|done..|rewrite length_app; lia|done].
  exists (l ++ bits_of bs), k. cbn [num_bits bit_buf pIn_buf].
  split_and!; [done..|rewrite length_app; lia| | |done].
  - rewrite <- app_assoc, <- bits_of_app. subst bs. by rewrite take_drop.
  - intros Hne. apply Hk. intros E0. by rewrite E0, drop_nil in Hne.
Qed.

Section words.
Context (sizes : list Z) (Hv : valid_sizes sizes) (Hn : (length sizes <= 288)%nat).
Context (t : tinfl_huff_table) (Ht : table_for sizes t).

(** With the bits of the word in the buffer, or of any word. *)
Definition word_there (s : io) : Prop :=
  15 <= s.(num_bits) \/ code_complete t s.(bit_buf) s.(num_bits) = Ret true.

(** The last byte that was taken, if any, is one that the word at the front needs. *)
Definition taken (bits : list bool) (s s' : io) : Prop :=
  forall sym, used sizes sym -> code_of sizes sym `prefix_of` bits ->
  s' = s \/ s'.(num_bits) < len (code_of sizes sym) + 8.

(** Where the buffer has not a whole word, the word at the front is longer than the buffer. *)
Lemma word_longer l bits v k sym :
  found sizes l v k -> negb (Z.of_nat k =? 0) && (Z.of_nat k <=? len l) = false ->
  (forall j, (j <= length l)%nat -> pad j bits = pad j l) ->
  used sizes sym -> code_of sizes sym `prefix_of` bits -> len l < len (code_of sizes sym).
Proof.
  intros Hf Hc Hpad Hu Hp. destruct (Z.lt_ge_cases (len l) (len (code_of sizes sym))) as [|Hle]; [done|].
  pose proof (prefix_length _ _ Hp) as Hlp. pose proof (code_length sizes Hv sym Hu) as Hlen.
  assert (code_of sizes sym `prefix_of` l) as Hpl.
  { specialize (Hpad (length (code_of sizes sym)) ltac:(lia)). rewrite !pad_take in Hpad by lia.
    apply prefix_take_eq in Hp. rewrite Hp, Hpad. apply prefix_take. }
  destruct (found_code sizes Hv Hn l v k sym Hf Hu Hpl) as [_ ->].
  revert Hc. zbool; cbn; lia || done.
Qed.

Lemma huff_fill_ok turns idx : forall s bits, at_bits s bits -> s.(num_bits) < 15 ->
  15 - s.(num_bits) <= 8 * Z.of_nat turns ->
  exists s', huff_bitbuf_fill bitbuf64 decomp_flags turns idx t s = Ret (Next tt s') /\ at_bits s' bits /\
             same_out s s' /\ word_there s' /\ taken bits s s'.
Proof.
  induction turns as [|turns IH]; intros s bits Hs Hlt Hturns; [lia|]. cbn [huff_bitbuf_fill].
  destruct (buffer_prefix s bits Hs) as (l & Hnb & Hb & Hl & Hpad & _).
  destruct (look_up_ok sizes Hv Hn t Ht l) as (v & k & _ & Hk & _ & Hf & Hc). rewrite <- Hnb, <- Hb in Hc.
  unfold mbind at 1, T_bind at 1, get_io at 1. cbn beta iota.
  unfold mbind at 1, T_bind at 1, t_lift at 1. rewrite Hc. cbn beta iota.
  destruct (negb (Z.of_nat k =? 0) && (Z.of_nat k <=? s.(num_bits))) eqn:Ec.
  - exists s. split_and!; [done..|by right|by left].
  - rewrite Hnb in Ec. destruct (get_push_byte idx s bits Hs ltac:(lia)) as (s1 & -> & H1 & Ho & Hn1 & _).
    unfold mbind at 1, T_bind at 1, get_io. cbn beta iota. destruct (Z.ltb_spec s1.(num_bits) 15).
    + destruct (IH s1 bits H1 ltac:(lia) ltac:(lia)) as (s2 & -> & H2 & Ho2 & Hw & Htk).
      exists s2. split_and!; [done..|by eapply same_out_trans|done|].
      intros sym Hu Hp. right. pose proof (word_longer l bits v k sym Hf Ec Hpad Hu Hp).
      destruct (Htk sym Hu Hp) as [->|]; lia.
    + exists s1. split_and!; [done..|left; lia|].
      intros sym Hu Hp. right. pose proof (word_longer l bits v k sym Hf Ec Hpad Hu Hp). lia.
Qed.

(** A word at the front is decoded. *)
Lemma there_ok s bits : at_bits s bits -> word_there s ->
  exists v k, look_up t s.(bit_buf) = Ret (v, Z.of_nat k) /\ (k <= 15)%nat /\ found sizes bits v k /\
    exists s', drop_bits bitbuf64 (Z.of_nat k) s = Ret (Next tt s') /\ at_bits s' (drop k bits) /\ same_out s s' /\
               s'.(num_bits) = s.(num_bits) - Z.of_nat k /\ s'.(pIn_buf) = s.(pIn_buf).
Proof.
  intros Hs Hw. destruct (buffer_prefix s bits Hs) as (l & Hnb & Hb & Hl & Hpad & Hdrop).
  destruct (look_up_ok sizes Hv Hn t Ht l) as (v & k & E & Hk & _ & Hf & Hc).
  assert ((k <= length l)%nat /\ (k = 0 -> 15 <= length l)%nat) as [Hkl Hk0].
  { destruct Hw as [Hw|Hw]; [lia|]. rewrite Hnb, Hb, Hc in Hw. injection Hw as Hw. zbool; lia || done. }
  exists v, k. rewrite Hb. split_and!; [done..|by eapply found_more|]. apply Hdrop; lia.
Qed.

(** What a word of [n] bits costs: nothing of the input with 15 bits in the buffer, else two
    bytes where two are left, else no byte that the word does not reach into. *)
Definition frugal (n : Z) (s s' : io) : Prop :=
  let unread := s'.(num_bits) = s.(num_bits) - n /\ s'.(pIn_buf) = s.(pIn_buf) in
  if 15 <=? s.(num_bits) then unread
  else if len s.(pIn_buf) <? 2 then unread \/ s'.(num_bits) < 8
  else s'.(pIn_buf) = drop 2 s.(pIn_buf).

Lemma huff_decode_steps idx s bits : at_bits s bits ->
  exists v k s', found sizes bits v k /\ (k <= 15)%nat /\
    TINFL_HUFF_DECODE bitbuf64 decomp_flags idx t s = Ret (Next v s') /\ at_bits s' (drop k bits) /\ same_out s s' /\
    forall sym, used sizes sym -> code_of sizes sym `prefix_of` bits -> frugal (len (code_of sizes sym)) s s'.
Proof.
  intros Hs. pose proof bitbuf_size. unfold TINFL_HUFF_DECODE.
  assert (exists s1, (if s.(num_bits) <? 15 then if len s.(pIn_buf) <? 2
      then TINFL_HUFF_BITBUF_FILL bitbuf64 decomp_flags idx t else read_le bitbuf64 2 else mret tt) s = Ret (Next tt s1) /\
    at_bits s1 bits /\ same_out s s1 /\ word_there s1 /\
    if 15 <=? s.(num_bits) then s1 = s
    else if len s.(pIn_buf) <? 2 then taken bits s s1 else s1.(pIn_buf) = drop 2 s.(pIn_buf)) as (s1 & E1 & H1 & Ho1 & Hw & Htk).
  { assert (0 <= s.(num_bits)) by (destruct Hs as (l & ? & -> & _); lia).
    destruct (Z.leb_spec 15 s.(num_bits)), (Z.ltb_spec s.(num_bits) 15); try lia;
      [exists s; split_and!; [done..|by left|done]|].
    destruct (Z.ltb_spec (len s.(pIn_buf)) 2).
    - apply huff_fill_ok; [done..|lia].
    - change (read_le bitbuf64 2) with (read_le bitbuf64 (Z.of_nat 2)).
      destruct (read_le_ok 2 s bits Hs) as (s1 & -> & Hs1 & Ho & Hn1 & Hp1); [lia..|].
      exists s1. split_and!; [done..|left; lia|done]. }
  destruct (there_ok s1 bits H1 Hw) as (v & k & El & Hk & Hf & s2 & Ed & H2 & Ho2 & Hn2 & Hp2).
  exists v, k, s2. split_and!; [done..| |done|by eapply same_out_trans|].
  - unfold mbind, T_bind, get_io, t_lift. rewrite E1. unfold look_up, mbind, outcome_bind in El.
    destruct (arr t.(m_look_up) _) as [temp|]; [|done]. rewrite El, Ed. done.
  - intros sym Hu Hp. destruct (found_code sizes Hv Hn bits v k sym Hf Hu Hp) as [_ Ek].
    unfold frugal. rewrite Hp2, Hn2, Ek. destruct (15 <=? _); [by subst s1|]. destruct (_ <? 2); [|done].
    destruct (Htk sym Hu Hp) as [->|]; [by left|right; lia].
Qed.

Lemma huff_decode_ok idx s bits : at_bits s bits ->
  exists v k, found sizes bits v k /\ (k <= 15)%nat /\
    reads (TINFL_HUFF_DECODE bitbuf64 decomp_flags idx t) s v (drop k bits).
Proof.
  intros Hs. destruct (huff_decode_steps idx s bits Hs) as (v & k & s' & Hf & Hk & E & Hb & Ho & _).
  exists v, k. split; [done|]. split; [done|]. by exists s'.
Qed.

(** In the fast loop the symbol comes with the size of its word above it. *)
Lemma decode_fast_ok s bits : at_bits s bits -> 15 <= s.(num_bits) ->
  exists r v k s', found sizes bits v k /\ (k <= 15)%nat /\ (r &&& 511) = v /\
    decode_fast bitbuf64 t s = Ret (Next r s') /\ at_bits s' (drop k bits) /\ same_out s s' /\
    s'.(num_bits) = s.(num_bits) - Z.of_nat k /\ s'.(pIn_buf) = s.(pIn_buf).
Proof.
  intros Hs H15. destruct (there_ok s bits Hs (or_introl H15)) as (v & k & El & Hk & Hf & s2 & Ed & H2).
  unfold decode_fast, mbind, T_bind, get_io, t_lift. unfold look_up, mbind, outcome_bind in El.
  destruct (arr t.(m_look_up) _) as [temp|]; [|done]. destruct (0 <=? temp).
  - injection El as Ev Ek. exists temp, v, k, s2. split_and!; try done; try apply H2. by rewrite Ek, Ed.
  - exists v, v, k, s2. split_and!; try done; try apply H2; [|by rewrite El, Ed].
    change 511 with (2 ^ 9 - 1). rewrite land_ones_wrap, wrap_small; [done| |lia].
    eapply found_range in Hf; [|done..]. change (2 ^ 9) with 512. lia.
Qed.
End words.
End reading.
