(* ===== verification/TinflCopy.v ===== *)
(** * TinflCopy: what tinfl.c writes

    The output is the front of the buffer ([holds]); bytes may be written ahead of
    [pOut_buf_cur] before it moves ([ahead]).  The ways in which a match is copied, byte by
    byte, by threes or by words, all do what [copy_back] says ([copy_out_ok]). *)
From S2P Require Import Prelude Bits Inflate Tinfl Huffman TinflRead.

Definition same_bits (s s' : io) : Prop :=
  s'.(num_bits) = s.(num_bits) /\ s'.(bit_buf) = s.(bit_buf) /\ s'.(pIn_buf) = s.(pIn_buf).

Lemma same_bits_trans s1 s2 s3 : same_bits s1 s2 -> same_bits s2 s3 -> same_bits s1 s3.
Proof. intros (? & ? & ?) (? & ? & ?). split_and!; congruence. Qed.

Lemma same_bits_at s s' bits : same_bits s s' -> at_bits s bits -> at_bits s' bits.
Proof. intros (E1 & E2 & E3) (l & k & H). exists l, k. by rewrite E1, E2, E3. Qed.

Section output.
Context (size : Z).

(** The buffer, of [size] bytes, starts with [out] and then [ahead]. *)
Definition writes_ahead (s : io) (out ahead : list byte) : Prop :=
  s.(pOut_buf_cur) = len out /\ len s.(pOut_buf) = size /\
  take (length (out ++ ahead)) s.(pOut_buf) = out ++ ahead.
Definition holds (s : io) (out : list byte) : Prop := writes_ahead s out [].

Lemma writes_ahead_room s out ahead : writes_ahead s out ahead -> len out + len ahead <= size.
Proof.
  intros (_ & Hl & Ht). apply (f_equal length) in Ht. rewrite length_take, !length_app in Ht. lia.
Qed.

Lemma same_out_holds s s' out : same_out s s' -> holds s out -> holds s' out.
Proof. intros [E1 E2] (H1 & H2 & H3). unfold holds, writes_ahead. by rewrite E1, E2. Qed.

(** [c] writes: the output is [out] and [ahead] after it. *)
Definition writes {A} (c : T A) (s : io) (a : A) (out ahead : list byte) : Prop :=
  exists s', c s = Ret (Next a s') /\ writes_ahead s' out ahead /\ same_bits s s'.

Lemma writes_bind {A B} (c : T A) (f : A -> T B) s a out ahead b out' ahead' :
  writes c s a out ahead -> (forall s', writes_ahead s' out ahead -> writes (f a) s' b out' ahead') ->
  writes (c ≫= f) s b out' ahead'.
Proof.
  intros (s1 & E & H1 & Ho) Hf. destruct (Hf s1 H1) as (s2 & E2 & H2 & Ho2).
  exists s2. split_and!; [|done|by eapply same_bits_trans]. unfold mbind, T_bind. by rewrite E.
Qed.

Lemma writes_ret {A} (a : A) s out ahead : writes_ahead s out ahead -> writes (mret a) s a out ahead.
Proof. intros H. exists s. by split_and!. Qed.

(** ** Single bytes *)

Lemma take_insert_snoc {A} (l : list A) n x front :
  take n l = front -> length front = n -> (n < length l)%nat -> take (S n) (<[n:=x]> l) = front ++ [x].
Proof.
  intros Ht Hn Hl. rewrite (take_S_r _ _ x) by (by apply list_lookup_insert_eq).
  by rewrite take_insert_ge, Ht by lia.
Qed.

Lemma poke_ok s out ahead c : writes_ahead s out ahead -> len out + len ahead < size ->
  writes (poke (len ahead) c) s tt out (ahead ++ [byte_of c]).
Proof.
  intros (Hc & Hl & Ht) Hroom. unfold writes, poke. rewrite Hc, arr_set_ok by lia.
  eexists. split; [done|]. split; [|done]. unfold writes_ahead, set_out. cbn [pOut_buf pOut_buf_cur].
  split_and!; [done|by rewrite zinsert_length|]. rewrite zinsert_insert by lia.
  rewrite app_assoc, length_app. cbn [length]. rewrite Nat.add_1_r.
  replace (Z.to_nat (len out + len ahead)) with (length (out ++ ahead)) by (rewrite length_app; lia).
  apply take_insert_snoc; [done..|rewrite length_app; lia].
Qed.

Lemma advance_ok s out ahead : writes_ahead s out ahead -> writes (advance (len ahead)) s tt (out ++ ahead) [].
Proof.
  intros (Hc & Hl & Ht). eexists. split; [done|]. split; [|done]. unfold writes_ahead, set_out.
  cbn [pOut_buf pOut_buf_cur]. rewrite app_nil_r. split_and!; [rewrite length_app; lia|done|done].
Qed.

Lemma put_ok s out b : holds s out -> len out < size -> writes (put b) s tt (out ++ [b]) [].
Proof.
  intros (Hc & Hl & Ht) Hroom. unfold writes, put. rewrite Hc, arr_set_ok by lia.
  eexists. split; [done|]. split; [|done]. unfold writes_ahead, set_out. cbn [pOut_buf pOut_buf_cur].
  rewrite !app_nil_r in *. split_and!; [rewrite length_app; cbn; lia|by rewrite zinsert_length|].
  rewrite zinsert_insert, length_app, Nat2Z.id by lia. cbn [length]. rewrite Nat.add_1_r.
  apply take_insert_snoc; [done..|lia].
Qed.

Lemma room_ok idx s out : holds s out -> room idx s =
  if len out <? size then Ret (Next tt s) else Ret (Return idx TINFL_STATUS_HAS_MORE_OUTPUT s).
Proof.
  intros (Hc & Hl & _). unfold room, mbind, T_bind, get_io. rewrite Hc, Hl. zbool; done || lia.
Qed.

(** ** Matches *)

Lemma copy_back_app n m d out : copy_back (n + m) d out = copy_back m d (copy_back n d out).
Proof. revert out. induction n as [|n IH]; intros out; [done|]. apply IH. Qed.

Lemma copy_back_length n d out : length (copy_back n d out) = (length out + n)%nat.
Proof. revert out. induction n as [|n IH]; intros out; cbn [copy_back]; [lia|]. rewrite IH, length_app. cbn. lia. Qed.

(** What is in the buffer at the distance [d] from what is written. *)
Lemma source_byte s out ahead d : writes_ahead s out ahead -> 1 <= d <= len out + len ahead ->
  arr s.(pOut_buf) (len out + len ahead - d) =
  Ret ((out ++ ahead) !!! Z.to_nat (len (out ++ ahead) - d)).
Proof.
  intros (_ & Hl & Ht) Hd. rewrite length_app. apply arr_ok. rewrite zlookup_lookup by lia.
  replace (Z.to_nat (Z.of_nat (length out + length ahead) - d)) with (Z.to_nat (len out + len ahead - d)) by lia.
  set (i := Z.to_nat (len out + len ahead - d)).
  assert (i < length (out ++ ahead))%nat as Hi by (rewrite length_app; subst i; lia).
  rewrite list_lookup_total_alt. destruct (lookup_lt_is_Some_2 _ _ Hi) as [x Hx]. rewrite Hx. cbn.
  rewrite <- Ht in Hx. rewrite lookup_take in Hx. by case_decide.
Qed.

(** [n] bytes of the match are written ahead. *)
Definition copied (s : io) (out : list byte) (d : Z) (n : nat) : Prop :=
  exists ahead, copy_back n d out = out ++ ahead /\ writes_ahead s out ahead.

Lemma copied_length n d (out ahead : list byte) : copy_back n d out = out ++ ahead -> length ahead = n.
Proof. intros E. apply (f_equal length) in E. rewrite copy_back_length, length_app in E. lia. Qed.

Lemma copied_0 s out d : holds s out -> copied s out d 0.
Proof. intros H. exists []. split; [by rewrite app_nil_r|done]. Qed.

Lemma copy_byte_ok s out d n : copied s out d n -> 1 <= d <= len out -> len out + Z.of_nat n < size ->
  exists s', copy_byte (len out - d) (Z.of_nat n) s = Ret (Next tt s') /\ same_bits s s' /\ copied s' out d (S n).
Proof.
  intros (ahead & Ec & Hw) Hd Hroom. pose proof (copied_length _ _ _ _ Ec) as El. unfold copy_byte.
  replace (len out - d + Z.of_nat n) with (len out + len ahead - d) by lia.
  rewrite (source_byte s out ahead d Hw) by lia. rewrite <- El.
  destruct (poke_ok s out ahead (byte_val ((out ++ ahead) !!! Z.to_nat (len (out ++ ahead) - d))) Hw ltac:(lia))
    as (s' & -> & Hw' & Hs). rewrite byte_of_val in Hw'.
  exists s'. split_and!; [done..|]. eexists. split; [|exact Hw'].
  rewrite El. replace (S n) with (n + 1)%nat by lia. rewrite copy_back_app, Ec. cbn [copy_back].
  by rewrite <- app_assoc.
Qed.

Lemma advance_copied s out d n : copied s out d n ->
  exists s', advance (Z.of_nat n) s = Ret (Next tt s') /\ same_bits s s' /\ holds s' (copy_back n d out).
Proof.
  intros (ahead & Ec & Hw). pose proof (copied_length _ _ _ _ Ec) as <-.
  destruct (advance_ok s out ahead Hw) as (s' & -> & Hh & Hs). exists s'. by rewrite Ec.
Qed.

(** Where the match goes on. *)
Lemma copy_back_source n d out : len out - d + Z.of_nat n = len (copy_back n d out) - d.
Proof. rewrite copy_back_length. lia. Qed.

Ltac next_byte n :=
  match goal with H : copied ?s ?out ?d n |- _ =>
    let s' := fresh "s" in let E := fresh "E" in let Hs := fresh "Hs" in let Hc := fresh "Hc" in
    destruct (copy_byte_ok s out d n H) as (s' & E & Hs & Hc); [lia..|];
    unfold mbind at 1, T_bind at 1;
    match type of E with context [Z.of_nat n] => let z := eval cbv in (Z.of_nat n) in change (Z.of_nat n) with z in E end;
    rewrite E; clear E; cbn beta iota
  end.

Lemma copy_tail_ok s out d (n : nat) : holds s out -> 1 <= d <= len out -> (n <= 2)%nat -> len out + Z.of_nat n <= size ->
  writes (copy_tail (len out - d) (Z.of_nat n)) s tt (copy_back n d out) [].
Proof.
  intros Hh Hd Hn Hroom. pose proof (copied_0 _ _ d Hh) as H0. unfold copy_tail, writes.
  destruct n as [|[|[|]]]; [by exists s| | |lia].
  - change (0 <? Z.of_nat 1) with true. change (1 <? Z.of_nat 1) with false. cbn iota.
    next_byte 0%nat. unfold mbind at 1, T_bind at 1, mret at 1, T_ret at 1. cbn beta iota.
    destruct (advance_copied _ _ _ _ Hc) as (s' & -> & Hs' & Hh'). exists s'.
    split_and!; [done..|by eapply same_bits_trans].
  - change (0 <? Z.of_nat 2) with true. change (1 <? Z.of_nat 2) with true. cbn iota.
    next_byte 0%nat. next_byte 1%nat.
    destruct (advance_copied _ _ _ _ Hc0) as (s' & -> & Hs' & Hh'). exists s'.
    split_and!; [done..|]. eapply same_bits_trans; [done|by eapply same_bits_trans].
Qed.

Lemma copy_triples_ok turns : forall s out d (n : nat), holds s out -> 1 <= d <= len out -> (3 <= n <= 3 * turns + 2)%nat ->
  len out + Z.of_nat n <= size ->
  writes (copy_triples turns (len out - d) (Z.of_nat n)) s tt (copy_back n d out) [].
Proof.
  induction turns as [|turns IH]; intros s out d n Hh Hd Hn Hroom; [lia|]. cbn [copy_triples].
  pose proof (copied_0 _ _ d Hh) as H0. unfold writes. next_byte 0%nat. next_byte 1%nat. next_byte 2%nat.
  destruct (advance_copied _ _ _ _ Hc1) as (s3 & E & Hs3 & Hh3). change (Z.of_nat 3) with 3 in E.
  unfold mbind at 1, T_bind at 1. rewrite E. clear E. cbn beta iota.
  replace n with (3 + (n - 3))%nat by lia. rewrite copy_back_app.
  replace (Z.of_nat (3 + (n - 3)) - 3) with (Z.of_nat (n - 3)) by lia.
  change (len out - d + 3) with (len out - d + Z.of_nat 3). rewrite (copy_back_source 3 d out).
  assert (len (copy_back 3 d out) = len out + 3) as El by (rewrite copy_back_length; lia).
  assert (exists s', (if 2 <? Z.of_nat (n - 3)
     then copy_triples turns (len (copy_back 3 d out) - d) (Z.of_nat (n - 3))
     else copy_tail (len (copy_back 3 d out) - d) (Z.of_nat (n - 3))) s3 = Ret (Next tt s') /\
     holds s' (copy_back (n - 3) d (copy_back 3 d out)) /\ same_bits s3 s') as (s' & -> & Hh' & Hs').
  { destruct (Z.ltb_spec 2 (Z.of_nat (n - 3))); [apply IH|apply copy_tail_ok]; (done || lia). }
  exists s'. split_and!; [done..|]. repeat (eapply same_bits_trans; [done|]). done.
Qed.

(** Words lie before what is written. *)
Lemma copy_back_slice n d out : (Z.of_nat n <= d <= len out) -> copy_back n d out = out ++ slice out (len out - d) (Z.of_nat n).
Proof.
  revert out. induction n as [|n IH]; intros out Hd; cbn [copy_back].
  - by rewrite slice_zero, app_nil_r.
  - rewrite IH by (rewrite length_app; cbn; lia). rewrite <- app_assoc, length_app. cbn [length]. f_equal.
    replace (Z.of_nat (S n)) with (1 + Z.of_nat n) by lia. rewrite slice_split by lia. f_equal.
    + unfold slice. rewrite (Z.min_l (len out - d)), Z.min_l by lia. change (Z.to_nat 1) with 1%nat.
      destruct (drop (Z.to_nat (len out - d)) out) as [|x l] eqn:E.
      { apply (f_equal length) in E. rewrite length_drop in E. cbn in E. lia. }
      cbn. f_equal. rewrite list_lookup_total_alt, <- (Nat.add_0_r (Z.to_nat _)), <- lookup_drop, E. done.
    + replace (Z.of_nat (length out + 1) - d) with (len out - d + 1) by lia. apply slice_app_l; lia.
Qed.

Lemma copy_word_ok s out d (i : nat) : copied s out d (4 * i) -> Z.of_nat (4 * i + 4) <= d <= len out ->
  len out + Z.of_nat (4 * i + 4) <= size ->
  exists s', copy_word (len out - d) (Z.of_nat i) s = Ret (Next tt s') /\ same_bits s s' /\ copied s' out d (4 * i + 4).
Proof.
  intros (ahead & Ec & Hc & Hl & Ht) Hd Hroom. pose proof (copied_length _ _ _ _ Ec) as El. unfold copy_word.
  rewrite mem_read_ok by lia. rewrite Hc.
  destruct (Z.leb_spec (len out + 4 * Z.of_nat i + 4) (len s.(pOut_buf))) as [_|]; [|lia].
  eexists. split_and!; [done..|].
  exists (slice out (len out - d) (Z.of_nat (4 * i + 4))). split; [apply copy_back_slice; lia|].
  assert (ahead = slice out (len out - d) (Z.of_nat (4 * i))) as Ea.
  { rewrite copy_back_slice in Ec by lia. by apply app_inv_head in Ec. }
  assert (slice s.(pOut_buf) (len out - d + 4 * Z.of_nat i) 4 = slice out (len out - d + 4 * Z.of_nat i) 4) as Es.
  { rewrite <- (take_drop (length (out ++ ahead)) s.(pOut_buf)), Ht, <- app_assoc. apply slice_app_l; lia. }
  assert (slice out (len out - d) (Z.of_nat (4 * i + 4)) = ahead ++ slice out (len out - d + 4 * Z.of_nat i) 4) as Ew.
  { rewrite Ea. replace (Z.of_nat (4 * i + 4)) with (Z.of_nat (4 * i) + 4) by lia. rewrite slice_split by lia.
    do 2 f_equal. lia. }
  unfold writes_ahead, set_out. cbn [pOut_buf pOut_buf_cur].
  assert (len (slice s.(pOut_buf) (len out - d + 4 * Z.of_nat i) 4) = 4) as E4 by (rewrite slice_length; lia).
  split_and!; [done| |].
  - rewrite !length_app, length_take, length_drop. lia.
  - rewrite Ew, Es in *.
    replace (Z.to_nat (len out + 4 * Z.of_nat i)) with (length (out ++ ahead)) by (rewrite length_app; lia).
    rewrite Ht, !app_assoc. apply take_app_length'. by rewrite <- !app_assoc.
Qed.

Lemma copy_words_ok turns : forall s out d (n : nat), holds s out -> (1 <= n <= turns)%nat ->
  8 <= d <= len out -> len out + 8 * Z.of_nat n <= size ->
  writes (copy_words turns (len out - d) (len out - d + 8 * Z.of_nat n)) s (len out - d + 8 * Z.of_nat n)
    (copy_back (8 * n) d out) [].
Proof.
  induction turns as [|turns IH]; intros s out d n Hh Hn Hd Hroom; [lia|]. cbn [copy_words]. unfold writes.
  destruct (copy_word_ok s out d 0 (copied_0 _ _ _ Hh)) as (s1 & E & Hs1 & Hc1); [lia..|].
  change (Z.of_nat 0) with 0 in E. unfold mbind at 1, T_bind at 1. rewrite E. clear E. cbn beta iota.
  destruct (copy_word_ok s1 out d 1 Hc1) as (s2 & E & Hs2 & Hc2); [lia..|].
  change (Z.of_nat 1) with 1 in E. unfold mbind at 1, T_bind at 1. rewrite E. clear E. cbn beta iota.
  destruct (advance_copied _ _ _ _ Hc2) as (s3 & E & Hs3 & Hh3). change (Z.of_nat (4 * 1 + 4)) with 8 in E.
  unfold mbind at 1, T_bind at 1. rewrite E. clear E. cbn beta iota. change (4 * 1 + 4)%nat with 8%nat in Hh3.
  destruct (Z.ltb_spec (len out - d + 8) (len out - d + 8 * Z.of_nat n)).
  - replace (8 * n)%nat with (8 + 8 * (n - 1))%nat by lia. rewrite copy_back_app.
    assert (len (copy_back 8 d out) = len out + 8) as El by (rewrite copy_back_length; lia).
    destruct (IH s3 (copy_back 8 d out) d (n - 1)%nat Hh3) as (s' & E & Hh' & Hs'); [lia..|].
    replace (len (copy_back 8 d out) - d) with (len out - d + 8) in E by lia.
    replace (len out - d + 8 + 8 * Z.of_nat (n - 1)) with (len out - d + 8 * Z.of_nat n) in E by lia.
    exists s'. split_and!; [done..|]. repeat (eapply same_bits_trans; [done|]). done.
  - assert (n = 1%nat) as -> by lia. exists s3. split_and!; [done|done|].
    repeat (eapply same_bits_trans; [done|]). done.
Qed.

Lemma copy_fast_ok unaligned s out d (n : nat) : holds s out -> 1 <= d <= len out -> (3 <= n)%nat ->
  len out + Z.of_nat n <= size ->
  writes (copy_fast unaligned (len out - d) (Z.of_nat n) d) s tt (copy_back n d out) [].
Proof.
  intros Hh Hd Hn Hroom. unfold copy_fast.
  destruct (unaligned && (9 <=? Z.of_nat n) && (Z.of_nat n <=? d)) eqn:Eb.
  2: { apply copy_triples_ok; [done..|lia|lia]. }
  apply andb_true_iff in Eb as [Eb Hnd%Z.leb_le]. apply andb_true_iff in Eb as [_ H9%Z.leb_le].
  assert (Z.land (Z.of_nat n) (Z.lnot 7) = 8 * Z.of_nat (n / 8)) as ->.
  { change 7 with (Z.ones 3). rewrite <- Z.ldiff_land, Z.ldiff_ones_r, Z.shiftl_mul_pow2, Z.shiftr_div_pow2 by lia.
    rewrite Nat2Z.inj_div. change (Z.of_nat 8) with 8. change (2 ^ 3) with 8. lia. }
  assert ((Z.of_nat n &&& 7) = Z.of_nat (n mod 8)) as Em.
  { change 7 with (2 ^ 3 - 1). rewrite land_ones_wrap by lia. unfold wrap. by rewrite Nat2Z.inj_mod. }
  pose proof (Nat.div_mod_eq n 8) as Hdm. pose proof (Nat.mod_upper_bound n 8 ltac:(lia)) as Hm.
  eapply writes_bind; [apply copy_words_ok; [done|lia..]|]. intros s1 Hh1. cbn beta. rewrite Em.
  set (out1 := copy_back (8 * (n / 8)) d out) in *.
  assert (len out1 = len out + 8 * Z.of_nat (n / 8)) as El by (subst out1; rewrite copy_back_length; lia).
  replace (len out - d + 8 * Z.of_nat (n / 8)) with (len out1 - d) by lia.
  assert (copy_back n d out = copy_back (n mod 8) d out1) as ->
    by (subst out1; rewrite <- copy_back_app; f_equal; lia).
  destruct (Z.ltb_spec (Z.of_nat (n mod 8)) 3).
  - apply copy_tail_ok; [done|lia..].
  - apply copy_triples_ok; [done|lia..].
Qed.
End output.
