(* ===== verification/TinflOk.v ===== *)
(** * TinflOk: tinfl.c decodes zlib streams

    Against the reference of Inflate: what is a stream to it is decoded to the same data, by
    the fast loop and the slow one, with a bit buffer of 32 or 64 bits, and with words copied
    as such or not. *)
From S2P Require Import Prelude Decompress Bits Inflate Tinfl Huffman HuffTable TinflRead TinflCopy.

Lemma D_bind_inv {A B} (m : D A) (k : A -> D B) bits b rest :
  (m ≫= k) bits = Some (b, rest) -> exists a bits', m bits = Some (a, bits') /\ k a bits' = Some (b, rest).
Proof. unfold mbind, D_bind. destruct (m bits) as [[a bits']|] eqn:E; [|done]. eauto. Qed.

(** The output only grows. *)
Lemma symbols_grow lit dist n : forall bits out out' rest,
  inflate_symbols n lit dist out bits = Some (out', rest) -> len out <= len out'.
Proof.
  induction n as [|n IH]; intros bits out out' rest; [done|]. cbn [inflate_symbols].
  intros (sym & bits1 & _ & H)%D_bind_inv. destruct (sym <? 256).
  - apply IH in H. rewrite length_app in H. lia.
  - unfold inflate_match in H. destruct (sym =? 256); [by injection H as -> _|].
    apply D_bind_inv in H as (l & bits2 & _ & H). apply D_bind_inv in H as (ds & bits3 & _ & H).
    apply D_bind_inv in H as (d & bits4 & _ & H). destruct (len out <? d); [done|].
    apply IH in H. rewrite copy_back_length in H. lia.
Qed.

Section codes.
Context (bitbuf64 unaligned : bool) (decomp_flags : Z) (size : Z).
Context (Hflag : flag decomp_flags TINFL_FLAG_HAS_MORE_INPUT = false) (Hsize : size <= 2 ^ 62).
Abbreviation mask := (2 ^ 64 - 1).

(** [c] gives [a] and goes on at [bits], with [out] written. *)
Definition does {A} (c : T A) (s : io) (a : A) (bits : list bool) (out : list byte) : Prop :=
  exists s', c s = Ret (Next a s') /\ at_bits s' bits /\ holds size s' out.

Definition ready (s : io) (bits : list bool) (out : list byte) : Prop := at_bits s bits /\ holds size s out.

Lemma does_reads {A} (c : T A) s a rest out : holds size s out -> reads c s a rest -> does c s a rest out.
Proof. intros H (s' & E & Hb & Ho). exists s'. split_and!; [done..|by eapply same_out_holds]. Qed.

Lemma does_writes {A} (c : T A) s a bits out : at_bits s bits -> writes size c s a out [] -> does c s a bits out.
Proof. intros H (s' & E & Hw & Hs). exists s'. split_and!; [done|by eapply same_bits_at|done]. Qed.

Lemma does_then {A B} (c : T A) (f : A -> T B) s a bits out b bits' out' :
  does c s a bits out -> (forall s', ready s' bits out -> does (f a) s' b bits' out') -> does (c ≫= f) s b bits' out'.
Proof.
  intros (s1 & E & Hb & Hh) Hf. destruct (Hf s1 (conj Hb Hh)) as (s2 & E2 & H2).
  exists s2. split; [|done]. unfold mbind, T_bind. by rewrite E.
Qed.

Lemma does_return {A} (a : A) s bits out : ready s bits out -> does (mret a) s a bits out.
Proof. intros [H1 H2]. by exists s. Qed.

Lemma does_get_io {B} (f : io -> T B) s b bits out : does (f s) s b bits out -> does (s ← get_io; f s) s b bits out.
Proof. done. Qed.

Lemma does_lift {A B} (o : outcome A) a (f : A -> T B) s b bits out :
  o = Ret a -> does (f a) s b bits out -> does (t_lift o ≫= f) s b bits out.
Proof. by intros ->. Qed.

(** ** The reference's decoders *)

Lemma take_bits_inv n bits v rest : take_bits n bits = Some (v, rest) ->
  v = bits_val (pad n bits) /\ rest = drop n bits /\ (n <= length bits)%nat.
Proof. unfold take_bits. case_decide; [|done]. intros [= <- <-]. by rewrite pad_take. Qed.

Lemma take_bits_range n bits v rest : take_bits n bits = Some (v, rest) -> 0 <= v < 2 ^ Z.of_nat n.
Proof. intros (-> & _ & _)%take_bits_inv. pose proof (bits_val_range (pad n bits)) as H. by rewrite pad_length in H. Qed.

Lemma does_bits idx (n : nat) s bits out v rest : ready s bits out -> (n <= 16)%nat -> take_bits n bits = Some (v, rest) ->
  does (TINFL_GET_BITS bitbuf64 decomp_flags idx (Z.of_nat n)) s v rest out.
Proof. intros [Hb Hh] Hn (-> & -> & _)%take_bits_inv. apply does_reads; [done|]. by apply get_bits_ok. Qed.

Section tables.
Context (sizes : list Z) (Hv : valid_sizes sizes) (Hn : (length sizes <= 288)%nat).
Context (t : tinfl_huff_table) (Ht : table_for sizes t).

Lemma found_decode bits v k z rest : found sizes bits v k -> decode_sym sizes bits = Some (z, rest) ->
  v = z /\ drop k bits = rest.
Proof.
  intros Hf (sym & -> & Hu & ->)%decode_sym_inv.
  assert (v = Z.of_nat sym /\ k = length (code_of sizes sym)) as [-> ->]
    by (eapply found_code; [done..|by apply prefix_app_r]).
  split; [done|]. apply drop_app_length.
Qed.

Lemma does_sym idx s bits out z rest : ready s bits out -> decode_sym sizes bits = Some (z, rest) ->
  does (TINFL_HUFF_DECODE bitbuf64 decomp_flags idx t) s z rest out.
Proof.
  intros [Hb Hh] Hd. destruct (huff_decode_ok bitbuf64 decomp_flags Hflag sizes Hv Hn t Ht idx s bits Hb)
    as (v & k & Hf & _ & Hr). destruct (found_decode _ _ _ _ _ Hf Hd) as [-> <-]. by apply does_reads.
Qed.
End tables.

Lemma decode_sym_range sizes bits z rest : decode_sym sizes bits = Some (z, rest) -> 0 <= z < len sizes.
Proof.
  intros (sym & -> & Hu & _)%decode_sym_inv. unfold used in Hu. destruct (sizes !! sym) eqn:E; [|done].
  apply lookup_lt_Some in E. lia.
Qed.

Lemma decode_sym_shorter sizes bits z rest : valid_sizes sizes -> decode_sym sizes bits = Some (z, rest) -> (length rest < length bits)%nat.
Proof.
  intros Hv (sym & -> & Hu & ->)%decode_sym_inv. pose proof (code_length sizes Hv sym Hu). rewrite length_app. lia.
Qed.

(** ** Lengths and distances *)

Definition gives (o : outcome Z) (z : Z) : bool := match o with Ret x => x =? z | Crash _ => false end.

Lemma gives_inv o z : gives o z = true -> o = Ret z.
Proof. destruct o; [|done]. cbn. by intros ->%Z.eqb_eq. Qed.

Definition table_check (code : Z -> option (Z * nat)) (extras bases : list Z) (first least most : Z) : bool :=
  forallb (fun i => match code (first + i) with
    | Some (base, extra) => gives (arr extras i) (Z.of_nat extra) && gives (arr bases i) base &&
                            (Z.of_nat extra <=? most) && (least <=? base)
    | None => true
    end) (seqZ 0 32).

Lemma table_check_inv code extras bases first least most : table_check code extras bases first least most = true ->
  forall sym base extra, first <= sym < first + 32 -> code sym = Some (base, extra) ->
  arr extras (sym - first) = Ret (Z.of_nat extra) /\ arr bases (sym - first) = Ret base /\
  Z.of_nat extra <= most /\ least <= base.
Proof.
  unfold table_check. rewrite forallb_forall. intros H sym base extra Hs Hc.
  specialize (H (sym - first)). rewrite <- list_elem_of_In, elem_of_seqZ in H. specialize (H ltac:(lia)).
  replace (first + (sym - first)) with sym in H by lia. rewrite Hc in H.
  rewrite !andb_true_iff, !Z.leb_le in H. destruct H as [[[H1%gives_inv H2%gives_inv] ?] ?]. done.
Qed.

Lemma length_tables sym base extra : length_code sym = Some (base, extra) ->
  arr s_length_extra (sym - 257) = Ret (Z.of_nat extra) /\ arr s_length_base (sym - 257) = Ret base /\
  Z.of_nat extra <= 5 /\ 3 <= base.
Proof.
  intros H. apply (table_check_inv length_code _ _ 257 3 5); [by vm_compute| |done].
  unfold length_code in H. zbool; lia || done.
Qed.

Lemma dist_tables sym base extra : 0 <= sym -> dist_code sym = Some (base, extra) ->
  arr s_dist_extra sym = Ret (Z.of_nat extra) /\ arr s_dist_base sym = Ret base /\
  Z.of_nat extra <= 13 /\ 1 <= base.
Proof.
  intros H0 H. replace sym with (sym - 0) by lia. apply (table_check_inv dist_code _ _ 0 1 13); [by vm_compute| |done].
  unfold dist_code in H. zbool; lia || done.
Qed.

(** A base and its extra bits. *)
Lemma does_number idx base extra s bits out v rest : ready s bits out -> Z.of_nat extra <= 13 ->
  number (Some (base, extra)) bits = Some (v, rest) ->
  does (if Z.of_nat extra =? 0 then mret 0 else TINFL_GET_BITS bitbuf64 decomp_flags idx (Z.of_nat extra)) s
    (v - base) rest out /\ base <= v.
Proof.
  intros Hr He (n & bits' & Ht & [= <- <-])%D_bind_inv. pose proof (take_bits_range _ _ _ _ Ht).
  replace (base + n - base) with n by lia. split; [|lia].
  destruct (Z.eqb_spec (Z.of_nat extra) 0) as [E0|]; [|eapply does_bits; [exact Hr|lia|exact Ht]].
  assert (extra = 0%nat) as -> by lia. apply take_bits_inv in Ht as (-> & -> & _). rewrite drop_0. by apply does_return.
Qed.

(** ** A match *)
Section block.
Context (lit dist : list Z) (Hlit : valid_sizes lit) (Hdist : valid_sizes dist).
Context (Hll : (length lit <= 288)%nat) (Hdl : (length dist <= 288)%nat).
Context (t0 t1 : tinfl_huff_table) (Ht0 : table_for lit t0) (Ht1 : table_for dist t1).

Lemma source_in_buffer s out d : holds size s out -> 0 <= d <= len out ->
  (u64 (s.(pOut_buf_cur) - d) &&& mask) = len out - d.
Proof.
  intros Hh Hd. pose proof (writes_ahead_room size s out [] Hh) as Hr. destruct Hh as (-> & _ & _).
  cbn [length] in Hr. rewrite land_ones_wrap, wrap_wrap, wrap_small; lia.
Qed.

Lemma copy_match_ok (sym : Z) s bits out l bits1 dsym bits2 d rest :
  ready s bits out -> number (length_code sym) bits = Some (l, bits1) ->
  decode_sym dist bits1 = Some (dsym, bits2) -> number (dist_code dsym) bits2 = Some (d, rest) ->
  d <= len out -> len out + l <= size ->
  does (copy_match bitbuf64 unaligned decomp_flags mask t1 sym) s tt rest (copy_back (Z.to_nat l) d out).
Proof.
  intros Hr Hl Hds Hd Hdle Hroom. unfold copy_match.
  destruct (length_code sym) as [[base extra]|] eqn:El; [|done].
  destruct (length_tables _ _ _ El) as (-> & -> & He & Hb).
  apply does_lift with (1 := eq_refl), does_lift with (1 := eq_refl).
  destruct (does_number 25 base extra s bits out l bits1 Hr ltac:(lia) Hl) as [H1 Hbl].
  eapply does_then; [exact H1|]. clear H1. intros s1 Hr1. cbn beta. replace (base + (l - base)) with l by lia.
  eapply does_then; [by eapply (does_sym dist Hdist Hdl t1 Ht1)|]. intros s2 Hr2.
  pose proof (decode_sym_range _ _ _ _ Hds) as Hdr.
  destruct (dist_code dsym) as [[dbase dextra]|] eqn:Edc; [|done].
  destruct (dist_tables _ _ _ (proj1 Hdr) Edc) as (-> & -> & Hde & Hdb).
  apply does_lift with (1 := eq_refl), does_lift with (1 := eq_refl).
  destruct (does_number 27 dbase dextra s2 bits2 out d rest Hr2 ltac:(lia) Hd) as [H1 Hdl'].
  eapply does_then; [exact H1|]. clear H1. intros s3 [Hb3 Hh3]. apply does_get_io. cbn beta zeta.
  replace (dbase + (d - dbase)) with d by lia.
  rewrite (source_in_buffer s3 out d Hh3) by lia. pose proof Hh3 as (Hc & Hs & _). rewrite Hc, Hs.
  destruct (Z.ltb_spec (len out) d); [lia|]. cbn [andb].
  destruct (Z.ltb_spec size (Z.max (len out) (len out - d) + l)); [lia|].
  apply does_writes; [done|]. rewrite <- (Z2Nat.id l) by lia. rewrite Nat2Z.id. apply copy_fast_ok; try done; lia.
Qed.

(** ** Literals *)

Lemma land_256 r : (r &&& 256 =? 0) = ((r &&& 511) <? 256).
Proof.
  change 511 with (2 ^ 9 - 1). rewrite land_ones_wrap by lia. unfold wrap. change (2 ^ 9) with 512.
  assert ((r &&& 256) = Z.b2z (Z.testbit r 8) * 256) as ->.
  { apply Z.bits_inj'. intros i Hi. rewrite Z.land_spec. change 256 with (2 ^ 8). rewrite Z.mul_pow2_bits, Z.pow2_bits_eqb by lia.
    destruct (Z.eqb_spec 8 i) as [<-|]; [rewrite andb_true_r, Z.sub_diag; by destruct (Z.testbit r 8)|].
    rewrite andb_false_r. symmetry. destruct (Z.lt_ge_cases i 8); [by rewrite Z.testbit_neg_r by lia|].
    destruct (Z.testbit r 8); [|by rewrite Z.bits_0]. cbn. rewrite Z.bits_above_log2; [done|lia|cbn; lia]. }
  rewrite Z.testbit_eqb by lia. change (2 ^ 8) with 256. pose proof (Z.mod_pos_bound r 512 ltac:(lia)).
  destruct (Z.eqb_spec ((r / 256) mod 2) 1); cbn; zbool; try done; exfalso; dlia.
Qed.

Lemma byte_of_511 r : byte_of r = byte_of (r &&& 511).
Proof.
  unfold byte_of. change 511 with (2 ^ 9 - 1). rewrite land_ones_wrap by lia. unfold wrap.
  change (2 ^ 9) with (256 * 2). by rewrite (Z.rem_mul_r r 256 2), (Z.mul_comm 256), Z_mod_plus_full, Zmod_mod by lia.
Qed.

Lemma refill_ok (first : bool) s bits out : ready s bits out ->
  (bitbuf64 = false \/ first = true -> (if first then 4 else 2) <= len s.(pIn_buf)) ->
  (first = false -> bitbuf64 = true -> 15 <= s.(num_bits)) ->
  exists s', refill_fast bitbuf64 first s = Ret (Next tt s') /\ ready s' bits out /\
    (if bitbuf64 && first then 30 else 15) <= s'.(num_bits) /\
    (bitbuf64 = false -> len s.(pIn_buf) - 2 <= len s'.(pIn_buf)).
Proof.
  intros [Hb Hh] Hin H15. unfold refill_fast, mbind, T_bind, get_io.
  assert (0 <= s.(num_bits)) by (destruct Hb as (l & ? & -> & _); lia).
  destruct bitbuf64 eqn:E64.
  - destruct first; cbn [andb].
    + destruct (Z.ltb_spec s.(num_bits) 30) as [Hlt|]; [|exists s; by split_and!].
      change 4 with (Z.of_nat 4). destruct (read_le_ok true 4 s bits Hb) as (s' & -> & Hb' & Ho & Hn);
        [lia|specialize (Hin ltac:(by right)); lia|change (TINFL_BITBUF_SIZE true) with 64; lia|].
      exists s'. split_and!; [done..|split; [done|by eapply same_out_holds]|lia|done].
    + exists s. specialize (H15 eq_refl eq_refl). by split_and!.
  - specialize (Hin ltac:(by left)). cbn [andb]. destruct (Z.ltb_spec s.(num_bits) 15) as [Hlt|].
    + change 2 with (Z.of_nat 2). destruct (read_le_ok false 2 s bits Hb) as (s' & E & Hb' & Ho & Hn);
        [lia|destruct first; lia|change (TINFL_BITBUF_SIZE false) with 32; lia|].
      exists s'. rewrite E. split_and!; [done..|split; [done|by eapply same_out_holds]|lia|]. intros _.
      unfold read_le in E. rewrite mem_read_ok in E by (destruct first; lia).
      unfold push_bits in E. destruct (_ <? _); [|done]. injection E as <-. cbn [set_in set_bits pIn_buf].
      rewrite length_drop. lia.
    + exists s. split_and!; [done..|lia].
Qed.

(** What a turn of the inner loop makes of the bits: it breaks, has no room, or writes one
    literal or two. *)
Definition turn_result (s : io) (bits : list bool) (out : list byte) : Prop :=
  exists v k, found lit bits v k /\ (k <= 15)%nat /\
  ((256 <= v /\ exists r, (r &&& 511) = v /\ does (literal_turn bitbuf64 decomp_flags t0) s (Some r) (drop k bits) out) \/
   (v < 256 /\ len out = size /\ exists s', literal_turn bitbuf64 decomp_flags t0 s
      = Ret (Return 24 TINFL_STATUS_HAS_MORE_OUTPUT s') /\ holds size s' out) \/
   (v < 256 /\ len out < size /\
      does (literal_turn bitbuf64 decomp_flags t0) s None (drop k bits) (out ++ [byte_of v])) \/
   (v < 256 /\ len out + 2 <= size /\ exists v2 k2, found lit (drop k bits) v2 k2 /\ (k2 <= 15)%nat /\
      ((256 <= v2 /\ exists r, (r &&& 511) = v2 /\
          does (literal_turn bitbuf64 decomp_flags t0) s (Some r) (drop k2 (drop k bits)) (out ++ [byte_of v])) \/
       (v2 < 256 /\
          does (literal_turn bitbuf64 decomp_flags t0) s None (drop k2 (drop k bits)) (out ++ [byte_of v; byte_of v2]))))).

Lemma does_eq {A} (c : T A) s s' a bits out : c s = Ret (Next a s') -> ready s' bits out -> does c s a bits out.
Proof. intros E [H1 H2]. by exists s'. Qed.

Lemma literal_slow s bits out : ready s bits out ->
  (len s.(pIn_buf) <? 4) || (len s.(pOut_buf) - s.(pOut_buf_cur) <? 2) = true -> turn_result s bits out.
Proof.
  intros [Hb Hh] Hslow. unfold turn_result, literal_turn.
  destruct (huff_decode_ok bitbuf64 decomp_flags Hflag lit Hlit Hll t0 Ht0 23 s bits Hb) as (v & k & Hf & Hk & s1 & E & Hb1 & Ho).
  exists v, k. split; [done|]. split; [done|].
  assert (0 <= v < 288) as Hv by (eapply found_range in Hf; [lia|done..]).
  assert (holds size s1 out) as Hh1 by (by eapply same_out_holds).
  pose proof (writes_ahead_room size s out [] Hh) as Hroom. cbn [length] in Hroom.
  unfold does, mbind, T_bind, get_io. rewrite Hslow, E. destruct (Z.leb_spec 256 v).
  - left. split; [done|]. exists v. split.
    + change 511 with (2 ^ 9 - 1). rewrite land_ones_wrap, wrap_small; [done| |lia]. change (2 ^ 9) with 512. lia.
    + exists s1. by split_and!.
  - rewrite (room_ok size 24 s1 out Hh1). destruct (Z.ltb_spec (len out) size).
    + right; right; left. split_and!; [lia|done|].
      destruct (put_ok size s1 out (byte_of v) Hh1 ltac:(lia)) as (s2 & -> & Hh2 & Hs2).
      exists s2. split_and!; [done|by eapply same_bits_at|done].
    + right; left. split_and!; [lia|lia|]. exists s1. by split.
Qed.

Lemma literal_fast s bits out : ready s bits out ->
  (len s.(pIn_buf) <? 4) || (len s.(pOut_buf) - s.(pOut_buf_cur) <? 2) = false -> turn_result s bits out.
Proof.
  intros Hr Hfast. pose proof Hr as [Hb (Hc & Hs & _)].
  pose proof Hfast as Hroom. rewrite orb_false_iff, !Z.ltb_ge, Hc, Hs in Hroom. destruct Hroom as [Hin Hroom].
  destruct (refill_ok true s bits out Hr ltac:(lia) ltac:(done)) as (s1 & E1 & [Hb1 Hh1] & Hn1 & Hin1).
  destruct (decode_fast_ok bitbuf64 lit Hlit Hll t0 Ht0 s1 bits Hb1)
    as (r & v & k & s2 & Hf & Hk & Hrv & E2 & Hb2 & Ho2 & Hn2 & Hp2); [destruct bitbuf64; cbn in Hn1; lia|].
  exists v, k. split; [done|]. split; [done|].
  assert (ready s2 (drop k bits) out) as Hr2 by (split; [done|by eapply same_out_holds]).
  assert (literal_turn bitbuf64 decomp_flags t0 s =
    (if 256 <=? v then Ret (Next (Some r) s2)
     else (_ ← refill_fast bitbuf64 false; sym2 ← decode_fast bitbuf64 t0; _ ← poke 0 r;
           if negb (sym2 &&& 256 =? 0) then _ ← advance 1; mret (Some sym2)
           else _ ← poke 1 sym2; _ ← advance 2; mret None) s2)) as Eturn.
  { unfold literal_turn. unfold mbind at 1, T_bind at 1, get_io. cbn beta iota. rewrite Hfast.
    unfold mbind at 1, T_bind at 1. rewrite E1. unfold mbind at 1, T_bind at 1. rewrite E2.
    rewrite land_256, Hrv. destruct (Z.leb_spec 256 v), (Z.ltb_spec v 256); try lia; done. }
  destruct (Z.leb_spec 256 v).
  { left. split; [done|]. exists r. split; [done|]. by eapply does_eq. }
  right; right; right. split; [lia|]. split; [lia|].
  destruct (refill_ok false s2 (drop k bits) out Hr2) as (s3 & E3 & [Hb3 Hh3] & Hn3 & _).
  { intros [Hf64|]; [|done]. specialize (Hin1 Hf64). rewrite Hp2. lia. }
  { intros _ H64. rewrite H64 in Hn1. cbn in Hn1. lia. }
  rewrite andb_false_r in Hn3.
  destruct (decode_fast_ok bitbuf64 lit Hlit Hll t0 Ht0 s3 _ Hb3 Hn3)
    as (r2 & v2 & k2 & s4 & Hf2 & Hk2 & Hrv2 & E4 & Hb4 & Ho4 & _ & _).
  assert (holds size s4 out) as Hh4 by (by eapply same_out_holds).
  destruct (poke_ok size s4 out [] r Hh4 ltac:(cbn; lia)) as (s5 & E5 & Hw5 & Hs5).
  cbn [length app] in E5, Hw5. change (Z.of_nat 0) with 0 in E5. rewrite byte_of_511, Hrv in Hw5.
  exists v2, k2. split; [done|]. split; [done|].
  unfold does. rewrite Eturn, (bind_next _ _ _ _ _ E3), (bind_next _ _ _ _ _ E4), (bind_next _ _ _ _ _ E5), land_256, Hrv2.
  destruct (Z.leb_spec 256 v2), (Z.ltb_spec v2 256); try lia; cbn [negb]; [left|right]; (split; [lia|]).
  - exists r2. split; [done|]. destruct (advance_ok size s5 out _ Hw5) as (s6 & E6 & Hh6 & Hs6).
    change (len [byte_of v]) with 1 in E6. rewrite (bind_next _ _ _ _ _ E6).
    exists s6. split_and!; [done|by do 2 (eapply same_bits_at; [done|])|done].
  - destruct (poke_ok size s5 out [byte_of v] r2 Hw5 ltac:(cbn; lia)) as (s6 & E6 & Hw6 & Hs6).
    change (len [byte_of v]) with 1 in E6. cbn [app] in Hw6. rewrite (byte_of_511 r2), Hrv2 in Hw6.
    destruct (advance_ok size s6 out _ Hw6) as (s7 & E7 & Hh7 & Hs7).
    change (len [byte_of v; byte_of v2]) with 2 in E7. rewrite (bind_next _ _ _ _ _ E6), (bind_next _ _ _ _ _ E7).
    exists s7. split_and!; [done|by do 3 (eapply same_bits_at; [done|])|done].
Qed.

Lemma literal_turn_ok s bits out : ready s bits out -> turn_result s bits out.
Proof.
  intros Hr. destruct ((len s.(pIn_buf) <? 4) || (len s.(pOut_buf) - s.(pOut_buf_cur) <? 2)) eqn:E.
  - by apply literal_slow.
  - by apply literal_fast.
Qed.

(** ** The loop *)

Lemma number_range c bits v rest : number c bits = Some (v, rest) -> exists base extra, c = Some (base, extra) /\ base <= v.
Proof.
  destruct c as [[base extra]|]; [|done]. intros (n & bits' & Ht & [= <- <-])%D_bind_inv.
  pose proof (take_bits_range _ _ _ _ Ht). exists base, extra. split; [done|lia].
Qed.

(** What the outer loop does where the inner one breaks. *)
Abbreviation outer f counter := (if counter =? 256 then mret tt else
  _ ← copy_match bitbuf64 unaligned decomp_flags mask t1 counter;
  inflate_codes bitbuf64 unaligned decomp_flags mask f t0 t1).

Lemma match_ok n f :
  (forall s bits out out' rest, ready s bits out -> inflate_symbols n lit dist out bits = Some (out', rest) ->
     len out' <= size -> does (inflate_codes bitbuf64 unaligned decomp_flags mask f t0 t1) s tt rest out') ->
  forall s bits out sym out' rest, ready s bits out ->
  inflate_match (inflate_symbols n lit dist) dist sym out bits = Some (out', rest) -> len out' <= size ->
  does (outer f sym) s tt rest out'.
Proof.
  intros IH s bits out sym out' rest Hr H Hsz. unfold inflate_match in H. destruct (sym =? 256).
  { injection H as -> ->. by apply does_return. }
  apply D_bind_inv in H as (l & bits2 & Hl & H). apply D_bind_inv in H as (ds & bits3 & Hds & H).
  apply D_bind_inv in H as (d & bits4 & Hd & H). destruct (Z.ltb_spec (len out) d); [done|].
  pose proof (symbols_grow _ _ _ _ _ _ _ H) as Hg. rewrite copy_back_length in Hg.
  destruct (number_range _ _ _ _ Hl) as (base & extra & El & Hbl). apply length_tables in El as (_ & _ & _ & Hb3).
  eapply does_then.
  - eapply (copy_match_ok sym s bits out l bits2 ds bits3 d bits4); try done. lia.
  - intros s' Hr'. by eapply IH.
Qed.

Lemma symbols_ok n : forall f s bits out out' rest, lasts f (Z.of_nat n) -> ready s bits out ->
  inflate_symbols n lit dist out bits = Some (out', rest) -> len out' <= size ->
  does (inflate_codes bitbuf64 unaligned decomp_flags mask f t0 t1) s tt rest out'.
Proof.
  induction n as [n IH] using lt_wf_ind. intros f s bits out out' rest Hf Hr H Hsz.
  destruct n as [|n]; [done|]. destruct (lasts_turn _ _ Hf ltac:(lia)) as (k & -> & Hk).
  replace (Z.of_nat (S n) - 1) with (Z.of_nat n) in Hk by lia. cbn [inflate_codes].
  cbn [inflate_symbols] in H. apply D_bind_inv in H as (sym & bits1 & Hd & H).
  assert (forall m, (m <= n)%nat -> forall s bits out out' rest, ready s bits out ->
    inflate_symbols m lit dist out bits = Some (out', rest) -> len out' <= size ->
    does (inflate_codes bitbuf64 unaligned decomp_flags mask (k tt) t0 t1) s tt rest out') as IH'.
  { intros m Hm s' bits' o o' r'. apply IH; [lia|]. eapply lasts_le; [|exact Hk]. lia. }
  destruct (literal_turn_ok s bits out Hr) as (v & kk & Hfnd & _ & Hcases).
  assert (v = sym /\ drop kk bits = bits1) as [-> <-]
    by (eapply found_decode; [exact Hlit|exact Hll|exact Hfnd|exact Hd]).
  destruct Hcases as [(Hv & r & Er & Ht)|[(Hv & Hfull & _)|[(Hv & Hroom & Ht)|(Hv & Hroom & v2 & k2 & Hf2 & _ & Hcases)]]].
  - destruct (Z.ltb_spec sym 256); [lia|]. eapply does_then; [exact Ht|]. intros s1 Hr1. cbn beta iota zeta. rewrite Er.
    eapply (match_ok n); [by apply IH'|done..].
  - destruct (Z.ltb_spec sym 256); [|lia]. apply symbols_grow in H. rewrite length_app in H. cbn in H. lia.
  - destruct (Z.ltb_spec sym 256); [|lia]. eapply does_then; [exact Ht|]. intros s1 Hr1. cbn beta iota.
    by eapply (IH' n).
  - destruct (Z.ltb_spec sym 256); [|lia]. destruct n as [|n]; [done|]. cbn [inflate_symbols] in H.
    apply D_bind_inv in H as (sym2 & bits2 & Hd2 & H).
    assert (v2 = sym2 /\ drop k2 (drop kk bits) = bits2) as [-> <-]
      by (eapply found_decode; [exact Hlit|exact Hll|exact Hf2|exact Hd2]).
    destruct Hcases as [(Hv2 & r & Er & Ht)|(Hv2 & Ht)].
    + destruct (Z.ltb_spec sym2 256); [lia|]. eapply does_then; [exact Ht|]. intros s1 Hr1. cbn beta iota zeta. rewrite Er.
      eapply (match_ok n); [by apply IH'; lia|done..].
    + destruct (Z.ltb_spec sym2 256); [|lia]. eapply does_then; [exact Ht|]. intros s1 Hr1. cbn beta iota.
      rewrite <- app_assoc in H. eapply (IH' n); [lia|done..].
Qed.
End block.
End codes.

(** ** A code by itself *)

(** C11: a symbol is read with the table made for a set of sizes as the canonical code of these
    sizes has it: the same symbol, by the same number of bits, wherever the bits are, in the
    bit buffer or still in the input; the output is left alone.  With 15 bits in the bit buffer
    no input is taken.  With fewer, two bytes are taken where the input has two, whatever the
    symbol's length: here the code may read ahead.  At the end of the input, with one byte
    left or none, it takes none, or fewer than eight bits are over afterwards: no byte is
    taken that the symbol does not reach into. *)
Theorem huff_decode_correct (bitbuf64 : bool) (decomp_flags idx : Z) (sizes : list Z) (t : tinfl_huff_table)
    (s : io) (bits rest : list bool) (sym : Z) :
  flag decomp_flags TINFL_FLAG_HAS_MORE_INPUT = false ->
  sizes_ok sizes -> (length sizes <= 288)%nat -> build_table sizes = Ret (Some t) ->
  at_bits s bits -> decode_sym sizes bits = Some (sym, rest) ->
  let n := len bits - len rest in
  exists s', TINFL_HUFF_DECODE bitbuf64 decomp_flags idx t s = Ret (Next sym s') /\
    at_bits s' rest /\ same_out s s' /\
    let unread := s'.(num_bits) = s.(num_bits) - n /\ s'.(pIn_buf) = s.(pIn_buf) in
    if 15 <=? s.(num_bits) then unread
    else if len s.(pIn_buf) <? 2 then unread \/ s'.(num_bits) < 8
    else s'.(pIn_buf) = drop 2 s.(pIn_buf).
Proof.
  intros Hflag Hok Hn Ht Hb Hd n. pose proof (build_table_ok sizes Hok Hn) as H. case_decide as Hv; [|congruence].
  destruct H as (t' & E & Hfor). assert (t' = t) as -> by congruence.
  destruct (huff_decode_steps bitbuf64 decomp_flags Hflag sizes Hv Hn t Hfor idx s bits Hb)
    as (v & k & s' & Hf & _ & E' & Hb' & Ho & Hfr).
  pose proof (found_decode sizes Hv Hn _ _ _ _ _ Hf Hd) as [-> <-].
  apply decode_sym_inv in Hd as (y & _ & Hu & Hbits). exists s'. split_and!; [done..|].
  assert (n = len (code_of sizes y)) as ->.
  { unfold n. rewrite Hbits at 1. rewrite length_app. lia. }
  apply (Hfr y Hu). rewrite Hbits. apply prefix_app_r. done.
Qed.
