(* ===== verification/TinflStream.v ===== *)
(** * TinflStream: blocks, the checksum and the whole stream

    [tinfl_correct] is the theorem: what the reference decodes, squashfuse's inflate decodes
    to the same bytes. *)
From S2P Require Import Prelude Decompress Bits Inflate Tinfl Huffman HuffTable TinflRead TinflCopy TinflOk.

(** ** The reference only goes forward *)
Definition shrinks {A} (d : D A) : Prop := forall bits a rest, d bits = Some (a, rest) -> (length rest <= length bits)%nat.

Lemma shrinks_bind {A B} (m : D A) (k : A -> D B) : shrinks m -> (forall a, shrinks (k a)) -> shrinks (m ≫= k).
Proof. intros Hm Hk bits b rest (a & bits' & H1%Hm & H2%Hk)%D_bind_inv. lia. Qed.

Lemma shrinks_ret {A} (a : A) : shrinks (mret a).
Proof. intros bits b rest [= _ ->]. lia. Qed.

Lemma shrinks_bad {A} : shrinks (A := A) bad.
Proof. done. Qed.

Lemma shrinks_take_bits n : shrinks (take_bits n).
Proof. intros bits a rest (_ & -> & _)%take_bits_inv. rewrite length_drop. lia. Qed.

Lemma shrinks_align : shrinks align.
Proof. intros bits a rest [= _ <-]. rewrite length_drop. lia. Qed.

Lemma shrinks_sym sizes : shrinks (decode_sym sizes).
Proof. intros bits a rest (sym & _ & _ & ->)%decode_sym_inv. rewrite length_app. lia. Qed.

Create HintDb shrinks.
#[export] Hint Resolve shrinks_ret shrinks_bad shrinks_take_bits shrinks_align shrinks_sym : shrinks.
Ltac shrink :=
  repeat first [ progress auto with shrinks
               | apply shrinks_bind; [|intros ?]
               | match goal with |- shrinks (if ?b then _ else _) => destruct b end
               | match goal with |- shrinks (match ?o with Some _ => _ | None => _ end) => destruct o end
               | match goal with |- shrinks (let '(_, _) := ?p in _) => destruct p end ].

Lemma shrinks_number c : shrinks (number c).
Proof. unfold number. destruct c as [[]|]; shrink. Qed.

Lemma shrinks_take_bytes n : shrinks (take_bytes n).
Proof. induction n; cbn [take_bytes]; shrink. Qed.

Lemma shrinks_take_sizes n : shrinks (take_sizes n).
Proof. induction n; cbn [take_sizes]; shrink. Qed.
#[export] Hint Resolve shrinks_number shrinks_take_bytes shrinks_take_sizes : shrinks.

Lemma shrinks_symbols n lit dist out : shrinks (inflate_symbols n lit dist out).
Proof. revert out. induction n as [|n IH]; intros out; cbn [inflate_symbols]; [shrink|]. unfold inflate_match. shrink. Qed.

Lemma shrinks_compressed lit dist out : shrinks (inflate_compressed lit dist out).
Proof. intros bits a rest. unfold inflate_compressed. case_decide; [|done]. apply shrinks_symbols. Qed.

Lemma shrinks_code_sizes n cl total sizes : shrinks (code_sizes n cl total sizes).
Proof. revert sizes. induction n as [|n IH]; intros sizes; cbn [code_sizes]; shrink. Qed.
#[export] Hint Resolve shrinks_compressed shrinks_code_sizes : shrinks.

Lemma shrinks_dynamic out : shrinks (inflate_dynamic out).
Proof. unfold inflate_dynamic. shrink. Qed.

Lemma shrinks_stored out : shrinks (inflate_stored out).
Proof. unfold inflate_stored. shrink. Qed.
#[export] Hint Resolve shrinks_dynamic shrinks_stored : shrinks.

(** ** Bits in a row *)

Lemma pad_add a b l : pad (a + b) l = pad a l ++ pad b (drop a l).
Proof.
  unfold pad. rewrite seq_app, map_app. f_equal.
  pose proof (fmap_add_seq a 0 b) as E. rewrite Nat.add_0_r in E. cbn [Nat.add]. rewrite <- E. clear E.
  change (fmap (Nat.add a) (seq 0 b)) with (map (Nat.add a) (seq 0 b)). rewrite map_map. apply map_ext.
  intros i. revert l. induction a as [|a IH]; intros [|x l]; try done.
  - cbn. by destruct i.
  - cbn [Nat.add nth drop]. apply IH.
Qed.

Lemma take_bits_add a b bits v w bits1 rest : take_bits a bits = Some (v, bits1) -> take_bits b bits1 = Some (w, rest) ->
  v + 2 ^ Z.of_nat a * w = bits_val (pad (a + b) bits) /\ rest = drop (a + b) bits.
Proof.
  intros (-> & -> & _)%take_bits_inv (-> & -> & _)%take_bits_inv.
  by rewrite pad_add, bits_val_app, pad_length, drop_drop.
Qed.

Lemma take_bits_val a bits v rest : take_bits a bits = Some (v, rest) -> bits_val (pad a bits) = v /\ drop a bits = rest.
Proof. by intros (-> & -> & _)%take_bits_inv. Qed.

Section stream.
Context (bitbuf64 unaligned : bool) (decomp_flags : Z) (size : Z).
Context (Hflag : flag decomp_flags TINFL_FLAG_HAS_MORE_INPUT = false) (Hsize : size <= 2 ^ 62).
Abbreviation mask := (2 ^ 64 - 1).
Abbreviation does := (does size).
Abbreviation ready := (ready size).

(** ** Compressed blocks *)

Lemma does_table sizes : valid_sizes sizes -> (length sizes <= 288)%nat ->
  exists t, table_for sizes t /\ forall s bits out, ready s bits out -> does (init_table sizes) s t bits out.
Proof.
  intros Hv Hn. pose proof (build_table_ok sizes (proj1 Hv) Hn) as H. rewrite decide_True in H by done.
  destruct H as (t & E & Ht). exists t. split; [done|]. intros s bits out Hr. unfold init_table. rewrite E.
  eapply does_lift; [done|]. by apply does_return.
Qed.

(** The tables of a block and the symbols in their codes. *)
Lemma compressed_ok f lit dist s bits out out' rest : ready s bits out -> lasts f (2 ^ 70) ->
  (length lit <= 288)%nat -> (length dist <= 288)%nat ->
  inflate_compressed lit dist out bits = Some (out', rest) -> len out' <= size -> len bits < 2 ^ 70 ->
  does ('(t0, t1) ← (t1 ← init_table dist; t0 ← init_table lit; mret (t0, t1));
        inflate_codes bitbuf64 unaligned decomp_flags mask f t0 t1) s tt rest out'.
Proof.
  intros Hr Hf Hl Hd H Hsz Hbits. unfold inflate_compressed in H. case_decide as Hv; [|done]. destruct Hv as [Hlit Hdist].
  destruct (does_table dist Hdist Hd) as (t1 & Ht1 & E1). destruct (does_table lit Hlit Hl) as (t0 & Ht0 & E0).
  eapply (does_then size _ _ s (t0, t1)).
  - eapply does_then; [by apply E1|]. intros s1 Hr1. eapply does_then; [by apply E0|]. intros s2 Hr2. by apply does_return.
  - intros s1 Hr1. eapply (symbols_ok bitbuf64 unaligned decomp_flags size Hflag Hsize lit dist); try done.
    eapply lasts_le; [|exact Hf]. lia.
Qed.

(** ** Stored blocks *)

Lemma take_bytes_S n bits data rest : take_bytes (S n) bits = Some (data, rest) ->
  exists v bits1 data1, take_bits 8 bits = Some (v, bits1) /\ take_bytes n bits1 = Some (data1, rest) /\
                        data = byte_of v :: data1.
Proof.
  cbn [take_bytes]. intros (v & bits1 & H1 & H)%D_bind_inv. apply D_bind_inv in H as (d & bits2 & H2 & [= <- <-]). eauto 10.
Qed.

Lemma take_bytes_length n : forall bits data rest, take_bytes n bits = Some (data, rest) -> length data = n.
Proof.
  induction n as [|n IH]; intros bits data rest H; [by injection H as <- _|].
  apply take_bytes_S in H as (v & bits1 & data1 & _ & H & ->). apply IH in H. cbn. lia.
Qed.

(** A byte, from wherever the next one is. *)
Lemma does_byte idx1 idx2 s bits out v rest : ready s bits out -> take_bits 8 bits = Some (v, rest) ->
  does (s ← get_io; if s.(num_bits) =? 0 then TINFL_GET_BYTE decomp_flags idx1
                    else TINFL_GET_BITS bitbuf64 decomp_flags idx2 8) s v rest out.
Proof.
  intros [Hb Hh] (-> & -> & _)%take_bits_inv. apply does_get_io, does_reads; [done|]. by apply get_byte_ok.
Qed.

Lemma raw_header_S n : raw_header bitbuf64 decomp_flags (S n) =
  (s ← get_io; b ← (if s.(num_bits) =? 0 then TINFL_GET_BYTE decomp_flags 7 else TINFL_GET_BITS bitbuf64 decomp_flags 6 8);
   rest ← raw_header bitbuf64 decomp_flags n; mret (b :: rest)).
Proof. done. Qed.

(** Bytes as numbers. *)
Fixpoint take_octets (n : nat) : D (list Z) :=
  match n with O => mret [] | S n => b ← take_bits 8; rest ← take_octets n; mret (b :: rest) end.

Lemma get_io_bind {A B} (c : io -> T A) (f : A -> T B) s : (s ← get_io; a ← c s; f a) s = ((s ← get_io; c s) ≫= f) s.
Proof. done. Qed.

Lemma raw_header_ok n : forall s bits out l rest, ready s bits out -> take_octets n bits = Some (l, rest) ->
  does (raw_header bitbuf64 decomp_flags n) s l rest out.
Proof.
  induction n as [|n IH]; intros s bits out l rest Hr H; cbn [take_octets] in H.
  - injection H as <- <-. by apply does_return.
  - apply D_bind_inv in H as (v & bits1 & Hv & H). apply D_bind_inv in H as (l1 & bits2 & Hl & [= <- <-]).
    unfold TinflOk.does. rewrite raw_header_S, get_io_bind.
    eapply (does_then size); [by eapply does_byte|]. intros s1 Hr1.
    eapply does_then; [by eapply IH|]. intros s2 Hr2. by apply does_return.
Qed.

Lemma get_io_next {A} (f : io -> T A) s : (s ← get_io; f s) s = f s s.
Proof. done. Qed.

Lemma stored_bits_ok turns : forall s bits out data rest, ready s bits out ->
  take_bytes turns bits = Some (data, rest) -> len out + Z.of_nat turns <= size ->
  exists (m : nat) data1 data2 bits' s',
    stored_bits bitbuf64 decomp_flags turns (Z.of_nat turns) s = Ret (Next (Z.of_nat m) s') /\
    ready s' bits' (out ++ data1) /\ take_bytes m bits' = Some (data2, rest) /\ data = data1 ++ data2 /\
    (m = 0%nat \/ s'.(num_bits) = 0) /\ (length data1 + m = turns)%nat.
Proof.
  induction turns as [|turns IH]; intros s bits out data rest Hr H Hroom.
  - exists 0%nat, [], data, bits, s. rewrite app_nil_r.
    split; [done|]. split; [done|]. split_and!; [done..|by left|done].
  - cbn [stored_bits]. rewrite get_io_next.
    destruct (Z.eqb_spec (Z.of_nat (S turns)) 0); [lia|]. cbn [orb].
    destruct (Z.eqb_spec s.(num_bits) 0) as [H0|Hne].
    + exists (S turns), [], data, bits, s. rewrite app_nil_r.
      split; [done|]. split; [done|]. split_and!; [done..|by right|done].
    + apply take_bytes_S in H as (v & bits1 & data1 & Hv & H & ->).
      destruct (does_bits bitbuf64 decomp_flags size Hflag 51 8 s bits out v bits1 Hr ltac:(lia) Hv) as (s1 & E1 & Hb1 & Hh1).
      change (Z.of_nat 8) with 8 in E1. rewrite (bind_next _ _ _ _ _ E1).
      assert (room 52 s1 = Ret (Next tt s1)) as E2 by (rewrite (room_ok size 52 s1 out Hh1); zbool; done || lia).
      rewrite (bind_next _ _ _ _ _ E2).
      destruct (put_ok size s1 out (byte_of v) Hh1 ltac:(lia)) as (s2 & E3 & Hh2 & Hs2).
      rewrite (bind_next _ _ _ _ _ E3). replace (Z.of_nat (S turns) - 1) with (Z.of_nat turns) by lia.
      destruct (IH s2 bits1 (out ++ [byte_of v]) data1 rest) as (m & d1 & d2 & bits' & s' & E & Hr' & Hd & -> & Hm & Hl).
      { split; [by eapply same_bits_at|done]. } { done. } { rewrite length_app. cbn. lia. }
      rewrite <- app_assoc in Hr'. exists m, (byte_of v :: d1), d2, bits', s'.
      split; [done|]. split; [done|]. split_and!; [done..|cbn; lia].
Qed.

Lemma take_bytes_of n : forall l data rest, take_bytes n (bits_of l) = Some (data, rest) ->
  data = take n l /\ rest = bits_of (drop n l) /\ (n <= length l)%nat.
Proof.
  induction n as [|n IH]; intros l data rest H.
  - injection H as <- <-. split_and!; [done|done|lia].
  - apply take_bytes_S in H as (v & bits1 & data1 & (-> & -> & Hl)%take_bits_inv & H & ->).
    destruct l as [|b l]; [cbn in Hl; lia|]. change (bits_of (b :: l)) with (byte_bits b ++ bits_of l) in *.
    change (drop 8 (byte_bits b ++ bits_of l)) with (bits_of l) in H. apply IH in H as (-> & -> & Hn).
    cbn [take drop length]. split_and!; [|done|lia]. f_equal.
    rewrite pad_app_l, pad_take, take_ge, bits_val_byte by (rewrite byte_bits_length; lia). apply byte_of_val.
Qed.

(** From an empty bit buffer the bits are those of the input. *)
Lemma at_bits_input s bits : at_bits s bits -> s.(num_bits) = 0 -> bits <> [] -> bits = bits_of s.(pIn_buf) /\ s.(bit_buf) = 0.
Proof.
  intros (l & k & Hn & Hb & _ & E & Hk & _) H0 Hne. assert (l = []) as -> by (apply length_zero_iff_nil; lia).
  cbn [app] in E. destruct s.(pIn_buf) as [|b rest].
  - destruct bits; [done|]. done.
  - by rewrite (Hk ltac:(done)), app_nil_r in E.
Qed.

Lemma stored_bytes_ok (m : nat) s bits out data rest : ready s bits out -> (m = 0%nat \/ s.(num_bits) = 0) ->
  take_bytes m bits = Some (data, rest) -> len out + Z.of_nat m <= size ->
  does (stored_bytes decomp_flags m (Z.of_nat m)) s tt rest (out ++ data).
Proof.
  intros Hr Hm H Hroom. destruct m as [|m].
  - injection H as <- <-. rewrite app_nil_r. by apply does_return.
  - destruct Hm as [|H0]; [done|]. cbn [stored_bytes]. destruct (Z.eqb_spec (Z.of_nat (S m)) 0) as [|_]; [lia|].
    destruct Hr as [Hb Hh]. assert (bits <> []) as Hne.
    { intros ->. apply take_bytes_S in H as (? & ? & ? & (_ & _ & H8)%take_bits_inv & _). cbn in H8. lia. }
    destruct (at_bits_input s bits Hb H0 Hne) as [-> Hb0]. apply take_bytes_of in H as (-> & -> & Hl).
    pose proof Hh as (Hc & Hs & Ht).
    assert (room 9 s = Ret (Next tt s)) as E1 by (rewrite (room_ok size 9 s out Hh); zbool; done || lia).
    unfold TinflOk.does. rewrite (bind_next _ _ _ _ _ E1). rewrite get_io_next.
    destruct (Z.eqb_spec (len s.(pIn_buf)) 0) as [|_]; [lia|]. rewrite Hc, Hs.
    replace (Z.min (Z.min (size - len out) (len s.(pIn_buf))) (Z.of_nat (S m))) with (Z.of_nat (S m)) by lia.
    set (n := S m) in *.
    assert (slice s.(pIn_buf) 0 (Z.of_nat n) = take n s.(pIn_buf)) as Esl.
    { unfold slice. rewrite (Z.min_l (Z.of_nat n)), Z.min_l by lia. change (Z.to_nat 0) with 0%nat. by rewrite drop_0, Nat2Z.id. }
    assert (exists s', copy_in (Z.of_nat n) s = Ret (Next tt s') /\ s'.(num_bits) = s.(num_bits) /\ s'.(bit_buf) = s.(bit_buf) /\
      s'.(pIn_buf) = drop n s.(pIn_buf) /\ holds size s' (out ++ take n s.(pIn_buf))) as (s' & E2 & Hn' & Hbb & Hin & Hh').
    { unfold copy_in. rewrite mem_read_ok by lia. rewrite Hc, Hs, Esl, !Nat2Z.id.
      destruct (Z.leb_spec (len out + Z.of_nat n) size); [|lia]. eexists. split; [done|].
      unfold set_in, set_out, holds, writes_ahead. cbn [num_bits bit_buf pIn_buf pOut_buf pOut_buf_cur].
      rewrite !app_nil_r in *. rewrite Ht.
      assert (length (take n s.(pIn_buf)) = n) as Hlt by (rewrite length_take; lia).
      split_and!; [done..|rewrite length_app; lia| |].
      - rewrite !length_app, length_drop. lia.
      - rewrite app_assoc. by apply take_app_length'. }
    rewrite (bind_next _ _ _ _ _ E2), Z.sub_diag. exists s'. split; [by destruct m|]. split; [|done].
    exists [], 0%nat. rewrite Hn', Hbb, Hin, H0, Hb0. split_and!; try done. by rewrite app_nil_r.
Qed.

Lemma lxor_ones_16 m : 0 <= m < 65536 -> Z.lxor 65535 m = 65535 - m.
Proof.
  intros Hm. assert (Z.land m (Z.lxor 65535 m) = 0) as H0.
  { apply Z.bits_inj'. intros i Hi. rewrite Z.land_spec, Z.lxor_spec, Z.bits_0. change 65535 with (Z.ones 16).
    destruct (Z.lt_ge_cases i 16).
    - rewrite Z.ones_spec_low by lia. by destruct (Z.testbit m i).
    - rewrite <- (Z.mod_small m (2 ^ 16)), Z.mod_pow2_bits_high by lia. done. }
  apply Z.add_nocarry_lxor in H0. rewrite (Z.lxor_comm 65535), <- Z.lxor_assoc, Z.lxor_nilpotent, Z.lxor_0_l in H0.
  rewrite (Z.lxor_comm 65535). lia.
Qed.

(** Two octets as a number of 16 bits. *)
Lemma take_16 bits n rest : take_bits 16 bits = Some (n, rest) -> exists a b bits1,
  take_bits 8 bits = Some (a, bits1) /\ take_bits 8 bits1 = Some (b, rest) /\ (a ||| Z.shiftl b 8) = n /\ 0 <= n < 65536.
Proof.
  intros H. pose proof (take_bits_range _ _ _ _ H) as Hr. change (2 ^ Z.of_nat 16) with 65536 in Hr.
  apply take_bits_inv in H as (-> & -> & Hl).
  assert (forall bs, (8 <= length bs)%nat -> take_bits 8 bs = Some (bits_val (pad 8 bs), drop 8 bs)) as H8
    by (intros bs Hb; unfold take_bits; rewrite decide_True by done; by rewrite pad_take).
  pose proof (H8 bits ltac:(lia)) as H1. pose proof (H8 (drop 8 bits) ltac:(rewrite length_drop; lia)) as H2.
  destruct (take_bits_add 8 8 _ _ _ _ _ H1 H2) as [Hv _]. pose proof (take_bits_range _ _ _ _ H1).
  rewrite drop_drop in H2. exists (bits_val (pad 8 bits)), (bits_val (pad 8 (drop 8 bits))), (drop 8 bits).
  split_and!; [done|rewrite H2; f_equal; f_equal; lia| |lia|lia].
  change 8 with (Z.of_nat 8). rewrite lor_disjoint by done. exact Hv.
Qed.

Lemma stored_block_ok s bits out out' rest : ready s bits out ->
  inflate_stored out bits = Some (out', rest) -> len out' <= size ->
  does (stored_block bitbuf64 decomp_flags) s tt rest out'.
Proof.
  intros Hr H Hsz. unfold inflate_stored in H.
  apply D_bind_inv in H as ([] & bits0 & Ha & H).
  assert (bits0 = drop (length bits mod 8) bits) as -> by (unfold align in Ha; congruence). clear Ha.
  apply D_bind_inv in H as (n & bits1 & H1 & H). apply D_bind_inv in H as (m & bits2 & H2 & H).
  destruct (Z.eqb_spec (n + m) 65535) as [Enm|]; [|done].
  apply D_bind_inv in H as (data & bits3 & H3 & [= <- <-]). rewrite length_app in Hsz.
  apply take_16 in H1 as (a & b & bits1' & Ha & Hb & <- & Hn). apply take_16 in H2 as (c & d & bits2' & Hc & Hd & <- & Hm).
  unfold stored_block. apply does_get_io. eapply does_then.
  { apply does_reads; [apply Hr|]. apply skip_bits_ok, Hr. }
  intros s1 Hr1. eapply does_then.
  { apply (raw_header_ok 4 s1 _ out [a; b; c; d] bits2 Hr1). cbn [take_octets].
    unfold mbind, D_bind. by rewrite Ha, Hb, Hc, Hd. }
  intros s2 Hr2. do 4 (eapply does_lift; [done|]). cbn beta zeta.
  rewrite lxor_ones_16 by done. destruct (Z.eqb_spec (a ||| Z.shiftl b 8) (65535 - (c ||| Z.shiftl d 8))); [|lia].
  cbn [negb]. set (n := a ||| Z.shiftl b 8) in *. rewrite <- (Z2Nat.id n) by lia. rewrite Nat2Z.id.
  pose proof (take_bytes_length _ _ _ _ H3) as Hdl.
  destruct (stored_bits_ok (Z.to_nat n) s2 bits2 out data bits3 Hr2 H3 ltac:(lia))
    as (k & d1 & d2 & bits' & s' & E & Hr' & Hd2 & -> & Hk & Hl).
  unfold TinflOk.does. rewrite (bind_next _ _ _ _ _ E), Nat2Z.id, app_assoc.
  eapply stored_bytes_ok; [done..|]. rewrite !length_app in *. lia.
Qed.

(** ** Dynamic blocks *)

Lemma take_sizes_inv n bits l rest : take_sizes n bits = Some (l, rest) ->
  length l = n /\ Forall (fun k => 0 <= k < 8) l.
Proof.
  revert bits l rest. induction n as [|n IH]; intros bits l rest H; cbn [take_sizes] in H.
  - by injection H as <- <-.
  - apply D_bind_inv in H as (v & bits1 & Hv & H). apply D_bind_inv in H as (l1 & bits2 & Hl & [= <- <-]).
    apply IH in Hl as [Hn Hf]. pose proof (take_bits_range _ _ _ _ Hv) as Hr. change (2 ^ Z.of_nat 3) with 8 in Hr.
    split; [cbn; lia|by constructor].
Qed.

Lemma code_code_sizes_ok n : forall s bits out (c : nat) sizes l rest, ready s bits out -> (c + n <= 19)%nat -> length sizes = 19%nat ->
  take_sizes n bits = Some (l, rest) ->
  does (code_code_sizes bitbuf64 decomp_flags n (Z.of_nat c) sizes) s
    (foldl (fun l '(i, k) => zinsert i k l) sizes (zip (drop c size_order) l)) rest out.
Proof.
  induction n as [|n IH]; intros s bits out c sizes l rest Hr Hc Hlen H; cbn [take_sizes] in H.
  - injection H as <- <-. rewrite zip_with_nil_r. by apply does_return.
  - apply D_bind_inv in H as (v & bits1 & Hv & H). apply D_bind_inv in H as (l1 & bits2 & Hl & [= <- <-]).
    cbn [code_code_sizes]. change 3 with (Z.of_nat 3).
    eapply does_then; [by eapply does_bits; [done|done|lia|]|]. intros s1 Hr1.
    assert (exists i, size_order !! c = Some i /\ 0 <= i < 19) as (i & Hi & Hi19).
    { assert (Forall (fun i => 0 <= i < 19) size_order) as Hf by (repeat constructor; lia).
      destruct (lookup_lt_is_Some_2 size_order c) as [i Hi]; [cbn; lia|].
      exists i. split; [done|]. by eapply Forall_lookup_1 in Hf. }
    eapply does_lift; [apply arr_ok; rewrite zlookup_lookup, Nat2Z.id by lia; exact Hi|].
    eapply does_lift; [apply arr_set_ok; lia|]. rewrite (drop_S _ _ _ Hi). cbn [zip_with foldl].
    replace (Z.of_nat c + 1) with (Z.of_nat (S c)) by lia.
    eapply IH; [done|lia|by rewrite zinsert_length|done].
Qed.

Lemma ordered_length l : length (ordered l) = 19%nat.
Proof.
  unfold ordered. rewrite <- (length_replicate 19 0) at 2. generalize (replicate 19 0).
  induction (zip size_order l) as [|[i k] z IH]; intros sizes; [done|]. cbn [foldl]. by rewrite IH, zinsert_length.
Qed.

Lemma last_arr {A} (l : list A) x : last l = Some x -> arr l (len l - 1) = Ret x.
Proof.
  intros H. rewrite last_lookup in H. apply arr_ok. destruct l as [|y l]; [done|].
  rewrite zlookup_lookup by (cbn; lia). rewrite <- H. f_equal. cbn [length]. lia.
Qed.

Lemma does_size16 cl t s bits out z rest : valid_sizes cl -> length cl = 19%nat -> table_for cl t ->
  ready s bits out -> decode_sym cl bits = Some (z, rest) ->
  does (TINFL_HUFF_DECODE bitbuf64 decomp_flags 16 t) s z rest out.
Proof. intros Hv Hl Ht Hr Hd. eapply (does_sym bitbuf64 decomp_flags size Hflag cl Hv); [lia|done..]. Qed.

Lemma read_sizes_ok cl t n : valid_sizes cl -> length cl = 19%nat -> table_for cl t -> n <= 320 -> forall turns s bits out codes l rest,
  ready s bits out -> code_sizes turns cl n codes bits = Some (l, rest) ->
  does (read_sizes bitbuf64 decomp_flags turns t n codes) s l rest out /\ len l = n.
Proof.
  intros Hv Hlen Ht Hn. induction turns as [|turns IH]; intros s bits out codes l rest Hr H; cbn [code_sizes read_sizes] in *;
    (destruct (Z.eqb_spec (len codes) n) as [E|Hne];
      [injection H as <- <-; destruct (Z.leb_spec n (len codes)); [|lia]; split; [by apply does_return|done]|]);
    (destruct (Z.ltb_spec n (len codes)); [done|]); [done|].
  destruct (Z.leb_spec n (len codes)); [lia|].
  apply D_bind_inv in H as (sym & bits1 & Hs & H). pose proof (decode_sym_range _ _ _ _ Hs) as Hsr.
  pose proof (does_size16 cl t s bits out sym bits1 Hv Hlen Ht Hr Hs) as Hsym.
  destruct (Z.ltb_spec sym 16).
  { pose proof Hsym as (s1 & _ & Hr1). destruct (IH _ _ _ _ _ _ Hr1 H) as [_ Hll]. split; [|done].
    eapply does_then; [exact Hsym|]. intros s2 Hr2. cbn beta. destruct (Z.ltb_spec sym 16); [|lia].
    by apply (IH _ _ _ _ _ _ Hr2 H). }
  (* a repetition: [j] extra bits, [base] and the size [v] *)
  assert (forall (j : nat) base v k bits2, (j <= 7)%nat -> base + 2 ^ Z.of_nat j <= 139 -> 0 <= base ->
    arr [2; 3; 7] (sym - 16) = Ret (Z.of_nat j) -> arr [3; 3; 11] (sym - 16) = Ret base ->
    (if sym =? 16 then arr codes (len codes - 1) else Ret 0) = Ret v ->
    (sym =? 16) && (len codes =? 0) = false ->
    take_bits j bits1 = Some (k, bits2) -> code_sizes turns cl n (codes ++ replicate (Z.to_nat (base + k)) v) bits2 = Some (l, rest) ->
    does (dist ← TINFL_HUFF_DECODE bitbuf64 decomp_flags 16 t;
      if dist <? 16 then read_sizes bitbuf64 decomp_flags turns t n (codes ++ [dist])
      else if (dist =? 16) && (len codes =? 0) then TINFL_CR_RETURN 17 TINFL_STATUS_FAILED
      else num_extra ← t_lift (arr [2; 3; 7] (dist - 16)); s ← TINFL_GET_BITS bitbuf64 decomp_flags 18 num_extra;
        base ← t_lift (arr [3; 3; 11] (dist - 16)); let s := s + base in
        l ← t_lift (if dist =? 16 then arr codes (len codes - 1) else Ret 0);
        if len_codes_room <? len codes + s then t_lift (Crash MemFault)
        else read_sizes bitbuf64 decomp_flags turns t n (codes ++ replicate (Z.to_nat s) l)) s l rest out /\ len l = n) as Hrep.
  { intros j base v k bits2 Hj Hb Hb0 E1 E2 E3 E4 Hk Hc. pose proof (take_bits_range _ _ _ _ Hk) as Hkr.
    assert (forall s2, ready s2 bits1 out -> does (TINFL_GET_BITS bitbuf64 decomp_flags 18 (Z.of_nat j)) s2 k bits2 out) as Hbits
      by (intros s2 Hr2; eapply does_bits; [done|done|lia|done]).
    pose proof Hsym as (s1 & _ & Hr1). pose proof (Hbits s1 Hr1) as (s2 & _ & Hr2).
    destruct (IH _ _ _ _ _ _ Hr2 Hc) as [_ Hll]. split; [|done].
    eapply does_then; [exact Hsym|]. intros s3 Hr3. cbn beta. destruct (Z.ltb_spec sym 16); [lia|]. rewrite E4.
    eapply does_lift; [exact E1|]. eapply does_then; [by apply Hbits|]. intros s4 Hr4.
    eapply does_lift; [exact E2|]. cbn beta zeta. eapply does_lift; [exact E3|].
    destruct (Z.ltb_spec len_codes_room (len codes + (k + base))); [unfold len_codes_room, TINFL_MAX_HUFF_SYMBOLS_0 in *; lia|].
    rewrite (Z.add_comm k). by apply (IH _ _ _ _ _ _ Hr4 Hc). }
  destruct (Z.eqb_spec sym 16) as [->|].
  { destruct (last codes) as [v|] eqn:El; [|done]. apply D_bind_inv in H as (k & bits2 & Hk & H).
    apply (Hrep 2%nat 3 v k bits2); [lia|done..|by apply last_arr|by destruct codes|done|done]. }
  destruct (Z.eqb_spec sym 17) as [->|].
  { apply D_bind_inv in H as (k & bits2 & Hk & H). apply (Hrep 3%nat 3 0 k bits2); [lia|done..]. }
  assert (sym = 18) as -> by lia. apply D_bind_inv in H as (k & bits2 & Hk & H). apply (Hrep 7%nat 11 0 k bits2); [lia|done..].
Qed.

(** The sizes of both codes; they are as many as the header says. *)
Lemma dynamic_sizes_ok s bits out n0 bits1 n1 bits2 n2 bits3 cl bits4 sizes bits5 : ready s bits out ->
  take_bits 5 bits = Some (n0, bits1) -> take_bits 5 bits1 = Some (n1, bits2) -> take_bits 4 bits2 = Some (n2, bits3) ->
  take_sizes (Z.to_nat (n2 + 4)) bits3 = Some (cl, bits4) -> valid_sizes (ordered cl) ->
  code_sizes (Z.to_nat (n0 + 257 + (n1 + 1))) (ordered cl) (n0 + 257 + (n1 + 1)) [] bits4 = Some (sizes, bits5) ->
  len sizes = n0 + 257 + (n1 + 1) /\
  does (dynamic_sizes bitbuf64 decomp_flags) s (take (Z.to_nat (n0 + 257)) sizes, drop (Z.to_nat (n0 + 257)) sizes) bits5 out.
Proof.
  intros Hr H0 H1 H2 H3 Hv H4.
  pose proof (take_bits_range _ _ _ _ H0) as Hr0. pose proof (take_bits_range _ _ _ _ H1) as Hr1.
  pose proof (take_bits_range _ _ _ _ H2) as Hr2. change (2 ^ Z.of_nat 5) with 32 in *. change (2 ^ Z.of_nat 4) with 16 in *.
  destruct (does_table (ordered cl) Hv ltac:(rewrite ordered_length; lia)) as (t & Ht & Et).
  assert (forall s4, ready s4 bits4 out -> does (read_sizes bitbuf64 decomp_flags (Z.to_nat (n0 + 257 + (n1 + 1))) t
    (n0 + 257 + (n1 + 1)) []) s4 sizes bits5 out /\ len sizes = n0 + 257 + (n1 + 1)) as Hread
    by (intros s4 Hr4; eapply (read_sizes_ok (ordered cl)); [done|apply ordered_length|done|lia|done|done]).
  assert (forall n idx s bits v rest, (n <= 16)%nat -> ready s bits out -> take_bits n bits = Some (v, rest) ->
    does (TINFL_GET_BITS bitbuf64 decomp_flags idx (Z.of_nat n)) s v rest out) as Hb by (intros; by eapply does_bits).
  assert (forall s3, ready s3 bits3 out -> does (code_code_sizes bitbuf64 decomp_flags (Z.to_nat (n2 + 4)) 0 (replicate 19 0))
    s3 (ordered cl) bits4 out) as Hcc.
  { intros s3 Hr3. apply (code_code_sizes_ok (Z.to_nat (n2 + 4)) s3 bits3 out 0 (replicate 19 0) cl bits4); [done|lia|done|done]. }
  assert (exists s4, ready s4 bits4 out) as (s4 & Hr4).
  { pose proof (Hb 5%nat 11 s bits n0 bits1 ltac:(lia) Hr H0) as (s1 & _ & Hs1).
    pose proof (Hb 5%nat 11 s1 bits1 n1 bits2 ltac:(lia) Hs1 H1) as (s2 & _ & Hs2).
    pose proof (Hb 4%nat 11 s2 bits2 n2 bits3 ltac:(lia) Hs2 H2) as (s3 & _ & Hs3).
    pose proof (Hcc s3 Hs3) as (s4 & _ & Hs4). by exists s4. }
  destruct (Hread s4 Hr4) as [_ Hll]. split; [done|]. unfold dynamic_sizes.
  eapply does_then; [by eapply (Hb 5%nat); [lia|..]|]. intros sa Hra. cbn beta zeta.
  eapply does_then; [by eapply (Hb 5%nat); [lia|..]|]. intros sb Hrb. cbn beta zeta.
  eapply does_then; [by eapply (Hb 4%nat); [lia|..]|]. intros sc Hrc. cbn beta zeta.
  eapply does_then; [by apply Hcc|]. intros sd Hrd. eapply does_then; [by apply Et|]. intros se Hre.
  eapply does_then; [by apply Hread|]. intros sf Hrf. rewrite Hll, Z.eqb_refl. by apply does_return.
Qed.

Lemma dynamic_ok f s bits out out' rest : ready s bits out -> lasts f (2 ^ 70) ->
  inflate_dynamic out bits = Some (out', rest) -> len out' <= size -> len bits < 2 ^ 70 ->
  does ('(t0, t1) ← ('(sizes0, sizes1) ← dynamic_sizes bitbuf64 decomp_flags;
                     t1 ← init_table sizes1; t0 ← init_table sizes0; mret (t0, t1));
        inflate_codes bitbuf64 unaligned decomp_flags mask f t0 t1) s tt rest out'.
Proof.
  intros Hr Hf H Hsz Hbits. unfold inflate_dynamic in H.
  apply D_bind_inv in H as (n0 & bits1 & H0 & H). apply D_bind_inv in H as (n1 & bits2 & H1 & H).
  apply D_bind_inv in H as (n2 & bits3 & H2 & H). apply D_bind_inv in H as (cl & bits4 & H3 & H).
  case_decide as Hv; [|done]. apply D_bind_inv in H as (sizes & bits5 & H4 & H).
  pose proof (take_bits_range _ _ _ _ H0) as Hr0. pose proof (take_bits_range _ _ _ _ H1) as Hr1.
  change (2 ^ Z.of_nat 5) with 32 in *.
  destruct (dynamic_sizes_ok _ _ _ _ _ _ _ _ _ _ _ _ _ Hr H0 H1 H2 H3 Hv H4) as [Hlen Hdyn].
  pose proof (shrinks_code_sizes _ _ _ _ _ _ _ H4). apply shrinks_take_sizes in H3 as ?.
  apply shrinks_take_bits in H0 as ?. apply shrinks_take_bits in H1 as ?. apply shrinks_take_bits in H2 as ?.
  unfold inflate_compressed in H. case_decide as Hvv; [|done]. destruct Hvv as [Hlit Hdist].
  destruct (does_table _ Hdist ltac:(rewrite length_drop; lia)) as (t1 & Ht1 & E1).
  destruct (does_table _ Hlit ltac:(rewrite length_take; lia)) as (t0 & Ht0 & E0).
  eapply (does_then size _ _ s (t0, t1)).
  - eapply does_then; [exact Hdyn|]. intros s1 Hs1. cbn beta iota.
    eapply does_then; [by apply E1|]. intros s2 Hs2. eapply does_then; [by apply E0|]. intros s3 Hs3. by apply does_return.
  - intros s1 Hs1. cbn beta iota.
    eapply (symbols_ok bitbuf64 unaligned decomp_flags size Hflag Hsize _ _ Hlit Hdist); try done.
    + rewrite length_take. lia.
    + rewrite length_drop. lia.
    + eapply lasts_le; [|exact Hf]. lia.
Qed.

(** ** The blocks of a stream *)

Lemma compressed_grow lit dist out bits out' rest : inflate_compressed lit dist out bits = Some (out', rest) -> len out <= len out'.
Proof. unfold inflate_compressed. case_decide; [|done]. apply symbols_grow. Qed.

Lemma dynamic_grow out bits out' rest : inflate_dynamic out bits = Some (out', rest) -> len out <= len out'.
Proof.
  unfold inflate_dynamic. intros H.
  apply D_bind_inv in H as (n0 & bits1 & _ & H). apply D_bind_inv in H as (n1 & bits2 & _ & H).
  apply D_bind_inv in H as (n2 & bits3 & _ & H). apply D_bind_inv in H as (cl & bits4 & _ & H).
  case_decide; [|done]. apply D_bind_inv in H as (sizes & bits5 & _ & H). by apply compressed_grow in H.
Qed.

Lemma stored_grow out bits out' rest : inflate_stored out bits = Some (out', rest) -> len out <= len out'.
Proof.
  unfold inflate_stored. intros H.
  apply D_bind_inv in H as (x & bits1 & _ & H). apply D_bind_inv in H as (n & bits2 & _ & H).
  apply D_bind_inv in H as (m & bits3 & _ & H). destruct (n + m =? 65535); [|done].
  apply D_bind_inv in H as (data & bits4 & _ & [= <- _]). rewrite length_app. lia.
Qed.

(** A block by its type. *)
Definition inflate_typed (type : Z) (out : list byte) : D (list byte) :=
  if type =? 0 then inflate_stored out
  else if type =? 1 then inflate_compressed fixed_lit fixed_dist out
  else if type =? 2 then inflate_dynamic out
  else bad.

Lemma typed_grow type out bits out' rest : inflate_typed type out bits = Some (out', rest) -> len out <= len out'.
Proof.
  unfold inflate_typed. repeat case_match; [apply stored_grow|apply compressed_grow|apply dynamic_grow|done].
Qed.

Lemma deflated_grow n : forall out bits out' rest, inflate_deflated n out bits = Some (out', rest) -> len out <= len out'.
Proof.
  induction n as [|n IH]; intros out bits out' rest H; [done|]. cbn [inflate_deflated] in H.
  apply D_bind_inv in H as (f & bits1 & _ & H). apply D_bind_inv in H as (ty & bits2 & _ & H).
  apply D_bind_inv in H as (out1 & bits3 & H1%typed_grow & H). destruct (f =? 1).
  - by injection H as -> _.
  - apply IH in H. lia.
Qed.

#[local] Opaque full_tank.

Lemma T_ret_bind {A B} (a : A) (k : A -> T B) : (mret a ≫= k) = k a.
Proof. done. Qed.

Lemma block_ok type s bits out out' rest : ready s bits out -> 0 <= type < 4 ->
  inflate_typed type out bits = Some (out', rest) -> len out' <= size -> len bits < 2 ^ 70 ->
  does (inflate_block bitbuf64 unaligned decomp_flags mask type) s tt rest out'.
Proof.
  intros Hr Ht H Hsz Hbits. assert (lasts full_tank (2 ^ 70)) as Hf by (apply full_tank_lasts; lia).
  unfold inflate_typed in H. unfold inflate_block, block_tables. destruct (Z.eqb_spec type 0).
  { by eapply stored_block_ok. }
  destruct (Z.eqb_spec type 1) as [->|].
  { cbn [Z.eqb Pos.eqb]. rewrite T_ret_bind. cbn beta iota.
    apply (compressed_ok full_tank fixed_lit fixed_dist s bits out out' rest Hr Hf); [vm_compute; lia..|done|done|done]. }
  destruct (Z.eqb_spec type 2) as [->|]; [|done]. cbn [Z.eqb Pos.eqb].
  exact (dynamic_ok full_tank s bits out out' rest Hr Hf H Hsz Hbits).
Qed.

Lemma blocks_ok n : forall f s bits out out' rest, lasts f (Z.of_nat n) -> ready s bits out ->
  inflate_deflated n out bits = Some (out', rest) -> len out' <= size -> len bits < 2 ^ 70 ->
  does (inflate_blocks bitbuf64 unaligned decomp_flags mask f) s tt rest out'.
Proof.
  induction n as [|n IH]; intros f s bits out out' rest Hf Hr H Hsz Hbits; [done|].
  destruct (lasts_turn _ _ Hf ltac:(lia)) as (k & -> & Hk). replace (Z.of_nat (S n) - 1) with (Z.of_nat n) in Hk by lia.
  cbn [inflate_deflated inflate_blocks] in *.
  apply D_bind_inv in H as (fin & bits1 & H1 & H). apply D_bind_inv in H as (ty & bits2 & H2 & H).
  apply D_bind_inv in H as (out1 & bits3 & H3 & H). change (inflate_typed ty out bits2 = Some (out1, bits3)) in H3.
  pose proof (take_bits_range _ _ _ _ H1) as Hr1. pose proof (take_bits_range _ _ _ _ H2) as Hr2.
  change (2 ^ Z.of_nat 1) with 2 in *. change (2 ^ Z.of_nat 2) with 4 in *.
  destruct (take_bits_add 1 2 _ _ _ _ _ H1 H2) as [Hv Hrest]. change (2 ^ Z.of_nat 1) with 2 in Hv.
  apply shrinks_take_bits in H1 as ?. apply shrinks_take_bits in H2 as ?.
  eapply does_then.
  { apply does_reads; [apply Hr|]. apply (get_bits_ok bitbuf64 decomp_flags Hflag 3 3 s bits); [apply Hr|lia]. }
  intros s1 Hs1. cbn beta. change (1 + 2)%nat with 3%nat in *. rewrite <- Hv. rewrite <- Hrest in Hs1.
  assert (Z.shiftr (fin + 2 * ty) 1 = ty) as -> by (rewrite Z.shiftr_div_pow2 by lia; change (2 ^ 1) with 2; dlia).
  assert (((fin + 2 * ty) &&& 1) = fin) as ->.
  { change 1 with (2 ^ 1 - 1). rewrite land_ones_wrap by lia. unfold wrap. change (2 ^ 1) with 2. dlia. }
  assert (len out1 <= size) as Hsz1.
  { destruct (fin =? 1); [by injection H as -> _|]. apply deflated_grow in H. lia. }
  eapply does_then; [by eapply block_ok; [|lia|..]; try done; lia|]. intros s2 Hs2. cbn beta.
  assert (length bits3 <= length bits2)%nat.
  { unfold inflate_typed in H3. destruct (ty =? 0); [by apply shrinks_stored in H3|].
    destruct (ty =? 1); [by apply shrinks_compressed in H3|]. destruct (ty =? 2); [by apply shrinks_dynamic in H3|done]. }
  destruct (Z.eqb_spec fin 1) as [->|].
  - injection H as <- <-. by apply does_return.
  - assert (fin = 0) as -> by lia. eapply IH; [exact Hk|done|done|done|lia].
Qed.

(** ** Header and trailer *)

Lemma land_shift_u32 z b : 0 <= b < 256 -> (u32 (Z.shiftl z 8) ||| b) = (z * 256 + b) mod 2 ^ 32.
Proof.
  intros Hb. rewrite Z.lor_comm, Z.shiftl_mul_pow2 by lia. change (2 ^ 8) with 256. unfold wrap.
  assert ((z * 256) mod 2 ^ 32 = Z.shiftl (z mod 2 ^ 24) (Z.of_nat 8)) as ->.
  { rewrite Z.shiftl_mul_pow2 by lia. change (2 ^ Z.of_nat 8) with 256. change (2 ^ 32) with (2 ^ 24 * 256).
    by rewrite Z.mul_mod_distr_r by lia. }
  rewrite lor_disjoint by done. change (2 ^ Z.of_nat 8) with 256.
  change (2 ^ 32) with 4294967296. change (2 ^ 24) with 16777216. dlia.
Qed.

Lemma be_val_snoc bs b : be_val (bs ++ [b]) = be_val bs * 256 + byte_val b.
Proof. unfold be_val. by rewrite foldl_app. Qed.

Lemma read_adler32_ok n : forall s bits out data rest z, ready s bits out -> take_bytes n bits = Some (data, rest) ->
  does (read_adler32 bitbuf64 decomp_flags n z) s (foldl (fun z b => u32 (Z.shiftl z 8) ||| byte_val b) z data) rest out.
Proof.
  induction n as [|n IH]; intros s bits out data rest z Hr H.
  - injection H as <- <-. by apply does_return.
  - apply take_bytes_S in H as (v & bits1 & data1 & Hv & H & ->).
    pose proof (take_bits_range _ _ _ _ Hv) as Hvr. change (2 ^ Z.of_nat 8) with 256 in Hvr.
    cbn [read_adler32 foldl]. rewrite byte_val_of, (Z.mod_small v) by lia. unfold TinflOk.does. rewrite get_io_bind.
    eapply (does_then size); [by eapply does_byte|]. intros s1 Hs1. by eapply IH.
Qed.

Lemma adler_octets z a b c d :
  foldl (fun z b => u32 (Z.shiftl z 8) ||| byte_val b) z [a; b; c; d] = be_val [a; b; c; d].
Proof.
  cbn [foldl be_val]. pose proof (byte_val_range a). pose proof (byte_val_range b).
  pose proof (byte_val_range c). pose proof (byte_val_range d).
  rewrite !land_shift_u32 by done. change (2 ^ 32) with 4294967296. dlia.
Qed.

Lemma trailer_ok s bits out bits1 data rest : flag decomp_flags TINFL_FLAG_PARSE_ZLIB_HEADER = true -> ready s bits out ->
  align bits = Some (tt, bits1) -> take_bytes 4 bits1 = Some (data, rest) ->
  does (zlib_trailer bitbuf64 decomp_flags) s (be_val data) rest out.
Proof.
  intros Hz Hr Ha H. assert (bits1 = drop (length bits mod 8) bits) as -> by (unfold align in Ha; congruence).
  unfold zlib_trailer. rewrite Hz. apply does_get_io. eapply does_then.
  { apply does_reads; [apply Hr|]. apply skip_bits_ok, Hr. }
  intros s1 Hs1. pose proof (read_adler32_ok 4 s1 _ out data rest 1 Hs1 H) as Hd.
  pose proof (take_bytes_length _ _ _ _ H) as Hl. destruct data as [|a [|b [|c [|d [|]]]]]; try done.
  by rewrite adler_octets in Hd.
Qed.
End stream.

(** ** The checksum *)

(** A step of the sums of RFC 1950. *)
Abbreviation adler_step := (fun '(a, b) x => let a := (a + byte_val x) mod 65521 in (a, (b + a) mod 65521)).

(** In a block of 5552 bytes the sums fit their 32 bits, by little. *)
Lemma adler_byte_run l : forall s1 s2, 0 <= s1 -> 0 <= s2 ->
  2 * s2 + 2 * len l * s1 + 255 * len l * (len l + 1) < 2 ^ 33 -> s1 + 255 * len l < 2 ^ 32 ->
  exists t1 t2, foldl adler_byte (s1, s2) l = (t1, t2) /\
    foldl adler_step (s1 mod 65521, s2 mod 65521) l = (t1 mod 65521, t2 mod 65521).
Proof.
  induction l as [|x l IH]; intros s1 s2 H1 H2 Hb Hb1; cbn [foldl length] in *.
  - by exists s1, s2.
  - pose proof (byte_val_range x). rewrite Nat2Z.inj_succ in *.
    change (2 ^ 33) with 8589934592 in *. change (2 ^ 32) with 4294967296 in *.
    unfold adler_byte at 2. cbn [fst snd]. rewrite (wrap_small 32 (s1 + byte_val x)) by (change (2 ^ 32) with 4294967296; lia).
    rewrite (wrap_small 32 (s2 + _)) by (change (2 ^ 32) with 4294967296; nia).
    destruct (IH (s1 + byte_val x) (s2 + (s1 + byte_val x))) as (t1 & t2 & E & E2); [lia|lia|nia|lia|].
    exists t1, t2. split; [done|]. rewrite <- E2. f_equal. f_equal.
    + by rewrite Zplus_mod_idemp_l.
    + rewrite Zplus_mod_idemp_r, Zplus_mod_idemp_l.
      replace (s2 + (s1 mod 65521 + byte_val x)) with (s1 mod 65521 + (s2 + byte_val x)) by lia.
      rewrite Zplus_mod_idemp_l. f_equal. lia.
Qed.

Lemma adler_blocks_ok turns : forall s1 s2 block_len ptr, 0 <= s1 < 65521 -> 0 <= s2 < 65521 -> 0 <= block_len <= 5552 ->
  (length ptr + (if decide (block_len = 0%Z) then 1 else 0) <= turns)%nat ->
  adler_blocks turns s1 s2 block_len ptr = Ret (foldl adler_step (s1, s2) ptr).
Proof.
  induction turns as [|turns IH]; intros s1 s2 bl ptr H1 H2 Hbl Ht; cbn [adler_blocks].
  - destruct ptr; [done|]. cbn in Ht. lia.
  - destruct ptr as [|x ptr0] eqn:Ep; [done|]. rewrite <- Ep in *. assert (1 <= length ptr)%nat by (subst; cbn; lia).
    assert (len (take (Z.to_nat bl) ptr) <= 5552) as Hl by (rewrite length_take; lia).
    destruct (adler_byte_run (take (Z.to_nat bl) ptr) s1 s2 ltac:(lia) ltac:(lia)) as (t1 & t2 & E & E2).
    { change (2 ^ 33) with 8589934592. nia. } { change (2 ^ 32) with 4294967296. lia. }
    rewrite E. rewrite (Z.mod_small s1), (Z.mod_small s2) in E2 by lia.
    rewrite IH; [|apply Z.mod_pos_bound; lia..|lia|].
    + rewrite <- E2, <- foldl_app, take_drop. done.
    + rewrite length_drop, decide_False by done. case_decide; lia.
Qed.

(** the checksum, summed up in blocks and reduced once a block, is the one of RFC 1950. *)
Lemma adler_update_ok data : adler_update 1 data = Ret (adler32 data).
Proof.
  unfold adler_update. change (1 &&& 65535) with 1. change (Z.shiftr 1 16) with 0.
  change (adler32 data) with (let '(a, b) := foldl adler_step (1, 0) data in b * 65536 + a).
  rewrite adler_blocks_ok; [|lia..| |].
  - assert (forall l a b, 0 <= a < 65521 -> 0 <= b < 65521 -> exists a' b',
      foldl adler_step (a, b) l = (a', b') /\ 0 <= a' < 65521 /\ 0 <= b' < 65521) as H.
    { induction l as [|x l IH]; intros a b Ha Hb; [by exists a, b|]. cbn [foldl]. apply IH; apply Z.mod_pos_bound; lia. }
    destruct (H data 1 0 ltac:(lia) ltac:(lia)) as (a & b & -> & Ha & Hb). cbn [mbind outcome_bind].
    f_equal. rewrite Z.shiftl_mul_pow2 by lia. apply wrap_small. change (2 ^ 16) with 65536. change (2 ^ 32) with 4294967296. lia.
  - pose proof (Z.mod_pos_bound (len data) 5552). lia.
  - case_decide; lia.
Qed.

(** ** The whole *)

Lemma at_bits_start input out next : at_bits (mk_io 0 0 input out next) (bits_of input).
Proof. exists [], 0%nat. cbn [num_bits bit_buf pIn_buf app length bits_val replicate]. rewrite app_nil_r. by split_and!. Qed.

Lemma header_ok decomp_flags size out input cmf flg bits1 bits2 :
  flag decomp_flags TINFL_FLAG_PARSE_ZLIB_HEADER = true ->
  flag decomp_flags TINFL_FLAG_USING_NON_WRAPPING_OUTPUT_BUF = true ->
  take_bits 8 (bits_of input) = Some (cmf, bits1) -> take_bits 8 bits1 = Some (flg, bits2) ->
  ((cmf * 256 + flg) mod 31 =? 0) && (cmf mod 16 =? 8) && negb (Z.testbit flg 5) = true -> len out = size ->
  exists s, zlib_header decomp_flags (2 ^ 64 - 1) (mk_io 0 0 input out 0) = Ret (Next tt s) /\
            TinflOk.ready size s bits2 [].
Proof.
  intros Hz Hw H1 H2 Hh Hsize.
  apply take_bits_inv in H1 as (-> & -> & Hl1). apply take_bits_inv in H2 as (-> & -> & Hl2).
  rewrite length_drop, bits_of_length in Hl2. destruct input as [|b0 [|b1 input]]; [cbn in Hl2; lia..|].
  change (bits_of (b0 :: b1 :: input)) with (byte_bits b0 ++ byte_bits b1 ++ bits_of input) in *.
  assert (bits_val (pad 8 (byte_bits b0 ++ byte_bits b1 ++ bits_of input)) = byte_val b0) as E0.
  { by rewrite pad_app_l, pad_take, take_ge, bits_val_byte. }
  change (drop 8 (byte_bits b0 ++ byte_bits b1 ++ bits_of input)) with (byte_bits b1 ++ bits_of input) in *.
  assert (bits_val (pad 8 (byte_bits b1 ++ bits_of input)) = byte_val b1) as E1.
  { by rewrite pad_app_l, pad_take, take_ge, bits_val_byte. }
  rewrite E0, E1 in Hh. change (drop 8 (byte_bits b1 ++ bits_of input)) with (bits_of input).
  apply andb_true_iff in Hh as [Hh Hd]. apply andb_true_iff in Hh as [Hm Hc].
  unfold zlib_header. rewrite Hz. unfold mbind, T_bind, TINFL_GET_BYTE, set_in. cbn [pIn_buf num_bits bit_buf pOut_buf pOut_buf_cur].
  rewrite Hm, Hw. pose proof (byte_val_range b1).
  assert ((byte_val b0 &&& 15) = byte_val b0 mod 16) as -> by (change 15 with (2 ^ 4 - 1); by rewrite land_ones_wrap).
  rewrite Hc.
  assert ((byte_val b1 &&& 32 =? 0) = true) as ->.
  { apply Z.eqb_eq. apply Z.bits_inj'. intros i Hi. rewrite Z.land_spec, Z.bits_0. change 32 with (2 ^ 5).
    rewrite Z.pow2_bits_eqb by lia. destruct (Z.eqb_spec 5 i) as [<-|]; [|apply andb_false_r].
    apply negb_true_iff in Hd. by rewrite Hd. }
  cbn [negb orb andb]. eexists. split; [done|]. split; [apply at_bits_start|].
  unfold holds, writes_ahead. cbn. split_and!; [done|done|by rewrite take_0].
Qed.

#[local] Opaque full_tank.

(** The body of the coroutine on a stream. *)
Lemma tinfl_body_ok bitbuf64 unaligned decomp_flags input out data :
  flag decomp_flags TINFL_FLAG_HAS_MORE_INPUT = false ->
  flag decomp_flags TINFL_FLAG_PARSE_ZLIB_HEADER = true ->
  flag decomp_flags TINFL_FLAG_USING_NON_WRAPPING_OUTPUT_BUF = true ->
  zlib_decode input = Some data -> len data <= len out -> len out <= 2 ^ 62 -> len input <= 2 ^ 62 ->
  exists s, tinfl_body bitbuf64 unaligned decomp_flags (2 ^ 64 - 1) (mk_io 0 0 input out 0) = Ret (Next (adler32 data) s) /\
            holds (len out) s data.
Proof.
  intros Hf Hz Hw H Hroom Hout Hin. unfold zlib_decode in H.
  destruct (zlib_stream (bits_of input)) as [[d rest]|] eqn:E; [|done]. injection H as ->. unfold zlib_stream in E.
  apply D_bind_inv in E as (cmf & bits1 & H1 & E). apply D_bind_inv in E as (flg & bits2 & H2 & E).
  destruct (_ && _ && _) eqn:Eh; [|done].
  apply D_bind_inv in E as (o & bits3 & H3 & E). apply D_bind_inv in E as ([] & bits4 & H4 & E).
  apply D_bind_inv in E as (check & bits5 & H5 & E). destruct (Z.eqb_spec (be_val check) (adler32 o)) as [Ec|]; [|done].
  injection E as -> ->.
  destruct (header_ok decomp_flags (len out) out input cmf flg bits1 bits2 Hz Hw H1 H2 Eh eq_refl) as (s1 & E1 & Hs1).
  apply shrinks_take_bits in H1 as ?. apply shrinks_take_bits in H2 as ?.
  assert (len (bits_of input) <= 2 ^ 65) as Hlen by (rewrite bits_of_length; change (2 ^ 65) with (8 * 2 ^ 62); lia).
  destruct (blocks_ok bitbuf64 unaligned decomp_flags (len out) Hf Hout (length (bits_of input)) full_tank s1 bits2 [] data bits3)
    as (s2 & E2 & Hs2); [apply full_tank_lasts; lia|done..|lia|].
  destruct (trailer_ok bitbuf64 decomp_flags (len out) Hf s2 bits3 data bits4 check rest Hz Hs2 H4 H5) as (s3 & E3 & _ & Hh).
  exists s3. split; [|done]. unfold tinfl_body. by rewrite (bind_next _ _ _ _ _ E1), (bind_next _ _ _ _ _ E2), E3, Ec.
Qed.

(** a zlib stream is decompressed to its data: what the reference of RFC 1950 and RFC 1951
    makes of the input, in stored, fixed or dynamic blocks, is what the call leaves in the
    output buffer, whatever was there, when it has the room; the checksum is found right,
    and what follows the stream is ignored.  It is so for both widths of the bit buffer and
    with words copied as such or not. *)
Theorem tinfl_decompress_mem_to_mem_correct (bitbuf64 unaligned : bool) (input out data : list byte) :
  zlib_decode input = Some data -> len data <= len out -> len out <= 2 ^ 62 -> len input <= 2 ^ 62 ->
  exists buf, tinfl_decompress_mem_to_mem bitbuf64 unaligned out input TINFL_FLAG_PARSE_ZLIB_HEADER
                = Ret (Some (len data), buf) /\
              len buf = len out /\ slice buf 0 (len data) = data.
Proof.
  intros H Hroom Hout Hin. unfold tinfl_decompress_mem_to_mem, tinfl_decompress.
  destruct (tinfl_body_ok bitbuf64 unaligned 5 input out data eq_refl eq_refl eq_refl H Hroom Hout Hin)
    as (s & E & Hc & Hl & Ht).
  change (Z.land TINFL_FLAG_PARSE_ZLIB_HEADER (Z.lnot TINFL_FLAG_HAS_MORE_INPUT) |||
          TINFL_FLAG_USING_NON_WRAPPING_OUTPUT_BUF) with 5.
  change (negb (5 &&& TINFL_FLAG_USING_NON_WRAPPING_OUTPUT_BUF =? 0)) with true. cbn iota.
  change (negb (u64 (2 ^ 64 - 1 + 1) &&& (2 ^ 64 - 1) =? 0) || (0 <? 0)) with false. cbn iota.
  rewrite E. cbn [mbind outcome_bind]. rewrite Hc, Z.sub_0_r, app_nil_r in *.
  assert (slice s.(pOut_buf) 0 (len data) = data) as Hs.
  { unfold slice. rewrite !Z.min_l by lia. change (Z.to_nat 0) with 0%nat. by rewrite drop_0, Nat2Z.id. }
  change (negb (5 &&& (TINFL_FLAG_PARSE_ZLIB_HEADER ||| TINFL_FLAG_COMPUTE_ADLER32) =? 0) && negb false) with true.
  cbn iota. rewrite Hs, adler_update_ok. cbn [mbind outcome_bind]. rewrite Z.eqb_refl. cbn [negb]. rewrite andb_false_r.
  rewrite bool_decide_true by done. exists s.(pOut_buf). by split_and!.
Qed.

(** on Windows a compressed block that holds a zlib stream of no more than the room is
    decompressed to its data, whatever the buffer holds. *)
Theorem win_decompressor_zlib_correct (bitbuf64 unaligned : bool) (garbage : Z -> list byte) (input data : list byte) (outsz : Z) :
  (forall n, 0 <= n -> len (garbage n) = n) -> zlib_decode input = Some data ->
  len data <= outsz -> outsz <= 2 ^ 62 -> len input <= 2 ^ 62 ->
  win_decompressor_zlib bitbuf64 unaligned garbage input outsz = Ret (Success data).
Proof.
  intros Hg H Hroom Hout Hin. pose proof (Hg outsz ltac:(lia)) as Hlen. unfold win_decompressor_zlib.
  destruct (tinfl_decompress_mem_to_mem_correct bitbuf64 unaligned input (garbage outsz) data H) as (buf & E & _ & Hs); [lia..|].
  change (tinfl_decompress_mem_to_mem bitbuf64 unaligned (garbage outsz) input
    (TINFL_FLAG_PARSE_ZLIB_HEADER ||| TINFL_FLAG_USING_NON_WRAPPING_OUTPUT_BUF))
    with (tinfl_decompress_mem_to_mem bitbuf64 unaligned (garbage outsz) input TINFL_FLAG_PARSE_ZLIB_HEADER).
  rewrite E. cbn [mbind outcome_bind]. by rewrite Hs.
Qed.
