(* ===== verification/TinflSafe.v ===== *)
(** * TinflSafe: tinfl.c on input that may be anything

    The decompressor of the Windows port keeps what the block layer asks of one
    ([decomp_ok]): it ends, with an error or with data that fit their buffer, unless it
    touches memory that is not its own.  That last it does: a match of length 0, which the
    codes 286 and 287 stand for, is copied as three bytes ([tinfl_overrun]). *)
From S2P Require Import Prelude Decompress Bits Inflate Tinfl Huffman HuffTable TinflRead TinflCopy TinflOk TinflStream.

Section safe.
Context (bitbuf64 unaligned : bool) (decomp_flags size : Z).
Context (Hflag : flag decomp_flags TINFL_FLAG_HAS_MORE_INPUT = false).
Context (Hwrap : flag decomp_flags TINFL_FLAG_USING_NON_WRAPPING_OUTPUT_BUF = true) (Hsize : size <= 2 ^ 62).
Abbreviation mask := (2 ^ 64 - 1).

(** [c] returns from the coroutine, dies of a memory fault, or goes on with [P]. *)
Definition goes {A} (c : T A) (s : io) (P : A -> io -> Prop) : Prop :=
  match c s with
  | Ret (Next a s') => P a s'
  | Ret (Return _ status _) => status <> TINFL_STATUS_DONE
  | Crash c => c = MemFault
  end.

Lemma goes_bind {A B} (c : T A) (f : A -> T B) s P Q :
  goes c s P -> (forall a s', P a s' -> goes (f a) s' Q) -> goes (c ≫= f) s Q.
Proof.
  unfold goes, mbind, T_bind. intros Hc Hf. destruct (c s) as [[a s'|i st s']|]; [by apply Hf|done..].
Qed.

Lemma goes_ret {A} (a : A) s (P : A -> io -> Prop) : P a s -> goes (mret a) s P.
Proof. done. Qed.

Lemma goes_return {A} i st s (P : A -> io -> Prop) : st <> TINFL_STATUS_DONE -> goes (TINFL_CR_RETURN i st) s P.
Proof. done. Qed.

Lemma goes_weaken {A} (c : T A) s (P Q : A -> io -> Prop) : goes c s P -> (forall a s', P a s' -> Q a s') -> goes c s Q.
Proof. unfold goes. intros Hc H. destruct (c s) as [[a s'|i st s']|]; [by apply H|done..]. Qed.

Lemma goes_get_io {B} (f : io -> T B) s Q : goes (f s) s Q -> goes (s ← get_io; f s) s Q.
Proof. done. Qed.

Lemma goes_arr {A B} (l : list A) i (f : A -> T B) s Q :
  (forall x, zlookup l i = Some x -> goes (f x) s Q) -> goes (t_lift (arr l i) ≫= f) s Q.
Proof. unfold goes, mbind, T_bind, t_lift, arr. intros H. destruct (zlookup l i); [by apply H|done]. Qed.

Lemma goes_reads {A} (c : T A) s a rest (P : A -> io -> Prop) :
  reads c s a rest -> (forall s', at_bits s' rest -> same_out s s' -> P a s') -> goes c s P.
Proof. intros (s' & E & Hb & Ho) H. unfold goes. rewrite E. by apply H. Qed.

(** What holds between the steps: the bits to come are no more than [n], the buffer has its
    size, and at least [cur] bytes of it are written. *)
Definition sound (n : nat) (cur : Z) (s : io) : Prop :=
  (exists bits, at_bits s bits /\ (length bits <= n)%nat) /\
  len s.(pOut_buf) = size /\ 0 <= cur <= s.(pOut_buf_cur) /\ s.(pOut_buf_cur) <= size.

Lemma sound_reads {A} (c : T A) s a rest (bits : list bool) n cur : sound n cur s -> (length bits <= n)%nat -> (length rest <= length bits)%nat ->
  reads c s a rest -> goes c s (fun b s' => b = a /\ sound (length rest) cur s' /\ s'.(pOut_buf_cur) = s.(pOut_buf_cur)).
Proof.
  intros (_ & Hl & Hc & Hs) H1 H2 Hr. eapply goes_reads; [exact Hr|]. intros s' Hb [E1 E2].
  split_and!; [done| |done]. split; [by exists rest|]. by rewrite E1, E2.
Qed.

Lemma sound_weaken n m cur cur' s : sound n cur s -> (n <= m)%nat -> 0 <= cur' <= cur -> sound m cur' s.
Proof. intros ((bits & Hb & Hn) & Hl & Hc & Hs) ??. split; [exists bits; split; [done|lia]|]. lia. Qed.

Lemma goes_bits idx (k : nat) s n cur : sound n cur s -> (k <= 16)%nat ->
  goes (TINFL_GET_BITS bitbuf64 decomp_flags idx (Z.of_nat k)) s
    (fun v s' => 0 <= v < 2 ^ Z.of_nat k /\ sound n cur s' /\ s'.(pOut_buf_cur) = s.(pOut_buf_cur)).
Proof.
  intros Hs Hk. pose proof Hs as ((bits & Hb & Hn) & _). eapply goes_weaken.
  - eapply sound_reads; [exact Hs|exact Hn| |by apply get_bits_ok]. rewrite length_drop. lia.
  - intros v s' (-> & Hs' & ?). pose proof (bits_val_range (pad k bits)) as Hr. rewrite pad_length in Hr.
    split_and!; [lia..| |done]. eapply sound_weaken; [exact Hs'|rewrite length_drop; lia|].
    destruct Hs as (_ & _ & ? & _). lia.
Qed.

Section table.
Context (sizes : list Z) (Hv : valid_sizes sizes) (Hn : (length sizes <= 288)%nat).
Context (t : tinfl_huff_table) (Ht : table_for sizes t).

Lemma goes_sym idx s n cur : sound n cur s ->
  goes (TINFL_HUFF_DECODE bitbuf64 decomp_flags idx t) s
    (fun v s' => 0 <= v < Z.max 1 (len sizes) /\ sound n cur s' /\ s'.(pOut_buf_cur) = s.(pOut_buf_cur)).
Proof.
  intros Hs. pose proof Hs as ((bits & Hb & Hnb) & _).
  destruct (huff_decode_ok bitbuf64 decomp_flags Hflag sizes Hv Hn t Ht idx s bits Hb) as (v & k & Hf & _ & Hr).
  eapply goes_weaken; [eapply sound_reads; [exact Hs|exact Hnb| |exact Hr]; rewrite length_drop; lia|].
  intros v' s' (-> & Hs' & ?). split_and!; [by eapply found_range in Hf as [? ?]..| |done].
  eapply sound_weaken; [exact Hs'|rewrite length_drop; lia|]. destruct Hs as (_ & _ & ? & _). lia.
Qed.
End table.

Lemma goes_table sizes s n cur : sizes_ok sizes -> (length sizes <= 288)%nat -> sound n cur s ->
  goes (init_table sizes) s (fun t s' => s' = s /\ valid_sizes sizes /\ table_for sizes t).
Proof.
  intros Hs Hn Hsd. pose proof (build_table_ok sizes Hs Hn) as H. unfold goes, init_table, mbind, T_bind, t_lift.
  case_decide; [destruct H as (t & -> & Ht)|rewrite H]; done.
Qed.

(** ** Writing *)

(** [c] leaves the bits alone and writes [d] bytes at least. *)
Definition fills {A} (c : T A) (s : io) (d : Z) (P : A -> Prop) : Prop :=
  goes c s (fun a s' => P a /\ same_bits s s' /\ len s'.(pOut_buf) = size /\
                        s.(pOut_buf_cur) + d <= s'.(pOut_buf_cur) <= size).

Definition in_buffer (s : io) : Prop := len s.(pOut_buf) = size /\ 0 <= s.(pOut_buf_cur) <= size.

Lemma goes_poke i c s : in_buffer s ->
  goes (poke i c) s (fun _ s' => same_bits s s' /\ in_buffer s' /\ s'.(pOut_buf_cur) = s.(pOut_buf_cur) /\
                                 s.(pOut_buf_cur) + i + 1 <= size).
Proof.
  intros [Hl Hc]. unfold goes, poke, arr_set.
  destruct ((0 <=? _) && (_ <? len s.(pOut_buf))) eqn:E; [|done]. apply andb_true_iff in E as [_ E%Z.ltb_lt].
  unfold in_buffer, set_out. cbn [pOut_buf pOut_buf_cur]. rewrite zinsert_length. split_and!; (done || lia).
Qed.

Lemma goes_copy_byte src i s : in_buffer s ->
  goes (copy_byte src i) s (fun _ s' => same_bits s s' /\ in_buffer s' /\ s'.(pOut_buf_cur) = s.(pOut_buf_cur) /\
                                 s.(pOut_buf_cur) + i + 1 <= size).
Proof.
  intros Hs. unfold goes, copy_byte, arr. destruct (zlookup _ _) as [b|]; [|done]. by apply goes_poke.
Qed.

Lemma goes_advance n s (P : unit -> io -> Prop) : P tt (set_out s.(pOut_buf) (s.(pOut_buf_cur) + n) s) -> goes (advance n) s P.
Proof. done. Qed.

Lemma fills_tail src counter s : in_buffer s -> counter <= 2 -> fills (copy_tail src counter) s (Z.max 0 counter) (fun _ => True).
Proof.
  intros Hs Hc. unfold fills, copy_tail. destruct (Z.ltb_spec 0 counter).
  - eapply goes_bind; [by apply goes_copy_byte|]. intros _ s1 (Hb1 & Hs1 & E1 & Hr1). cbn beta in *.
    eapply goes_bind with (P := fun _ s' => same_bits s1 s' /\ in_buffer s' /\ s'.(pOut_buf_cur) = s1.(pOut_buf_cur) /\
                                            s1.(pOut_buf_cur) + counter <= size).
    + destruct (Z.ltb_spec 1 counter).
      * eapply goes_weaken; [by apply goes_copy_byte|]. intros _ s2 (? & ? & ? & ?). split_and!; (done || lia).
      * apply goes_ret. split_and!; (done || lia).
    + intros _ s2 (Hb2 & [Hl2 Hc2] & E2 & Hr2). apply goes_advance. unfold set_out. cbn [pOut_buf pOut_buf_cur].
      split_and!; [done|by eapply same_bits_trans|done|lia|lia].
  - apply goes_ret. destruct Hs. split_and!; (done || lia).
Qed.

Lemma fills_triples turns : forall src counter s, in_buffer s -> (1 <= turns)%nat -> counter <= 3 * Z.of_nat turns + 2 ->
  fills (copy_triples turns src counter) s 3 (fun _ => True).
Proof.
  induction turns as [|turns IH]; intros src counter s Hs Ht Hc; [lia|]. cbn [copy_triples]. unfold fills.
  eapply goes_bind; [by apply goes_copy_byte|]. intros _ s1 (Hb1 & Hs1 & E1 & Hr1).
  eapply goes_bind; [by apply goes_copy_byte|]. intros _ s2 (Hb2 & Hs2 & E2 & Hr2).
  eapply goes_bind; [by apply goes_copy_byte|]. intros _ s3 (Hb3 & [Hl3 Hc3] & E3 & Hr3).
  eapply goes_bind with (P := fun _ s' => same_bits s3 s' /\ in_buffer s' /\ s'.(pOut_buf_cur) = s3.(pOut_buf_cur) + 3).
  { apply goes_advance. unfold in_buffer, set_out. cbn [pOut_buf pOut_buf_cur]. split_and!; (done || lia). }
  intros _ s4 (Hb4 & Hs4 & E4). cbn beta zeta.
  assert (forall s', True /\ same_bits s4 s' /\ len s'.(pOut_buf) = size /\ s4.(pOut_buf_cur) + 0 <= s'.(pOut_buf_cur) <= size ->
    True /\ same_bits s s' /\ len s'.(pOut_buf) = size /\ s.(pOut_buf_cur) + 3 <= s'.(pOut_buf_cur) <= size) as Hend.
  { intros s' (_ & ? & ? & ?). split_and!; [done|repeat (eapply same_bits_trans; [done|]); done|done|lia|lia]. }
  destruct (Z.ltb_spec 2 (counter - 3)).
  - eapply goes_weaken; [apply IH; [done|lia|lia]|]. intros a s' (? & ? & ? & ?). apply Hend. split_and!; (done || lia).
  - eapply goes_weaken; [apply fills_tail; [done|lia]|]. intros a s' (? & ? & ? & ?). apply Hend. split_and!; (done || lia).
Qed.

Lemma goes_copy_word src i s : in_buffer s -> 0 <= i ->
  goes (copy_word src i) s (fun _ s' => same_bits s s' /\ in_buffer s' /\ s'.(pOut_buf_cur) = s.(pOut_buf_cur) /\
                                 s.(pOut_buf_cur) + 4 * i + 4 <= size).
Proof.
  intros [Hl Hc] Hi. unfold goes, copy_word. destruct (mem_read _ _ _) as [bs|c] eqn:E.
  2: { unfold mem_read in E. destruct (_ && _); congruence. }
  apply mem_read_inv in E as (_ & _ & _ & _ & Hbs). destruct (Z.leb_spec (s.(pOut_buf_cur) + 4 * i + 4) (len s.(pOut_buf))); [|done].
  unfold in_buffer, set_out. cbn [pOut_buf pOut_buf_cur].
  split_and!; [done..| |lia|lia|done|lia]. rewrite !length_app, length_take, length_drop. lia.
Qed.

Lemma fills_words turns : forall src last s, in_buffer s -> (1 <= turns)%nat -> last - src <= 8 * Z.of_nat turns ->
  fills (copy_words turns src last) s 8 (fun _ => True).
Proof.
  induction turns as [|turns IH]; intros src last s Hs Ht Hc; [lia|]. cbn [copy_words]. unfold fills.
  eapply goes_bind; [by apply goes_copy_word|]. intros _ s1 (Hb1 & Hs1 & E1 & Hr1).
  eapply goes_bind; [by apply goes_copy_word|]. intros _ s2 (Hb2 & [Hl2 Hc2] & E2 & Hr2).
  eapply goes_bind with (P := fun _ s' => same_bits s2 s' /\ in_buffer s' /\ s'.(pOut_buf_cur) = s2.(pOut_buf_cur) + 8).
  { apply goes_advance. unfold in_buffer, set_out. cbn [pOut_buf pOut_buf_cur]. split_and!; (done || lia). }
  intros _ s3 (Hb3 & [Hl3 Hc3] & E3). cbn beta zeta.
  destruct (Z.ltb_spec (src + 8) last).
  - eapply goes_weaken; [apply IH; [done|lia|lia]|]. intros a s' (_ & ? & ? & ?).
    split_and!; [done|repeat (eapply same_bits_trans; [done|]); done|done|lia|lia].
  - apply goes_ret. split_and!; [done|repeat (eapply same_bits_trans; [done|]); done|done|lia|lia].
Qed.

Lemma fills_fast src counter dist s : in_buffer s -> 0 <= counter ->
  fills (copy_fast unaligned src counter dist) s 3 (fun _ => True).
Proof.
  intros Hs Hc. unfold copy_fast. destruct (unaligned && (9 <=? counter) && (counter <=? dist)) eqn:E.
  2: { apply fills_triples; [done|lia|lia]. }
  apply andb_true_iff in E as [E _]. apply andb_true_iff in E as [_ H9%Z.leb_le].
  assert (Z.land counter (Z.lnot 7) <= counter) as Hle.
  { change 7 with (Z.ones 3). rewrite <- Z.ldiff_land, Z.ldiff_ones_r, Z.shiftl_mul_pow2, Z.shiftr_div_pow2 by lia.
    change (2 ^ 3) with 8. dlia. }
  assert ((counter &&& 7) = counter mod 8) as Em by (change 7 with (2 ^ 3 - 1); by rewrite land_ones_wrap).
  pose proof (Z.mod_pos_bound counter 8 ltac:(lia)).
  unfold fills. eapply goes_bind; [apply fills_words; [done|lia|lia]|]. intros src1 s1 (_ & Hb1 & Hl1 & Hc1). rewrite Em.
  destruct Hs as [_ Hs]. assert (in_buffer s1) as Hs1 by (split; [done|lia]).
  destruct (Z.ltb_spec (counter mod 8) 3).
  - eapply goes_weaken; [apply fills_tail; [done|lia]|]. intros _ s2 (_ & ? & ? & ?).
    split_and!; [done|by eapply same_bits_trans|done|lia|lia].
  - eapply goes_weaken; [apply fills_triples; [done|lia|lia]|]. intros _ s2 (_ & ? & ? & ?).
    split_and!; [done|by eapply same_bits_trans|done|lia|lia].
Qed.

Lemma goes_room idx s : in_buffer s -> goes (room idx) s (fun _ s' => s' = s /\ s.(pOut_buf_cur) < size).
Proof.
  intros [Hl Hc]. unfold goes, room, mbind, T_bind, get_io. rewrite Hl. destruct (Z.leb_spec size s.(pOut_buf_cur)); done.
Qed.

Lemma goes_put b s : in_buffer s ->
  goes (put b) s (fun _ s' => same_bits s s' /\ in_buffer s' /\ s'.(pOut_buf_cur) = s.(pOut_buf_cur) + 1).
Proof.
  intros [Hl Hc]. unfold goes, put, arr_set.
  destruct ((0 <=? _) && (_ <? len s.(pOut_buf))) eqn:E; [|done]. apply andb_true_iff in E as [_ E%Z.ltb_lt].
  unfold in_buffer, set_out. cbn [pOut_buf pOut_buf_cur]. rewrite zinsert_length. split_and!; (done || lia).
Qed.

Lemma fills_slow n : forall dist from s, in_buffer s -> fills (copy_slow mask n dist from) s (Z.of_nat n) (fun _ => True).
Proof.
  induction n as [|n IH]; intros dist from s Hs; cbn [copy_slow]; unfold fills.
  - apply goes_ret. destruct Hs. split_and!; (done || lia).
  - eapply goes_bind; [by apply goes_room|]. intros _ s1 [-> Hlt]. apply goes_get_io. apply goes_arr. intros b _.
    eapply goes_bind; [by apply goes_put|]. intros _ s2 (Hb2 & Hs2 & E2).
    eapply goes_weaken; [by apply IH|]. intros _ s3 (_ & ? & ? & ?).
    split_and!; [done|by eapply same_bits_trans|done|lia|lia].
Qed.

(** After output the bits are as sound as before. *)
Lemma sound_fills n cur s s' : sound n cur s -> same_bits s s' -> len s'.(pOut_buf) = size ->
  s.(pOut_buf_cur) <= s'.(pOut_buf_cur) <= size -> sound n s'.(pOut_buf_cur) s'.
Proof.
  intros ((bits & Hb & Hn) & _ & Hc & _) Hsb Hl Hc'. split; [exists bits; split; [by eapply same_bits_at|done]|lia].
Qed.

(** ** Matches *)

Lemma table_range (l : list Z) i x (most : Z) : forallb (fun x => (0 <=? x) && (x <=? most)) l = true -> zlookup l i = Some x -> 0 <= x <= most.
Proof.
  rewrite forallb_forall. intros H Hx. destruct (proj1 (zlookup_is_Some l i) ltac:(eauto)) as [Hi _].
  rewrite zlookup_lookup in Hx by done. apply list_elem_of_lookup_2, list_elem_of_In, H in Hx. zbool; lia || done.
Qed.

Lemma goes_extra idx extra s n cur : sound n cur s -> 0 <= extra <= 13 ->
  goes (if extra =? 0 then mret 0 else TINFL_GET_BITS bitbuf64 decomp_flags idx extra) s
    (fun v s' => 0 <= v /\ sound n cur s' /\ s'.(pOut_buf_cur) = s.(pOut_buf_cur)).
Proof.
  intros Hs He. destruct (Z.eqb_spec extra 0); [by apply goes_ret|].
  rewrite <- (Z2Nat.id extra) by lia. eapply goes_weaken; [apply goes_bits; [exact Hs|lia]|].
  intros v s' ([? ?] & ? & ?). done.
Qed.

Section block.
Context (lit dist : list Z) (Hlit : valid_sizes lit) (Hdist : valid_sizes dist).
Context (Hll : (length lit <= 288)%nat) (Hdl : (length dist <= 288)%nat).
Context (t0 t1 : tinfl_huff_table) (Ht0 : table_for lit t0) (Ht1 : table_for dist t1).

Lemma goes_match counter s n cur : sound n cur s ->
  goes (copy_match bitbuf64 unaligned decomp_flags mask t1 counter) s
    (fun _ s' => sound n s'.(pOut_buf_cur) s' /\ s.(pOut_buf_cur) < s'.(pOut_buf_cur)).
Proof.
  intros Hs. unfold copy_match. apply goes_arr. intros extra He%(table_range _ _ _ 5); [|done].
  apply goes_arr. intros base Hb%(table_range _ _ _ 258); [|done].
  eapply goes_bind; [apply goes_extra; [exact Hs|lia]|]. intros x s1 (Hx & Hs1 & E1). cbn beta zeta.
  eapply goes_bind; [by apply (goes_sym dist Hdist Hdl t1 Ht1)|]. intros d s2 (_ & Hs2 & E2).
  apply goes_arr. intros dextra Hde%(table_range _ _ _ 13); [|done].
  apply goes_arr. intros dbase Hdb%(table_range _ _ _ 24577); [|done].
  eapply goes_bind; [apply goes_extra; [exact Hs2|lia]|]. intros y s3 (Hy & Hs3 & E3). cbn beta zeta. apply goes_get_io.
  rewrite Hwrap, andb_true_r. pose proof Hs3 as (_ & Hl3 & Hc3 & Hr3).
  destruct (Z.ltb_spec s3.(pOut_buf_cur) (dbase + y)); [by apply goes_return|].
  assert ((u64 (s3.(pOut_buf_cur) - (dbase + y)) &&& mask) = s3.(pOut_buf_cur) - (dbase + y)) as ->
    by (rewrite land_ones_wrap, wrap_wrap, wrap_small; lia).
  rewrite Hl3. assert (in_buffer s3) as Hi3 by (split; [done|lia]).
  destruct (Z.ltb_spec size (Z.max s3.(pOut_buf_cur) (s3.(pOut_buf_cur) - (dbase + y)) + (base + x))).
  - eapply goes_weaken; [by apply fills_slow|]. intros _ s4 (_ & Hb4 & Hl4 & Hc4). split; [|lia].
    eapply sound_fills; [exact Hs3|done|done|lia].
  - eapply goes_weaken; [apply fills_fast; [done|lia]|]. intros _ s4 (_ & Hb4 & Hl4 & Hc4). split; [|lia].
    eapply sound_fills; [exact Hs3|done|done|lia].
Qed.

(** A turn of the inner loop; without a break it writes. *)
Lemma goes_turn s n cur : sound n cur s ->
  goes (literal_turn bitbuf64 decomp_flags t0) s
    (fun r s' => sound n s'.(pOut_buf_cur) s' /\ s.(pOut_buf_cur) <= s'.(pOut_buf_cur) /\
                 (r = None -> s.(pOut_buf_cur) < s'.(pOut_buf_cur))).
Proof.
  intros Hs. pose proof Hs as ((bits & Hb & Hn) & Hl & Hc & Hr).
  set (out := take (Z.to_nat s.(pOut_buf_cur)) s.(pOut_buf)).
  assert (len out = s.(pOut_buf_cur)) as Hlo by (subst out; rewrite length_take; lia).
  assert (ready size s bits out) as Hready.
  { split; [done|]. unfold holds, writes_ahead. rewrite app_nil_r. split_and!; [done|done|]. subst out. f_equal. lia. }
  assert (forall r rest out', does size (literal_turn bitbuf64 decomp_flags t0) s r rest out' ->
    (length rest <= length bits)%nat -> len out <= len out' -> (r = None -> len out < len out') ->
    goes (literal_turn bitbuf64 decomp_flags t0) s (fun r s' => sound n s'.(pOut_buf_cur) s' /\ s.(pOut_buf_cur) <= s'.(pOut_buf_cur) /\
                 (r = None -> s.(pOut_buf_cur) < s'.(pOut_buf_cur)))) as Hgo.
  { intros r rest out' (s' & E & Hb' & Hh') Hle Hlo' Hnone. unfold goes. rewrite E.
    pose proof (writes_ahead_room size s' out' [] Hh') as Hroom. cbn [length] in Hroom. destruct Hh' as (Hc' & Hl' & _).
    split_and!; [|lia|intros Er; specialize (Hnone Er); lia].
    split; [exists rest; split; [done|lia]|lia]. }
  destruct (literal_turn_ok bitbuf64 decomp_flags size Hflag lit dist Hlit Hll Hdl t0 Ht0 s bits out Hready)
    as (v & k & _ & _ & [(_ & r & _ & Hd)|[(_ & _ & s' & E & _)|[(_ & _ & Hd)|(_ & _ & v2 & k2 & _ & _ & [(_ & r & _ & Hd)|(_ & Hd)])]]]).
  - apply (Hgo _ _ _ Hd); [rewrite length_drop; lia|lia|done].
  - unfold goes. by rewrite E.
  - apply (Hgo _ _ _ Hd); rewrite ?length_drop, ?length_app; cbn; lia.
  - apply (Hgo _ _ _ Hd); rewrite ?length_drop, ?length_app; cbn; [lia|lia|done].
  - apply (Hgo _ _ _ Hd); rewrite ?length_drop, ?length_app; cbn; lia.
Qed.

Lemma goes_codes f : forall s n cur, sound n cur s -> lasts f (size - s.(pOut_buf_cur) + 1) ->
  goes (inflate_codes bitbuf64 unaligned decomp_flags mask f t0 t1) s
    (fun _ s' => sound n s'.(pOut_buf_cur) s' /\ s.(pOut_buf_cur) <= s'.(pOut_buf_cur)).
Proof.
  induction f as [|k IH]; intros s n cur Hs Hf.
  - destruct Hs as (_ & _ & _ & Hr). destruct Hf as [|[]]. lia.
  - destruct (lasts_turn _ _ Hf) as (k' & [= <-] & Hk); [destruct Hs as (_ & _ & _ & ?); lia|].
    cbn [inflate_codes]. eapply goes_bind; [by eapply goes_turn|]. intros r s1 (Hs1 & Hle1 & Hnone). destruct r as [counter|]; cbn beta iota zeta.
    + destruct ((counter &&& 511) =? 256); [by apply goes_ret|].
      eapply goes_bind; [by eapply goes_match|]. intros _ s2 (Hs2 & Hlt2). cbn beta.
      eapply goes_weaken; [eapply IH; [exact Hs2|eapply lasts_le; [|exact Hk]; lia]|]. intros _ s3 [? ?]. split; [done|lia].
    + specialize (Hnone eq_refl).
      eapply goes_weaken; [eapply IH; [exact Hs1|eapply lasts_le; [|exact Hk]; lia]|]. intros _ s3 [? ?]. split; [done|lia].
Qed.
End block.

(** ** Stored blocks *)

(** What a sequence of bytes is read as. *)
Fixpoint octets (n : nat) (bits : list bool) : list Z :=
  match n with O => [] | S n => bits_val (pad 8 bits) :: octets n (drop 8 bits) end.

Lemma raw_header_reads n : forall s bits, at_bits s bits ->
  reads (raw_header bitbuf64 decomp_flags n) s (octets n bits) (drop (8 * n) bits).
Proof.
  induction n as [|n IH]; intros s bits Hb.
  - change (8 * 0)%nat with 0%nat. rewrite drop_0. by apply reads_ret.
  - change (octets (S n) bits) with (bits_val (pad 8 bits) :: octets n (drop 8 bits)).
    cbn [raw_header]. apply reads_get_io. eapply reads_bind; [by apply get_byte_ok|]. intros s1 Hs1 _.
    eapply reads_bind; [by apply IH|]. intros s2 Hs2 _. rewrite drop_drop in Hs2.
    replace (8 * S n)%nat with (8 + 8 * n)%nat by lia. by apply reads_ret.
Qed.

Lemma octets_range n bits : Forall (fun v => 0 <= v) (octets n bits).
Proof.
  revert bits. induction n as [|n IH]; intros bits; cbn [octets]; constructor; [|apply IH].
  apply bits_val_range.
Qed.

Lemma goes_stored_bits turns : forall counter s n cur, sound n cur s -> 0 <= counter <= Z.of_nat turns ->
  goes (stored_bits bitbuf64 decomp_flags turns counter) s
    (fun c s' => 0 <= c <= counter /\ (c = 0 \/ s'.(num_bits) = 0) /\ sound n s'.(pOut_buf_cur) s' /\
                 s.(pOut_buf_cur) <= s'.(pOut_buf_cur)).
Proof.
  induction turns as [|turns IH]; intros counter s n cur Hs Hc; cbn [stored_bits]; apply goes_get_io.
  all: assert (sound n s.(pOut_buf_cur) s) as Hs0 by (destruct Hs as (? & ? & ? & ?); split_and!; (done || lia)).
  - assert (counter = 0) as -> by lia. apply goes_ret. split_and!; (done || lia || by left).
  - destruct (Z.eqb_spec counter 0) as [->|]; cbn [orb]; [apply goes_ret; split_and!; (done || lia || by left)|].
    destruct (Z.eqb_spec s.(num_bits) 0); [apply goes_ret; split_and!; (done || lia || by right)|].
    eapply goes_bind; [by apply (goes_bits 51 8); [exact Hs0|lia]|]. intros v s1 (_ & Hs1 & E1).
    assert (in_buffer s1) as Hi1 by (destruct Hs1 as (_ & ? & ? & ?); split; (done || lia)).
    eapply goes_bind; [by apply goes_room|]. intros _ s2 [-> Hlt].
    eapply goes_bind; [by apply goes_put|]. intros _ s3 (Hb3 & [Hl3 Hc3] & E3).
    eapply goes_weaken; [eapply IH; [eapply sound_fills; [exact Hs1|done|done|lia]|lia]|].
    intros c s4 (? & ? & ? & ?). split_and!; (done || lia).
Qed.

Lemma goes_stored_bytes turns : forall counter s n cur, sound n cur s -> 0 <= counter <= Z.of_nat turns ->
  (counter = 0 \/ s.(num_bits) = 0) ->
  goes (stored_bytes decomp_flags turns counter) s
    (fun _ s' => sound n s'.(pOut_buf_cur) s' /\ s.(pOut_buf_cur) <= s'.(pOut_buf_cur)).
Proof.
  induction turns as [|turns IH]; intros counter s n cur Hs Hc H0; cbn [stored_bytes].
  all: assert (sound n s.(pOut_buf_cur) s) as Hs0 by (destruct Hs as (? & ? & ? & ?); split_and!; (done || lia)).
  - assert (counter = 0) as -> by lia. apply goes_ret. split; (done || lia).
  - destruct (Z.eqb_spec counter 0); [apply goes_ret; split; (done || lia)|].
    destruct H0 as [|H0]; [done|]. pose proof Hs as ((bits & Hb & Hn) & Hl & Hcur & Hr).
    eapply goes_bind; [by apply goes_room; split; [done|lia]|]. intros _ s1 [-> Hlt]. apply goes_get_io.
    destruct (Z.eqb_spec (len s.(pIn_buf)) 0) as [|Hin]; [by rewrite Hflag; apply goes_return|].
    rewrite Hl. set (m := Z.min (Z.min (size - s.(pOut_buf_cur)) (len s.(pIn_buf))) counter).
    eapply goes_bind with (P := fun _ s' => sound n (s.(pOut_buf_cur) + m) s' /\ s'.(num_bits) = 0 /\ s'.(pOut_buf_cur) = s.(pOut_buf_cur) + m).
    + unfold goes, copy_in. rewrite mem_read_ok by lia. destruct (Z.leb_spec (s.(pOut_buf_cur) + m) (len s.(pOut_buf))); [|done].
      unfold set_in, set_out. cbn [num_bits bit_buf pIn_buf pOut_buf pOut_buf_cur]. split_and!; [|done|done].
      destruct Hb as (l & k & Hnb & Hbb & _ & E & Hk & _). assert (l = []) as -> by (apply length_zero_iff_nil; lia).
      rewrite (Hk ltac:(by intros E0; rewrite E0 in Hin)), app_nil_r in E. cbn [app] in E.
      split; [exists (bits_of (drop (Z.to_nat m) s.(pIn_buf))); split|].
      * exists [], 0%nat. cbn [num_bits bit_buf pIn_buf app length bits_val replicate]. rewrite app_nil_r. by split_and!.
      * rewrite bits_of_length, length_drop. rewrite <- E, bits_of_length in Hn. lia.
      * cbn [pOut_buf pOut_buf_cur]. rewrite !length_app, length_take, length_drop.
        assert (len (slice s.(pIn_buf) 0 m) = m) by (rewrite slice_length; lia). split_and!; lia.
    + intros _ s1 (Hs1 & Hn1 & E1). eapply goes_weaken; [eapply IH; [exact Hs1|lia|by right]|].
      intros _ s2 [? ?]. split; [done|lia].
Qed.

Lemma goes_skip idx s n cur : sound n cur s ->
  goes (TINFL_SKIP_BITS bitbuf64 decomp_flags idx (s.(num_bits) &&& 7)) s (fun _ s' => sound n cur s' /\ s'.(pOut_buf_cur) = s.(pOut_buf_cur)).
Proof.
  intros Hs. pose proof Hs as ((bits & Hb & Hn) & _). eapply goes_weaken.
  - eapply sound_reads; [exact Hs|exact Hn| |by apply skip_bits_ok]. rewrite length_drop. lia.
  - intros _ s' (_ & Hs' & ?). split; [|done]. eapply sound_weaken; [exact Hs'|rewrite length_drop; lia|].
    destruct Hs as (_ & _ & ? & _). lia.
Qed.

Lemma goes_stored s n cur : sound n cur s ->
  goes (stored_block bitbuf64 decomp_flags) s (fun _ s' => sound n s'.(pOut_buf_cur) s').
Proof.
  intros Hs. unfold stored_block. apply goes_get_io. eapply goes_bind; [by apply goes_skip|].
  intros _ s1 [Hs1 E1]. cbn beta. pose proof Hs1 as ((bits & Hb & Hn) & _).
  eapply goes_bind.
  { eapply sound_reads; [exact Hs1|exact Hn| |by apply (raw_header_reads 4)]. rewrite length_drop. lia. }
  intros h s2 (-> & Hs2 & E2). pose proof (octets_range 4 bits) as Hf.
  apply goes_arr. intros h0 H0. apply goes_arr. intros h1 H1. apply goes_arr. intros h2 _. apply goes_arr. intros h3 _. cbn zeta.
  assert (0 <= h0 /\ 0 <= h1) as [Hh0 Hh1].
  { rewrite zlookup_lookup in H0, H1 by lia.
    split; [exact (Forall_lookup_1 _ _ _ _ Hf H0)|exact (Forall_lookup_1 _ _ _ _ Hf H1)]. }
  destruct (negb _); [by apply goes_return|].
  assert (0 <= (h0 ||| Z.shiftl h1 8)) as Hc by (apply Z.lor_nonneg; split; [done|by apply Z.shiftl_nonneg]).
  eapply goes_bind; [eapply goes_stored_bits; [exact Hs2|lia]|]. intros c s3 (Hc3 & H03 & Hs3 & _). cbn beta in *.
  eapply goes_weaken; [eapply goes_stored_bytes; [exact Hs3|lia|done]|]. intros _ s4 [Hs4 _].
  rewrite length_drop in Hs4. destruct Hs4 as ((b4 & Hb4 & Hn4) & Hrest). split; [exists b4; split; [done|lia]|done].
Qed.

(** Past the end of the input there is no stored block. *)
Lemma stored_past_end s : at_bits s [] -> goes (stored_block bitbuf64 decomp_flags) s (fun _ _ => False).
Proof.
  intros Hb. unfold stored_block. apply goes_get_io.
  eapply goes_bind with (P := fun _ s' => at_bits s' []).
  { eapply goes_reads; [by apply skip_bits_ok|]. intros s1 Hb1 _. by rewrite drop_nil in Hb1. }
  intros _ s1 Hb1.
  eapply goes_bind with (P := fun h _ => h = [0; 0; 0; 0]).
  { eapply goes_reads; [by apply (raw_header_reads 4)|]. done. }
  intros h s2 ->. do 4 (apply goes_arr; intros ? [= <-]). by apply goes_return.
Qed.

(** ** Dynamic blocks *)

Lemma Forall_zinsert (P : Z -> Prop) l i x : Forall P l -> P x -> Forall P (zinsert i x l).
Proof. intros Hl Hx. unfold zinsert. case_match; [by apply Forall_insert|done]. Qed.

Lemma goes_code_code_sizes k : forall c sizes s n cur, sound n cur s -> sizes_ok sizes ->
  goes (code_code_sizes bitbuf64 decomp_flags k c sizes) s
    (fun l s' => sizes_ok l /\ length l = length sizes /\ sound n cur s' /\ s'.(pOut_buf_cur) = s.(pOut_buf_cur)).
Proof.
  induction k as [|k IH]; intros c sizes s n cur Hs Hok; cbn [code_code_sizes]; [by apply goes_ret|].
  eapply goes_bind; [by apply (goes_bits 14 3); [exact Hs|lia]|]. intros v s1 (Hv & Hs1 & E1). change (2 ^ Z.of_nat 3) with 8 in Hv.
  apply goes_arr. intros i _. unfold arr_set. destruct ((0 <=? i) && _); [|done].
  apply (goes_bind (t_lift (Ret (zinsert i v sizes))) _ _ (fun l s' => l = zinsert i v sizes /\ s' = s1)); [done|].
  intros l s2 [-> ->]. eapply goes_weaken; [apply IH; [exact Hs1|apply Forall_zinsert; [done|lia]]|].
  intros l s' (? & Hl & ? & ?). rewrite zinsert_length in Hl. split_and!; (done || congruence).
Qed.

Section sizes.
Context (cl : list Z) (Hv : valid_sizes cl) (Hlen : length cl = 19%nat) (t : tinfl_huff_table) (Ht : table_for cl t).

Lemma goes_read_sizes turns : forall k codes s n cur, sound n cur s -> sizes_ok codes -> k - len codes <= Z.of_nat turns ->
  goes (read_sizes bitbuf64 decomp_flags turns t k codes) s
    (fun l s' => sizes_ok l /\ sound n cur s' /\ s'.(pOut_buf_cur) = s.(pOut_buf_cur)).
Proof.
  induction turns as [|turns IH]; intros k codes s n cur Hs Hok Hk; cbn [read_sizes];
    (destruct (Z.leb_spec k (len codes)); [by apply goes_ret|]); [lia|].
  eapply goes_bind; [eapply (goes_sym cl Hv); [lia|exact Ht|exact Hs]|]. intros d s1 (Hd & Hs1 & E1). cbn beta.
  assert (forall codes' s', sound n cur s' -> s'.(pOut_buf_cur) = s.(pOut_buf_cur) -> sizes_ok codes' -> len codes < len codes' ->
    goes (read_sizes bitbuf64 decomp_flags turns t k codes') s'
      (fun l s' => sizes_ok l /\ sound n cur s' /\ s'.(pOut_buf_cur) = s.(pOut_buf_cur))) as Hnext.
  { intros codes' s' Hs' E Hok' Hlt. eapply goes_weaken; [apply IH; [exact Hs'|done|lia]|].
    intros l s2 (? & ? & ?). split_and!; (done || congruence). }
  destruct (Z.ltb_spec d 16).
  { apply Hnext; [done|done| |rewrite length_app; cbn; lia]. apply Forall_app. split; [done|]. repeat constructor; lia. }
  destruct (_ && _); [by apply goes_return|].
  apply goes_arr. intros x Hx%(table_range _ _ _ 7); [|done].
  eapply goes_bind with (P := fun v s' => 0 <= v /\ sound n cur s' /\ s'.(pOut_buf_cur) = s1.(pOut_buf_cur)).
  { rewrite <- (Z2Nat.id x) by lia. eapply goes_weaken; [apply goes_bits; [exact Hs1|lia]|]. intros v s' ([? ?] & ? & ?). done. }
  intros v s2 (Hv2 & Hs2 & E2). apply goes_arr. intros base Hbase. cbn zeta.
  assert (3 <= base) as Hb3.
  { rewrite zlookup_lookup in Hbase by lia. apply list_elem_of_lookup_2 in Hbase.
    rewrite !elem_of_cons in Hbase. destruct Hbase as [->|[->|[->|Hno]]]; [lia..|by apply not_elem_of_nil in Hno]. }
  assert (forall l, 0 <= l <= 15 ->
    goes (if len_codes_room <? len codes + (v + base) then t_lift (Crash MemFault)
          else read_sizes bitbuf64 decomp_flags turns t k (codes ++ replicate (Z.to_nat (v + base)) l)) s2
      (fun l s' => sizes_ok l /\ sound n cur s' /\ s'.(pOut_buf_cur) = s.(pOut_buf_cur))) as Hrep.
  { intros l Hl. destruct (len_codes_room <? _); [done|]. apply Hnext; [done|congruence| |rewrite length_app, length_replicate; lia].
    apply Forall_app. split; [done|]. by apply Forall_replicate. }
  destruct (d =? 16).
  - apply goes_arr. intros l Hl. apply Hrep. destruct (proj1 (zlookup_is_Some _ _) ltac:(eauto)) as [Hge _].
    rewrite zlookup_lookup in Hl by done. exact (Forall_lookup_1 _ _ _ _ Hok Hl).
  - apply (goes_bind (t_lift (Ret 0)) _ _ (fun l s' => l = 0 /\ s' = s2)); [done|]. intros l s3 [-> ->]. apply Hrep. lia.
Qed.
End sizes.

Lemma goes_dynamic s n cur : sound n cur s ->
  goes (dynamic_sizes bitbuf64 decomp_flags) s
    (fun '(l0, l1) s' => sizes_ok l0 /\ sizes_ok l1 /\ (length l0 <= 288)%nat /\ (length l1 <= 288)%nat /\
                         sound n cur s' /\ s'.(pOut_buf_cur) = s.(pOut_buf_cur)).
Proof.
  intros Hs. unfold dynamic_sizes.
  eapply goes_bind; [by apply (goes_bits 11 5); [exact Hs|lia]|]. intros n0 s1 (H0 & Hs1 & E1). cbn beta zeta.
  eapply goes_bind; [by apply (goes_bits 11 5); [exact Hs1|lia]|]. intros n1 s2 (H1 & Hs2 & E2). cbn beta zeta.
  eapply goes_bind; [by apply (goes_bits 11 4); [exact Hs2|lia]|]. intros n2 s3 (H2 & Hs3 & E3). cbn beta zeta.
  change (2 ^ Z.of_nat 5) with 32 in *. change (2 ^ Z.of_nat 4) with 16 in *.
  eapply goes_bind; [apply goes_code_code_sizes; [exact Hs3|by apply Forall_replicate]|]. intros cl s4 (Hcl & Hl & Hs4 & E4). cbn beta.
  rewrite length_replicate in Hl.
  eapply goes_bind; [eapply goes_table; [done|lia|exact Hs4]|]. intros t s5 (-> & Hv & Ht). cbn beta.
  eapply goes_bind; [eapply (goes_read_sizes cl Hv Hl t Ht); [exact Hs4|by constructor|cbn; lia]|]. intros codes s6 (Hok & Hs6 & E6). cbn beta.
  destruct (Z.eqb_spec (n0 + 257 + (n1 + 1)) (len codes)); cbn [negb]; [|by apply goes_return].
  apply goes_ret. split_and!; [by apply Forall_take|by apply Forall_drop|rewrite length_take; lia|rewrite length_drop; lia|done|congruence].
Qed.

#[local] Opaque full_tank.

Lemma goes_block type s n cur : sound n cur s ->
  goes (inflate_block bitbuf64 unaligned decomp_flags mask type) s (fun _ s' => sound n s'.(pOut_buf_cur) s').
Proof.
  intros Hs. unfold inflate_block. destruct (type =? 0); [by eapply goes_stored|].
  destruct (type =? 3); [by apply goes_return|]. unfold block_tables.
  eapply goes_bind with (P := fun '(t0, t1) s' => (exists l0 l1, valid_sizes l0 /\ valid_sizes l1 /\ (length l0 <= 288)%nat /\
    (length l1 <= 288)%nat /\ table_for l0 t0 /\ table_for l1 t1) /\ sound n cur s').
  - eapply goes_bind with (P := fun '(l0, l1) s' => sizes_ok l0 /\ sizes_ok l1 /\ (length l0 <= 288)%nat /\ (length l1 <= 288)%nat /\ sound n cur s').
    + destruct (type =? 1).
      * apply goes_ret. split_and!; [by apply (bool_decide_unpack _); vm_compute..|vm_compute; lia|vm_compute; lia|done].
      * eapply goes_weaken; [by apply goes_dynamic|]. intros [l0 l1] s1 (? & ? & ? & ? & ? & _). done.
    + intros [l0 l1] s1 (H0 & H1 & Hl0 & Hl1 & Hs1).
      eapply goes_bind; [by eapply goes_table|]. intros t1 s2 (-> & Hv1 & Ht1).
      eapply goes_bind; [by eapply goes_table|]. intros t0 s2 (-> & Hv0 & Ht0).
      apply goes_ret. split; [|done]. by exists l0, l1.
  - intros [t0 t1] s1 ((l0 & l1 & Hv0 & Hv1 & Hl0 & Hl1 & Ht0 & Ht1) & Hs1).
    assert (lasts full_tank (size - s1.(pOut_buf_cur) + 1)) as Hf
      by (apply full_tank_lasts; destruct Hs1 as (_ & _ & ? & _); lia).
    eapply goes_weaken; [by eapply (goes_codes l0 l1)|]. by intros _ s2 [? _].
Qed.

(** Each block takes a bit of the input, or there is none. *)
Lemma goes_blocks f : forall s n cur, sound n cur s -> lasts f (Z.of_nat n + 1) ->
  goes (inflate_blocks bitbuf64 unaligned decomp_flags mask f) s (fun _ s' => sound n s'.(pOut_buf_cur) s').
Proof.
  induction f as [|k IH]; intros s n cur Hs Hf.
  - destruct Hf as [|[]]. lia.
  - destruct (lasts_turn _ _ Hf) as (k' & [= <-] & Hk); [lia|]. cbn [inflate_blocks].
    pose proof Hs as ((bits & Hb & Hn) & _).
    assert (reads (TINFL_GET_BITS bitbuf64 decomp_flags 3 3) s (bits_val (pad 3 bits)) (drop 3 bits)) as Hr
      by (apply (get_bits_ok bitbuf64 decomp_flags Hflag 3 3); [done|lia]).
    eapply goes_bind; [eapply sound_reads; [exact Hs|exact Hn| |exact Hr]; rewrite length_drop; lia|].
    intros fin s1 (-> & Hs1 & E1). cbn beta. destruct bits as [|b bits].
    + change (bits_val (pad 3 [])) with 0. change (Z.shiftr 0 1) with 0.
      destruct Hs1 as ((bits & Hb1 & Hn1) & _). cbn in Hn1. destruct bits; [|cbn in Hn1; lia].
      eapply goes_bind; [apply (stored_past_end s1 Hb1)|]. by intros _ s2 [].
    + assert (length (drop 3 (b :: bits)) < n)%nat as Hlt by (rewrite length_drop; cbn [length] in *; lia).
      eapply goes_bind; [eapply goes_block; exact Hs1|]. intros [] s2 Hs2. cbn beta in *.
      assert (sound (n - 1) s2.(pOut_buf_cur) s2) as Hs2' by (eapply sound_weaken; [exact Hs2|lia|destruct Hs2 as (_ & _ & ? & _); lia]).
      destruct (_ =? 0).
      * eapply goes_weaken; [eapply IH; [exact Hs2'|eapply lasts_le; [|exact Hk]; lia]|].
        intros [] s3 Hs3. cbn beta in *. eapply sound_weaken; [exact Hs3|lia|destruct Hs3 as (_ & _ & ? & _); lia].
      * apply goes_ret. eapply sound_weaken; [exact Hs2'|lia|destruct Hs2' as (_ & _ & ? & _); lia].
Qed.
End safe.

(** ** The whole *)

Section whole.
Context (bitbuf64 unaligned : bool) (decomp_flags size : Z).
Context (Hflag : flag decomp_flags TINFL_FLAG_HAS_MORE_INPUT = false).
Context (Hzlib : flag decomp_flags TINFL_FLAG_PARSE_ZLIB_HEADER = true).
Context (Hwrap : flag decomp_flags TINFL_FLAG_USING_NON_WRAPPING_OUTPUT_BUF = true) (Hsize : size <= 2 ^ 62).
Abbreviation mask := (2 ^ 64 - 1).
#[local] Opaque full_tank.

Lemma goes_header input out : len out = size ->
  goes (zlib_header decomp_flags mask) (mk_io 0 0 input out 0)
    (fun _ s' => sound size (8 * length input) 0 s').
Proof.
  intros Hl. assert (forall rest, (length rest <= length input)%nat ->
    sound size (8 * length input) 0 (mk_io 0 0 rest out 0)) as Hs.
  { intros rest Hle. split; [exists (bits_of rest); split; [apply at_bits_start|rewrite bits_of_length; lia]|].
    cbn [pOut_buf pOut_buf_cur]. lia. }
  unfold goes, zlib_header, TINFL_GET_BYTE, set_in, mbind, T_bind. rewrite Hzlib, Hflag.
  destruct input as [|b0 [|b1 input]]; cbn [pIn_buf num_bits bit_buf pOut_buf pOut_buf_cur];
    (match goal with |- context [if ?b then _ else _] => destruct b end; [done|apply Hs; cbn; lia]).
Qed.

Lemma goes_adler n : forall z s k cur, sound size k cur s ->
  goes (read_adler32 bitbuf64 decomp_flags n z) s (fun _ s' => exists m, sound size m cur s').
Proof.
  induction n as [|n IH]; intros z s k cur Hs; cbn [read_adler32]; [apply goes_ret; by exists k|].
  pose proof Hs as ((bits & Hb & Hk) & _). apply goes_get_io.
  eapply goes_bind; [eapply (sound_reads size); [exact Hs|exact Hk| |by apply get_byte_ok]; rewrite length_drop; lia|].
  intros b s1 (_ & Hs1 & _). by eapply IH.
Qed.

Lemma goes_body input out : len out = size -> len input <= 2 ^ 62 ->
  goes (tinfl_body bitbuf64 unaligned decomp_flags mask) (mk_io 0 0 input out 0)
    (fun _ s' => len s'.(pOut_buf) = size /\ 0 <= s'.(pOut_buf_cur) <= size).
Proof.
  intros Hl Hin. unfold tinfl_body. eapply goes_bind; [by apply goes_header|]. intros [] s1 Hs1. cbn beta in *.
  eapply goes_bind.
  { eapply (goes_blocks bitbuf64 unaligned decomp_flags size Hflag Hwrap Hsize full_tank); [exact Hs1|].
    apply full_tank_lasts. lia. }
  intros [] s2 Hs2. cbn beta in *. unfold zlib_trailer. rewrite Hzlib. apply goes_get_io.
  eapply goes_bind; [by eapply goes_skip|]. intros [] s3 [Hs3 _]. cbn beta in *.
  eapply goes_weaken; [by eapply goes_adler|]. intros z s4 (m & _ & ? & ? & ?). split; [done|lia].
Qed.
End whole.

(** whatever the input is, a call of the decompressor of the Windows port ends: it fails, it
    gives data that fit their buffer, or it touches memory outside the buffer. *)
Theorem win_decompressor_zlib_total (bitbuf64 unaligned : bool) (garbage : Z -> list byte) (input : list byte) (outsz : Z) :
  (forall n, 0 <= n -> len (garbage n) = n) -> 0 <= outsz <= 2 ^ 62 -> len input <= 2 ^ 62 ->
  match win_decompressor_zlib bitbuf64 unaligned garbage input outsz with
  | Ret (Success out) => len out <= outsz
  | Ret (Failure _) => True
  | Crash c => c = MemFault
  end.
Proof.
  intros Hg Hout Hin. pose proof (Hg outsz ltac:(lia)) as Hlen.
  unfold win_decompressor_zlib, tinfl_decompress_mem_to_mem, tinfl_decompress.
  change (Z.land (TINFL_FLAG_PARSE_ZLIB_HEADER ||| TINFL_FLAG_USING_NON_WRAPPING_OUTPUT_BUF) (Z.lnot TINFL_FLAG_HAS_MORE_INPUT) |||
          TINFL_FLAG_USING_NON_WRAPPING_OUTPUT_BUF) with 5.
  change (negb (5 &&& TINFL_FLAG_USING_NON_WRAPPING_OUTPUT_BUF =? 0)) with true. cbn iota.
  change (negb (u64 (2 ^ 64 - 1 + 1) &&& (2 ^ 64 - 1) =? 0) || (0 <? 0)) with false. cbn iota.
  pose proof (goes_body bitbuf64 unaligned 5 (len (garbage outsz)) eq_refl eq_refl eq_refl ltac:(lia)
    input (garbage outsz) eq_refl Hin) as H. unfold goes in H.
  destruct (tinfl_body _ _ _ _ _) as [[z s|i st s]|c]; cbn [mbind outcome_bind].
  - destruct H as [Hl Hc]. rewrite Z.sub_0_r. change (negb (5 &&& _ =? 0) && negb false) with true. cbn iota.
    rewrite adler_update_ok. cbn [mbind outcome_bind]. destruct (_ && _ && _); cbn; [done|]. rewrite bool_decide_true by done.
    rewrite slice_length by lia. lia.
  - rewrite adler_update_ok. cbn [mbind outcome_bind]. rewrite !(bool_decide_false (st = TINFL_STATUS_DONE)) by done.
    cbn [andb]. destruct (_ && _); cbn [mbind outcome_bind]; by rewrite bool_decide_false.
  - done.
Qed.
