(* ===== verification/TinflBlock.v ===== *)
(** * TinflBlock: the Windows port below the block layer

    The block layer asks of a decompressor that it keep to its room ([decomp_ok]); the inflate
    of the Windows port does, so what is shown of archives ([fs_ok]) holds of those it reads.
    And a compressed block is read as the data of its zlib stream. *)
From S2P Require Import Prelude Swap Cache Decompress FsState Block BlockOk Bits Inflate Tinfl TinflStream TinflSafe.

(** The memory that malloc gives for a block of [n] bytes. *)
Definition fresh_memory (garbage : Z -> list byte) : Prop := forall n, 0 <= n -> len (garbage n) = n.

(** C10: the inflate of the Windows port is a decompressor such as the block layer asks for: on any
    part of a file as input, with room for any block, it ends, with an error or with data that
    fit the room, unless it touches memory that is not its own; so everything that is shown of
    the reading of archives holds of those it serves. *)
Theorem win_decompressor_zlib_ok (bitbuf64 unaligned : bool) (garbage : Z -> list byte) :
  fresh_memory garbage ->
  decomp_ok (win_decompressor_zlib bitbuf64 unaligned garbage) /\
  forall fs, len fs.(fd) <= 2 ^ 62 -> fs.(decompressor) = Some (win_decompressor_zlib bitbuf64 unaligned garbage) -> fs_ok fs.
Proof.
  intros Hg. assert (decomp_ok (win_decompressor_zlib bitbuf64 unaligned garbage)) as Hok.
  { intros input outsz Hin Hout. apply win_decompressor_zlib_total; [done| |done].
    change (2 ^ 32) with 4294967296 in Hout. change (2 ^ 62) with 4611686018427387904. lia. }
  split; [done|]. intros fs Hfd Hdec. split; [done|]. by rewrite Hdec; intros d [= <-].
Qed.

(** C9: on Windows a compressed block of the archive that holds a zlib stream (RFC 1950, with
    deflated data of RFC 1951 in stored, fixed or dynamic blocks) is read as the data of the
    stream, when they fit the room: the block that is returned holds them, with one reference,
    and the other blocks are as before; the only other way out is an error when memory is
    short, which leaves the blocks alone.  It is so whatever malloc's memory holds, with a bit
    buffer of 32 or 64 bits, and with words copied as such or not. *)
Theorem win_block_read_correct {CI : CacheImpl} (bitbuf64 unaligned : bool) (garbage : Z -> list byte) (fs : sqfs)
    (s : sqfs_state) (pos size outsize : Z) (input data : list byte) :
  fresh_memory garbage -> len fs.(fd) <= 2 ^ 62 ->
  fs.(decompressor) = Some (win_decompressor_zlib bitbuf64 unaligned garbage) ->
  pread_exact fs.(fd) size (s64 (pos + fs.(fs_offset))) = Some input ->
  zlib_decode input = Some data -> len data <= outsize <= 2 ^ 62 ->
  match sqfs_block_read fs pos true size outsize s with
  | Ret (s', Success l) =>
      s.(blocks) !! l = None /\ s'.(blocks) = <[l := mk_block (len data) data 1]> s.(blocks)
  | Ret (s', Failure _) => s'.(blocks) = s.(blocks) /\ s.(mem) <> []
  | Crash _ => False
  end.
Proof.
  intros Hg Hfd Hdec Hr Hz Hroom.
  assert (len input <= 2 ^ 62) as Hin.
  { unfold pread_exact, sqfs_pread in Hr. destruct (Z.ltb_spec (s64 (pos + fs.(fs_offset))) 0); [done|].
    case_match; [|done]. injection Hr as <-. rewrite slice_length by lia. lia. }
  assert (block_spec fs pos true size outsize = Ret (Success data)) as Hspec.
  { unfold block_spec. rewrite Hr, Hdec. by apply win_decompressor_zlib_correct; try lia. }
  pose proof (block_read_run fs s pos true size outsize) as H. rewrite Hspec in H. unfold reads in H.
  destruct (sqfs_block_read _ _ _ _ _ s) as [[s' [l|e]]|c]; [| |done].
  - destruct H as (_ & _ & l' & d & w & [-> ->] & [= ->] & Hl & ->). done.
  - destruct H as (_ & _ & Hb & [|Hm]); [done|]. done.
Qed.
