(* ===== verification/TinflSample.v ===== *)
(** * TinflSample: streams for the decompressor of the Windows port

    Small zlib streams on which the theorems about tinfl.c are applied, by themselves and as
    the blocks of an archive, and one on which it writes outside its buffer
    ([tinfl_overrun]). *)
From S2P Require Import Prelude Swap Cache CacheST Decompress FsState Block BlockOk Sample Bits Inflate Tinfl Huffman HuffTable TinflRead TinflOk TinflStream TinflSafe TinflBlock.

(** "abababa", in a block with the fixed codes: two literals and a match that overlaps
    itself. *)
Definition fixed_stream : list byte := [x78; x9c; x4b; x4c; x02; x43; x00; x0a; xaf; x02; xab].
Definition fixed_data : list byte := [x61; x62; x61; x62; x61; x62; x61].

(** What the buffer holds before. *)
Definition old_bytes (n : Z) : list byte := replicate (Z.to_nat n) xff.

Lemma old_bytes_length n : 0 <= n -> len (old_bytes n) = n.
Proof. intros. unfold old_bytes. rewrite length_replicate. lia. Qed.

(** An archive that is the one block, and its reader on a machine with words of 64 bits. *)
Definition win_fs (image : list byte) : sqfs :=
  mk_sqfs image 0 0 0 sample_sb table_zero table_zero table_zero
    (Some (win_decompressor_zlib true false old_bytes)) (Build_squashfs_xattr_id_table 0 0 0) table_zero.

Lemma win_block_read_correct_witness :
  match sqfs_block_read (win_fs fixed_stream) 0 true 11 7 (sample_state [true; true; false]) with
  | Ret (s', Success l) => (sample_state []).(blocks) !! l = None /\
      s'.(blocks) = <[l := mk_block (len fixed_data) fixed_data 1]> (sample_state []).(blocks)
  | Ret (s', Failure _) => s'.(blocks) = (sample_state []).(blocks) /\ [true; true; false] <> []
  | Crash _ => False
  end.
Proof.
  apply (win_block_read_correct true false old_bytes (win_fs fixed_stream) (sample_state [true; true; false]) 0 11 7
    fixed_stream fixed_data); [exact old_bytes_length|vm_compute; congruence|reflexivity| | |].
  - vm_compute; reflexivity.
  - vm_compute; reflexivity.
  - vm_compute; intuition congruence.
Defined.

(** With a byte less than the room of the data it is an error. *)
Lemma win_decompressor_zlib_short :
  win_decompressor_zlib true false old_bytes fixed_stream 6 = Ret (Failure SQFS_ERR).
Proof. vm_compute. reflexivity. Qed.

Lemma win_decompressor_zlib_ok_witness :
  decomp_ok (win_decompressor_zlib true false old_bytes) /\ fs_ok (win_fs fixed_stream).
Proof.
  destruct (win_decompressor_zlib_ok true false old_bytes old_bytes_length) as [H1 H2].
  split; [exact H1|]. apply H2; [vm_compute; congruence|reflexivity].
Defined.

(** The code of the code sizes 2, 1, 3, 3, and sizes that are no code. *)
Lemma build_table_sample :
  (exists t, build_table [2; 1; 3; 3] = Ret (Some t) /\ table_for [2; 1; 3; 3] t) /\
  build_table [1; 1; 1] = Ret None.
Proof.
  pose proof (build_table_ok [2; 1; 3; 3] ltac:(repeat constructor; lia) ltac:(cbn; lia)) as H1.
  pose proof (build_table_ok [1; 1; 1] ltac:(repeat constructor; lia) ltac:(cbn; lia)) as H2.
  rewrite decide_True in H1 by (apply (bool_decide_unpack _); vm_compute; exact I).
  rewrite decide_False in H2 by (apply (bool_decide_unpack (~ _)); vm_compute; exact I).
  exact (conj H1 H2).
Defined.

(** The third symbol, whose word is 110, out of a byte that goes on. *)
Definition sample_table : tinfl_huff_table :=
  match build_table [2; 1; 3; 3] with Ret (Some t) => t | _ => mk_table [] [] end.

Lemma huff_decode_correct_witness :
  exists s', TINFL_HUFF_DECODE true 0 16 sample_table (mk_io 0 0 [x2b] [] 0) = Ret (Next 2 s') /\
             at_bits s' (drop 3 (bits_of [x2b])) /\ same_out (mk_io 0 0 [x2b] [] 0) s' /\
             ((s'.(num_bits) = 0 - 3 /\ s'.(pIn_buf) = [x2b]) \/ s'.(num_bits) < 8).
Proof.
  apply (huff_decode_correct true 0 16 [2; 1; 3; 3] sample_table (mk_io 0 0 [x2b] [] 0) (bits_of [x2b])
    (drop 3 (bits_of [x2b])) 2); [reflexivity| |cbn; lia| | |].
  - repeat constructor; lia.
  - vm_compute; reflexivity.
  - apply at_bits_start.
  - vm_compute; reflexivity.
Defined.

(** The byte "a" and then the length code 286, which no format defines and whose table entry
    is 0, in a buffer with room for the one byte. *)
Definition overrun_stream : list byte := [x78; x9c; x4b; x1c; x03; x00].

(** A match of length 0 passes the test of the room and is copied as three bytes: in a buffer
    of one byte these are written behind its end.  No zlib stream is of this kind. *)
Theorem tinfl_overrun :
  zlib_decode overrun_stream = None /\
  win_decompressor_zlib true true old_bytes overrun_stream 1 = Crash MemFault.
Proof. split; vm_compute; reflexivity. Qed.
