(* ===== verification/Windows.v ===== *)
(** * Windows: reading the image file through the Windows API (nonstd-pread.c)

    On Windows sqfs_pread is a call of ReadFile with the offset cut in two words.  Its one
    difference from pread is at the end of the file, where ReadFile fails; the reader of
    archives does not see it where it asks for some bytes, since it wants them all. *)
From S2P Require Import Prelude FsState.

Section windows.
(** What ReadFile reads, of the file whose handle is given, at an Offset and an OffsetHigh;
    [None] is FALSE. *)
Context (ReadFile : Z -> Z -> Z -> option (list byte)).

(** [sqfs_off_t] is a DWORD64, and the number of bytes a DWORD. *)
Definition sqfs_pread_win (count off : Z) : option (list byte) :=
  let off := u64 off in
  let Offset := u32 off in
  let OffsetHigh := u32 (Z.shiftr off 32) in
  ReadFile Offset OffsetHigh (u32 count).

(** The pattern [sqfs_pread(fd, buf, n, off) != n]. *)
Definition pread_exact_win (n off : Z) : option (list byte) :=
  match sqfs_pread_win n off with
  | Some bs => if len bs =? n then Some bs else None
  | None => None
  end.

(** ReadFile with an OVERLAPPED: it reads what there is from the offset on, and fails with
    ERROR_HANDLE_EOF when that is past the end. *)
Definition reads_file (f : list byte) : Prop := forall Offset OffsetHigh n,
  0 <= Offset < 2 ^ 32 -> 0 <= OffsetHigh < 2 ^ 32 -> 0 <= n < 2 ^ 32 ->
  ReadFile Offset OffsetHigh n =
    let off := Offset + 2 ^ 32 * OffsetHigh in
    if off <? len f then Some (slice f off n) else None.

(** The two words of the offset stand for it. *)
Lemma offset_words off : u32 (u64 off) + 2 ^ 32 * u32 (Z.shiftr (u64 off) 32) = u64 off.
Proof.
  rewrite Z.shiftr_div_pow2 by lia. pose proof (wrap_range 64 off ltac:(lia)) as Hr.
  rewrite (wrap_small 32 (u64 off / 2 ^ 32)).
  - unfold wrap at 1. pose proof (Z.div_mod (u64 off) (2 ^ 32) ltac:(done)). lia.
  - split; [apply Z.div_pos; lia|apply Z.div_lt_upper_bound; [done|]]. change (2 ^ 32 * 2 ^ 32) with (2 ^ 64). lia.
Qed.

(** The reader that asks for some bytes, and wants them all, gets what it gets from pread. *)
Theorem pread_exact_win_agrees (f : list byte) (n off : Z) :
  reads_file f -> len f <= 2 ^ 62 -> 0 < n < 2 ^ 32 -> - 2 ^ 63 <= off < 2 ^ 63 ->
  pread_exact_win n off = pread_exact f n off.
Proof.
  intros Hf Hlen Hn Hoff. unfold pread_exact_win, sqfs_pread_win, pread_exact, sqfs_pread.
  change (2 ^ 63) with 9223372036854775808 in Hoff. change (2 ^ 62) with 4611686018427387904 in Hlen.
  pose proof (wrap_range 64 off ltac:(lia)) as Hr.
  rewrite (wrap_small 32 n), Hf by first [lia | by apply wrap_range]. cbn zeta. rewrite offset_words.
  destruct (Z.ltb_spec off 0) as [Hneg|Hpos].
  - assert (u64 off = off + 2 ^ 64) as ->.
    { unfold wrap. rewrite <- (Z_mod_plus_full off 1), Z.mul_1_l. apply Z.mod_small.
      change (2 ^ 64) with 18446744073709551616. lia. }
    change (2 ^ 64) with 18446744073709551616. by destruct (Z.ltb_spec (off + 18446744073709551616) (len f)); [lia|].
  - rewrite wrap_small by (change (2 ^ 64) with 18446744073709551616; lia).
    destruct (Z.ltb_spec off (len f)); [done|]. rewrite slice_past by lia. cbn [length].
    destruct (Z.eqb_spec (Z.of_nat 0) n); [lia|done].
Qed.
End windows.

(** A ReadFile of this kind. *)
Lemma reads_file_sample f :
  reads_file (fun Offset OffsetHigh n => let off := Offset + 2 ^ 32 * OffsetHigh in
    if off <? len f then Some (slice f off n) else None) f.
Proof. done. Qed.
